(* ===== verification/_CoqProject ===== *)
-Q . S2P
Prelude.v
Http.v
HttpLogic.v
Json.v
Crates.v
Wire.v
WireCodec.v
WireCodecSpec.v
Key.v
Link.v
SessionData.v
Session.v
SessionLib.v
SessionMirror.v
SessionActions.v
SessionRuns.v
SessionWire.v
SessionStores.v
Transport.v
TransportRuns.v
System.v
SystemSpec.v
ShortId.v
Identity.v
IdentityCodec.v
IdentitySpec.v
Pset.v
Approval.v
ApprovalSpec.v
LendingData.v
FieldsLib.v
Lending.v
LendingSpec.v
LendingText.v
Venue.v
VenueSpec.v
VenueLogin.v
VenueDrill.v
VenueDrillSpec.v
Host.v
HostSpec.v
BenchHosts.v
BenchSpec.v
Rp.v
RelayDrills.v
RelaySpec.v
Payjoin.v
PayjoinSpec.v
PayjoinCodec.v
PayjoinCodecSpec.v
Clients.v
Probes.v
ProbesSpec.v
Ffi.v
FfiSpec.v
FfiSystem.v
FfiSystemSpec.v
Sha256.v
Secp256k1.v
Bip32.v
RefJson.v
F64Text.v
RefCrates.v
Vectors.v
SessionTests.v
FundTests.v
VenueTests.v
CurveTests.v
Witnesses.v
HostWitnesses.v
