(* ===== verification/Prelude.v ===== *)
(** A wallet's side of Liquid Connect, verified.

    The program ([src/lc-wallet-core], Rust) is the wallet library of the
    Liquid Connect protocol: it keeps a session with a connect server, shows
    the host application the requests of relying parties, and signs or
    refuses them. This library models its core crate and the surface for
    Kotlin and Swift hosts ([src/lc-wallet-ffi]) and proves what the parts
    promise. Function and type names are the source's; file names below are
    relative to [src/lc-wallet-core/src] unless they say otherwise.

    ** Parts, files and correspondence

    - [Prelude]: the result monad ([Result], [?], [ensure!]), fixed-width
      integers and byte arrays, ordered iteration over [BTreeMap] and
      [BTreeSet] (contents are a [gmap] or [gset]), Rust string functions.
      [Crates]: one class per third-party crate, with its operations as
      parameters (SHA-256, hex, BIP340, JSON, URLs, elements); nothing is
      assumed of them except where a theorem names a law.
    - Wire format ([wire.rs]): [Wire] has the messages and the interface
      [SerdeWire] the session uses; [Json] the documents and a combinator per
      form of declaration serde derives a codec for (required, optional,
      defaulted and skipped members, tagged enums); [WireCodec] the codec of
      every message, an instance of [SerdeWire] over the text of documents;
      [WireCodecSpec] round trips and other versions; [SessionWire] what the
      service reads of a run of the core.
    - Session ([core.rs]): [SessionData]
      the inputs, the effects, the record [core] for [WalletConnectCore] and
      the state-and-effects monad of its methods; [Session] one definition
      per method, [handle] among them with an arm per input. Proofs:
      [SessionLib] (relations that compose over methods, and the laws of the
      six request stores as a class), [SessionMirror] (the host's picture
      refines the core), [SessionActions] and [SessionRuns] (frames, fresh action
      ids, approvals over whole runs), [SessionStores] (snapshots, stores,
      mobile links, errors).
    - Transport ([transport.rs]): [Transport] has the actor loop of [run] as
      a transition function over what its environment does (a connection
      attempt ends, a websocket message or a host input arrives, a ping tick,
      the last handle is dropped); [None] is an event that cannot be awaited
      in that phase. [TransportRuns] proves what the host sees and what
      reaches the wire.
    - Links ([link.rs]): [Link]. Identity key ([key.rs]): [Key]. Short wallet
      ids ([short_id.rs]): [ShortId].
    - Approval ([approval.rs]): [Pset] has the transaction records the crate
      reads; [Approval] the summaries and [verify_fund_template_owned], one
      definition per loop body; [ApprovalSpec] its rules as a relation
      ([accepts]) over rows, the equivalence and the bound on what the host
      can lose.
    - Lending ([lending.rs]): [LendingData] has the claims, their parser, the
      digests, covenant scripts and texts; [Lending] the template check, one
      definition per arm of [verify_typed_fund]; [FieldsLib] the ranges of
      parsed fields; [LendingSpec] what an accepted claim guarantees and what
      the digests and scripts bind; [LendingText] amounts, OP_RETURN payloads
      and the classification of memos.
    - Venue ([venue.rs]): [Venue] has the typed requests, the five digests,
      the key, the pset signing and the HTTP login as a client program;
      [VenueSpec] the statements the key signs and the theorems on them;
      [VenueLogin] the form encoding and the two requests of the login.
    - HTTP clients: [Http] has the programs that post and continue
      ([http_prog], sequenced with [?]) and their runs against replies,
      [HttpLogic] a program logic that judges a request by what came before.
      Identity API ([identity.rs]): [Identity], one definition per method;
      [IdentityCodec] the decoders of its replies; [IdentitySpec] the table
      of calls each method implements and what its signature binds. Payjoin
      ([payjoin.rs]): [Payjoin], the fee estimate on binary64 numbers and the
      three calls; [PayjoinCodec] the documents of its messages; [PayjoinSpec]
      exact rounding and the reply checks; [PayjoinCodecSpec] the calls
      against any service that reads and writes those documents. [Clients]:
      all of them end.
    - Foreign surface ([lc-wallet-ffi/src/lib.rs]): [Ffi] has its records,
      events, wallet object ([FfiWallet]), approval summaries ([FfiApproval])
      and identity service ([FfiIdentity]), each over the core's definition;
      [FfiSpec] composes them with the actor, the session and the approvals.
      [FfiSystem] is an app around that object - the methods as calls, the
      listener's task, any behaviour of the app - as an instance of [System];
      [FfiSystemSpec] what such an app knows, can cause and comes to.
    - Hosts ([lc-wallet-core/examples]): [System] is the transition system of
      a host - a program with a state of its own that turns events and lines
      of text into calls of the handle - the actor and the channels in
      between; [SystemSpec] what any host can cause, and when host and library
      come to rest. Instances: [Host] and [HostSpec] the approve-all wallet
      ([approve-all-wallet.rs]); [BenchHosts] and [BenchSpec] the trading
      bench's wallet ([taker-bench-wallet.rs]) and the terminal wallet
      ([headless-wallet.rs]); [RelayDrills] the wallets of the drills.
    - Drills and probes ([lc-wallet-core/examples]): [Rp] has a relying
      party's programs, that read an inbox of any messages ([sign-message-e2e.rs],
      [pay-request-e2e.rs]), [RelayDrills] both drills and [RelaySpec] what a
      passing drill has seen; [VenueDrill] and [VenueDrillSpec] the signed
      trading drill ([rf-venue-e2e.rs]); [Probes] and [ProbesSpec] the small
      programs ([email-e2e.rs], [identity-probe.rs], [payjoin-probe.rs],
      [venue-sdk-login.rs], [sign-withdraw-claim.rs], [rf-vectors.rs]).
    - [Sha256], [RefJson], [F64Text], [RefCrates]: executable instances of
      every crate class, with a printer and a reader of JSON proved inverse
      (numbers with fraction and exponent too, binary64 values in their
      shortest text that reads back); keys and signatures are stand-ins there. [Secp256k1], [Bip32]: the curve, BIP340
      and the hardened derivation themselves, executable. [Vectors]: the data
      of the sources' own tests. [SessionTests], [FundTests], [VenueTests] and,
      with the real curve, [CurveTests]: those tests ([mod tests] of [core.rs],
      [wire.rs], [link.rs], [key.rs], [short_id.rs], [identity.rs],
      [payjoin.rs], [approval.rs], [lending.rs], [venue.rs]), one boolean per
      [#[test]] under the test's name, and an example per file that computes
      them: the definitions are checked against what the program's authors
      assert, pinned scripts, keys and signatures included. [Witnesses] and
      [HostWitnesses]: each property with hypotheses applied at a concrete
      input.

    ** What the groups of theorems show

    - The host is told the truth: replaying effects (or the actor's events)
      on an empty picture gives the stores of the core; the connection status
      shown is the core's.
    - Nothing leaves unasked: every frame of every run is a challenge, a
      login, a push token or an action some input issued under the liveness
      and binding conditions; approvals survive disconnections and are
      replayed under their ids, which no other action ever had.
    - The two sides read what the other wrote, every variant and optional
      member, and the service reads exactly the actions the run issued; older
      replies, newer errors and unknown notifications do no harm. Replies of
      the identity service are read with the same tolerance.
    - Money: a fund template is accepted exactly when its rows satisfy the
      rules, and what the host then loses is the stated amount of the stated
      asset beyond the inputs it declared as its own (an issuance without an
      explicit amount is not looked at); an accepted lending claim asks and pays what it says and its
      covenant is the one of its terms; digests and scripts bind their terms
      up to explicit hash collisions.
    - Signatures: the venue key signs one statement per digest, the one the
      memo displayed; a pset's own open inputs are completed and nothing else
      is touched; the login asks the named host only; an identity call
      makes the one request it signed, and its signature belongs to that
      challenge, action and value; identities differ per network.
    - Services: every HTTP client ends, reports the service's refusals and
      accepts only answers that pass its checks; the payjoin fee is the exact
      product rounded down, and a payjoin service reads each request and is
      read in each answer as it was meant.
    - Whole systems: with each host around the actor, every frame of every
      reachable state is one the host's rules allow for a request it was shown
      or a line it read, and without news the two come to rest; approval by id
      alone is as strong as the ids are unique.
    - Clients in use: a drill that passes has seen what it claims, in the
      messages it read; the trading drill posts what it signed, for the state
      the venue has just reported, within a bounded number of requests; the
      login example asks what the library's login asks.
    - Foreign hosts: what an app has been told, read or not, is the core's
      state, record by record, in every state of the closed system; what is
      sent is the one answer of one of its calls, to a request it was shown;
      a login that asks for a service key cannot be accepted there.
    - Texts: links, short ids, amounts and memos are read and written
      exactly as specified.

    ** Bounds and fuel

    [u64], [u32] and [i32] values are [Z] with ranges where they matter:
    checked arithmetic returns [None] outside the range, the action id wraps
    at [2^31], [as u32] wraps, the reconnect delay stays between 1 and 60 seconds. Decimal
    printing has fuel 20, enough for any [u64] ([LendingText] proves the round
    trip); the base32 loop has the fuel of one byte; trimming a string has its
    length. A relying party's loops recurse on the inbox, and one that has read
    all of it is waiting, not done; a withdrawal has three attempts. [f64] arithmetic is the Standard Library's [SpecFloat] at binary64,
    conversions to [u64] saturate.

    ** Not modelled

    Uniffi's scaffolding and the generated bindings are not modelled, nor the
    printing, the arguments and the environment variables of the examples. The
    lwk wallet and signer of the trading bench, the text forms of the
    [elements] types in payjoin messages, the text of JSON documents, the
    redirects [ureq] follows inside a request (a request of the model is one
    call of [ureq]), the cryptographic primitives, the websocket and the runtime are parameters or
    environment. Error messages keep their fixed text without the interpolated
    values. A panic ([expect]) is [None] or [Err]. *)

From stdpp Require Export base gmap sets list strings sorting countable.
From Stdlib Require Export ZArith Lia.
From Stdlib Require Import Strings.Byte.
From Stdlib Require Export Strings.Ascii Strings.String.
From Stdlib Require Export Init.Byte.
From stdpp Require Export strings list.

Export (hints) stdpp.base.

#[global] Open Scope Z_scope.
#[export] Set Warnings "-clear-no-such-hyp".

(** * The result monad (Rust's [Result], [anyhow::Result]) *)

Inductive result (E A : Type) : Type :=
| Ok (a : A)
| Err (e : E).
Arguments Ok {E A} a.
Arguments Err {E A} e.

#[export] Instance result_ret {E} : MRet (result E) := @Ok E.
#[export] Instance result_bind {E} : MBind (result E) :=
  λ _ _ f r, match r with Ok a => f a | Err e => Err e end.
#[export] Instance result_fmap {E} : FMap (result E) :=
  λ _ _ f r, match r with Ok a => Ok (f a) | Err e => Err e end.
#[export] Instance result_eq_dec {E A} `{EqDecision E, EqDecision A} : EqDecision (result E A).
Proof. solve_decision. Defined.

Definition is_Ok {E A} (r : result E A) : bool :=
  match r with Ok _ => true | Err _ => false end.

(** [anyhow::ensure!]: fail with [e] unless [b]. *)
Definition ensure {E} (b : bool) (e : E) : result E unit :=
  if b then Ok tt else Err e.

(** [Option::ok_or]. *)
Definition ok_or {E A} (o : option A) (e : E) : result E A :=
  match o with Some a => Ok a | None => Err e end.

(** [for x in l { acc = f(acc, x)? }]. *)
Fixpoint try_fold {E A B} (f : B → A → result E B) (l : list A) (b : B) : result E B :=
  match l with
  | [] => Ok b
  | x :: l => b' ← f b x; try_fold f l b'
  end.

(** [iter.map(f).collect::<Result<Vec<_>, _>>()]. *)
Fixpoint try_collect {E A B} (f : A → result E B) (l : list A) : result E (list B) :=
  match l with
  | [] => Ok []
  | x :: l => y ← f x; ys ← try_collect f l; Ok (y :: ys)
  end.

Section result_lemmas.
Context {E : Type}.

Lemma bind_Ok {A B} (m : result E A) (f : A → result E B) b :
  m ≫= f = Ok b ↔ ∃ a, m = Ok a ∧ f a = Ok b.
Proof. destruct m; naive_solver. Qed.

Lemma bind_Err {A B} (m : result E A) (f : A → result E B) e :
  m ≫= f = Err e ↔ m = Err e ∨ ∃ a, m = Ok a ∧ f a = Err e.
Proof. destruct m; naive_solver. Qed.

Lemma ensure_Ok b (e : E) u : ensure b e = Ok u ↔ b = true.
Proof. destruct b, u; naive_solver. Qed.

Lemma ok_or_Ok {A} (o : option A) (e : E) a : ok_or o e = Ok a ↔ o = Some a.
Proof. destruct o; naive_solver. Qed.

Lemma is_Ok_true {A} (r : result E A) : is_Ok r = true ↔ ∃ a, r = Ok a.
Proof. destruct r; naive_solver. Qed.

Lemma try_collect_Forall2 {A B} (f : A → result E B) l ys :
  try_collect f l = Ok ys ↔ Forall2 (λ x y, f x = Ok y) l ys.
Proof.
  revert ys; induction l as [|x l IH]; intros ys; simpl.
  - split; [naive_solver | by inversion 1].
  - rewrite bind_Ok. setoid_rewrite bind_Ok. split.
    + intros (y & ? & ys' & ?%IH & [= <-]). by constructor.
    + inversion 1; naive_solver.
Qed.

Lemma is_Ok_bind_ext {A B C} (m : result E A) (f : A → result E B) (g : A → result E C) :
  (∀ x, is_Ok (f x) = is_Ok (g x)) → is_Ok (m ≫= f) = is_Ok (m ≫= g).
Proof. destruct m; naive_solver. Qed.
Lemma is_Ok_bind_Ok {A B} (m : result E A) (f : A → B) : is_Ok (m ≫= λ x, Ok (f x)) = is_Ok m.
Proof. by destruct m. Qed.

Lemma try_fold_app {A B} (f : B → A → result E B) l k b :
  try_fold f (l ++ k) b = try_fold f l b ≫= try_fold f k.
Proof. revert b; induction l as [|x l IH]; intros b; [done|]; simpl. destruct (f b x); simpl; auto. Qed.
End result_lemmas.

(** Invert every successful [bind], [ensure] and [ok_or] of the context. *)
Ltac result_inv :=
  repeat match goal with
  | H : (_ ≫= _) = Ok _ |- _ => apply bind_Ok in H as (? & ? & ?)
  | H : ensure _ _ = Ok _ |- _ => apply ensure_Ok in H
  | H : ok_or _ _ = Ok _ |- _ => apply ok_or_Ok in H
  | H : Ok _ = Ok _ |- _ => injection H as H; try subst
  | H : Err _ = Ok _ |- _ => discriminate H
  end.

(** Read the boolean tests of the context as propositions. *)
Ltac bool_inv :=
  repeat match goal with
  | H : (_ && _) = true |- _ => apply andb_true_iff in H as [? ?]
  | H : negb _ = true |- _ => apply negb_true_iff in H
  | H : bool_decide _ = true |- _ => apply bool_decide_eq_true in H
  | H : bool_decide _ = false |- _ => apply bool_decide_eq_false in H
  | H : (_ =? _) = true |- _ => apply Z.eqb_eq in H
  | H : (_ <? _) = true |- _ => apply Z.ltb_lt in H
  | H : (_ <=? _) = true |- _ => apply Z.leb_le in H
  | H : (_ =? _)%nat = true |- _ => apply Nat.eqb_eq in H
  end.

(** * Machine integers *)

Definition in_u64 (z : Z) : Prop := 0 ≤ z < 2 ^ 64.
Definition in_u32 (z : Z) : Prop := 0 ≤ z < 2 ^ 32.
#[export] Instance in_u64_dec z : Decision (in_u64 z).
Proof. unfold in_u64. apply _. Defined.
#[export] Instance in_u32_dec z : Decision (in_u32 z).
Proof. unfold in_u32. apply _. Defined.

Definition u64_checked_add (a b : Z) : option Z := if a + b <? 2 ^ 64 then Some (a + b) else None.
Definition u64_checked_sub (a b : Z) : option Z := if b <=? a then Some (a - b) else None.
(** [u32::try_from(v : u64).ok()]. *)
Definition u32_try_from (v : Z) : option Z := if v <? 2 ^ 32 then Some v else None.
(** Two's complement [i32] addition of the release profile. *)
Definition i32_wrap (z : Z) : Z := (z + 2 ^ 31) mod 2 ^ 32 - 2 ^ 31.

Lemma u64_checked_add_Some a b c : u64_checked_add a b = Some c ↔ c = a + b ∧ a + b < 2 ^ 64.
Proof. unfold u64_checked_add. destruct (Z.ltb_spec (a + b) (2 ^ 64)); naive_solver lia. Qed.
Lemma u64_checked_sub_Some a b c : u64_checked_sub a b = Some c ↔ c = a - b ∧ b ≤ a.
Proof. unfold u64_checked_sub. destruct (Z.leb_spec b a); naive_solver lia. Qed.
Lemma u32_try_from_Some v w : u32_try_from v = Some w ↔ w = v ∧ v < 2 ^ 32.
Proof. unfold u32_try_from. destruct (Z.ltb_spec v (2 ^ 32)); naive_solver lia. Qed.
Lemma i32_wrap_id z : - 2 ^ 31 ≤ z < 2 ^ 31 → i32_wrap z = z.
Proof. intros. unfold i32_wrap. rewrite Z.mod_small; lia. Qed.

(** * Bytes *)

Abbreviation byte := Byte.byte.
#[export] Instance byte_eq_dec : EqDecision byte := Byte.byte_eq_dec.
#[export] Program Instance byte_countable : Countable byte :=
  inj_countable Byte.to_N Byte.of_N _.
Next Obligation. intros b. apply Byte.of_to_N. Qed.
#[export] Instance byte_inhabited : Inhabited byte := populate x00.

Definition byte_Z (b : byte) : Z := Z.of_N (Byte.to_N b).
Definition Z_byte (z : Z) : byte := default x00 (Byte.of_N (Z.to_N (z mod 256))).

Lemma byte_Z_bound b : 0 ≤ byte_Z b < 256.
Proof. unfold byte_Z. pose proof (Byte.to_N_bounded b). lia. Qed.

Lemma byte_Z_of z : byte_Z (Z_byte z) = z mod 256.
Proof.
  unfold byte_Z, Z_byte. pose proof (Z.mod_pos_bound z 256 eq_refl) as Hz.
  destruct (Byte.of_N (Z.to_N (z mod 256))) as [b|] eqn:E; simpl.
  - apply Byte.to_of_N in E. lia.
  - apply Byte.of_N_None_iff in E. lia.
Qed.

#[export] Instance byte_Z_inj : Inj (=) (=) byte_Z.
Proof.
  intros x y H. unfold byte_Z in H. apply N2Z.inj in H.
  pose proof (Byte.of_to_N x). pose proof (Byte.of_to_N y). congruence.
Qed.

Lemma Z_byte_of b : Z_byte (byte_Z b) = b.
Proof. apply (inj byte_Z). rewrite byte_Z_of, Z.mod_small; [done|apply byte_Z_bound]. Qed.

(** Big-endian ([to_be_bytes]) and little-endian ([from_le_bytes]) integers. *)
Fixpoint be_bytes (n : nat) (z : Z) : list byte :=
  match n with O => [] | S n => be_bytes n (z / 256) ++ [Z_byte z] end.
Fixpoint le_val (l : list byte) : Z :=
  match l with [] => 0 | b :: l => byte_Z b + 256 * le_val l end.
Definition be_val (l : list byte) : Z := le_val (reverse l).

Lemma length_be_bytes n z : length (be_bytes n z) = n.
Proof. revert z; induction n as [|n IH]; intros z; simpl; [done|]. rewrite length_app, IH. simpl. lia. Qed.

Lemma le_val_bound l : 0 ≤ le_val l < 256 ^ Z.of_nat (length l).
Proof.
  induction l as [|b l IH]; simpl; [lia|].
  rewrite Nat2Z.inj_succ, Z.pow_succ_r by lia. pose proof (byte_Z_bound b). lia.
Qed.

Lemma be_val_be_bytes n z : be_val (be_bytes n z) = z mod 256 ^ Z.of_nat n.
Proof.
  unfold be_val. revert z; induction n as [|n IH]; intros z.
  { simpl. by rewrite Z.mod_1_r. }
  simpl be_bytes. rewrite reverse_app. simpl le_val. rewrite IH, byte_Z_of.
  rewrite Nat2Z.inj_succ, Z.pow_succ_r by lia.
  rewrite Z.rem_mul_r by lia. lia.
Qed.

(** Fixed-width integers of the same width have the same bytes only when equal. *)
Lemma be_bytes_inj n z w :
  0 ≤ z < 256 ^ Z.of_nat n → 0 ≤ w < 256 ^ Z.of_nat n → be_bytes n z = be_bytes n w → z = w.
Proof.
  intros Hz Hw H. apply (f_equal be_val) in H. rewrite !be_val_be_bytes in H.
  by rewrite !Z.mod_small in H.
Qed.
Definition u64_be : Z → list byte := be_bytes 8.
Definition u32_be : Z → list byte := be_bytes 4.
Lemma length_u64_be z : length (u64_be z) = 8%nat.
Proof. apply length_be_bytes. Qed.
Lemma length_u32_be z : length (u32_be z) = 4%nat.
Proof. apply length_be_bytes. Qed.
#[global] Arguments u64_be : simpl never.
#[global] Arguments u32_be : simpl never.
Lemma u64_be_inj z w : in_u64 z → in_u64 w → u64_be z = u64_be w → z = w.
Proof. by apply (be_bytes_inj 8). Qed.
Lemma u32_be_inj z w : in_u32 z → in_u32 w → u32_be z = u32_be w → z = w.
Proof. by apply (be_bytes_inj 4). Qed.

(** The derived [Ord] of byte arrays and slices: lexicographic. *)
Fixpoint bytes_leb (a b : list byte) : bool :=
  match a, b with
  | [], _ => true
  | _ :: _, [] => false
  | x :: a, y :: b =>
      if byte_Z x <? byte_Z y then true
      else if byte_Z x =? byte_Z y then bytes_leb a b else false
  end.

Lemma bytes_leb_antisym a b : bytes_leb a b = true → bytes_leb b a = true → a = b.
Proof.
  revert b; induction a as [|x a IH]; intros [|y b]; simpl; [done..|].
  destruct (Z.ltb_spec (byte_Z x) (byte_Z y)), (Z.ltb_spec (byte_Z y) (byte_Z x)),
    (Z.eqb_spec (byte_Z x) (byte_Z y)), (Z.eqb_spec (byte_Z y) (byte_Z x)); try lia; try done.
  intros. f_equal; [by apply (inj byte_Z)|auto].
Qed.
Lemma bytes_leb_total a b : bytes_leb a b = true ∨ bytes_leb b a = true.
Proof.
  revert b; induction a as [|x a IH]; intros [|y b]; simpl; auto.
  destruct (Z.ltb_spec (byte_Z x) (byte_Z y)), (Z.ltb_spec (byte_Z y) (byte_Z x)),
    (Z.eqb_spec (byte_Z x) (byte_Z y)), (Z.eqb_spec (byte_Z y) (byte_Z x)); try lia; auto.
Qed.

(** Fixed-size arrays [[u8; N]]. *)
Abbreviation bytesN n := (dsig (λ l : list byte, length l = n%nat)).
Abbreviation bytes32 := (bytesN 32).
(** [&array[..]] *)
Abbreviation slice a := (proj1_sig a).

(** [hex::decode_to_slice] style conversion of a slice to an array. *)
Definition to_array (n : nat) (l : list byte) : option (bytesN n) :=
  match decide (length l = n) with left H => Some (dexist l H) | right _ => None end.

Lemma length_bytesN {n} (a : bytesN n) : length (`a) = n.
Proof. exact (proj2_dsig a). Qed.

Lemma to_array_proj {n} (a : bytesN n) : to_array n (`a) = Some a.
Proof.
  unfold to_array. destruct decide as [H|H].
  - f_equal. by apply dsig_eq.
  - by destruct (H (length_bytesN a)).
Qed.

(** Concatenations of parts of equal length are equal part by part. *)
Lemma app_inj_length {A} (a b c d : list A) :
  length a = length c → a ++ b = c ++ d → a = c ∧ b = d.
Proof. intros. by apply app_inj_1. Qed.

(** Read a concatenation of fixed-width fields back, field by field. *)
Lemma slice_inj {n} (a b : bytesN n) : slice a = slice b → a = b.
Proof. intros. by apply dsig_eq. Qed.
Lemma slice_app_inj {n} (a b : bytesN n) (l k : list byte) : slice a ++ l = slice b ++ k → a = b ∧ l = k.
Proof.
  intros [? ?]%app_inj_length; [|by rewrite !length_bytesN]. split; [by apply dsig_eq|done].
Qed.
Lemma u64_app_inj z w (l k : list byte) :
  in_u64 z → in_u64 w → u64_be z ++ l = u64_be w ++ k → z = w ∧ l = k.
Proof.
  intros ?? [? ?]%app_inj_length; [|by rewrite !length_u64_be]. split; [by apply u64_be_inj|done].
Qed.
Lemma u32_app_inj z w (l k : list byte) :
  in_u32 z → in_u32 w → u32_be z ++ l = u32_be w ++ k → z = w ∧ l = k.
Proof.
  intros ?? [? ?]%app_inj_length; [|by rewrite !length_u32_be]. split; [by apply u32_be_inj|done].
Qed.
Ltac field_inv :=
  repeat match goal with
  | H : slice _ ++ _ = slice _ ++ _ |- _ => apply slice_app_inj in H as [-> H]
  | H : slice _ = slice _ |- _ => apply slice_inj in H as ->
  | H : u64_be _ ++ _ = u64_be _ ++ _ |- _ => apply u64_app_inj in H as [-> H]; [|assumption..]
  | H : u32_be _ ++ _ = u32_be _ ++ _ |- _ => apply u32_app_inj in H as [-> H]; [|assumption..]
  | H : u64_be _ = u64_be _ |- _ => apply u64_be_inj in H as ->; [|assumption..]
  | H : u32_be _ = u32_be _ |- _ => apply u32_be_inj in H as ->; [|assumption..]
  end.

Lemma Forall_sublist {A} (P : A → Prop) (l k : list A) : sublist l k → Forall P k → Forall P l.
Proof. induction 1; intros Hk; inversion Hk; subst; auto. Qed.

(** * Literals *)

Definition hex_digit (c : Ascii.ascii) : Z :=
  let n := Z.of_N (Ascii.N_of_ascii c) in
  if (48 <=? n) && (n <=? 57) then n - 48 else if (97 <=? n) && (n <=? 102) then n - 87 else 0.
(** The bytes a [hex_literal::hex!] literal denotes. *)
Fixpoint hex_lit (s : string) : list byte :=
  match s with
  | String a (String b s) => Z_byte (16 * hex_digit a + hex_digit b) :: hex_lit s
  | _ => []
  end.
(** A byte-string literal, [str::as_bytes]. *)
Definition as_bytes (s : string) : list byte := String.list_byte_of_string s.

Lemma as_bytes_inj s t : as_bytes s = as_bytes t → s = t.
Proof.
  intros H. rewrite <-(String.string_of_list_byte_of_string s).
  rewrite <-(String.string_of_list_byte_of_string t). unfold as_bytes in H. by rewrite H.
Qed.

(** * Ordered maps and sets (Rust's [BTreeMap] and [BTreeSet])

    Contents are a [gmap] or a [gset]; iteration goes through the keys in
    ascending order, which the program's effects expose. *)

Section btree.
Context {K : Type} `{Countable K} (le : relation K) `{!RelDecision le, !PartialOrder le, !Total le}.

Definition btree_set_iter (X : gset K) : list K := merge_sort le (elements X).
Definition btree_iter {V} (m : gmap K V) : list (K * V) :=
  omap (λ k, (k,.) <$> m !! k) (merge_sort le (map_to_list m).*1).

Lemma elem_of_btree_set_iter X k : k ∈ btree_set_iter X ↔ k ∈ X.
Proof. unfold btree_set_iter. by rewrite merge_sort_Permutation, elem_of_elements. Qed.

Lemma NoDup_btree_set_iter X : NoDup (btree_set_iter X).
Proof. unfold btree_set_iter. rewrite merge_sort_Permutation. apply NoDup_elements. Qed.

Lemma Sorted_btree_set_iter X : StronglySorted le (btree_set_iter X).
Proof. apply StronglySorted_merge_sort; apply _. Qed.

Lemma elem_of_btree_iter {V} (m : gmap K V) k v : (k, v) ∈ btree_iter m ↔ m !! k = Some v.
Proof.
  unfold btree_iter. rewrite list_elem_of_omap. setoid_rewrite merge_sort_Permutation.
  setoid_rewrite list_elem_of_fmap. split.
  - intros (k' & ([??] & -> & _) & Hk). destruct (m !! _) eqn:E; simplify_eq/=. done.
  - intros Hm. exists k. split; [|by rewrite Hm].
    exists (k, v). by rewrite elem_of_map_to_list.
Qed.

Lemma btree_iter_keys {V} (m : gmap K V) :
  (btree_iter m).*1 = merge_sort le (map_to_list m).*1.
Proof.
  unfold btree_iter.
  assert (∀ k, k ∈ merge_sort le (map_to_list m).*1 → is_Some (m !! k)) as Hin.
  { intros k. rewrite merge_sort_Permutation, list_elem_of_fmap.
    intros ([??] & -> & ?%elem_of_map_to_list). by eexists. }
  revert Hin. generalize (merge_sort le (map_to_list m).*1). clear.
  induction l as [|k l IH]; intros Hin; [done|]. simpl.
  destruct (Hin k) as [v Hv]; [left|]. rewrite Hv. simpl. f_equal. apply IH.
  intros. apply Hin. by right.
Qed.

Lemma NoDup_btree_iter_keys {V} (m : gmap K V) : NoDup (btree_iter m).*1.
Proof. rewrite btree_iter_keys, merge_sort_Permutation. apply NoDup_fst_map_to_list. Qed.

Lemma Sorted_btree_iter_keys {V} (m : gmap K V) : StronglySorted le (btree_iter m).*1.
Proof. rewrite btree_iter_keys. apply StronglySorted_merge_sort; apply _. Qed.
End btree.

(** * Strings *)

(** Rust strings are byte strings here; a character the sources test for is
    ASCII, and the bytes of any other character are 128 and above. *)
Definition ascii_Z (c : Ascii.ascii) : Z := Z.of_N (Ascii.N_of_ascii c).
Definition is_ascii_digit (c : Ascii.ascii) : bool := (48 <=? ascii_Z c) && (ascii_Z c <=? 57).
Definition is_ascii_upper (c : Ascii.ascii) : bool := (65 <=? ascii_Z c) && (ascii_Z c <=? 90).
Definition is_ascii_lower (c : Ascii.ascii) : bool := (97 <=? ascii_Z c) && (ascii_Z c <=? 122).
Definition is_ascii_alphanumeric (c : Ascii.ascii) : bool :=
  is_ascii_digit c || is_ascii_upper c || is_ascii_lower c.
Definition to_ascii_lower (c : Ascii.ascii) : Ascii.ascii :=
  if is_ascii_upper c then Ascii.ascii_of_N (Z.to_N (ascii_Z c + 32)) else c.
Definition to_ascii_upper (c : Ascii.ascii) : Ascii.ascii :=
  if is_ascii_lower c then Ascii.ascii_of_N (Z.to_N (ascii_Z c - 32)) else c.

Fixpoint string_map (f : Ascii.ascii → Ascii.ascii) (s : string) : string :=
  match s with EmptyString => EmptyString | String a s => String (f a) (string_map f s) end.
Definition to_ascii_lowercase : string → string := string_map to_ascii_lower.
(** [s.bytes().all(p)], [s.contains(c)], [s.split(c)]. *)
Fixpoint string_all (p : Ascii.ascii → bool) (s : string) : bool :=
  match s with EmptyString => true | String a s => p a && string_all p s end.
Fixpoint string_contains (c : Ascii.ascii) (s : string) : bool :=
  match s with EmptyString => false | String a s => bool_decide (a = c) || string_contains c s end.
Fixpoint split_on (c : Ascii.ascii) (s : string) : list string :=
  match s with
  | EmptyString => [EmptyString]
  | String a s =>
      if bool_decide (a = c) then EmptyString :: split_on c s
      else match split_on c s with
           | [] => [String a EmptyString]
           | w :: ws => String a w :: ws
           end
  end.
Fixpoint join_on (c : Ascii.ascii) (ws : list string) : string :=
  match ws with
  | [] => EmptyString
  | [w] => w
  | w :: ws => w +:+ String c (join_on c ws)
  end.

(** Decimal digits, most significant first. *)
Fixpoint dec_value (acc : Z) (s : string) : option Z :=
  match s with
  | EmptyString => Some acc
  | String a s => if is_ascii_digit a then dec_value (10 * acc + (ascii_Z a - 48)) s else None
  end.
(** [str::parse] of an unsigned integer type with largest value [max]. *)
Definition parse_uint (max : Z) (s : string) : option Z :=
  let digits := match s with String "+"%char s => s | _ => s end in
  if bool_decide (digits = EmptyString) then None
  else v ← dec_value 0 digits; if v <=? max then Some v else None.

(** [bool::from_str] *)
Definition bool_from_str (s : string) : option bool :=
  if bool_decide (s = "true") then Some true
  else if bool_decide (s = "false") then Some false else None.

Lemma split_on_join c s : join_on c (split_on c s) = s.
Proof.
  induction s as [|a s IH]; [done|]. simpl. case_bool_decide as Hac.
  - subst. simpl. destruct (split_on c s) eqn:E; [by destruct s; simpl in E; repeat case_match|].
    by rewrite IH.
  - destruct (split_on c s) as [|w ws]; [by simpl in *; subst|]. simpl in *.
    destruct ws; by rewrite <-IH.
Qed.

Lemma split_on_contains c s w : w ∈ split_on c s → string_contains c w = false.
Proof.
  revert w; induction s as [|a s IH]; intros w; simpl.
  { by intros ->%list_elem_of_singleton. }
  case_bool_decide as Hac.
  - intros [->|?]%elem_of_cons; [done|auto].
  - destruct (split_on c s) as [|v vs]; simpl.
    + intros ->%list_elem_of_singleton. simpl. by rewrite bool_decide_false.
    + intros [->|?]%elem_of_cons; [|apply IH; by right]. simpl.
      rewrite bool_decide_false by done. apply IH. left.
Qed.
Lemma split_on_none c s : string_contains c s = false → split_on c s = [s].
Proof.
  induction s as [|a s IH]; [done|]. simpl. intros [Ha Hs]%orb_false_iff. by rewrite Ha, IH.
Qed.
Lemma split_on_app c s t :
  string_contains c s = false → split_on c (s +:+ String c t) = s :: split_on c t.
Proof.
  induction s as [|a s IH]; simpl; [by rewrite bool_decide_true|].
  intros [Ha Hs]%orb_false_iff. by rewrite Ha, IH.
Qed.

Lemma string_all_contains p c s : string_all p s = true → p c = false → string_contains c s = false.
Proof.
  intros Hs Hc. induction s as [|a s IH]; [done|]. simpl in *.
  apply andb_true_iff in Hs as [Ha Hs]. rewrite (IH Hs).
  rewrite bool_decide_false; [done|]. intros ->. congruence.
Qed.

Lemma string_app_inj_l a b c : a +:+ b = a +:+ c → b = c.
Proof. by intros ?%(inj (String.append a)). Qed.

(** [str::trim]: the encodings of Unicode white space, stripped at both ends. *)
Definition white_space : list (list Z) :=
  [[9]; [10]; [11]; [12]; [13]; [32]; [194; 133]; [194; 160]; [225; 154; 128];
   [226; 128; 128]; [226; 128; 129]; [226; 128; 130]; [226; 128; 131]; [226; 128; 132];
   [226; 128; 133]; [226; 128; 134]; [226; 128; 135]; [226; 128; 136]; [226; 128; 137];
   [226; 128; 138]; [226; 128; 168]; [226; 128; 169]; [226; 128; 175]; [226; 129; 159];
   [227; 128; 128]].
Fixpoint strip_prefix (p : list Z) (l : list Ascii.ascii) : option (list Ascii.ascii) :=
  match p, l with
  | [], _ => Some l
  | z :: p, c :: l => if ascii_Z c =? z then strip_prefix p l else None
  | _ :: _, [] => None
  end.
Fixpoint strip_any (ps : list (list Z)) (l : list Ascii.ascii) : option (list Ascii.ascii) :=
  match ps with
  | [] => None
  | p :: ps => match strip_prefix p l with Some l' => Some l' | None => strip_any ps l end
  end.
Fixpoint strip_all (fuel : nat) (ps : list (list Z)) (l : list Ascii.ascii) : list Ascii.ascii :=
  match fuel with
  | O => l
  | S fuel => match strip_any ps l with Some l' => strip_all fuel ps l' | None => l end
  end.
Definition str_trim (s : string) : string :=
  let l := list_ascii_of_string s in
  let l := strip_all (length l) white_space l in
  let l := reverse (strip_all (length l) (reverse <$> white_space) (reverse l)) in
  string_of_list_ascii l.

(** [str::split_whitespace] *)
Fixpoint words (fuel : nat) (l cur : list Ascii.ascii) : list string :=
  let flush := if bool_decide (cur = []) then [] else [string_of_list_ascii (reverse cur)] in
  match fuel, l with
  | S fuel, c :: l' =>
      match strip_any white_space l with
      | Some rest => flush ++ words fuel rest []
      | None => words fuel l' (c :: cur)
      end
  | _, _ => flush
  end.
Definition split_whitespace (s : string) : list string :=
  words (String.length s) (list_ascii_of_string s) [].
(** [str::contains] of a text. *)
Definition str_contains (pat s : string) : bool := bool_decide (is_Some (String.index 0 pat s)).

(** Decimal display of an unsigned integer, and of fixed width [{:0n}]. *)
Definition digit_char (d : Z) : Ascii.ascii := Ascii.ascii_of_N (Z.to_N (48 + d)).
Fixpoint dec_digits (fuel : nat) (z : Z) (acc : string) : string :=
  match fuel with
  | O => acc
  | S fuel =>
      let acc := String (digit_char (z mod 10)) acc in
      if z <? 10 then acc else dec_digits fuel (z / 10) acc
  end.
(** Twenty digits are enough for a [u64]. *)
Definition dec_string (z : Z) : string := dec_digits 20 z "".
Fixpoint fixed_digits (n : nat) (z : Z) (acc : string) : string :=
  match n with
  | O => acc
  | S n => fixed_digits n (z / 10) (String (digit_char (z mod 10)) acc)
  end.
(** [trim_end_matches(c)] *)
Fixpoint trim_end_matches (c : Ascii.ascii) (s : string) : string :=
  match s with
  | EmptyString => EmptyString
  | String a s =>
      match trim_end_matches c s with
      | EmptyString => if bool_decide (a = c) then EmptyString else String a EmptyString
      | s' => String a s'
      end
  end.

(** The text before and after the first [c]. *)
Fixpoint split_once (c : Ascii.ascii) (s : string) : option (string * string) :=
  match s with
  | EmptyString => None
  | String a s =>
      if bool_decide (a = c) then Some (EmptyString, s)
      else '(k, v) ← split_once c s; Some (String a k, v)
  end.
Lemma split_once_app c k v :
  string_contains c k = false → split_once c (k +:+ String c v) = Some (k, v).
Proof.
  induction k as [|a k IH]; simpl; intros Hk; [by rewrite bool_decide_true|].
  apply orb_false_iff in Hk as [Ha Hk]. rewrite Ha. by rewrite IH.
Qed.
Lemma string_contains_app c s t :
  string_contains c (s +:+ t) = string_contains c s || string_contains c t.
Proof. induction s as [|a s IH]; [done|]. simpl. rewrite IH. by destruct (bool_decide _). Qed.
Lemma split_app_inj c k v k' v' :
  string_contains c k = false → string_contains c k' = false →
  k +:+ String c v = k' +:+ String c v' → k = k' ∧ v = v'.
Proof.
  intros Hk Hk' E. apply (f_equal (split_once c)) in E.
  rewrite !split_once_app in E by done. by injection E.
Qed.

(** Constants given as hex literals of arrays. *)
Definition zeros (n : nat) : bytesN n := dexist (replicate n x00) (length_replicate n x00).
Definition hex_array (n : nat) (s : string) : bytesN n := default (zeros n) (to_array n (hex_lit s)).

(** Texts put together. *)
Lemma string_length_app a b : String.length (a +:+ b) = (String.length a + String.length b)%nat.
Proof. induction a as [|c a IH]; [done|]. simpl. by rewrite IH. Qed.
Lemma string_app_nil_r a : a +:+ "" = a.
Proof. induction a as [|x a IH]; [done|exact (f_equal (String x) IH)]. Qed.
Lemma string_app_assoc a b c : (a +:+ b) +:+ c = a +:+ (b +:+ c).
Proof. induction a as [|x a IH]; [done|exact (f_equal (String x) IH)]. Qed.

(** [iter().max()] *)
Definition list_max_opt (l : list Z) : option Z :=
  foldr (λ v m, match m with None => Some v | Some w => Some (Z.max v w) end) None l.

(** * Decimal text: what is written is read back *)

Lemma digit_char_spec d :
  0 ≤ d < 10 → is_ascii_digit (digit_char d) = true ∧ ascii_Z (digit_char d) - 48 = d ∧
               digit_char d ≠ "."%char ∧ (digit_char d = "0"%char → d = 0).
Proof.
  intros Hd. assert (forallb (λ n, let d := Z.of_nat n in
    is_ascii_digit (digit_char d) && (ascii_Z (digit_char d) - 48 =? d)
    && negb (bool_decide (digit_char d = "."%char))
    && (negb (bool_decide (digit_char d = "0"%char)) || (d =? 0))) (List.seq 0 10) = true) as Hall
    by by vm_compute.
  rewrite forallb_forall in Hall. specialize (Hall (Z.to_nat d)).
  rewrite in_seq, Z2Nat.id in Hall by lia. specialize (Hall ltac:(lia)). simpl in Hall.
  bool_inv. split_and!; try done. intros E.
  match goal with H : _ || _ = true |- _ => apply orb_true_iff in H as [H|H] end; bool_inv; done.
Qed.

(** Strings of digits. *)
Definition all_digits (s : string) : Prop := string_all is_ascii_digit s = true.

Lemma fixed_digits_value n z acc s :
  0 ≤ z → dec_value acc (fixed_digits n z s) = dec_value (acc * 10 ^ Z.of_nat n + z mod 10 ^ Z.of_nat n) s.
Proof.
  revert z s; induction n as [|n IH]; intros z s Hz.
  { simpl. rewrite Z.mod_1_r. f_equal. lia. }
  simpl fixed_digits. rewrite IH by (apply Z.div_pos; lia). simpl dec_value.
  destruct (digit_char_spec (z mod 10)) as (-> & -> & _); [apply Z.mod_pos_bound; lia|].
  f_equal. rewrite Nat2Z.inj_succ, Z.pow_succ_r by lia.
  rewrite Z.rem_mul_r by lia. lia.
Qed.
Lemma fixed_digits_digits n z s : 0 ≤ z → all_digits s → all_digits (fixed_digits n z s).
Proof.
  revert z s; induction n as [|n IH]; intros z s Hz Hs; simpl; [done|].
  apply IH; [apply Z.div_pos; lia|]. unfold all_digits. simpl.
  destruct (digit_char_spec (z mod 10)) as (-> & _); [apply Z.mod_pos_bound; lia|]. done.
Qed.
Lemma fixed_digits_length n z s : String.length (fixed_digits n z s) = (n + String.length s)%nat.
Proof. revert z s; induction n as [|n IH]; intros z s; simpl; [done|]. rewrite IH. simpl. lia. Qed.

Lemma dec_digits_value fuel z acc s :
  0 ≤ z < 10 ^ Z.of_nat fuel → (0 < fuel)%nat →
  ∃ k : nat, dec_value acc (dec_digits fuel z s) = dec_value (acc * 10 ^ Z.of_nat k + z) s.
Proof.
  revert z s; induction fuel as [|fuel IH]; intros z s Hz Hf; [lia|]. simpl dec_digits.
  destruct (digit_char_spec (z mod 10)) as (Hd & Hv & _); [apply Z.mod_pos_bound; lia|].
  destruct (Z.ltb_spec z 10).
  - exists 1%nat. simpl dec_value. rewrite Hd, Hv, Z.mod_small by lia. f_equal. lia.
  - rewrite Nat2Z.inj_succ, Z.pow_succ_r in Hz by lia.
    destruct fuel as [|fuel]; [simpl in Hz; lia|].
    destruct (IH (z / 10) (String (digit_char (z mod 10)) s)) as [k Hk].
    { split; [apply Z.div_pos; lia|]. apply Z.div_lt_upper_bound; lia. }
    { lia. }
    exists (S k). rewrite Hk. simpl dec_value. rewrite Hd, Hv. f_equal.
    rewrite Nat2Z.inj_succ, Z.pow_succ_r by lia. pose proof (Z.div_mod z 10). lia.
Qed.
Lemma dec_digits_digits fuel z s : 0 ≤ z → all_digits s → all_digits (dec_digits fuel z s).
Proof.
  revert z s; induction fuel as [|fuel IH]; intros z s Hz Hs; simpl; [done|].
  assert (all_digits (String (digit_char (z mod 10)) s)) as Hs'.
  { unfold all_digits. simpl. destruct (digit_char_spec (z mod 10)) as (-> & _); [apply Z.mod_pos_bound; lia|].
    done. }
  destruct (z <? 10); [done|]. apply IH; [apply Z.div_pos; lia|done].
Qed.
Lemma dec_string_value z : in_u64 z → dec_value 0 (dec_string z) = Some z.
Proof.
  intros Hz. unfold in_u64 in Hz. destruct (dec_digits_value 20 z 0 "") as [k Hk]; [lia|lia|].
  unfold dec_string. rewrite Hk. simpl. f_equal.
Qed.

Lemma dec_value_app acc s t : dec_value acc (s +:+ t) = v ← dec_value acc s; dec_value v t.
Proof. revert acc; induction s as [|a s IH]; intros acc; simpl; [done|]. by destruct (is_ascii_digit a). Qed.
