(* ===== verification/Http.v ===== *)
(** What an HTTP client of the crate does ([ureq] calls in [venue.rs],
    [identity.rs] and [payjoin.rs]): a program that posts and continues with
    the reply, sequenced with [?], and its runs against a list of replies.
    [B] is what is posted, [J] what an answer carries. A request here is one
    call of [ureq], and a reply what that call returns: the redirects [ureq]
    follows on its own (up to five, a [301], [302] or [303] as a [GET] without
    the body) happen inside the call and are not modelled. *)

From S2P Require Import Prelude.

(** A reply: an answer, an answer whose body cannot be read as what it should
    carry ([into_json] and [into_string] fail), an error status with its text
    ([Error::Status]), or no answer ([Error::Transport]). *)
Inductive http_reply {J : Type} :=
| HttpOk (body : J)
| HttpUnread (err : string)
| HttpStatus (code : Z) (text : string)
| HttpError (err : string).
Arguments http_reply : clear implicits.
Inductive http_prog {B J A : Type} :=
| Done (r : A)
| Post (url : string) (headers : list (string * string)) (body : B) (k : http_reply J → http_prog).
Arguments http_prog : clear implicits.

(** A fallible client: its result is a [Result], and [?] after a call leaves
    the whole program on [Err]. *)
Definition client (B J A : Type) : Type := http_prog B J (result string A).
#[export] Instance client_ret {B J} : MRet (client B J) := λ A a, Done (Ok a).
Fixpoint client_then {B J A C} (p : client B J A) (f : A → client B J C) : client B J C :=
  match p with
  | Done (Ok a) => f a
  | Done (Err e) => Done (Err e)
  | Post url headers body k => Post url headers body (λ r, client_then (k r) f)
  end.
#[export] Instance client_bind {B J} : MBind (client B J) := λ A C f p, client_then p f.
(** A local step of a client: no request is made. *)
Definition local {B J A} (r : result string A) : client B J A := Done r.

(** The same requests, another result. *)
Fixpoint http_map {B J A C} (f : A → C) (p : http_prog B J A) : http_prog B J C :=
  match p with
  | Done r => Done (f r)
  | Post url headers body k => Post url headers body (λ r, http_map f (k r))
  end.

(** * Runs *)

(** A request, as it leaves the client. *)
Record request {B : Type} := { rq_url : string; rq_headers : list (string * string); rq_body : B }.
Arguments request : clear implicits.

(** The requests made, and the result when the program ends before the
    replies run out. *)
Fixpoint run_http {B J A} (p : http_prog B J A) (replies : list (http_reply J))
    : list (request B) * option A :=
  match p with
  | Done r => ([], Some r)
  | Post url headers body k =>
      let rq := {| rq_url := url; rq_headers := headers; rq_body := body |} in
      match replies with
      | [] => ([rq], None)
      | reply :: replies => let '(rqs, r) := run_http (k reply) replies in (rq :: rqs, r)
      end
  end.

(** [ends p n]: whatever is answered, [p] ends after at most [n] requests. *)
Fixpoint ends {B J A} (p : http_prog B J A) (n : nat) : Prop :=
  match p, n with
  | Done _, _ => True
  | Post _ _ _ _, O => False
  | Post _ _ _ k, S n => ∀ reply, ends (k reply) n
  end.

Lemma run_ends {B J A} (p : http_prog B J A) n replies :
  ends p n → (n ≤ length replies)%nat → is_Some (run_http p replies).2.
Proof.
  revert n replies; induction p as [r|url hs body k IH]; intros n replies Hp Hn; [by eexists|].
  destruct n as [|n]; [done|]. destruct replies as [|reply replies]; [simpl in Hn; lia|].
  simpl. destruct (run_http (k reply) replies) as [rqs o] eqn:E.
  specialize (IH reply n replies (Hp reply)). rewrite E in IH. apply IH. simpl in Hn. lia.
Qed.
Lemma ends_requests {B J A} (p : http_prog B J A) n replies :
  ends p n → (length (run_http p replies).1 ≤ n)%nat.
Proof.
  revert n replies; induction p as [r|url hs body k IH]; intros n replies Hp; [simpl; lia|].
  destruct n as [|n]; [done|]. destruct replies as [|reply replies]; [simpl; lia|].
  simpl. specialize (IH reply n replies (Hp reply)).
  destruct (run_http (k reply) replies) as [rqs o]. simpl in *. lia.
Qed.
Lemma ends_then {B J A C} (p : client B J A) (f : A → client B J C) n m :
  ends p n → (∀ a, ends (f a) m) → ends (p ≫= f) (n + m).
Proof.
  intros Hp Hf. revert n Hp. induction p as [[a|e]|url hs body k IH]; intros n Hp.
  - change (Done (Ok a) ≫= f) with (f a). clear Hp. specialize (Hf a).
    revert m Hf; induction (f a) as [r|? ? ? k IH]; intros m Hf; [by destruct (n + m)%nat|].
    destruct m as [|m]; [done|]. rewrite Nat.add_succ_r. intros reply. by apply IH.
  - by destruct (n + m)%nat.
  - destruct n as [|n]; [done|]. intros reply. apply IH. apply Hp.
Qed.

(** The requests of a sequence: those of the first part, then those of the
    rest on the replies that are left. *)
Lemma run_then {B J A C} (p : client B J A) (f : A → client B J C) replies :
  run_http (p ≫= f) replies
  = match run_http p replies with
    | (rqs, Some (Ok a)) =>
        let '(rqs', o) := run_http (f a) (drop (length rqs) replies) in (rqs ++ rqs', o)
    | (rqs, Some (Err e)) => (rqs, Some (Err e))
    | (rqs, None) => (rqs, None)
    end.
Proof.
  revert replies; induction p as [[a|e]|url hs body k IH]; intros replies.
  - change (Done (Ok a) ≫= f) with (f a). simpl. rewrite drop_0. by destruct (run_http (f a) replies).
  - done.
  - change (Post url hs body k ≫= f) with (Post url hs body (λ r, k r ≫= f)).
    destruct replies as [|reply replies]; [done|]. simpl. rewrite IH.
    destruct (run_http (k reply) replies) as [rqs [[a|e]|]]; simpl; try done.
    by destruct (run_http (f a) _).
Qed.

(** Runs do not see how a sequence is bracketed, nor continuations beyond
    their runs. *)
Lemma run_assoc {B J A C D} (p : client B J A) (f : A → client B J C) (g : C → client B J D) replies :
  run_http ((p ≫= f) ≫= g) replies = run_http (p ≫= λ a, f a ≫= g) replies.
Proof.
  revert replies; induction p as [[a|e]|url hs body k IH]; intros replies; [done..|].
  destruct replies as [|reply replies]; [done|].
  change (run_http (Post url hs body (λ r, (k r ≫= f) ≫= g)) (reply :: replies)
          = run_http (Post url hs body (λ r, k r ≫= λ a, f a ≫= g)) (reply :: replies)).
  simpl. by rewrite IH.
Qed.
Lemma run_ext {B J A C} (p : client B J A) (f g : A → client B J C) replies :
  (∀ a replies, run_http (f a) replies = run_http (g a) replies) →
  run_http (p ≫= f) replies = run_http (p ≫= g) replies.
Proof.
  intros Hfg. rewrite !run_then. destruct (run_http p replies) as [rqs [[a|e]|]]; [|done..].
  by rewrite Hfg.
Qed.
Lemma run_map {B J A C} (f : A → C) (p : http_prog B J A) replies :
  run_http (http_map f p) replies = ((run_http p replies).1, f <$> (run_http p replies).2).
Proof.
  revert replies; induction p as [r|url hs body k IH]; intros replies; [done|].
  destruct replies as [|reply replies]; [done|]. simpl. rewrite IH. by destruct (run_http (k reply) replies).
Qed.
