(* ===== verification/HttpLogic.v ===== *)
(** A program logic for HTTP clients: a request is judged against what was
    exchanged before it, a result against the whole exchange. *)

From S2P Require Import Prelude Http.

Section logic.
Context {B J : Type}.

(** A request and its reply. *)
Definition exchange : Type := request B * http_reply J.
Implicit Types (log : list exchange).

(** From [log] on, every request of [p] satisfies [G] with what came before,
    and every result [Q], whatever is answered. *)
Fixpoint http_wp {A} (G : list exchange → request B → Prop) (Q : list exchange → A → Prop) log (p : http_prog B J A) : Prop :=
  match p with
  | Done r => Q log r
  | Post url headers body k =>
      let rq := {| rq_url := url; rq_headers := headers; rq_body := body |} in
      G log rq ∧ ∀ reply, http_wp G Q (log ++ [(rq, reply)]) (k reply)
  end.

Lemma http_wp_mono {A} (G G' : list exchange → request B → Prop) (Q Q' : list exchange → A → Prop) log p :
  (∀ log rq, G log rq → G' log rq) → (∀ log r, Q log r → Q' log r) → http_wp G Q log p → http_wp G' Q' log p.
Proof. intros HG HQ. revert log. induction p as [r|url hs body k IH]; intros log; simpl; [apply HQ|]. naive_solver. Qed.

(** [?]: an error is a result, else the rest goes on from where it is. *)
Lemma http_wp_bind {A C} G (Q : list exchange → result string C → Prop) log (p : client B J A) (f : A → client B J C) :
  http_wp G (λ log r, match r with Ok a => http_wp G Q log (f a) | Err e => Q log (Err e) end) log p →
  http_wp G Q log (p ≫= f).
Proof. revert log. induction p as [[a|e]|url hs body k IH]; intros log; simpl; [done..|]. naive_solver. Qed.
Lemma http_wp_local {A C} G (Q : list exchange → result string C → Prop) log (r : result string A) (f : A → client B J C) :
  (∀ a, r = Ok a → http_wp G Q log (f a)) → (∀ e, r = Err e → Q log (Err e)) → http_wp G Q log (local r ≫= f).
Proof. destruct r; naive_solver. Qed.

Lemma http_wp_run {A} G (Q : list exchange → A → Prop) log p replies :
  http_wp G Q log p →
  (∀ n rq, (run_http p replies).1 !! n = Some rq → G (log ++ zip (take n (run_http p replies).1) replies) rq) ∧
  (∀ r, (run_http p replies).2 = Some r → Q (log ++ zip (run_http p replies).1 replies) r).
Proof.
  revert log replies. induction p as [r|url hs body k IH]; intros log replies; simpl.
  { intros HQ. split; [done|]. intros ? [= <-]. by rewrite app_nil_r. }
  intros [Hg Hk]. destruct replies as [|reply replies].
  { split; [|done]. intros [|n] rq; [intros [= <-]; simpl; by rewrite app_nil_r|done]. }
  specialize (IH reply (log ++ [({| rq_url := url; rq_headers := hs; rq_body := body |}, reply)]) replies (Hk reply)).
  destruct (run_http (k reply) replies) as [rqs o]. simpl in *. destruct IH as [IHg IHq]. split.
  - intros [|n] rq; [intros [= <-]; simpl; by rewrite app_nil_r|]. simpl. intros Hn.
    specialize (IHg n rq Hn). by rewrite <-app_assoc in IHg.
  - intros r Hr. specialize (IHq r Hr). by rewrite <-app_assoc in IHq.
Qed.
End logic.
Arguments exchange : clear implicits.
