(* ===== verification/Json.v ===== *)
(** JSON documents and the codecs serde derives from type declarations: one
    combinator per form the sources use - structs with required, optional,
    defaulted and skipped members, externally tagged enums, integers at their
    width - with their round trips and their tolerance of unknown members.
    The text of a document is [serde_json]'s. *)

From S2P Require Import Prelude.

(** A document. Numbers that are no integers are [JReal], by their text. *)
Inductive json :=
| JNull
| JBool (b : bool)
| JNum (z : Z)
| JReal (text : string)
| JStr (s : string)
| JArr (items : list json)
| JObj (members : list (string * json)).

(** A JSON text written with apostrophes for its quotation marks. *)
Definition jtext (s : string) : string :=
  string_map (λ c, if bool_decide (c = "'"%char) then Ascii.ascii_of_N 34 else c) s.

(** The documents that their text carries without loss: every integer one of
    [i64] or [u64], every other number of the form [real]. *)
Fixpoint json_fits (real : string → bool) (j : json) : bool :=
  match j with
  | JNum z => (- 2 ^ 63 <=? z) && (z <=? 2 ^ 64 - 1)
  | JReal text => real text
  | JArr items => forallb (json_fits real) items
  | JObj members => forallb (λ m, json_fits real m.2) members
  | JNull | JBool _ | JStr _ => true
  end.
Definition slot_fits (real : string → bool) (o : option json) : bool := from_option (json_fits real) true o.
(** Plain documents have no numbers but integers. *)
Definition no_real (text : string) : bool := false.
Abbreviation json_plain := (json_fits no_real).

(** JSON's grammar of numbers, as an automaton: the state after a character. *)
Inductive num_state := NumStart | NumSign | NumZero | NumInt | NumPoint | NumFraction | NumE | NumESign | NumExponent.
Definition num_step (st : num_state) (c : Ascii.ascii) : option num_state :=
  let sees d := bool_decide (c = d) in
  let digit := is_ascii_digit c in
  let integer := if sees "0"%char then Some NumZero else if digit then Some NumInt else None in
  let after_integer := if sees "."%char then Some NumPoint else if sees "e"%char || sees "E"%char then Some NumE else None in
  match st with
  | NumStart => if sees "-"%char then Some NumSign else integer
  | NumSign => integer
  | NumZero => after_integer
  | NumInt => if digit then Some NumInt else after_integer
  | NumPoint => if digit then Some NumFraction else None
  | NumFraction => if digit then Some NumFraction else if sees "e"%char || sees "E"%char then Some NumE else None
  | NumE => if digit then Some NumExponent else if sees "+"%char || sees "-"%char then Some NumESign else None
  | NumESign | NumExponent => if digit then Some NumExponent else None
  end.
Fixpoint num_run (st : num_state) (s : string) : option num_state :=
  match s with EmptyString => Some st | String c s => st ← num_step st c; num_run st s end.
(** A number with a fraction or an exponent. *)
Definition real_text (s : string) : bool :=
  match num_run NumStart s with Some (NumFraction | NumExponent) => true | _ => false end.

(** [Serialize] and [Deserialize] of a type. *)
Record codec (A : Type) := Codec { enc : A → json; dec : json → option A }.
Arguments Codec {A} _ _.
Arguments enc {A} _ _.
Arguments dec {A} _ _.
(** What is written fits the text and is read back. *)
Record codec_ok_at (real : string → bool) {A} (c : codec A) (fits : A → Prop) : Prop := {
  co_plain a : fits a → json_fits real (c.(enc) a) = true;
  co_dec a : fits a → c.(dec) (c.(enc) a) = Some a;
}.
Arguments co_plain {real A c fits} _ _ _.
Arguments co_dec {real A c fits} _ _ _.
Abbreviation codec_ok := (codec_ok_at no_real).

Create HintDb codecs.

(** * Scalars, options, lists *)

Definition string_c : codec string := Codec JStr (λ j, match j with JStr s => Some s | _ => None end).
Definition bool_c : codec bool := Codec JBool (λ j, match j with JBool b => Some b | _ => None end).
Definition int_c (lo hi : Z) : codec Z :=
  Codec JNum (λ j, match j with JNum z => if (lo <=? z) && (z <=? hi) then Some z else None | _ => None end).
Abbreviation u64_c := (int_c 0 (2 ^ 64 - 1)).
Abbreviation i64_c := (int_c (- 2 ^ 63) (2 ^ 63 - 1)).
Abbreviation i32_c := (int_c (- 2 ^ 31) (2 ^ 31 - 1)).
Abbreviation u8_c := (int_c 0 255).
(** A value written as its text form. *)
Definition text_c {A} (to : A → string) (from : string → option A) : codec A :=
  Codec (λ a, JStr (to a)) (λ j, match j with JStr s => from s | _ => None end).
(** A type declared over another. *)
Definition iso_c {A B} (c : codec A) (to : B → A) (from : A → B) : codec B :=
  Codec (λ b, c.(enc) (to b)) (λ j, from <$> c.(dec) j).
Definition option_c {A} (c : codec A) : codec (option A) :=
  Codec (λ o, match o with Some a => c.(enc) a | None => JNull end)
        (λ j, match j with JNull => Some None | _ => Some <$> c.(dec) j end).
Definition list_c {A} (c : codec A) : codec (list A) :=
  Codec (λ l, JArr (c.(enc) <$> l)) (λ j, match j with JArr l => mapM c.(dec) l | _ => None end).

Definition option_fits {A} (fits : A → Prop) (o : option A) : Prop := ∀ a, o = Some a → fits a.
(** A type whose values are never written as [null]. *)
Definition not_null {A} (c : codec A) : Prop := ∀ a, c.(enc) a ≠ JNull.

Section scalars.
Context {real : string → bool}.
Lemma string_ok : codec_ok_at real string_c (λ _, True).
Proof. done. Qed.
Lemma bool_ok : codec_ok_at real bool_c (λ _, True).
Proof. done. Qed.
Lemma int_ok lo hi : - 2 ^ 63 ≤ lo → hi ≤ 2 ^ 64 - 1 → codec_ok_at real (int_c lo hi) (λ z, lo ≤ z ≤ hi).
Proof.
  intros ??. split; intros z [??]; cbn [enc dec int_c json_fits].
  - by rewrite !(proj2 (Z.leb_le _ _)) by lia.
  - by rewrite !(proj2 (Z.leb_le _ _)).
Qed.
Lemma text_ok {A} (to : A → string) from fits : (∀ a, fits a → from (to a) = Some a) → codec_ok_at real (text_c to from) fits.
Proof. by split. Qed.
Lemma iso_ok {A B} (c : codec A) (to : B → A) from fits :
  codec_ok_at real c fits → (∀ b, from (to b) = b) → codec_ok_at real (iso_c c to from) (λ b, fits (to b)).
Proof.
  intros Hc Hiso. split; intros b Hb; simpl; [by apply Hc|]. rewrite (co_dec Hc) by done. simpl. by rewrite Hiso.
Qed.
Lemma option_ok {A} (c : codec A) fits : codec_ok_at real c fits → not_null c → codec_ok_at real (option_c c) (option_fits fits).
Proof.
  intros Hc Hn. split; intros [a|] Ha; try done; simpl; [by apply Hc, Ha|].
  specialize (Hn a). rewrite (co_dec Hc a) by auto. by destruct (enc c a).
Qed.
Lemma forallb_fmap {A B} (p : B → bool) (f : A → B) l : forallb p (f <$> l) = forallb (p ∘ f) l.
Proof. induction l as [|a l IH]; [done|exact (f_equal (andb (p (f a))) IH)]. Qed.
Lemma list_ok {A} (c : codec A) fits : codec_ok_at real c fits → codec_ok_at real (list_c c) (Forall fits).
Proof.
  intros Hc. split; intros l Hl.
  - change (forallb (json_fits real) (c.(enc) <$> l) = true). rewrite forallb_fmap, forallb_forall. intros a Ha%list_elem_of_In. unfold compose.
    rewrite Forall_forall in Hl. by apply Hc, Hl.
  - apply mapM_Some_2, Forall2_fmap_l, Forall_Forall2_diag.
    eapply Forall_impl; [exact Hl|]. intros a Ha. by apply Hc.
Qed.
Lemma codec_ok_impl {A} (c : codec A) (fits fits' : A → Prop) :
  codec_ok_at real c fits → (∀ a, fits' a → fits a) → codec_ok_at real c fits'.
Proof. intros [Hp Hd]. split; auto. Qed.
End scalars.
#[export] Hint Resolve string_ok bool_ok list_ok : codecs.
#[export] Hint Extern 1 (codec_ok_at _ (int_c _ _) _) => (apply int_ok; lia) : codecs.

(** * Structs *)

(** The members of a struct, in order: what each is written as ([None]: it is
    skipped) and how it is read from what was found under its name, in an
    object or at its place in an array ([seq]). *)
Record fields (A : Type) := Fields {
  fl_names : list string;
  fl_enc : A → list (option json);
  fl_dec : bool → list (option json) → option A;
}.
Arguments Fields {A} _ _ _.
Arguments fl_names {A} _.
Arguments fl_enc {A} _ _.
Arguments fl_dec {A} _ _ _.

Definition one_field {A} (name : string) (to : A → option json) (from : bool → option json → option A) : fields A :=
  Fields [name] (λ a, [to a]) (λ seq slots, match slots with [o] => from seq o | _ => None end).
(** A plain member. *)
Definition field {A} (name : string) (c : codec A) : fields A :=
  one_field name (λ a, Some (c.(enc) a)) (λ _ o, j ← o; c.(dec) j).
(** A plain member of type [Option]: it may be missing from an object. *)
Definition opt_field {A} (name : string) (c : codec A) : fields (option A) :=
  one_field name (λ a, Some ((option_c c).(enc) a))
    (λ seq o, match o with Some j => (option_c c).(dec) j | None => if seq then None else Some None end).
(** [#[serde(default)]] *)
Definition default_field {A} (name : string) (c : codec A) (d : A) : fields A :=
  one_field name (λ a, Some (c.(enc) a)) (λ _ o, match o with Some j => c.(dec) j | None => Some d end).
(** [#[serde(default, skip_serializing_if = Option::is_none)]] *)
Definition skip_field {A} (name : string) (c : codec A) : fields (option A) :=
  one_field name (λ a, c.(enc) <$> a)
    (λ _ o, match o with Some j => (option_c c).(dec) j | None => Some None end).
Definition no_fields : fields unit := Fields [] (λ _, []) (λ _ slots, match slots with [] => Some () | _ => None end).
Definition both {A B} (f : fields A) (g : fields B) : fields (A * B) :=
  Fields (f.(fl_names) ++ g.(fl_names)) (λ ab, f.(fl_enc) ab.1 ++ g.(fl_enc) ab.2)
    (λ seq slots,
      a ← f.(fl_dec) seq (take (length f.(fl_names)) slots);
      b ← g.(fl_dec) seq (drop (length f.(fl_names)) slots); Some (a, b)).
Declare Scope fields_scope.
Delimit Scope fields_scope with fields.
Infix "⊗" := both (at level 40, left associativity) : fields_scope.
Open Scope fields_scope.

(** What an object has under a name: nothing, one value, or a duplicate. *)
Definition members_at (name : string) (members : list (string * json)) : list json :=
  omap (λ m, if String.eqb m.1 name then Some m.2 else None) members.
Definition slot_at (members : list (string * json)) (name : string) : option (option json) :=
  match members_at name members with [] => Some None | [j] => Some (Some j) | _ => None end.
(** The members that are written. *)
Definition present (names : list string) (slots : list (option json)) : list (string * json) :=
  omap (λ p, pair p.1 <$> p.2) (zip names slots).

Definition struct {A B} (f : fields A) (to : B → A) (from : A → B) : codec B :=
  Codec (λ b, JObj (present f.(fl_names) (f.(fl_enc) (to b))))
    (λ j, from <$> match j with
      | JObj members => slots ← mapM (slot_at members) f.(fl_names); f.(fl_dec) false slots
      | JArr items =>
          if (length items <=? length f.(fl_names))%nat
          then f.(fl_dec) true ((Some <$> items) ++ replicate (length f.(fl_names) - length items) None)
          else None
      | _ => None
      end).

(** Reading what was written, member by member. *)
Record fields_ok_at (real : string → bool) {A} (f : fields A) (fits : A → Prop) : Prop := {
  fo_length a : length (f.(fl_enc) a) = length f.(fl_names);
  fo_plain a : fits a → forallb (slot_fits real) (f.(fl_enc) a) = true;
  fo_dec a : fits a → f.(fl_dec) false (f.(fl_enc) a) = Some a;
}.
Arguments fo_length {real A f fits} _ _.
Arguments fo_plain {real A f fits} _ _ _.
Arguments fo_dec {real A f fits} _ _ _.
Abbreviation fields_ok := (fields_ok_at no_real).
Section members.
Context {real : string → bool}.
Lemma one_field_ok {A} name (to : A → option json) from fits :
  (∀ a, fits a → slot_fits real (to a) = true) → (∀ a, fits a → from false (to a) = Some a) →
  fields_ok_at real (one_field name to from) fits.
Proof. intros Hp Hd. split; simpl; [done| |done]. intros a Ha. by rewrite Hp. Qed.
Lemma field_ok {A} name (c : codec A) fits : codec_ok_at real c fits → fields_ok_at real (field name c) fits.
Proof. intros Hc. apply one_field_ok; intros a Ha; by apply Hc. Qed.
Lemma opt_field_ok {A} name (c : codec A) fits :
  codec_ok_at real c fits → not_null c → fields_ok_at real (opt_field name c) (option_fits fits).
Proof. intros Hc Hn. apply one_field_ok; intros a Ha; by apply (option_ok (real := real) c fits). Qed.
Lemma default_field_ok {A} name (c : codec A) d fits : codec_ok_at real c fits → fields_ok_at real (default_field name c d) fits.
Proof. intros Hc. apply one_field_ok; intros a Ha; by apply Hc. Qed.
Lemma skip_field_ok {A} name (c : codec A) fits :
  codec_ok_at real c fits → not_null c → fields_ok_at real (skip_field name c) (option_fits fits).
Proof.
  intros Hc Hn. apply one_field_ok; intros [a|] Ha; try done;
    [exact (co_plain (option_ok c fits Hc Hn) _ Ha)|exact (co_dec (option_ok c fits Hc Hn) _ Ha)].
Qed.
Lemma no_fields_ok fits : fields_ok_at real no_fields fits.
Proof. split; [done..|by intros []]. Qed.
Lemma both_ok {A B} (f : fields A) (g : fields B) fits gits :
  fields_ok_at real f fits → fields_ok_at real g gits → fields_ok_at real (f ⊗ g) (λ ab, fits ab.1 ∧ gits ab.2).
Proof.
  intros Hf Hg. split.
  - intros ab. simpl. by rewrite !length_app, (fo_length Hf), (fo_length Hg).
  - intros [a b] [Ha Hb]. simpl in *. by rewrite forallb_app, (fo_plain Hf), (fo_plain Hg).
  - intros [a b] [Ha Hb]. simpl in *. rewrite <-(fo_length Hf a), take_app_length, drop_app_length.
    rewrite (fo_dec Hf) by done. simpl. by rewrite (fo_dec Hg).
Qed.
End members.
Lemma members_at_notin name members : name ∉ members.*1 → members_at name members = [].
Proof.
  induction members as [|[k j] members IH]; [done|]. rewrite fmap_cons, not_elem_of_cons. intros [Hk Hn].
  simpl in *. destruct (String.eqb_spec k name) as [->|_]; [done|]. by apply IH.
Qed.
Lemma present_keys names slots name : name ∉ names → name ∉ (present names slots).*1.
Proof.
  revert slots; induction names as [|n names IH]; intros [|o slots] Hn; try apply not_elem_of_nil.
  apply not_elem_of_cons in Hn as [Hn Hns]. specialize (IH slots Hns).
  destruct o as [j|]; [|done]. change (present _ _) with ((n, j) :: present names slots).
  by apply not_elem_of_cons.
Qed.
Lemma slot_at_cons members k j name : k ≠ name → slot_at ((k, j) :: members) name = slot_at members name.
Proof. intros Hk. unfold slot_at, members_at. simpl. by destruct (String.eqb_spec k name). Qed.
Lemma members_at_here n j members : members_at n ((n, j) :: members) = j :: members_at n members.
Proof. unfold members_at. simpl. by rewrite String.eqb_refl. Qed.
(** What was written is found again: each member at its name. *)
Lemma slots_present names slots :
  NoDup names → length slots = length names → mapM (slot_at (present names slots)) names = Some slots.
Proof.
  intros Hnd. revert slots. induction Hnd as [|n names Hn Hnd IH]; intros [|o slots] Hlen; try done.
  injection Hlen as Hlen.
  assert (mapM (slot_at (present (n :: names) (o :: slots))) names = Some slots) as Hrest.
  { rewrite <-(IH slots Hlen). destruct o as [j|]; [|done]. apply Forall_mapM_ext, Forall_forall. intros name Hname.
    change (present (n :: names) (Some j :: slots)) with ((n, j) :: present names slots). apply slot_at_cons. by intros ->. }
  assert (slot_at (present (n :: names) (o :: slots)) n = Some o) as Hn'.
  { pose proof (present_keys names slots n Hn) as Hk. unfold slot_at. destruct o as [j|].
    - change (present (n :: names) (Some j :: slots)) with ((n, j) :: present names slots).
      by rewrite members_at_here, members_at_notin.
    - change (present (n :: names) (None :: slots)) with (present names slots). by rewrite members_at_notin. }
  cbn [mapM]. rewrite Hn'. simpl. by rewrite Hrest.
Qed.

Section structs.
Context {real : string → bool}.
Lemma present_plain names slots :
  forallb (slot_fits real) slots = true → forallb (λ m, json_fits real m.2) (present names slots) = true.
Proof.
  revert slots; induction names as [|n names IH]; intros [|o slots] Hp; try done.
  apply andb_true_iff in Hp as [Ho Hp]. specialize (IH slots Hp). destruct o as [j|]; [|exact IH].
  change (present (n :: names) (Some j :: slots)) with ((n, j) :: present names slots). by apply andb_true_iff.
Qed.
Lemma struct_ok {A B} (f : fields A) (to : B → A) (from : A → B) fits :
  NoDup f.(fl_names) → fields_ok_at real f fits → (∀ b, from (to b) = b) →
  codec_ok_at real (struct f to from) (λ b, fits (to b)).
Proof.
  intros Hnd Hf Hiso. split; intros b Hb; simpl; [by apply present_plain, (fo_plain Hf)|].
  rewrite slots_present by (done || apply (fo_length Hf)). simpl. rewrite (fo_dec Hf) by done.
  simpl. by rewrite Hiso.
Qed.
End structs.
(** Members a struct does not declare are not looked at, wherever they are. *)
Lemma slot_at_extra members extra name :
  name ∉ extra.*1 → slot_at (members ++ extra) name = slot_at members name.
Proof.
  intros Hn. unfold slot_at, members_at. rewrite omap_app.
  change (omap _ extra) with (members_at name extra). by rewrite members_at_notin, app_nil_r.
Qed.
Lemma struct_ignores {A B} (f : fields A) (to : B → A) (from : A → B) members extra :
  (∀ name, name ∈ f.(fl_names) → name ∉ extra.*1) →
  (struct f to from).(dec) (JObj (members ++ extra)) = (struct f to from).(dec) (JObj members).
Proof.
  intros Hx. simpl. f_equal. f_equal. apply Forall_mapM_ext, Forall_forall. intros name Hn.
  by apply slot_at_extra, Hx.
Qed.

(** Members that are left out where a default stands for them. *)
Definition keep_members (keep : string → bool) (members : list (string * json)) : list (string * json) :=
  List.filter (λ m, keep m.1) members.
Definition keep_slots (keep : string → bool) (names : list string) (slots : list (option json)) : list (option json) :=
  zip_with (λ name o, if keep name then o else None) names slots.
Lemma members_at_keep keep name members :
  members_at name (keep_members keep members) = if keep name then members_at name members else [].
Proof.
  induction members as [|[k j] members IH]; [by destruct (keep name)|].
  change (keep_members keep ((k, j) :: members))
    with (if keep k then (k, j) :: keep_members keep members else keep_members keep members).
  destruct (String.eqb_spec k name) as [->|Hk].
  - destruct (keep name) eqn:E; [by rewrite !members_at_here, IH|exact IH].
  - assert (∀ ms, members_at name ((k, j) :: ms) = members_at name ms) as Hskip.
    { intros ms. unfold members_at. simpl. by rewrite (proj2 (String.eqb_neq k name)). }
    rewrite Hskip. destruct (keep k); [by rewrite Hskip|exact IH].
Qed.
Lemma slots_keep keep names slots extra :
  NoDup names → length slots = length names → (∀ name, name ∈ names → name ∉ extra.*1) →
  mapM (slot_at (keep_members keep (present names slots) ++ extra)) names = Some (keep_slots keep names slots).
Proof.
  intros Hnd Hlen Hx. pose proof (slots_present names slots Hnd Hlen) as Hs. apply mapM_Some_1 in Hs.
  assert (∀ name o, name ∈ names → slot_at (present names slots) name = Some o →
    slot_at (keep_members keep (present names slots) ++ extra) name = Some (if keep name then o else None)) as Hone.
  { intros name o Hn Ho. rewrite slot_at_extra by by apply Hx. unfold slot_at in *. rewrite members_at_keep.
    by destruct (keep name). }
  revert Hs Hone. generalize (slot_at (present names slots)). intros at_.
  generalize (slot_at (keep_members keep (present names slots) ++ extra)). intros at_'. clear.
  induction 1 as [|name o names slots Ho Hs IH]; intros Hone; [done|]. cbn [mapM].
  rewrite (Hone name o (list_elem_of_here _ _) Ho). simpl. rewrite IH; [done|].
  intros n' o' Hn'. apply Hone. by right.
Qed.

(** Reading members of which some are left out. *)
Definition keeps_ok {A} (keep : string → bool) (f : fields A) (fits : A → Prop) : Prop :=
  ∀ a, fits a → f.(fl_dec) false (keep_slots keep f.(fl_names) (f.(fl_enc) a)) = Some a.
Lemma field_keeps {A} keep name (c : codec A) fits :
  codec_ok c fits → keeps_ok keep (field name c) (λ a, keep name = true ∧ fits a).
Proof. intros Hc a [Hk Ha]. simpl. rewrite Hk. simpl. by apply Hc. Qed.
Lemma default_keeps {A} keep name (c : codec A) d fits :
  codec_ok c fits → keeps_ok keep (default_field name c d) (λ a, (keep name = false → a = d) ∧ fits a).
Proof. intros Hc a [Hk Ha]. simpl. destruct (keep name); [by apply Hc|by rewrite Hk]. Qed.
Lemma both_keeps {A B} keep (f : fields A) (g : fields B) fits gits fok gok :
  fields_ok f fok → fields_ok g gok → keeps_ok keep f fits → keeps_ok keep g gits →
  keeps_ok keep (f ⊗ g) (λ ab, fits ab.1 ∧ gits ab.2).
Proof.
  intros Hfo Hgo Hf Hg [a b] [Ha Hb]. simpl in *. unfold keep_slots.
  rewrite zip_with_app by (symmetry; apply (fo_length Hfo)).
  rewrite take_app_length', drop_app_length' by (rewrite length_zip_with, (fo_length Hfo); lia).
  fold (keep_slots keep f.(fl_names) (f.(fl_enc) a)). fold (keep_slots keep g.(fl_names) (g.(fl_enc) b)).
  rewrite (Hf a Ha). simpl. by rewrite (Hg b Hb).
Qed.
Lemma struct_keeps {A B} keep (f : fields A) (to : B → A) (from : A → B) fits fok extra b :
  NoDup f.(fl_names) → fields_ok f fok → keeps_ok keep f fits → from (to b) = b → fits (to b) →
  (∀ name, name ∈ f.(fl_names) → name ∉ extra.*1) →
  (struct f to from).(dec) (JObj (keep_members keep (present f.(fl_names) (f.(fl_enc) (to b))) ++ extra)) = Some b.
Proof.
  intros Hnd Hf Hk Hiso Hb Hx. simpl. rewrite slots_keep by (done || apply (fo_length Hf)). simpl.
  rewrite (Hk (to b) Hb). simpl. by rewrite Hiso.
Qed.

(** * Externally tagged enums *)

(** A value is its variant's name alone, or the name with its content. *)
Definition tagged_json (t : string * option json) : json :=
  match t with (tag, None) => JStr tag | (tag, Some content) => JObj [(tag, content)] end.
Definition json_tag (j : json) : option (string * option json) :=
  match j with JStr tag => Some (tag, None) | JObj [(tag, content)] => Some (tag, Some content) | _ => None end.
Fixpoint variant_of {A} (tag : string) (variants : list (string * A)) : option A :=
  match variants with
  | [] => None
  | (t, v) :: variants => if String.eqb t tag then Some v else variant_of tag variants
  end.
(** Variants with content, and without. *)
Definition content {A X} (c : codec X) (inj : X → A) : option json → option A :=
  λ o, j ← o; inj <$> c.(dec) j.
Definition unit_content {A} (a : A) : option json → option A :=
  λ o, match o with None | Some JNull => Some a | _ => None end.
(** [other] is the variant under [#[serde(other)]], if there is one. *)
Definition enum {A} (to : A → string * option json)
    (variants : list (string * (option json → option A))) (other : option A) : codec A :=
  Codec (λ a, tagged_json (to a))
    (λ j, '(tag, o) ← json_tag j;
      match variant_of tag variants with
      | Some v => v o
      | None => a ← other; unit_content a o
      end).

Section enums.
Context {real : string → bool}.
Lemma enum_ok {A} (to : A → string * option json) variants other fits :
  (∀ a, fits a → slot_fits real (to a).2 = true ∧
                 (match variant_of (to a).1 variants with
                  | Some v => v (to a).2
                  | None => o ← other; unit_content o (to a).2
                  end) = Some a) →
  codec_ok_at real (enum to variants other) fits.
Proof.
  intros Hv. split; intros a Ha; destruct (Hv a Ha) as [Hp Hd]; simpl; destruct (to a) as [tag [j|]]; simpl in *.
  - by rewrite Hp.
  - done.
  - exact Hd.
  - exact Hd.
Qed.
Lemma content_ok {A X} (c : codec X) (inj : X → A) fits x :
  codec_ok_at real c fits → fits x →
  slot_fits real (Some (c.(enc) x)) = true ∧ content c inj (Some (c.(enc) x)) = Some (inj x).
Proof. intros Hc Hx. split; [by apply Hc|]. unfold content. simpl. by rewrite (co_dec Hc). Qed.
End enums.
Lemma variant_of_none {A} tag (variants : list (string * A)) : tag ∉ variants.*1 → variant_of tag variants = None.
Proof.
  induction variants as [|[t v] variants IH]; [done|]. rewrite fmap_cons, not_elem_of_cons. intros [Ht Hn]. simpl in *.
  rewrite (proj2 (String.eqb_neq t tag)) by done. by apply IH.
Qed.
Lemma enum_unknown {A} (to : A → string * option json) variants tag j :
  tag ∉ variants.*1 → (enum to variants None).(dec) (JObj [(tag, j)]) = None.
Proof. intros Ht. simpl. by rewrite variant_of_none. Qed.
Lemma enum_other {A} (to : A → string * option json) variants a tag :
  tag ∉ variants.*1 → (enum to variants (Some a)).(dec) (JStr tag) = Some a.
Proof. intros Ht. simpl. by rewrite variant_of_none. Qed.
