(* ===== verification/Crates.v ===== *)
(** What the program takes from third-party crates, as parameters of the
    model: one class per crate, holding the operations the sources call.
    Nothing is assumed about them here; a theorem that needs documented
    behaviour of one of them names it as a hypothesis. [RefCrates.v] holds
    concrete functions for every class, which the witnesses use. *)

From S2P Require Import Prelude.

(** [elements::hashes]: SHA-256, and the tagged hashes that
    [sha256t_hash_newtype!] declares (the tag string, then the input). *)
Class HashesApi := {
  sha256 : list byte → bytes32;
  tagged_hash : string → list byte → bytes32;
}.

(** The [hex] crate: [encode] and [decode_to_slice] into [[u8; n]]. *)
Class HexApi := {
  hex_encode : list byte → string;
  hex_decode_to_slice : ∀ n, string → option (bytesN n);
}.

(** [secp256k1_zkp]: keys, BIP340 signatures and their verification. *)
Class SchnorrApi := {
  Keypair : Type;
  Signature : Type;
  keypair_from_seckey : bytes32 → option Keypair;
  x_only_public_key : Keypair → bytes32;
  sign_schnorr : bytes32 → Keypair → Signature;
  sign_schnorr_no_aux_rand : bytes32 → Keypair → Signature;
  verify_schnorr : Signature → bytes32 → bytes32 → bool;
  signature_to_string : Signature → string;
  signature_parse : string → option Signature;
  xonly_from_slice : bytes32 → option bytes32;
}.

(** The text form of an x-only public key ([Display], [FromStr]). *)
Class XonlyText := {
  xonly_to_string : bytes32 → string;
  xonly_from_str : string → option bytes32;
}.

(** [serde_json::Value] and its accessors. *)
Class JsonApi := {
  Value : Type;
  json_from_str : string → option Value;
  json_get : Value → string → option Value;
  json_as_str : Value → option string;
  json_as_u64 : Value → option Z;
  json_as_array : Value → option (list Value);
  json_is_null : Value → bool;
}.

(** What [serde_json::json!] and [Value::as_object_mut] work with: an object
    is a [BTreeMap] from keys to values. *)
Class JsonBuild `{!JsonApi} := {
  json_of_object : gmap string Value → Value;
  json_of_string : string → Value;
  json_of_bool : bool → Value;
  json_of_array : list Value → Value;
  json_as_object : Value → option (gmap string Value);
}.
(** [serde_json::from_value] into a type with a derived [Deserialize]. *)
Class FromValue `{!JsonApi} (A : Type) := from_value : Value → option A.

(** [url::Url], as the accessors the parser of links reads. *)
Inductive Host := HostDomain (domain : string) | HostIpv4 | HostIpv6.
Record Url := {
  url_scheme : string;
  url_host : option Host;
  url_host_str : option string;
  url_port : option Z;
  url_path : string;
  url_query_pairs : list (string * string);
}.
Class UrlApi := { url_parse : string → option Url }.

(** [elements]: asset ids are the 32 bytes of a midstate, scripts are byte
    vectors. *)
Abbreviation AssetId := bytes32.
Abbreviation Script := (list byte).

Class ElementsApi := {
  asset_from_str : string → option AssetId;
  asset_from_slice : list byte → option AssetId;
  asset_to_string : AssetId → string;
  (** [Address::from_str] followed by [script_pubkey] *)
  address_script_pubkey : string → option Script;
  script_to_hex : Script → string;
  (** [Builder::new().push_opcode(OP_PUSHNUM_1).push_slice(key)] *)
  script_push1_slice : bytes32 → Script;
  (** [TapTweakHash::from_key_and_tweak] and [XOnlyPublicKey::add_tweak] *)
  tap_tweak_hash : bytes32 → option bytes32 → bytes32;
  xonly_add_tweak : bytes32 → bytes32 → bytes32;
}.

Section collision.
Context `{!HashesApi}.

(** Two of the byte strings given are a SHA-256 collision. *)
Definition collision (xs ys : list (list byte)) : Prop :=
  ∃ x y, x ∈ xs ∧ y ∈ ys ∧ x ≠ y ∧ sha256 x = sha256 y.
Lemma collision_or xs ys x y : x ∈ xs → y ∈ ys → sha256 x = sha256 y → x = y ∨ collision xs ys.
Proof. intros. destruct (decide (x = y)); [by left|right; by exists x, y]. Qed.
End collision.

Section tagged_collision.
Context `{!HashesApi}.

(** Two inputs are a collision of a tagged hash. *)
Definition tagged_collision (tag : string) (x y : list byte) : Prop :=
  x ≠ y ∧ tagged_hash tag x = tagged_hash tag y.
Lemma tagged_collision_or tag x y : tagged_hash tag x = tagged_hash tag y → x = y ∨ tagged_collision tag x y.
Proof. destruct (decide (x = y)); [by left|by right]. Qed.
End tagged_collision.
