(* ===== verification/Wire.v ===== *)
(** The wallet-side wire protocol: the data types of
    [lc-wallet-core/src/wire.rs] that the session core reads and writes. The
    two functions the core calls on them ([serde_json::to_string] on [To],
    [serde_json::from_str] into [From]) are the interface [SerdeWire], which
    [WireCodec.v] implements. *)

From S2P Require Import Prelude Crates.

Abbreviation ReqId := Z (only parsing).

Record DurationMs := { as_millis : Z }.
Record InstallId := { install_bytes : bytesN 16 }.

Record Session := {
  ses_session_id : string;
  ses_domain : string;
  ses_is_local : bool;
}.

Record LoginRequest := {
  lr_request_id : string;
  lr_domain : string;
  lr_ttl : DurationMs;
  lr_service_challenge : option string;
}.

Record SignRequest := {
  sr_request_id : string;
  sr_domain : string;
  sr_pset : string;
  sr_ttl : DurationMs;
}.

Record SignMessageRequest := {
  smr_request_id : string;
  smr_domain : string;
  smr_digest : string;
  smr_description : option string;
  smr_ttl : DurationMs;
}.

Record ReceiveAddressRequest := {
  rar_request_id : string;
  rar_domain : string;
  rar_description : option string;
  rar_ttl : DurationMs;
}.

Record AssetBalanceRequest := {
  abr_request_id : string;
  abr_domain : string;
  abr_description : option string;
  abr_asset_id : string;
  abr_ttl : DurationMs;
}.

Record Holding := {
  hold_label : string;
  hold_kind : string;
  hold_asset_id : option string;
  hold_unit : string;
  hold_amount : Z;
  hold_precision : Z;
}.

Record HoldingsReport := {
  hr_domain : string;
  hr_holdings : list Holding;
  hr_as_of : Z;
}.

Record PayRequest := {
  pr_request_id : string;
  pr_domain : string;
  pr_recipient : string;
  pr_asset_id : string;
  pr_amount : Z;
  pr_memo : option string;
  pr_ttl : DurationMs;
}.

Record FundRequest := {
  fr_request_id : string;
  fr_domain : string;
  fr_template : string;
  fr_asset_id : string;
  fr_amount : Z;
  fr_memo : option string;
  fr_ttl : DurationMs;
}.

Module UserAction.
Inductive user_action :=
| LinkLoginRequest (request_id : string)
| AcceptLoginRequest (request_id descriptor : string) (service_key service_signature : option string)
| CancelLoginRequest (request_id : string)
| AcceptSignRequest (request_id pset : string)
| CancelSignRequest (request_id : string)
| AcceptSignMessageRequest (request_id signature : string)
| AcceptReceiveAddressRequest (request_id address : string)
| CancelReceiveAddressRequest (request_id : string)
| AcceptAssetBalanceRequest (request_id : string) (amount : Z)
| CancelAssetBalanceRequest (request_id : string)
| CancelSignMessageRequest (request_id : string)
| AcceptPayRequest (request_id txid : string)
| CancelPayRequest (request_id : string)
| AcceptFundRequest (request_id pset : string)
| CancelFundRequest (request_id : string)
| StopSession (session_id : string).
End UserAction.
Abbreviation user_action := UserAction.user_action.

Record LoginResp := {
  lresp_sessions : list Session;
  lresp_sign_requests : list SignRequest;
  lresp_sign_message_requests : list SignMessageRequest;
  lresp_pay_requests : list PayRequest;
  lresp_receive_address_requests : list ReceiveAddressRequest;
  lresp_asset_balance_requests : list AssetBalanceRequest;
  lresp_fund_requests : list FundRequest;
  lresp_holdings : list HoldingsReport;
}.

Inductive ErrorCode := InvalidRequest | Server | Unknown.
Record WireError := { err_code : ErrorCode; err_message : string }.

Section frames.
Context `{SchnorrApi}.

Record LoginReq := {
  lreq_public_key : bytes32;
  lreq_signature : Signature;
  lreq_install_id : option InstallId;
}.
End frames.

Module Req.
Inductive req `{SchnorrApi} :=
| Challenge
| Login (r : LoginReq)
| UserAction (action : user_action)
| RegisterFcm (token : string).
End Req.
Abbreviation req := Req.req.

Module Resp.
Inductive resp :=
| Challenge (challenge : string)
| Login (r : LoginResp)
| UserAction
| RegisterFcm.
End Resp.
Abbreviation resp := Resp.resp.

Module Notif.
Inductive notif :=
| SessionCreated (session : Session)
| SessionRemoved (session_id : string)
| LoginRequestCreated (request : LoginRequest)
| LoginRequestRemoved (request_id : string)
| SignRequestCreated (request : SignRequest)
| SignRequestRemoved (request_id : string)
| SignMessageRequestCreated (request : SignMessageRequest)
| SignMessageRequestRemoved (request_id : string)
| ReceiveAddressRequestCreated (request : ReceiveAddressRequest)
| ReceiveAddressRequestRemoved (request_id : string)
| AssetBalanceRequestCreated (request : AssetBalanceRequest)
| AssetBalanceRequestRemoved (request_id : string)
| PayRequestCreated (request : PayRequest)
| PayRequestRemoved (request_id : string)
| FundRequestCreated (request : FundRequest)
| FundRequestRemoved (request_id : string)
| HoldingsUpdated (report : HoldingsReport)
| HoldingsRemoved (domain : string).
End Notif.
Abbreviation notif := Notif.notif.

(** [To] has the one form [Req { id, req }]. *)
Record wire_to `{SchnorrApi} := ToReq { to_id : ReqId; to_req : req }.
Module From.
Inductive wire_from :=
| Resp (id : ReqId) (resp : resp)
| Error (id : ReqId) (err : WireError)
| Notif (notif : notif).
End From.
Abbreviation wire_from := From.wire_from.

(** [serde_json] on the derived codecs. *)
Class SerdeWire `{SchnorrApi} := {
  wire_to_string : wire_to → string;
  wire_from_str : string → option wire_from;
}.

Definition MAINNET_URL : string := "wss://api.sideswap.io/wallet-connect".
Definition TESTNET_URL : string := "wss://api-testnet.sideswap.io/wallet-connect".

(** [InstallId]: hex on the wire, both ways. *)
Section install_id.
Context `{HexApi}.
Definition install_id_to_string (i : InstallId) : string := hex_encode (slice (install_bytes i)).
Definition install_id_deserialize (text : string) : option InstallId :=
  Build_InstallId <$> hex_decode_to_slice 16 text.
End install_id.
