(* ===== verification/WireCodec.v ===== *)
(** The frames as JSON documents: the codecs serde derives for the types of
    [lc-wallet-core/src/wire.rs] - externally tagged enums, members under
    their Rust names, [DurationMs] a bare integer, [InstallId] hex - and the
    two functions of [SerdeWire] they give over the text of documents. *)

From S2P Require Import Prelude Crates Json Wire.

Definition duration_c : codec DurationMs := iso_c u64_c as_millis Build_DurationMs.

Definition session_c : codec Session :=
  struct (field "session_id" string_c ⊗ field "domain" string_c ⊗ field "is_local" bool_c)
    (λ s, (ses_session_id s, ses_domain s, ses_is_local s))
    (λ '(i, d, l), Build_Session i d l).
Definition login_request_c : codec LoginRequest :=
  struct (field "request_id" string_c ⊗ field "domain" string_c ⊗ field "ttl" duration_c
          ⊗ skip_field "service_challenge" string_c)
    (λ r, (lr_request_id r, lr_domain r, lr_ttl r, lr_service_challenge r))
    (λ '(i, d, t, c), Build_LoginRequest i d t c).
Definition sign_request_c : codec SignRequest :=
  struct (field "request_id" string_c ⊗ field "domain" string_c ⊗ field "pset" string_c ⊗ field "ttl" duration_c)
    (λ r, (sr_request_id r, sr_domain r, sr_pset r, sr_ttl r))
    (λ '(i, d, p, t), Build_SignRequest i d p t).
Definition sign_message_request_c : codec SignMessageRequest :=
  struct (field "request_id" string_c ⊗ field "domain" string_c ⊗ field "digest" string_c
          ⊗ opt_field "description" string_c ⊗ field "ttl" duration_c)
    (λ r, (smr_request_id r, smr_domain r, smr_digest r, smr_description r, smr_ttl r))
    (λ '(i, d, g, n, t), Build_SignMessageRequest i d g n t).
Definition receive_address_request_c : codec ReceiveAddressRequest :=
  struct (field "request_id" string_c ⊗ field "domain" string_c ⊗ opt_field "description" string_c
          ⊗ field "ttl" duration_c)
    (λ r, (rar_request_id r, rar_domain r, rar_description r, rar_ttl r))
    (λ '(i, d, n, t), Build_ReceiveAddressRequest i d n t).
Definition asset_balance_request_c : codec AssetBalanceRequest :=
  struct (field "request_id" string_c ⊗ field "domain" string_c ⊗ opt_field "description" string_c
          ⊗ field "asset_id" string_c ⊗ field "ttl" duration_c)
    (λ r, (abr_request_id r, abr_domain r, abr_description r, abr_asset_id r, abr_ttl r))
    (λ '(i, d, n, a, t), Build_AssetBalanceRequest i d n a t).
Definition holding_c : codec Holding :=
  struct (field "label" string_c ⊗ field "kind" string_c ⊗ opt_field "asset_id" string_c
          ⊗ field "unit" string_c ⊗ field "amount" i64_c ⊗ field "precision" u8_c)
    (λ h, (hold_label h, hold_kind h, hold_asset_id h, hold_unit h, hold_amount h, hold_precision h))
    (λ '(l, k, a, u, m, p), Build_Holding l k a u m p).
Definition holdings_report_c : codec HoldingsReport :=
  struct (field "domain" string_c ⊗ field "holdings" (list_c holding_c) ⊗ field "as_of" i64_c)
    (λ r, (hr_domain r, hr_holdings r, hr_as_of r))
    (λ '(d, h, a), Build_HoldingsReport d h a).
Definition pay_request_c : codec PayRequest :=
  struct (field "request_id" string_c ⊗ field "domain" string_c ⊗ field "recipient" string_c
          ⊗ field "asset_id" string_c ⊗ field "amount" u64_c ⊗ opt_field "memo" string_c ⊗ field "ttl" duration_c)
    (λ r, (pr_request_id r, pr_domain r, pr_recipient r, pr_asset_id r, pr_amount r, pr_memo r, pr_ttl r))
    (λ '(i, d, r, a, m, n, t), Build_PayRequest i d r a m n t).
Definition fund_request_c : codec FundRequest :=
  struct (field "request_id" string_c ⊗ field "domain" string_c ⊗ field "template" string_c
          ⊗ field "asset_id" string_c ⊗ field "amount" u64_c ⊗ opt_field "memo" string_c ⊗ field "ttl" duration_c)
    (λ r, (fr_request_id r, fr_domain r, fr_template r, fr_asset_id r, fr_amount r, fr_memo r, fr_ttl r))
    (λ '(i, d, r, a, m, n, t), Build_FundRequest i d r a m n t).

(** One-member structs, and the empty ones. *)
Definition member_c {A} (name : string) (c : codec A) : codec A := struct (field name c) id id.
Definition empty_c : codec unit := struct no_fields id id.
Abbreviation id_c := (member_c "request_id" string_c).
Definition id_and_c {A} (name : string) (c : codec A) : codec (string * A) :=
  struct (field "request_id" string_c ⊗ field name c) id id.

Definition accept_login_c : codec (string * string * option string * option string) :=
  struct (field "request_id" string_c ⊗ field "descriptor" string_c ⊗ skip_field "service_key" string_c
          ⊗ skip_field "service_signature" string_c) id id.
Definition action_json (a : user_action) : string * option json :=
  match a with
  | UserAction.LinkLoginRequest i => ("LinkLoginRequest", Some (enc id_c i))
  | UserAction.AcceptLoginRequest i d k s => ("AcceptLoginRequest", Some (enc accept_login_c (i, d, k, s)))
  | UserAction.CancelLoginRequest i => ("CancelLoginRequest", Some (enc id_c i))
  | UserAction.AcceptSignRequest i p => ("AcceptSignRequest", Some (enc (id_and_c "pset" string_c) (i, p)))
  | UserAction.CancelSignRequest i => ("CancelSignRequest", Some (enc id_c i))
  | UserAction.AcceptSignMessageRequest i s =>
      ("AcceptSignMessageRequest", Some (enc (id_and_c "signature" string_c) (i, s)))
  | UserAction.AcceptReceiveAddressRequest i a =>
      ("AcceptReceiveAddressRequest", Some (enc (id_and_c "address" string_c) (i, a)))
  | UserAction.CancelReceiveAddressRequest i => ("CancelReceiveAddressRequest", Some (enc id_c i))
  | UserAction.AcceptAssetBalanceRequest i m =>
      ("AcceptAssetBalanceRequest", Some (enc (id_and_c "amount" u64_c) (i, m)))
  | UserAction.CancelAssetBalanceRequest i => ("CancelAssetBalanceRequest", Some (enc id_c i))
  | UserAction.CancelSignMessageRequest i => ("CancelSignMessageRequest", Some (enc id_c i))
  | UserAction.AcceptPayRequest i t => ("AcceptPayRequest", Some (enc (id_and_c "txid" string_c) (i, t)))
  | UserAction.CancelPayRequest i => ("CancelPayRequest", Some (enc id_c i))
  | UserAction.AcceptFundRequest i p => ("AcceptFundRequest", Some (enc (id_and_c "pset" string_c) (i, p)))
  | UserAction.CancelFundRequest i => ("CancelFundRequest", Some (enc id_c i))
  | UserAction.StopSession i => ("StopSession", Some (enc (member_c "session_id" string_c) i))
  end.
Definition user_action_c : codec user_action :=
  enum action_json
    [("LinkLoginRequest", content id_c UserAction.LinkLoginRequest);
     ("AcceptLoginRequest", content accept_login_c (λ '(i, d, k, s), UserAction.AcceptLoginRequest i d k s));
     ("CancelLoginRequest", content id_c UserAction.CancelLoginRequest);
     ("AcceptSignRequest", content (id_and_c "pset" string_c) (uncurry UserAction.AcceptSignRequest));
     ("CancelSignRequest", content id_c UserAction.CancelSignRequest);
     ("AcceptSignMessageRequest",
       content (id_and_c "signature" string_c) (uncurry UserAction.AcceptSignMessageRequest));
     ("AcceptReceiveAddressRequest",
       content (id_and_c "address" string_c) (uncurry UserAction.AcceptReceiveAddressRequest));
     ("CancelReceiveAddressRequest", content id_c UserAction.CancelReceiveAddressRequest);
     ("AcceptAssetBalanceRequest",
       content (id_and_c "amount" u64_c) (uncurry UserAction.AcceptAssetBalanceRequest));
     ("CancelAssetBalanceRequest", content id_c UserAction.CancelAssetBalanceRequest);
     ("CancelSignMessageRequest", content id_c UserAction.CancelSignMessageRequest);
     ("AcceptPayRequest", content (id_and_c "txid" string_c) (uncurry UserAction.AcceptPayRequest));
     ("CancelPayRequest", content id_c UserAction.CancelPayRequest);
     ("AcceptFundRequest", content (id_and_c "pset" string_c) (uncurry UserAction.AcceptFundRequest));
     ("CancelFundRequest", content id_c UserAction.CancelFundRequest);
     ("StopSession", content (member_c "session_id" string_c) UserAction.StopSession)] None.

Definition login_resp_c : codec LoginResp :=
  struct (field "sessions" (list_c session_c) ⊗ field "sign_requests" (list_c sign_request_c)
          ⊗ default_field "sign_message_requests" (list_c sign_message_request_c) []
          ⊗ default_field "pay_requests" (list_c pay_request_c) []
          ⊗ default_field "receive_address_requests" (list_c receive_address_request_c) []
          ⊗ default_field "asset_balance_requests" (list_c asset_balance_request_c) []
          ⊗ default_field "fund_requests" (list_c fund_request_c) []
          ⊗ default_field "holdings" (list_c holdings_report_c) [])
    (λ r, (lresp_sessions r, lresp_sign_requests r, lresp_sign_message_requests r, lresp_pay_requests r,
           lresp_receive_address_requests r, lresp_asset_balance_requests r, lresp_fund_requests r,
           lresp_holdings r))
    (λ '(s, q, m, p, a, b, f, h), Build_LoginResp s q m p a b f h).

Definition error_code_c : codec ErrorCode :=
  enum (λ c, (match c with InvalidRequest => "InvalidRequest" | Server => "Server" | Unknown => "Unknown" end, None))
    [("InvalidRequest", unit_content InvalidRequest); ("Server", unit_content Server)] (Some Unknown).
Definition error_c : codec WireError :=
  struct (field "code" error_code_c ⊗ field "message" string_c)
    (λ e, (err_code e, err_message e)) (λ '(c, m), Build_WireError c m).

Definition resp_c : codec resp :=
  enum (λ r, match r with
    | Resp.Challenge c => ("Challenge", Some (enc (member_c "challenge" string_c) c))
    | Resp.Login r => ("Login", Some (enc login_resp_c r))
    | Resp.UserAction => ("UserAction", Some (enc empty_c ()))
    | Resp.RegisterFcm => ("RegisterFcm", Some (enc empty_c ()))
    end)
    [("Challenge", content (member_c "challenge" string_c) Resp.Challenge);
     ("Login", content login_resp_c Resp.Login);
     ("UserAction", content empty_c (λ _, Resp.UserAction));
     ("RegisterFcm", content empty_c (λ _, Resp.RegisterFcm))] None.

Abbreviation request_c := (member_c "request").
Definition notif_c : codec notif :=
  enum (λ n, match n with
    | Notif.SessionCreated s => ("SessionCreated", Some (enc (member_c "session" session_c) s))
    | Notif.SessionRemoved i => ("SessionRemoved", Some (enc (member_c "session_id" string_c) i))
    | Notif.LoginRequestCreated r => ("LoginRequestCreated", Some (enc (request_c login_request_c) r))
    | Notif.LoginRequestRemoved i => ("LoginRequestRemoved", Some (enc id_c i))
    | Notif.SignRequestCreated r => ("SignRequestCreated", Some (enc (request_c sign_request_c) r))
    | Notif.SignRequestRemoved i => ("SignRequestRemoved", Some (enc id_c i))
    | Notif.SignMessageRequestCreated r =>
        ("SignMessageRequestCreated", Some (enc (request_c sign_message_request_c) r))
    | Notif.SignMessageRequestRemoved i => ("SignMessageRequestRemoved", Some (enc id_c i))
    | Notif.ReceiveAddressRequestCreated r =>
        ("ReceiveAddressRequestCreated", Some (enc (request_c receive_address_request_c) r))
    | Notif.ReceiveAddressRequestRemoved i => ("ReceiveAddressRequestRemoved", Some (enc id_c i))
    | Notif.AssetBalanceRequestCreated r =>
        ("AssetBalanceRequestCreated", Some (enc (request_c asset_balance_request_c) r))
    | Notif.AssetBalanceRequestRemoved i => ("AssetBalanceRequestRemoved", Some (enc id_c i))
    | Notif.PayRequestCreated r => ("PayRequestCreated", Some (enc (request_c pay_request_c) r))
    | Notif.PayRequestRemoved i => ("PayRequestRemoved", Some (enc id_c i))
    | Notif.FundRequestCreated r => ("FundRequestCreated", Some (enc (request_c fund_request_c) r))
    | Notif.FundRequestRemoved i => ("FundRequestRemoved", Some (enc id_c i))
    | Notif.HoldingsUpdated r => ("HoldingsUpdated", Some (enc (member_c "report" holdings_report_c) r))
    | Notif.HoldingsRemoved d => ("HoldingsRemoved", Some (enc (member_c "domain" string_c) d))
    end)
    [("SessionCreated", content (member_c "session" session_c) Notif.SessionCreated);
     ("SessionRemoved", content (member_c "session_id" string_c) Notif.SessionRemoved);
     ("LoginRequestCreated", content (request_c login_request_c) Notif.LoginRequestCreated);
     ("LoginRequestRemoved", content id_c Notif.LoginRequestRemoved);
     ("SignRequestCreated", content (request_c sign_request_c) Notif.SignRequestCreated);
     ("SignRequestRemoved", content id_c Notif.SignRequestRemoved);
     ("SignMessageRequestCreated", content (request_c sign_message_request_c) Notif.SignMessageRequestCreated);
     ("SignMessageRequestRemoved", content id_c Notif.SignMessageRequestRemoved);
     ("ReceiveAddressRequestCreated",
       content (request_c receive_address_request_c) Notif.ReceiveAddressRequestCreated);
     ("ReceiveAddressRequestRemoved", content id_c Notif.ReceiveAddressRequestRemoved);
     ("AssetBalanceRequestCreated", content (request_c asset_balance_request_c) Notif.AssetBalanceRequestCreated);
     ("AssetBalanceRequestRemoved", content id_c Notif.AssetBalanceRequestRemoved);
     ("PayRequestCreated", content (request_c pay_request_c) Notif.PayRequestCreated);
     ("PayRequestRemoved", content id_c Notif.PayRequestRemoved);
     ("FundRequestCreated", content (request_c fund_request_c) Notif.FundRequestCreated);
     ("FundRequestRemoved", content id_c Notif.FundRequestRemoved);
     ("HoldingsUpdated", content (member_c "report" holdings_report_c) Notif.HoldingsUpdated);
     ("HoldingsRemoved", content (member_c "domain" string_c) Notif.HoldingsRemoved)] None.

(** The envelopes. A struct variant has the members of a struct. *)
Definition id_member {A} (name : string) (c : codec A) : codec (Z * A) :=
  struct (field "id" i32_c ⊗ field name c) id id.
Definition wire_from_c : codec wire_from :=
  enum (λ m, match m with
    | From.Resp i r => ("Resp", Some (enc (id_member "resp" resp_c) (i, r)))
    | From.Error i e => ("Error", Some (enc (id_member "err" error_c) (i, e)))
    | From.Notif n => ("Notif", Some (enc (member_c "notif" notif_c) n))
    end)
    [("Resp", content (id_member "resp" resp_c) (uncurry From.Resp));
     ("Error", content (id_member "err" error_c) (uncurry From.Error));
     ("Notif", content (member_c "notif" notif_c) From.Notif)] None.

Section to.
Context `{!SchnorrApi, !HexApi, !XonlyText}.

Definition install_id_c : codec InstallId := text_c install_id_to_string install_id_deserialize.
Definition login_req_c : codec LoginReq :=
  struct (field "public_key" (text_c xonly_to_string xonly_from_str)
          ⊗ field "signature" (text_c signature_to_string signature_parse)
          ⊗ opt_field "install_id" install_id_c)
    (λ r, (lreq_public_key r, lreq_signature r, lreq_install_id r))
    (λ '(k, s, i), {| lreq_public_key := k; lreq_signature := s; lreq_install_id := i |}).
Definition req_c : codec req :=
  enum (λ r, match r with
    | Req.Challenge => ("Challenge", Some (enc empty_c ()))
    | Req.Login r => ("Login", Some (enc login_req_c r))
    | Req.UserAction a => ("UserAction", Some (enc (member_c "action" user_action_c) a))
    | Req.RegisterFcm t => ("RegisterFcm", Some (enc (member_c "token" string_c) t))
    end)
    [("Challenge", content empty_c (λ _, Req.Challenge));
     ("Login", content login_req_c Req.Login);
     ("UserAction", content (member_c "action" user_action_c) Req.UserAction);
     ("RegisterFcm", content (member_c "token" string_c) Req.RegisterFcm)] None.
Definition wire_to_c : codec wire_to :=
  enum (λ m, ("Req", Some (enc (id_member "req" req_c) (to_id m, to_req m))))
    [("Req", content (id_member "req" req_c) (λ p, {| to_id := p.1; to_req := p.2 |}))] None.

(** [serde_json::to_string] and [from_str]: the text of a document. *)
Class JsonText := {
  json_to_text : json → string;
  json_of_text : string → option json;
}.
Definition serde_json_wire `{!JsonText} : SerdeWire :=
  {| wire_to_string := λ m, json_to_text (enc wire_to_c m);
     wire_from_str := λ text, j ← json_of_text text; dec wire_from_c j |}.
End to.
