(* ===== verification/WireCodecSpec.v ===== *)
(** The wire format: what one side writes the other side reads, newer peers
    may add members, older ones may leave the defaulted ones out, and two
    different actions never share a frame. *)

From S2P Require Import Prelude Crates Json Wire WireCodec.

(** * Values whose integers fit their types *)

Definition ttl_fits (d : DurationMs) : Prop := 0 ≤ as_millis d ≤ 2 ^ 64 - 1.
Definition i64_fits (z : Z) : Prop := - 2 ^ 63 ≤ z ≤ 2 ^ 63 - 1.
Definition u64_fits (z : Z) : Prop := 0 ≤ z ≤ 2 ^ 64 - 1.
Definition i32_fits (z : Z) : Prop := - 2 ^ 31 ≤ z ≤ 2 ^ 31 - 1.
Definition holding_fits (h : Holding) : Prop := i64_fits (hold_amount h) ∧ 0 ≤ hold_precision h ≤ 255.
Definition report_fits (r : HoldingsReport) : Prop := Forall holding_fits (hr_holdings r) ∧ i64_fits (hr_as_of r).
Definition pay_fits (r : PayRequest) : Prop := u64_fits (pr_amount r) ∧ ttl_fits (pr_ttl r).
Definition fund_fits (r : FundRequest) : Prop := u64_fits (fr_amount r) ∧ ttl_fits (fr_ttl r).
Definition action_fits (a : user_action) : Prop :=
  match a with UserAction.AcceptAssetBalanceRequest _ amount => u64_fits amount | _ => True end.
Definition login_resp_fits (r : LoginResp) : Prop :=
  Forall (ttl_fits ∘ sr_ttl) (lresp_sign_requests r) ∧
  Forall (ttl_fits ∘ smr_ttl) (lresp_sign_message_requests r) ∧
  Forall pay_fits (lresp_pay_requests r) ∧
  Forall (ttl_fits ∘ rar_ttl) (lresp_receive_address_requests r) ∧
  Forall (ttl_fits ∘ abr_ttl) (lresp_asset_balance_requests r) ∧
  Forall fund_fits (lresp_fund_requests r) ∧ Forall report_fits (lresp_holdings r).
Definition notif_fits (n : notif) : Prop :=
  match n with
  | Notif.LoginRequestCreated r => ttl_fits (lr_ttl r)
  | Notif.SignRequestCreated r => ttl_fits (sr_ttl r)
  | Notif.SignMessageRequestCreated r => ttl_fits (smr_ttl r)
  | Notif.ReceiveAddressRequestCreated r => ttl_fits (rar_ttl r)
  | Notif.AssetBalanceRequestCreated r => ttl_fits (abr_ttl r)
  | Notif.PayRequestCreated r => pay_fits r
  | Notif.FundRequestCreated r => fund_fits r
  | Notif.HoldingsUpdated r => report_fits r
  | _ => True
  end.
Definition from_fits (m : wire_from) : Prop :=
  match m with
  | From.Resp i (Resp.Login r) => i32_fits i ∧ login_resp_fits r
  | From.Resp i _ | From.Error i _ => i32_fits i
  | From.Notif n => notif_fits n
  end.

(** * The structs *)

Lemma not_null_string : not_null string_c.
Proof. done. Qed.
Lemma duration_ok : codec_ok duration_c ttl_fits.
Proof.
  refine (iso_ok u64_c as_millis Build_DurationMs (λ z, 0 ≤ z ≤ 2 ^ 64 - 1) _ _); [by apply int_ok|by intros []].
Qed.
#[export] Hint Resolve not_null_string duration_ok : codecs.

(** A struct codec: distinct names, codecs member by member, and the record
    rebuilt from its members. *)
Ltac fields_tac :=
  repeat first
    [ apply both_ok | apply no_fields_ok
    | eapply opt_field_ok; [apply string_ok|done]
    | eapply skip_field_ok; [apply string_ok|done]
    | eapply default_field_ok; eauto with codecs nocore
    | eapply field_ok; eauto with codecs nocore ].
Ltac struct_tac :=
  eapply codec_ok_impl;
    [ eapply struct_ok; [apply (bool_decide_unpack _); vm_compute; exact I | fields_tac | by intros []]
    | unfold holding_fits, report_fits, pay_fits, fund_fits, login_resp_fits, ttl_fits, u64_fits, i64_fits, compose;
      intros a Ha; simpl in *; destruct_and?; split_and!; try done; try lia; by apply Forall_true ].

Lemma session_ok : codec_ok session_c (λ _, True).
Proof. struct_tac. Qed.
Lemma login_request_ok : codec_ok login_request_c (ttl_fits ∘ lr_ttl).
Proof. struct_tac. Qed.
Lemma sign_request_ok : codec_ok sign_request_c (ttl_fits ∘ sr_ttl).
Proof. struct_tac. Qed.
Lemma sign_message_request_ok : codec_ok sign_message_request_c (ttl_fits ∘ smr_ttl).
Proof. struct_tac. Qed.
Lemma receive_address_request_ok : codec_ok receive_address_request_c (ttl_fits ∘ rar_ttl).
Proof. struct_tac. Qed.
Lemma asset_balance_request_ok : codec_ok asset_balance_request_c (ttl_fits ∘ abr_ttl).
Proof. struct_tac. Qed.
Lemma holding_ok : codec_ok holding_c holding_fits.
Proof. struct_tac. Qed.
#[export] Hint Resolve session_ok login_request_ok sign_request_ok sign_message_request_ok
  receive_address_request_ok asset_balance_request_ok holding_ok : codecs.
Lemma holdings_report_ok : codec_ok holdings_report_c report_fits.
Proof. struct_tac. Qed.
Lemma pay_request_ok : codec_ok pay_request_c pay_fits.
Proof. struct_tac. Qed.
Lemma fund_request_ok : codec_ok fund_request_c fund_fits.
Proof. struct_tac. Qed.
#[export] Hint Resolve holdings_report_ok pay_request_ok fund_request_ok : codecs.
Lemma login_resp_ok : codec_ok login_resp_c login_resp_fits.
Proof. struct_tac. Qed.
#[export] Hint Resolve login_resp_ok : codecs.

Lemma member_ok {real A} name (c : codec A) fits :
  codec_ok_at real c fits → codec_ok_at real (member_c name c) fits.
Proof.
  intros Hc. refine (struct_ok (field name c) id id fits _ (field_ok name c fits Hc) _); [|done].
  apply NoDup_singleton.
Qed.
Lemma empty_ok {real} : codec_ok_at real empty_c (λ _, True).
Proof. refine (struct_ok no_fields id id (λ _, True) _ (no_fields_ok _) _); [apply NoDup_nil_2|done]. Qed.
Lemma id_and_ok {A} name (c : codec A) fits :
  name ≠ "request_id" → codec_ok c fits → codec_ok (id_and_c name c) (λ p, fits p.2).
Proof.
  intros Hn Hc. eapply codec_ok_impl.
  - eapply (struct_ok (field "request_id" string_c ⊗ field name c) id id); [|fields_tac; exact Hc|done].
    simpl. apply NoDup_cons. split; [|apply NoDup_singleton]. by rewrite list_elem_of_singleton.
  - by intros [i a] Ha.
Qed.
Lemma id_member_ok {A} name (c : codec A) fits :
  name ≠ "id" → codec_ok c fits → codec_ok (id_member name c) (λ p, i32_fits p.1 ∧ fits p.2).
Proof.
  intros Hn Hc. eapply codec_ok_impl.
  - eapply (struct_ok (field "id" i32_c ⊗ field name c) id id); [|apply both_ok; apply field_ok|done].
    + simpl. apply NoDup_cons. split; [|apply NoDup_singleton]. by rewrite list_elem_of_singleton.
    + by apply int_ok.
    + exact Hc.
  - intros [i a] Ha. exact Ha.
Qed.
Lemma accept_login_ok : codec_ok accept_login_c (λ _, True).
Proof. struct_tac. Qed.
#[export] Hint Resolve member_ok empty_ok accept_login_ok : codecs.

(** * The enums *)

#[export] Hint Resolve id_and_ok id_member_ok : codecs.
#[export] Hint Extern 0 (_ ≠ _) => done : codecs.
(** Each variant: what its content's codec says. *)
Ltac variant_tac :=
  cbn [snd];
  match goal with
  | |- _ ∧ content ?c ?inj (Some (enc _ ?x)) = _ =>
      refine (content_ok c inj _ x _ _); [solve [eauto with codecs]|]
  end.

Lemma user_action_ok : codec_ok user_action_c action_fits.
Proof.
  apply enum_ok. intros a Ha. destruct a; simpl variant_of; cbn iota beta; cbn [action_json];
    variant_tac; try exact I; exact Ha.
Qed.
Lemma error_code_ok : codec_ok error_code_c (λ _, True).
Proof. apply enum_ok. by intros []. Qed.
#[export] Hint Resolve user_action_ok error_code_ok : codecs.
Lemma error_ok : codec_ok error_c (λ _, True).
Proof. struct_tac. Qed.
Definition resp_fits (r : resp) : Prop := match r with Resp.Login r => login_resp_fits r | _ => True end.
Lemma resp_ok : codec_ok resp_c resp_fits.
Proof. apply enum_ok. intros r Hr. destruct r; simpl variant_of; cbn iota beta; variant_tac; try exact I; exact Hr. Qed.
Lemma notif_ok : codec_ok notif_c notif_fits.
Proof. apply enum_ok. intros n Hn. destruct n; simpl variant_of; cbn iota beta; variant_tac; try exact I; exact Hn. Qed.
#[export] Hint Resolve error_ok resp_ok notif_ok : codecs.
Lemma wire_from_ok : codec_ok wire_from_c from_fits.
Proof.
  apply enum_ok. intros m Hm. destruct m; simpl variant_of; cbn iota beta; variant_tac; [|by split|exact Hm].
  destruct resp; [by split|exact Hm|by split..].
Qed.

(** A login reply whose server leaves some members out, each with the empty
    default that stood for it, and adds some the wallet does not know. *)
Definition other_login (keep : string → bool) (extra : list (string * json)) (r : LoginResp) : json :=
  match enc login_resp_c r with JObj members => JObj (keep_members keep members ++ extra) | j => j end.
Definition login_members : list string :=
  ["sessions"; "sign_requests"; "sign_message_requests"; "pay_requests"; "receive_address_requests";
   "asset_balance_requests"; "fund_requests"; "holdings"].
Definition droppable (keep : string → bool) (r : LoginResp) : Prop :=
  keep "sessions" = true ∧ keep "sign_requests" = true ∧
  (keep "sign_message_requests" = false → lresp_sign_message_requests r = []) ∧
  (keep "pay_requests" = false → lresp_pay_requests r = []) ∧
  (keep "receive_address_requests" = false → lresp_receive_address_requests r = []) ∧
  (keep "asset_balance_requests" = false → lresp_asset_balance_requests r = []) ∧
  (keep "fund_requests" = false → lresp_fund_requests r = []) ∧
  (keep "holdings" = false → lresp_holdings r = []).

Ltac keeps_tac :=
  repeat first
    [ eapply both_keeps; [solve [fields_tac]|solve [fields_tac]| |]
    | eapply default_keeps; eauto with codecs nocore
    | eapply field_keeps; eauto with codecs nocore ].
Lemma other_login_read keep extra r :
  login_resp_fits r → droppable keep r → (∀ name, name ∈ login_members → name ∉ extra.*1) →
  dec login_resp_c (other_login keep extra r) = Some r.
Proof.
  intros (? & ? & ? & ? & ? & ? & ?) (? & ? & ? & ? & ? & ? & ? & ?) Hx. unfold other_login, login_resp_c.
  eapply struct_keeps.
  - apply (bool_decide_unpack _). vm_compute. exact I.
  - fields_tac.
  - keeps_tac.
  - by destruct r.
  - simpl. split_and!; try done; by apply Forall_true.
  - exact Hx.
Qed.

Section to.
Context `{!SchnorrApi, !HexApi, !XonlyText}.
(** The documented text forms of keys, signatures and ids. *)
Context (xonly_roundtrip : ∀ k, xonly_from_str (xonly_to_string k) = Some k).
Context (signature_roundtrip : ∀ s, signature_parse (signature_to_string s) = Some s).
Context (hex_roundtrip : ∀ n (a : bytesN n), hex_decode_to_slice n (hex_encode (slice a)) = Some a).

Definition req_fits (r : req) : Prop := match r with Req.UserAction a => action_fits a | _ => True end.
Definition to_fits (m : wire_to) : Prop := i32_fits (to_id m) ∧ req_fits (to_req m).

Lemma install_id_ok : codec_ok install_id_c (λ _, True).
Proof.
  apply text_ok. intros [i] _. unfold install_id_deserialize, install_id_to_string. simpl.
  by rewrite hex_roundtrip.
Qed.
Lemma login_req_ok : codec_ok login_req_c (λ _, True).
Proof.
  eapply codec_ok_impl.
  - eapply (struct_ok _ _ _ (λ _, True)); [apply (bool_decide_unpack _); vm_compute; exact I| |by intros []].
    assert (∀ {A} (f : fields A) fits, fields_ok f fits → (∀ a, fits a) → fields_ok f (λ _, True)) as Hall.
    { intros A f fits [Hl Hp Hd] Ha. split; auto. }
    eapply Hall.
    + apply both_ok; [apply both_ok; apply field_ok, (text_ok _ _ (λ _, True)); auto|].
      eapply opt_field_ok; [exact install_id_ok|done].
    + intros [[? ?] ?]. split_and!; done.
  - done.
Qed.
#[local] Hint Resolve login_req_ok : codecs.
Lemma req_ok : codec_ok req_c req_fits.
Proof. apply enum_ok. intros r Hr. destruct r; simpl variant_of; cbn iota beta; variant_tac; try exact I; exact Hr. Qed.
#[local] Hint Resolve req_ok : codecs.
Lemma wire_to_ok : codec_ok wire_to_c to_fits.
Proof. apply enum_ok. intros [i r] Hm. simpl variant_of; cbn iota beta; variant_tac. exact Hm. Qed.

(** * Frames as texts *)

Context `{!JsonText}.
(** [serde_json] reads back a document whose numbers are integers it holds. *)
Context (text_roundtrip : ∀ j, json_plain j = true → json_of_text (json_to_text j) = Some j).
#[local] Existing Instance serde_json_wire.

(** The service's side: what it reads, and what it writes. *)
Definition service_read (text : string) : option wire_to := j ← json_of_text text; dec wire_to_c j.
Definition service_write (m : wire_from) : string := json_to_text (enc wire_from_c m).

Lemma service_read_string m : to_fits m → service_read (wire_to_string m) = Some m.
Proof.
  intros Hm. unfold service_read. simpl. rewrite text_roundtrip by by apply wire_to_ok. by apply (co_dec wire_to_ok).
Qed.
Lemma wire_from_write m : from_fits m → wire_from_str (service_write m) = Some m.
Proof.
  intros Hm. unfold service_write. simpl. rewrite text_roundtrip by by apply wire_from_ok.
  by apply (co_dec wire_from_ok).
Qed.

(** C4. The two sides understand each other: the service reads back every
    message the wallet writes and the wallet every message the service
    writes, integers at their widths, optional members present or not, for
    every variant; so two different messages of the wallet never share a
    text. *)
Theorem wire_roundtrip :
  (∀ m, to_fits m → service_read (wire_to_string m) = Some m) ∧
  (∀ m, from_fits m → wire_from_str (service_write m) = Some m) ∧
  (∀ m m', to_fits m → to_fits m' → wire_to_string m = wire_to_string m' → m = m').
Proof.
  split_and!; [exact service_read_string|exact wire_from_write|]. intros m m' Hm Hm' E.
  apply service_read_string in Hm, Hm'. rewrite E in Hm. congruence.
Qed.
End to.
