(* ===== verification/Key.v ===== *)
(** The wallet's Connect identity key ([lc-wallet-core/src/key.rs]): its
    derivation from the master blinding key and a per-network salt, and the
    messages it signs. *)

From S2P Require Import Prelude Crates.

Inductive Network := Liquid | LiquidTestnet | Regtest.
#[export] Instance network_eq_dec : EqDecision Network.
Proof. solve_decision. Defined.

Definition network_salt (network : Network) : list byte :=
  match network with
  | Liquid => hex_lit "3f101e5de26db05ca3b4dc4e964b7889ff4bcb7006a89b14f5c9f5b7970b66db"
  | LiquidTestnet => hex_lit "54151998bcf5347784eeda549407815d3390742d451221416a65a3ed7d739a34"
  | Regtest => hex_lit "c96036d788d756a16fdfb427bc70d0b681315224c3d1c12cc9efc6ace2358c13"
  end.

Section key.
Context `{HashesApi, SchnorrApi}.

Definition identity_auth_text (challenge action value : string) : string :=
  "liquidconnect identity, nonce: " +:+ challenge +:+ ", action: " +:+ action
    +:+ ", value: " +:+ value.

Definition identity_auth_message (challenge action value : string) : bytes32 :=
  tagged_hash "liquidconnect/identity" (as_bytes (identity_auth_text challenge action value)).

Definition get_sign_message_hash (challenge : string) : bytes32 :=
  tagged_hash "sideswap/sign" (as_bytes ("sideswap login, nonce: " +:+ challenge)).

Record WalletKey := { wk_keypair : Keypair }.

Definition wallet_secret_key (master_blinding_key : list byte) (network : Network) : bytes32 :=
  tagged_hash "sideswap/wallet_key" (network_salt network ++ master_blinding_key).

(** [None] is the [expect("must not fail")] panic. *)
Definition WalletKey_new (master_blinding_key : list byte) (network : Network) : option WalletKey :=
  Build_WalletKey <$> keypair_from_seckey (wallet_secret_key master_blinding_key network).

(** [ephemeral], the random seed as an argument. *)
Definition WalletKey_ephemeral (seed : bytes32) : option WalletKey :=
  WalletKey_new (slice seed) LiquidTestnet.

Definition wk_public_key (k : WalletKey) : bytes32 := x_only_public_key (wk_keypair k).
Definition wk_sign_challenge (k : WalletKey) (challenge : string) : Signature :=
  sign_schnorr (get_sign_message_hash challenge) (wk_keypair k).
Definition wk_sign_digest (k : WalletKey) (digest : bytes32) : Signature :=
  sign_schnorr digest (wk_keypair k).
Definition wk_sign_identity (k : WalletKey) (challenge action value : string) : Signature :=
  sign_schnorr (identity_auth_message challenge action value) (wk_keypair k).

(** One wallet, one identity per network: two derivations give the same
    secret key only from the same master blinding key on the same network,
    or their inputs are a collision of the wallet-key hash. *)
Theorem wallet_key_separated mbk mbk' network network' :
  wallet_secret_key mbk network = wallet_secret_key mbk' network' →
  (mbk = mbk' ∧ network = network') ∨
  tagged_collision "sideswap/wallet_key" (network_salt network ++ mbk) (network_salt network' ++ mbk').
Proof.
  intros [E|?]%tagged_collision_or; [left|by right].
  apply app_inj_length in E as [Hsalt ->]; [|by destruct network, network'].
  split; [done|]. by destruct network, network'.
Qed.
End key.
