(* ===== verification/Link.v ===== *)
(** App-link and QR payload parsing ([lc-wallet-core/src/link.rs]). *)

From S2P Require Import Prelude Crates Key.

Inductive LinkType := LinkLogin | LinkSign | LinkOpen.
#[export] Instance link_type_eq_dec : EqDecision LinkType.
Proof. solve_decision. Defined.

Record AppLink := {
  al_link_type : LinkType;
  al_request_id : string;
  al_is_mobile : bool;
  al_network : option Network;
}.

Record VenueLoginLink := {
  vl_venue : string;
  vl_link_code : string;
  vl_network : option Network;
}.

(** [query_pairs().collect::<BTreeMap<_, _>>()]: the last value of a key
    wins. *)
Definition collect_params (pairs : list (string * string)) : gmap string string :=
  foldl (λ m '(k, v), <[k := v]> m) ∅ pairs.

Definition parse_network_param (params : gmap string string) : result string (option Network) :=
  match params !! "network" with
  | None => Ok None
  | Some v =>
      if bool_decide (v = "liquid") || bool_decide (v = "mainnet") then Ok (Some Liquid)
      else if bool_decide (v = "liquid-testnet") || bool_decide (v = "testnet")
      then Ok (Some LiquidTestnet)
      else if bool_decide (v = "liquid-regtest") || bool_decide (v = "regtest")
      then Ok (Some Regtest)
      else Err ("unknown network in link: " +:+ v)
  end.

(** The [match (url.scheme(), domain.as_str(), url.path())] of
    [parse_app_link]. *)
Definition match_destination (scheme domain path : string) : result string LinkType :=
  let is_ s d p :=
    bool_decide (scheme = s) && bool_decide (domain = d) && bool_decide (path = p) in
  if is_ "https" "app.sideswap.io" "/login/" || is_ "liquidconnect" "login" "/" then Ok LinkLogin
  else if is_ "https" "app.sideswap.io" "/sign/" || is_ "liquidconnect" "sign" "/" then Ok LinkSign
  else if is_ "liquidconnect" "request" "/" then Ok LinkOpen
  else Err "unsupported URL".

(** The condition on [venue] of [parse_venue_login_link]. *)
Definition venue_ok (venue : string) : bool :=
  negb (bool_decide (venue = ""))
  && string_contains "." venue
  && string_all (λ b, is_ascii_alphanumeric b || bool_decide (b = "."%char) || bool_decide (b = "-"%char))
       venue
  && negb (existsb (λ label, bool_decide (label = "")) (split_on "." venue))
  && forallb (λ label, bool_decide (parse_uint 255 label = None)) (split_on "." venue).

Section link.
Context `{UrlApi}.

Definition parse_app_link (text : string) : result string AppLink :=
  url ← ok_or (url_parse text) "invalid URL";
  host ← ok_or (url_host url) "no host";
  domain ← match host with
           | HostDomain domain => Ok domain
           | HostIpv4 => Err "ipv4 links are not supported"
           | HostIpv6 => Err "ipv6 links are not supported"
           end;
  _ ← ensure (bool_decide (url_port url = None)) "condition failed: url.port().is_none()";
  let params := collect_params (url_query_pairs url) in
  is_mobile ← match params !! "mobile" with
              | None => Ok false
              | Some value => ok_or (bool_from_str value) "invalid `mobile` query parameter value"
              end;
  request_id ← ok_or (params !! "request_id") "invalid link: no request_id query parameter";
  network ← parse_network_param params;
  link_type ← match_destination (url_scheme url) domain (url_path url);
  Ok {| al_link_type := link_type; al_request_id := request_id;
        al_is_mobile := is_mobile; al_network := network |}.

Definition parse_venue_login_link (text : string) : result string VenueLoginLink :=
  url ← ok_or (url_parse text) "invalid URL";
  _ ← ensure (bool_decide (url_scheme url = "liquidconnect")
              && bool_decide (url_host_str url = Some "venue-login")
              && (bool_decide (url_path url = "") || bool_decide (url_path url = "/")))
        "unsupported URL";
  let params := collect_params (url_query_pairs url) in
  venue0 ← ok_or (params !! "venue") "invalid link: no venue query parameter";
  let venue := to_ascii_lowercase venue0 in
  _ ← ensure (venue_ok venue) "venue must be a bare domain name";
  link_code ← ok_or (params !! "link") "invalid link: no link query parameter";
  _ ← ensure (negb (bool_decide (link_code = ""))) "empty link code";
  network ← parse_network_param params;
  Ok {| vl_venue := venue; vl_link_code := link_code; vl_network := network |}.
End link.

(** * Query parameters *)

(** The last value a query gives a key, read off the pairs directly. *)
Fixpoint last_param (k : string) (pairs : list (string * string)) : option string :=
  match pairs with
  | [] => None
  | (k', v) :: pairs =>
      match last_param k pairs with
      | Some w => Some w
      | None => if decide (k' = k) then Some v else None
      end
  end.

Lemma collect_params_lookup pairs k : collect_params pairs !! k = last_param k pairs.
Proof.
  unfold collect_params.
  enough (∀ m : gmap string string,
    foldl (λ m '(k, v), <[k := v]> m) m pairs !! k
      = match last_param k pairs with Some w => Some w | None => m !! k end) as Hm.
  { rewrite Hm, lookup_empty. by destruct (last_param k pairs). }
  induction pairs as [|[k' v] pairs IH]; intros m; [done|]. simpl. rewrite IH.
  destruct (last_param k pairs); [done|]. case_decide as Hk.
  - subst. apply lookup_insert_eq.
  - by apply lookup_insert_ne.
Qed.

(** What the [network] parameter of a link means. *)
Inductive network_named : option string → option Network → Prop :=
| named_none : network_named None None
| named_liquid v : v = "liquid" ∨ v = "mainnet" → network_named (Some v) (Some Liquid)
| named_testnet v :
    v = "liquid-testnet" ∨ v = "testnet" → network_named (Some v) (Some LiquidTestnet)
| named_regtest v : v = "liquid-regtest" ∨ v = "regtest" → network_named (Some v) (Some Regtest).

Lemma parse_network_param_Ok pairs n :
  parse_network_param (collect_params pairs) = Ok n ↔ network_named (last_param "network" pairs) n.
Proof.
  unfold parse_network_param. rewrite collect_params_lookup.
  generalize (last_param "network" pairs). intros o. split.
  - destruct o as [v|]; [|intros [= <-]; constructor].
    repeat case_bool_decide; simpl; intros [= <-]; constructor; auto.
  - by destruct 1 as [|v [-> | ->]|v [-> | ->]|v [-> | ->]].
Qed.

(** * Bare domains *)

(** What the check accepts for a venue: two or more labels of letters, digits
    and dashes, separated by dots, none of which [parse::<u8>] reads. That is
    less than the comment of [VenueLoginLink] promises, which says an IP is
    refused: see [venue_ip_forms_accepted]. *)
Definition label_char (c : Ascii.ascii) : Prop := is_ascii_alphanumeric c = true ∨ c = "-"%char.
Definition venue_form (venue : string) : Prop :=
  (2 ≤ length (split_on "." venue))%nat ∧
  Forall (λ label, label ≠ "" ∧ string_all (λ c, is_ascii_alphanumeric c || bool_decide (c = "-"%char)) label = true
                   ∧ parse_uint 255 label = None) (split_on "." venue).

Lemma string_all_split p s :
  string_all (λ b, p b || bool_decide (b = "."%char)) s = true →
  Forall (λ w, string_all p w = true) (split_on "." s).
Proof.
  induction s as [|a s IH]; simpl; [by repeat constructor|].
  intros [Ha Hs]%andb_true_iff. specialize (IH Hs). case_bool_decide as Hd; [by constructor|].
  rewrite orb_false_r in Ha. destruct (split_on "." s) as [|w ws].
  - constructor; [|done]. simpl. by rewrite Ha.
  - inversion IH; subst. constructor; [|done]. simpl. rewrite Ha. done.
Qed.
Lemma string_all_join p s :
  Forall (λ w, string_all p w = true) (split_on "." s) →
  string_all (λ b, p b || bool_decide (b = "."%char)) s = true.
Proof.
  induction s as [|a s IH]; simpl; [done|]. case_bool_decide as Hd.
  - intros Hf. inversion Hf; subst. rewrite orb_true_r. auto.
  - rewrite orb_false_r. destruct (split_on "." s) as [|w ws].
    + intros Hf. inversion Hf as [|?? Ha _]; subst. simpl in Ha.
      rewrite andb_true_r in Ha. rewrite Ha. by apply IH.
    + intros Hf. inversion Hf as [|?? Ha ?]; subst. simpl in Ha.
      apply andb_true_iff in Ha as [-> ?]. apply IH. by constructor.
Qed.
Lemma split_on_nonempty c s : split_on c s ≠ [].
Proof. destruct s; simpl; repeat case_match; done. Qed.
Lemma length_split_on c s :
  (2 ≤ length (split_on c s))%nat ↔ string_contains c s = true.
Proof.
  induction s as [|a s IH]; simpl; [split; [lia|done]|].
  case_bool_decide; simpl.
  - pose proof (split_on_nonempty c s). destruct (split_on c s); [done|]. simpl. split; [done|lia].
  - rewrite <-IH. destruct (split_on c s); simpl; lia.
Qed.

Lemma venue_ok_iff venue : venue_ok venue = true ↔ venue_form venue.
Proof.
  unfold venue_ok, venue_form. rewrite !andb_true_iff, !negb_true_iff.
  rewrite length_split_on. split.
  - intros ((((He & Hc) & Ha) & Hx) & Hp). split; [done|].
    assert (Forall (λ w, string_all (λ c, is_ascii_alphanumeric c || bool_decide (c = "-"%char)) w = true)
      (split_on "." venue)) as Hall.
    { apply string_all_split. revert Ha. clear. induction venue as [|a s IH]; [done|]. simpl.
      intros [Ha Hs]%andb_true_iff. rewrite (IH Hs), andb_true_r.
      by destruct (is_ascii_alphanumeric a), (bool_decide (a = "."%char)),
        (bool_decide (a = "-"%char)). }
    rewrite list.Forall_forall in Hall |- *. intros w Hw. rewrite forallb_forall in Hp.
    split; [intros ->|split; [by apply Hall|]].
    + apply Bool.not_true_iff_false in Hx. apply Hx, existsb_exists.
      exists "". split; [by apply list_elem_of_In|done].
    + apply list_elem_of_In in Hw. by apply Hp, bool_decide_eq_true in Hw.
  - rewrite list.Forall_forall. intros [Hc Hall]. split_and!.
    + apply bool_decide_eq_false_2. by intros ->.
    + done.
    + assert (string_all (λ b, (is_ascii_alphanumeric b || bool_decide (b = "-"%char))
        || bool_decide (b = "."%char)) venue = true) as Hv.
      { apply string_all_join, list.Forall_forall. intros w Hw. by apply Hall. }
      revert Hv. clear. induction venue as [|a s IH]; [done|]. simpl.
      intros [Ha Hs]%andb_true_iff. rewrite (IH Hs), andb_true_r.
      by destruct (is_ascii_alphanumeric a), (bool_decide (a = "."%char)),
        (bool_decide (a = "-"%char)).
    + apply Bool.not_true_iff_false. intros (w & Hw & He)%existsb_exists. apply bool_decide_eq_true in He as ->.
      by destruct (Hall "") as [[] _]; [apply list_elem_of_In|].
    + apply forallb_forall. intros w Hw%list_elem_of_In. apply bool_decide_eq_true. by apply Hall.
Qed.

(** * Destinations *)

(** The destinations the three link kinds accept. *)
Inductive link_destination : LinkType → string → string → string → Prop :=
| dest_login_app : link_destination LinkLogin "https" "app.sideswap.io" "/login/"
| dest_login : link_destination LinkLogin "liquidconnect" "login" "/"
| dest_sign_app : link_destination LinkSign "https" "app.sideswap.io" "/sign/"
| dest_sign : link_destination LinkSign "liquidconnect" "sign" "/"
| dest_open : link_destination LinkOpen "liquidconnect" "request" "/".

Lemma match_destination_Ok s d p t : match_destination s d p = Ok t ↔ link_destination t s d p.
Proof.
  split; [|by destruct 1].
  unfold match_destination. do 2 (case_bool_decide; subst; simpl).
  all: repeat (case_bool_decide; subst; simpl; try (intros [= <-]; constructor)); try done.
Qed.
Lemma match_destination_host s d p t : match_destination s d p = Ok t → d ≠ "venue-login".
Proof. intros Hm%match_destination_Ok. by destruct Hm. Qed.

(** The bare-domain check reads only decimal octets, so it lets through
    hosts that URL parsers take for IPv4 addresses: hexadecimal octets
    ([0x7f.0x0.0x0.0x1], which is 127.0.0.1), and octal or short forms with a
    part above 255 ([0300.0x1]). *)
Theorem venue_ip_forms_accepted :
  venue_form "0x7f.0x0.0x0.0x1" ∧ venue_form "0x7f.0x1" ∧ venue_form "0300.0x1" ∧
  ¬ venue_form "127.0.0.1" ∧ ¬ venue_form "127.0x1".
Proof.
  rewrite <-!venue_ok_iff. by vm_compute.
Qed.

(** * Properties *)

Section properties.
Context `{UrlApi}.

Lemma parse_venue_login_link_Ok text l :
  parse_venue_login_link text = Ok l ↔
  ∃ u, url_parse text = Some u ∧
    url_scheme u = "liquidconnect" ∧ url_host_str u = Some "venue-login" ∧
    (url_path u = "" ∨ url_path u = "/") ∧
    (∃ v, last_param "venue" (url_query_pairs u) = Some v ∧ vl_venue l = to_ascii_lowercase v) ∧
    venue_form (vl_venue l) ∧
    last_param "link" (url_query_pairs u) = Some (vl_link_code l) ∧ vl_link_code l ≠ "" ∧
    network_named (last_param "network" (url_query_pairs u)) (vl_network l).
Proof.
  unfold parse_venue_login_link. setoid_rewrite <-parse_network_param_Ok.
  setoid_rewrite <-venue_ok_iff. split.
  - intros Hp. result_inv. repeat match goal with
      | H : (_ && _) = true |- _ => apply andb_true_iff in H as [? ?]
      | H : (_ || _) = true |- _ => rewrite orb_true_iff in H
      | H : bool_decide _ = true |- _ => apply bool_decide_eq_true in H
      | H : context [bool_decide _ = true ∨ _] |- _ => rewrite !bool_decide_eq_true in H
      | H : negb _ = true |- _ => apply negb_true_iff in H; apply bool_decide_eq_false in H
      | H : collect_params _ !! _ = _ |- _ => rewrite collect_params_lookup in H
      end.
    eexists; split_and!; eauto.
  - intros (u & Hu & Hs & Hh & Hpath & (v & Hv & Hvl) & Hok & Hl & Hne & Hn). rewrite Hu. simpl.
    rewrite !bool_decide_true by done. rewrite !collect_params_lookup, Hv, Hl. simpl.
    rewrite (proj2 (orb_true_iff _ _)) by (rewrite !bool_decide_eq_true; done). simpl.
    rewrite <-Hvl, Hok. simpl. rewrite bool_decide_false by done. simpl. rewrite Hn. simpl.
    by destruct l.
Qed.

(** No venue of that form starts with a decimal octet. *)
Lemma octet_label n :
  0 ≤ n < 256 → string_contains "." (dec_string n) = false ∧ parse_uint 255 (dec_string n) = Some n.
Proof.
  intros Hn.
  assert (Forall (λ k, string_contains "." (dec_string (Z.of_nat k)) = false ∧
    parse_uint 255 (dec_string (Z.of_nat k)) = Some (Z.of_nat k)) (seq 0 256)) as Hall
    by (apply (bool_decide_unpack _); vm_compute; reflexivity).
  rewrite Forall_forall in Hall. destruct (Hall (Z.to_nat n)) as [? Hp]; [apply elem_of_seq; lia|].
  by rewrite Z2Nat.id in * by lia.
Qed.
Lemma octet_not_first n rest : 0 ≤ n < 256 → ¬ venue_form (dec_string n +:+ String "." rest).
Proof.
  intros [Hdot Hp]%octet_label [_ Hall]. rewrite split_on_app in Hall by done.
  apply Forall_cons in Hall as [(_ & _ & Hnone) _]. congruence.
Qed.

(** C37. [parse_venue_login_link] accepts exactly this: it succeeds with [l]
    if and only if the URL is [liquidconnect://venue-login], its last [venue]
    parameter lower-cased is [l]'s venue and of the form checked (two or more
    dot-separated labels of letters, digits and dashes, none of them a decimal
    octet), its last [link] parameter is [l]'s non-empty code, and its
    [network] parameter names [l]'s network or is absent. So no accepted venue
    starts with a decimal octet, and no dotted quad is accepted. The form is
    weaker than the comment in the source, which says an IP is refused: the
    hexadecimal and octal spellings that URL parsers resolve to an address
    have that form and are let through. *)
Theorem parse_venue_login_link_iff text l :
  (parse_venue_login_link text = Ok l ↔
   ∃ u, url_parse text = Some u ∧
     url_scheme u = "liquidconnect" ∧ url_host_str u = Some "venue-login" ∧
     (url_path u = "" ∨ url_path u = "/") ∧
     (∃ v, last_param "venue" (url_query_pairs u) = Some v ∧ vl_venue l = to_ascii_lowercase v) ∧
     venue_form (vl_venue l) ∧
     last_param "link" (url_query_pairs u) = Some (vl_link_code l) ∧ vl_link_code l ≠ "" ∧
     network_named (last_param "network" (url_query_pairs u)) (vl_network l)) ∧
  (parse_venue_login_link text = Ok l → ∀ n rest, 0 ≤ n < 256 → vl_venue l ≠ dec_string n +:+ String "." rest) ∧
  venue_form "0x7f.0x0.0x0.0x1" ∧ venue_form "0x7f.0x1" ∧ venue_form "0300.0x1".
Proof.
  destruct venue_ip_forms_accepted as (Hx4 & Hx2 & Ho & _).
  split; [by apply parse_venue_login_link_Ok|]. split_and!; try done.
  intros (u & _ & _ & _ & _ & _ & Hv & _)%parse_venue_login_link_Ok n rest Hn E. rewrite E in Hv.
  by apply (octet_not_first n rest).
Qed.

Lemma parse_venue_login_link_ok text l :
  parse_venue_login_link text = Ok l →
  ∃ u, url_parse text = Some u ∧ url_host_str u = Some "venue-login" ∧ venue_ok (vl_venue l) = true.
Proof.
  unfold parse_venue_login_link. intros Hp. result_inv. eexists. split_and!; eauto.
  repeat match goal with H : (_ && _) = true |- _ => apply andb_true_iff in H as [? ?] end.
  by eapply bool_decide_eq_true.
Qed.

(** A venue link cannot steer the login: whatever text was scanned, the
    venue of an accepted link holds nothing but letters, digits, dashes and
    dots — no scheme or port colon, no path, query, fragment or userinfo
    separator, no percent escape and no bracket. *)
Theorem venue_cannot_steer text l c :
  parse_venue_login_link text = Ok l → string_contains c (vl_venue l) = true →
  is_ascii_alphanumeric c = true ∨ c = "."%char ∨ c = "-"%char.
Proof.
  intros (u & _ & _ & Hok)%parse_venue_login_link_ok Hc. unfold venue_ok in Hok.
  apply andb_true_iff in Hok as [[[_ Hall]%andb_true_iff _]%andb_true_iff _].
  destruct (is_ascii_alphanumeric c || bool_decide (c = "."%char) || bool_decide (c = "-"%char)) eqn:E.
  - rewrite !orb_true_iff, !bool_decide_eq_true in E. tauto.
  - by rewrite (string_all_contains _ c _ Hall E) in Hc.
Qed.

(** C38. [parse_app_link] accepts exactly the registered destinations: it
    succeeds with [l] if and only if the URL has a domain host and no port,
    scheme, host and path are one of the five registered forms of [l]'s
    kind, the last [request_id] parameter is [l]'s, [mobile] is absent
    (false) or the literal [true]/[false], and [network] names [l]'s
    network or is absent. *)
Theorem parse_app_link_iff text l :
  parse_app_link text = Ok l ↔
  ∃ u domain, url_parse text = Some u ∧ url_host u = Some (HostDomain domain) ∧
    url_port u = None ∧
    link_destination (al_link_type l) (url_scheme u) domain (url_path u) ∧
    last_param "request_id" (url_query_pairs u) = Some (al_request_id l) ∧
    match last_param "mobile" (url_query_pairs u) with
    | None => al_is_mobile l = false
    | Some v => v = (if al_is_mobile l then "true" else "false")
    end ∧
    network_named (last_param "network" (url_query_pairs u)) (al_network l).
Proof.
  unfold parse_app_link. setoid_rewrite <-parse_network_param_Ok. split.
  - intros Hp. result_inv. destruct x0 as [domain| |]; result_inv.
    repeat match goal with
      | H : bool_decide _ = true |- _ => apply bool_decide_eq_true in H
      | H : collect_params _ !! _ = _ |- _ => rewrite collect_params_lookup in H
      end.
    eexists _, _. split_and!; eauto; simpl.
    + by apply match_destination_Ok.
    + rewrite collect_params_lookup in *. destruct (last_param "mobile" _) as [v|]; result_inv; [|done].
      unfold bool_from_str in *. repeat case_bool_decide; by simplify_eq/=.
  - intros (u & domain & Hu & Hh & Hp & Hd & Hr & Hm & Hn). rewrite Hu. simpl. rewrite Hh. simpl.
    rewrite bool_decide_true by done. simpl. rewrite !collect_params_lookup, Hr.
    assert (match last_param "mobile" (url_query_pairs u) with
            | Some value => ok_or (bool_from_str value) "invalid `mobile` query parameter value"
            | None => Ok false
            end = Ok (al_is_mobile l)) as ->.
    { destruct (last_param "mobile" _); subst; [by destruct (al_is_mobile l)|by rewrite Hm]. }
    simpl. rewrite Hn. simpl. rewrite (proj2 (match_destination_Ok _ _ _ _) Hd). by destruct l.
Qed.

(** The two parsers do not overlap: no text that is a venue login is
    accepted as a link of the connect session ([url] promises that the host
    string of a domain host is the domain). *)
Theorem venue_login_is_no_app_link text l :
  (∀ u d, url_host u = Some (HostDomain d) → url_host_str u = Some d) →
  parse_venue_login_link text = Ok l → is_Ok (parse_app_link text) = false.
Proof.
  intros Hhost (u & Hu & Hs & _)%parse_venue_login_link_ok.
  destruct (parse_app_link text) as [a|] eqn:E; [|done]. exfalso.
  unfold parse_app_link in E. rewrite Hu in E. result_inv. simplify_eq.
  destruct x0 as [domain| |]; result_inv. simplify_eq.
  match goal with
  | Hm : match_destination _ _ _ = Ok _, Hd : url_host _ = Some (HostDomain _) |- _ =>
      apply match_destination_host in Hm; apply Hhost in Hd; congruence
  end.
Qed.
End properties.
