(* ===== verification/SessionData.v ===== *)
(** The data of the sans-io session core ([lc-wallet-core/src/core.rs]):
    inputs, effects, the state record, and the small state-and-output monad
    its methods are written in. *)

From S2P Require Import Prelude Crates Wire Key Link.

Inductive TransportEvent :=
| Connected
| Recv (text : string)
| Disconnected.

(** A service key bound during login: the host's key and its signature. *)
Record ServiceBinding := { sb_key : string; sb_signature : string }.

Module Input.
Inductive input :=
| Transport (event : TransportEvent)
| AppLink (app_link : AppLink)
| LoginAccepted (request_id : string) (service_binding : option ServiceBinding)
| LoginRejected (request_id : string)
| SignAccepted (request_id signed_pset : string)
| SignRejected (request_id : string)
| SignMessageAccepted (request_id : string)
| SignMessageSigned (request_id signature : string)
| SignMessageRejected (request_id : string)
| ReceiveAddressProvided (request_id address : string)
| ReceiveAddressRejected (request_id : string)
| AssetBalanceProvided (request_id : string) (amount : Z)
| AssetBalanceRejected (request_id : string)
| PayBuilt (request_id txid : string)
| PayRejected (request_id : string)
| FundSigned (request_id pset : string)
| FundRejected (request_id : string)
| RegisterFcmToken (token : string)
| StopSession (session_id : string).
End Input.
Abbreviation input := Input.input.

Module Effect.
Inductive effect :=
| Send (data : string)
| AddLoginRequest (request : LoginRequest)
| RemoveLoginRequest (request_id : string)
| AddSignRequest (request : SignRequest)
| RemoveSignRequest (request_id : string)
| AddSignMessageRequest (request : SignMessageRequest)
| RemoveSignMessageRequest (request_id : string)
| AddReceiveAddressRequest (request : ReceiveAddressRequest)
| RemoveReceiveAddressRequest (request_id : string)
| AddAssetBalanceRequest (request : AssetBalanceRequest)
| RemoveAssetBalanceRequest (request_id : string)
| SetHoldings (report : HoldingsReport)
| ClearHoldings (domain : string)
| AddPayRequest (request : PayRequest)
| RemovePayRequest (request_id : string)
| AddFundRequest (request : FundRequest)
| RemoveFundRequest (request_id : string)
| SessionList (sessions : list Session)
| SessionCreated (session : Session)
| SessionRemoved (session_id : string)
| MinimizeMobileApp
| ActionFailed (action : user_action) (message : string).
End Effect.
Abbreviation effect := Effect.effect.

Section core.
Context `{SchnorrApi}.

Record core := Core {
  install_id : InstallId;
  connected : bool;
  login_succeed : bool;
  descriptor : string;
  wallet_key : WalletKey;
  login_requests : gmap string LoginRequest;
  sign_requests : gmap string SignRequest;
  sign_message_requests : gmap string SignMessageRequest;
  receive_address_requests : gmap string ReceiveAddressRequest;
  asset_balance_requests : gmap string AssetBalanceRequest;
  holdings : gmap string HoldingsReport;
  pay_requests : gmap string PayRequest;
  fund_requests : gmap string FundRequest;
  user_actions : gmap ReqId user_action;
  next_action_id : ReqId;
  mobile_requests : gset string;
  fcm_token : option string;
}.

(** Field updates: [upd_f g s] is [s] with field [f] replaced by [g] of it. *)
Definition upd_connected (g : bool → bool) (s : core) : core :=
  Core s.(install_id) (g s.(connected)) s.(login_succeed) s.(descriptor) s.(wallet_key)
    s.(login_requests) s.(sign_requests) s.(sign_message_requests)
    s.(receive_address_requests) s.(asset_balance_requests) s.(holdings)
    s.(pay_requests) s.(fund_requests) s.(user_actions) s.(next_action_id)
    s.(mobile_requests) s.(fcm_token).
Definition upd_login_succeed (g : bool → bool) (s : core) : core :=
  Core s.(install_id) s.(connected) (g s.(login_succeed)) s.(descriptor) s.(wallet_key)
    s.(login_requests) s.(sign_requests) s.(sign_message_requests)
    s.(receive_address_requests) s.(asset_balance_requests) s.(holdings)
    s.(pay_requests) s.(fund_requests) s.(user_actions) s.(next_action_id)
    s.(mobile_requests) s.(fcm_token).
Definition upd_login_requests (g : gmap string LoginRequest → gmap string LoginRequest) (s : core) : core :=
  Core s.(install_id) s.(connected) s.(login_succeed) s.(descriptor) s.(wallet_key) (g
    s.(login_requests)) s.(sign_requests) s.(sign_message_requests)
    s.(receive_address_requests) s.(asset_balance_requests) s.(holdings)
    s.(pay_requests) s.(fund_requests) s.(user_actions) s.(next_action_id)
    s.(mobile_requests) s.(fcm_token).
Definition upd_sign_requests (g : gmap string SignRequest → gmap string SignRequest) (s : core) : core :=
  Core s.(install_id) s.(connected) s.(login_succeed) s.(descriptor) s.(wallet_key)
    s.(login_requests) (g s.(sign_requests)) s.(sign_message_requests)
    s.(receive_address_requests) s.(asset_balance_requests) s.(holdings)
    s.(pay_requests) s.(fund_requests) s.(user_actions) s.(next_action_id)
    s.(mobile_requests) s.(fcm_token).
Definition upd_sign_message_requests (g : gmap string SignMessageRequest → gmap string SignMessageRequest) (s : core) : core :=
  Core s.(install_id) s.(connected) s.(login_succeed) s.(descriptor) s.(wallet_key)
    s.(login_requests) s.(sign_requests) (g s.(sign_message_requests))
    s.(receive_address_requests) s.(asset_balance_requests) s.(holdings)
    s.(pay_requests) s.(fund_requests) s.(user_actions) s.(next_action_id)
    s.(mobile_requests) s.(fcm_token).
Definition upd_receive_address_requests (g : gmap string ReceiveAddressRequest → gmap string ReceiveAddressRequest) (s : core) : core :=
  Core s.(install_id) s.(connected) s.(login_succeed) s.(descriptor) s.(wallet_key)
    s.(login_requests) s.(sign_requests) s.(sign_message_requests) (g
    s.(receive_address_requests)) s.(asset_balance_requests) s.(holdings)
    s.(pay_requests) s.(fund_requests) s.(user_actions) s.(next_action_id)
    s.(mobile_requests) s.(fcm_token).
Definition upd_asset_balance_requests (g : gmap string AssetBalanceRequest → gmap string AssetBalanceRequest) (s : core) : core :=
  Core s.(install_id) s.(connected) s.(login_succeed) s.(descriptor) s.(wallet_key)
    s.(login_requests) s.(sign_requests) s.(sign_message_requests)
    s.(receive_address_requests) (g s.(asset_balance_requests)) s.(holdings)
    s.(pay_requests) s.(fund_requests) s.(user_actions) s.(next_action_id)
    s.(mobile_requests) s.(fcm_token).
Definition upd_holdings (g : gmap string HoldingsReport → gmap string HoldingsReport) (s : core) : core :=
  Core s.(install_id) s.(connected) s.(login_succeed) s.(descriptor) s.(wallet_key)
    s.(login_requests) s.(sign_requests) s.(sign_message_requests)
    s.(receive_address_requests) s.(asset_balance_requests) (g s.(holdings))
    s.(pay_requests) s.(fund_requests) s.(user_actions) s.(next_action_id)
    s.(mobile_requests) s.(fcm_token).
Definition upd_pay_requests (g : gmap string PayRequest → gmap string PayRequest) (s : core) : core :=
  Core s.(install_id) s.(connected) s.(login_succeed) s.(descriptor) s.(wallet_key)
    s.(login_requests) s.(sign_requests) s.(sign_message_requests)
    s.(receive_address_requests) s.(asset_balance_requests) s.(holdings) (g
    s.(pay_requests)) s.(fund_requests) s.(user_actions) s.(next_action_id)
    s.(mobile_requests) s.(fcm_token).
Definition upd_fund_requests (g : gmap string FundRequest → gmap string FundRequest) (s : core) : core :=
  Core s.(install_id) s.(connected) s.(login_succeed) s.(descriptor) s.(wallet_key)
    s.(login_requests) s.(sign_requests) s.(sign_message_requests)
    s.(receive_address_requests) s.(asset_balance_requests) s.(holdings)
    s.(pay_requests) (g s.(fund_requests)) s.(user_actions) s.(next_action_id)
    s.(mobile_requests) s.(fcm_token).
Definition upd_user_actions (g : gmap ReqId user_action → gmap ReqId user_action) (s : core) : core :=
  Core s.(install_id) s.(connected) s.(login_succeed) s.(descriptor) s.(wallet_key)
    s.(login_requests) s.(sign_requests) s.(sign_message_requests)
    s.(receive_address_requests) s.(asset_balance_requests) s.(holdings)
    s.(pay_requests) s.(fund_requests) (g s.(user_actions)) s.(next_action_id)
    s.(mobile_requests) s.(fcm_token).
Definition upd_next_action_id (g : ReqId → ReqId) (s : core) : core :=
  Core s.(install_id) s.(connected) s.(login_succeed) s.(descriptor) s.(wallet_key)
    s.(login_requests) s.(sign_requests) s.(sign_message_requests)
    s.(receive_address_requests) s.(asset_balance_requests) s.(holdings)
    s.(pay_requests) s.(fund_requests) s.(user_actions) (g s.(next_action_id))
    s.(mobile_requests) s.(fcm_token).
Definition upd_mobile_requests (g : gset string → gset string) (s : core) : core :=
  Core s.(install_id) s.(connected) s.(login_succeed) s.(descriptor) s.(wallet_key)
    s.(login_requests) s.(sign_requests) s.(sign_message_requests)
    s.(receive_address_requests) s.(asset_balance_requests) s.(holdings)
    s.(pay_requests) s.(fund_requests) s.(user_actions) s.(next_action_id) (g
    s.(mobile_requests)) s.(fcm_token).
Definition upd_fcm_token (g : option string → option string) (s : core) : core :=
  Core s.(install_id) s.(connected) s.(login_succeed) s.(descriptor) s.(wallet_key)
    s.(login_requests) s.(sign_requests) s.(sign_message_requests)
    s.(receive_address_requests) s.(asset_balance_requests) s.(holdings)
    s.(pay_requests) s.(fund_requests) s.(user_actions) s.(next_action_id)
    s.(mobile_requests) (g s.(fcm_token)).

(** [WalletConnectCore::new]. *)
Definition core_new (install_id : InstallId) (descriptor : string) (wallet_key : WalletKey) : core :=
  {| install_id := install_id; connected := false; login_succeed := false;
     descriptor := descriptor; wallet_key := wallet_key;
     login_requests := ∅; sign_requests := ∅; sign_message_requests := ∅;
     receive_address_requests := ∅; asset_balance_requests := ∅; holdings := ∅;
     pay_requests := ∅; fund_requests := ∅; user_actions := ∅; next_action_id := 1;
     mobile_requests := ∅; fcm_token := None |}.

Definition is_logged_in (s : core) : bool := s.(connected) && s.(login_succeed).

(** ** Methods: [&mut self] and [effects: &mut Vec<Effect>]

    A method maps the state to the new state and the effects it pushes. *)
Definition method := core → core * list effect.
Definition skip : method := λ s, (s, []).
Definition push (e : effect) : method := λ s, (s, [e]).
Definition modify (f : core → core) : method := λ s, (f s, []).
Definition seq (a b : method) : method := λ s,
  let '(s1, e1) := a s in let '(s2, e2) := b s1 in (s2, e1 ++ e2).
Definition gets {A} (f : core → A) (k : A → method) : method := λ s, k (f s) s.
Fixpoint for_each {A} (l : list A) (f : A → method) : method :=
  match l with [] => skip | x :: l => seq (f x) (for_each l f) end.

Lemma seq_fst a b s : (seq a b s).1 = (b (a s).1).1.
Proof. unfold seq. destruct (a s) as [s1 ?]; simpl. by destruct (b s1). Qed.
Lemma seq_snd a b s : (seq a b s).2 = (a s).2 ++ (b (a s).1).2.
Proof. unfold seq. destruct (a s) as [s1 ?]; simpl. by destruct (b s1). Qed.
End core.

Declare Scope method_scope.
Delimit Scope method_scope with M.
Notation "a ;; b" := (seq a b) (at level 100, right associativity) : method_scope.
