(* ===== verification/Session.v ===== *)
(** The sans-io wallet-connect state machine: the methods of
    [WalletConnectCore] ([lc-wallet-core/src/core.rs]), one definition per
    method, composed as the source composes them. *)

From S2P Require Import Prelude Crates Wire Key Link SessionData.

(** What the six request stores of the core have in common: the id field,
    the store, and the two effects that announce a change. *)
Class RequestKind `{SchnorrApi} (R : Type) := {
  rk_id : R → string;
  rk_store : core → gmap string R;
  rk_upd : (gmap string R → gmap string R) → core → core;
  rk_add : R → effect;
  rk_remove : string → effect;
}.

Section session.
Context `{HashesApi, HexApi, !SchnorrApi, !SerdeWire}.
Open Scope method_scope.

#[global] Instance login_request_kind : RequestKind LoginRequest :=
  {| rk_id := lr_request_id; rk_store := login_requests; rk_upd := upd_login_requests;
     rk_add := Effect.AddLoginRequest; rk_remove := Effect.RemoveLoginRequest |}.
#[global] Instance sign_request_kind : RequestKind SignRequest :=
  {| rk_id := sr_request_id; rk_store := sign_requests; rk_upd := upd_sign_requests;
     rk_add := Effect.AddSignRequest; rk_remove := Effect.RemoveSignRequest |}.
#[global] Instance sign_message_request_kind : RequestKind SignMessageRequest :=
  {| rk_id := smr_request_id; rk_store := sign_message_requests; rk_upd := upd_sign_message_requests;
     rk_add := Effect.AddSignMessageRequest; rk_remove := Effect.RemoveSignMessageRequest |}.
#[global] Instance pay_request_kind : RequestKind PayRequest :=
  {| rk_id := pr_request_id; rk_store := pay_requests; rk_upd := upd_pay_requests;
     rk_add := Effect.AddPayRequest; rk_remove := Effect.RemovePayRequest |}.
#[global] Instance fund_request_kind : RequestKind FundRequest :=
  {| rk_id := fr_request_id; rk_store := fund_requests; rk_upd := upd_fund_requests;
     rk_add := Effect.AddFundRequest; rk_remove := Effect.RemoveFundRequest |}.
#[global] Instance receive_address_request_kind : RequestKind ReceiveAddressRequest :=
  {| rk_id := rar_request_id; rk_store := receive_address_requests;
     rk_upd := upd_receive_address_requests;
     rk_add := Effect.AddReceiveAddressRequest; rk_remove := Effect.RemoveReceiveAddressRequest |}.
#[global] Instance asset_balance_request_kind : RequestKind AssetBalanceRequest :=
  {| rk_id := abr_request_id; rk_store := asset_balance_requests;
     rk_upd := upd_asset_balance_requests;
     rk_add := Effect.AddAssetBalanceRequest; rk_remove := Effect.RemoveAssetBalanceRequest |}.

Definition send (id : ReqId) (req : req) : effect :=
  Effect.Send (wire_to_string {| to_id := id; to_req := req |}).

(** Insert and announce, remove and announce: the arms of a store's
    [Created] and [Removed] notifications. *)
Definition add_request `{RequestKind R} (request : R) : method :=
  modify (rk_upd <[rk_id request := request]>) ;;
  push (rk_add request).
Definition remove_request `{RequestKind R} (request_id : string) : method :=
  modify (rk_upd (delete request_id)) ;;
  push (rk_remove request_id).

(** The body the six [sync_*_requests] methods share. *)
Definition sync_requests `{RequestKind R} (requests : list R) : method :=
  gets (λ s, dom (rk_store s)) (λ old_request_ids,
    let new_request_ids : gset string := list_to_set (rk_id <$> requests) in
    for_each (btree_set_iter String.le (old_request_ids ∖ new_request_ids)) remove_request ;;
    for_each requests (λ req,
      gets (λ s, rk_store s !! rk_id req) (λ found,
        match found with Some _ => skip | None => add_request req end))).

Definition sync_sign_requests : list SignRequest → method := sync_requests.
Definition sync_sign_message_requests : list SignMessageRequest → method := sync_requests.
Definition sync_pay_requests : list PayRequest → method := sync_requests.
Definition sync_fund_requests : list FundRequest → method := sync_requests.
Definition sync_receive_address_requests : list ReceiveAddressRequest → method := sync_requests.
Definition sync_asset_balance_requests : list AssetBalanceRequest → method := sync_requests.

Definition sync_holdings (reports : list HoldingsReport) : method :=
  let new_domains : gset string := list_to_set (hr_domain <$> reports) in
  gets (λ s, btree_set_iter String.le (dom s.(holdings) ∖ new_domains)) (λ gone,
    for_each gone (λ domain,
      modify (upd_holdings (delete domain)) ;;
      push (Effect.ClearHoldings domain)) ;;
    for_each reports (λ report,
      match report.(hr_holdings) with
      | [] => skip
      | _ =>
          modify (upd_holdings <[report.(hr_domain) := report]>) ;;
          push (Effect.SetHoldings report)
      end)).

Definition sign_message_digest (s : core) (request_id : string) : result string string :=
  request ← ok_or (s.(sign_message_requests) !! request_id) "request already removed";
  digest ← ok_or (hex_decode_to_slice 32 request.(smr_digest)) "digest is not 32 bytes of hex";
  Ok (signature_to_string (wk_sign_digest s.(wallet_key) digest)).

Definition send_fcm_token : method :=
  gets (λ s, (s.(fcm_token), s.(connected) && s.(login_succeed))) (λ '(fcm_token, ready),
    match fcm_token with
    | Some token => if ready then push (send 0 (Req.RegisterFcm token)) else skip
    | None => skip
    end).

Definition handle_response (id : ReqId) (resp : resp) : method :=
  match resp with
  | Resp.Challenge challenge =>
      gets (λ s, {| lreq_public_key := wk_public_key s.(wallet_key);
                    lreq_signature := wk_sign_challenge s.(wallet_key) challenge;
                    lreq_install_id := Some s.(install_id) |})
        (λ login, push (send 0 (Req.Login login)))
  | Resp.Login r =>
      modify (upd_login_succeed (λ _, true)) ;;
      gets (λ s, btree_iter Z.le s.(user_actions)) (λ pending,
        for_each pending (λ '(req_id, action), push (send req_id (Req.UserAction action)))) ;;
      sync_sign_requests r.(lresp_sign_requests) ;;
      sync_sign_message_requests r.(lresp_sign_message_requests) ;;
      sync_pay_requests r.(lresp_pay_requests) ;;
      sync_fund_requests r.(lresp_fund_requests) ;;
      sync_receive_address_requests r.(lresp_receive_address_requests) ;;
      sync_asset_balance_requests r.(lresp_asset_balance_requests) ;;
      sync_holdings r.(lresp_holdings) ;;
      push (Effect.SessionList r.(lresp_sessions)) ;;
      send_fcm_token
  | Resp.UserAction => modify (upd_user_actions (delete id))
  | Resp.RegisterFcm => skip
  end.

Definition handle_notification (notif : notif) : method :=
  match notif with
  | Notif.SessionCreated session => push (Effect.SessionCreated session)
  | Notif.SessionRemoved session_id => push (Effect.SessionRemoved session_id)
  | Notif.LoginRequestCreated request => add_request request
  | Notif.LoginRequestRemoved request_id => remove_request (R:=LoginRequest) request_id
  | Notif.SignRequestCreated request => add_request request
  | Notif.SignRequestRemoved request_id => remove_request (R:=SignRequest) request_id
  | Notif.SignMessageRequestCreated request => add_request request
  | Notif.SignMessageRequestRemoved request_id => remove_request (R:=SignMessageRequest) request_id
  | Notif.ReceiveAddressRequestCreated request => add_request request
  | Notif.ReceiveAddressRequestRemoved request_id =>
      remove_request (R:=ReceiveAddressRequest) request_id
  | Notif.AssetBalanceRequestCreated request => add_request request
  | Notif.AssetBalanceRequestRemoved request_id =>
      remove_request (R:=AssetBalanceRequest) request_id
  | Notif.HoldingsUpdated report =>
      match report.(hr_holdings) with
      | [] =>
          modify (upd_holdings (delete report.(hr_domain))) ;;
          push (Effect.ClearHoldings report.(hr_domain))
      | _ =>
          modify (upd_holdings <[report.(hr_domain) := report]>) ;;
          push (Effect.SetHoldings report)
      end
  | Notif.HoldingsRemoved domain =>
      gets (λ s, s.(holdings) !! domain) (λ removed,
        modify (upd_holdings (delete domain)) ;;
        match removed with
        | Some _ => push (Effect.ClearHoldings domain)
        | None => skip
        end)
  | Notif.PayRequestCreated request => add_request request
  | Notif.PayRequestRemoved request_id => remove_request (R:=PayRequest) request_id
  | Notif.FundRequestCreated request => add_request request
  | Notif.FundRequestRemoved request_id => remove_request (R:=FundRequest) request_id
  end.

Definition add_user_action (action : user_action) : method :=
  gets next_action_id (λ id,
    modify (upd_next_action_id (λ n, i32_wrap (n + 1))) ;;
    modify (upd_user_actions <[id := action]>) ;;
    gets connected (λ connected : bool,
      if connected then push (send id (Req.UserAction action)) else skip)).

Definition handle_server_message (from : wire_from) : method :=
  match from with
  | From.Resp id resp => handle_response id resp
  | From.Error id err =>
      gets (λ s, s.(user_actions) !! id) (λ removed,
        modify (upd_user_actions (delete id)) ;;
        match removed with
        | Some action => push (Effect.ActionFailed action err.(err_message))
        | None => skip
        end)
  | From.Notif notif => handle_notification notif
  end.

Definition finish_request (request_id : string) : method :=
  gets (λ s, bool_decide (request_id ∈ s.(mobile_requests))) (λ removed,
    modify (upd_mobile_requests (.∖ {[request_id]})) ;;
    if removed then push Effect.MinimizeMobileApp else skip).

(** An answer that must name a live request, else it is dropped. *)
Definition answer_live (live : core → bool) (request_id : string) (action : user_action) : method :=
  gets live (λ live : bool, if live then add_user_action action else skip) ;;
  finish_request request_id.
Definition contains_key {V} (m : gmap string V) (k : string) : bool :=
  match m !! k with Some _ => true | None => false end.

Definition answer (request_id : string) (action : user_action) : method :=
  add_user_action action ;;
  finish_request request_id.

Definition login_accepted (request_id : string) (service_binding : option ServiceBinding) : method :=
  gets (λ s, (s.(login_requests) !! request_id, s.(descriptor))) (λ '(request, descriptor),
    let wanted := match request with
                  | Some request => bool_decide (is_Some request.(lr_service_challenge))
                  | None => false
                  end in
    if wanted && bool_decide (service_binding = None) then
      push (Effect.ActionFailed (UserAction.CancelLoginRequest request_id)
              "this login needs a service key and none was supplied")
    else
      answer request_id
        (UserAction.AcceptLoginRequest request_id descriptor
           (sb_key <$> service_binding) (sb_signature <$> service_binding))).

Definition handle_app_link (app_link : AppLink) : method :=
  (if app_link.(al_is_mobile)
   then modify (upd_mobile_requests ({[app_link.(al_request_id)]} ∪.)) else skip) ;;
  match app_link.(al_link_type) with
  | LinkOpen => skip
  | LinkLogin => add_user_action (UserAction.LinkLoginRequest app_link.(al_request_id))
  | LinkSign => skip
  end.

Definition handle_transport (event : TransportEvent) : method :=
  match event with
  | Connected => modify (upd_connected (λ _, true)) ;; push (send 0 Req.Challenge)
  | Recv text =>
      match wire_from_str text with
      | Some from => handle_server_message from
      | None => skip
      end
  | Disconnected =>
      modify (upd_connected (λ _, false)) ;; modify (upd_login_succeed (λ _, false))
  end.

Definition handle (i : input) : method :=
  match i with
  | Input.Transport event => handle_transport event
  | Input.LoginAccepted request_id service_binding => login_accepted request_id service_binding
  | Input.LoginRejected request_id => answer request_id (UserAction.CancelLoginRequest request_id)
  | Input.SignAccepted request_id signed_pset =>
      answer request_id (UserAction.AcceptSignRequest request_id signed_pset)
  | Input.SignRejected request_id => answer request_id (UserAction.CancelSignRequest request_id)
  | Input.SignMessageAccepted request_id =>
      gets (λ s, sign_message_digest s request_id) (λ r,
        match r with
        | Ok signature =>
            add_user_action (UserAction.AcceptSignMessageRequest request_id signature)
        | Err _ => skip
        end) ;;
      finish_request request_id
  | Input.SignMessageSigned request_id signature =>
      answer_live (λ s, contains_key s.(sign_message_requests) request_id) request_id
        (UserAction.AcceptSignMessageRequest request_id signature)
  | Input.SignMessageRejected request_id =>
      answer request_id (UserAction.CancelSignMessageRequest request_id)
  | Input.PayBuilt request_id txid =>
      answer_live (λ s, contains_key s.(pay_requests) request_id) request_id
        (UserAction.AcceptPayRequest request_id txid)
  | Input.ReceiveAddressProvided request_id address =>
      answer_live (λ s, contains_key s.(receive_address_requests) request_id) request_id
        (UserAction.AcceptReceiveAddressRequest request_id address)
  | Input.ReceiveAddressRejected request_id =>
      answer request_id (UserAction.CancelReceiveAddressRequest request_id)
  | Input.AssetBalanceProvided request_id amount =>
      answer_live (λ s, contains_key s.(asset_balance_requests) request_id) request_id
        (UserAction.AcceptAssetBalanceRequest request_id amount)
  | Input.AssetBalanceRejected request_id =>
      answer request_id (UserAction.CancelAssetBalanceRequest request_id)
  | Input.PayRejected request_id => answer request_id (UserAction.CancelPayRequest request_id)
  | Input.FundSigned request_id pset =>
      answer_live (λ s, contains_key s.(fund_requests) request_id) request_id
        (UserAction.AcceptFundRequest request_id pset)
  | Input.FundRejected request_id => answer request_id (UserAction.CancelFundRequest request_id)
  | Input.RegisterFcmToken token =>
      modify (upd_fcm_token (λ _, Some token)) ;; send_fcm_token
  | Input.StopSession session_id => add_user_action (UserAction.StopSession session_id)
  | Input.AppLink app_link => handle_app_link app_link
  end.

Definition get_login_request (s : core) (request_id : string) := s.(login_requests) !! request_id.
Definition get_sign_request (s : core) (request_id : string) := s.(sign_requests) !! request_id.
Definition get_sign_message_request (s : core) (request_id : string) :=
  s.(sign_message_requests) !! request_id.
Definition get_pay_request (s : core) (request_id : string) := s.(pay_requests) !! request_id.
Definition get_fund_request (s : core) (request_id : string) := s.(fund_requests) !! request_id.

(** A run of the core: the inputs in order, the effects in order. *)
Definition run_inputs (inputs : list input) : method := for_each inputs handle.
End session.
