(* ===== verification/SessionLib.v ===== *)
(** Reasoning about the methods of the session core: relations between a
    start state, an end state and the effects in between that compose, and
    the lemmas that lift them from [push] and [modify] to whole methods. *)

From S2P Require Import Prelude Crates Wire Key Link SessionData Session.

(** Relations that hold of doing nothing and compose in sequence. *)
Class EffRel `{SchnorrApi} (R : core → core → list effect → Prop) := {
  er_nil s : R s s [];
  er_app s1 s2 s3 e1 e2 : R s1 s2 e1 → R s2 s3 e2 → R s1 s3 (e1 ++ e2);
}.

Definition respects `{SchnorrApi} (R : core → core → list effect → Prop) (m : method) : Prop :=
  ∀ s, R s (m s).1 (m s).2.

Create HintDb session.

Section respects.
Context `{!SchnorrApi} (R : core → core → list effect → Prop) `{!EffRel R}.

Lemma respects_skip : respects R skip.
Proof. intros s. apply er_nil. Qed.
Lemma respects_seq a b : respects R a → respects R b → respects R (seq a b).
Proof. intros Ha Hb s. rewrite seq_fst, seq_snd. eapply er_app; [apply Ha|apply Hb]. Qed.
Lemma respects_gets {A} (f : core → A) k : (∀ a, respects R (k a)) → respects R (gets f k).
Proof. intros Hk s. apply Hk. Qed.
Lemma respects_for_each {A} (l : list A) f :
  (∀ x, x ∈ l → respects R (f x)) → respects R (for_each l f).
Proof.
  induction l as [|x l IH]; intros Hf; [apply respects_skip|].
  apply respects_seq; [apply Hf; left|apply IH; intros; apply Hf; by right].
Qed.
Lemma respects_option {A} (o : option A) (f : A → method) (m : method) :
  (∀ a, respects R (f a)) → respects R m →
  respects R (match o with Some a => f a | None => m end).
Proof. destruct o; auto. Qed.
Lemma respects_bool (b : bool) (m n : method) :
  respects R m → respects R n → respects R (if b then m else n).
Proof. destruct b; auto. Qed.
(** A relation preserved by every step of a method, as a state invariant. *)
Lemma respects_modify f : (∀ s, R s (f s) []) → respects R (modify f).
Proof. intros Hf s. apply Hf. Qed.
Lemma respects_push e : (∀ s, R s s [e]) → respects R (push e).
Proof. intros He s. apply He. Qed.
End respects.
#[export] Hint Resolve respects_skip respects_seq respects_gets respects_option respects_bool : session.

Ltac unfold_upd :=
  unfold upd_connected, upd_login_succeed, upd_login_requests, upd_sign_requests,
    upd_sign_message_requests, upd_receive_address_requests, upd_asset_balance_requests,
    upd_holdings, upd_pay_requests, upd_fund_requests, upd_user_actions, upd_next_action_id,
    upd_mobile_requests, upd_fcm_token.

(** The store laws of a request kind. *)
Class RequestKindLaws `{RequestKind R} := {
  rk_store_upd f s : rk_store (rk_upd f s) = f (rk_store s);
  rk_upd_upd f g s : rk_upd f (rk_upd g s) = rk_upd (λ m, f (g m)) s;
  rk_upd_id f s : f (rk_store s) = rk_store s → rk_upd f s = s;
}.
Arguments RequestKindLaws {_} R {_}.

Section kinds.
Context `{!SchnorrApi}.
Local Ltac solve_kind :=
  split; [reflexivity..|]; intros f s Hf; destruct s; simpl in *;
  unfold_upd; simpl; by rewrite Hf.
#[global] Instance login_request_laws : RequestKindLaws LoginRequest.
Proof. solve_kind. Qed.
#[global] Instance sign_request_laws : RequestKindLaws SignRequest.
Proof. solve_kind. Qed.
#[global] Instance sign_message_request_laws : RequestKindLaws SignMessageRequest.
Proof. solve_kind. Qed.
#[global] Instance pay_request_laws : RequestKindLaws PayRequest.
Proof. solve_kind. Qed.
#[global] Instance fund_request_laws : RequestKindLaws FundRequest.
Proof. solve_kind. Qed.
#[global] Instance receive_address_request_laws : RequestKindLaws ReceiveAddressRequest.
Proof. solve_kind. Qed.
#[global] Instance asset_balance_request_laws : RequestKindLaws AssetBalanceRequest.
Proof. solve_kind. Qed.
End kinds.

(** * The methods respect a relation that their primitive steps respect *)

Section methods.
Context `{!HashesApi, !HexApi, !SchnorrApi, !SerdeWire} (R : core → core → list effect → Prop) `{!EffRel R}.

(** What a relation must say of one request kind. *)
Class KindRel (Rq : Type) `{!RequestKind Rq} := {
  kr_add (r : Rq) : respects R (add_request r);
  kr_remove id : respects R (remove_request (R:=Rq) id);
}.

Lemma respects_sync_requests `{!RequestKind Rq, !KindRel Rq} (rs : list Rq) : respects R (sync_requests rs).
Proof using EffRel0.
  apply respects_gets; intros old. apply respects_seq; [done..| |].
  - apply respects_for_each; [done|]. intros. apply kr_remove.
  - apply respects_for_each; [done|]. intros r _. apply respects_gets; intros found.
    apply respects_option; intros; [by apply respects_skip|apply kr_add].
Qed.
End methods.
