(* ===== verification/SessionMirror.v ===== *)
(** Refinement of the session core to what the host sees: replaying the
    effects of any input on the host's picture of the pending requests and
    holdings gives exactly the core's stores. *)

From S2P Require Import Prelude Crates Wire Key Link SessionData Session SessionLib.

(** The abstract specification: a host's picture, changed only by effects. *)
Record host_view := {
  hv_login : gmap string LoginRequest;
  hv_sign : gmap string SignRequest;
  hv_sign_message : gmap string SignMessageRequest;
  hv_receive_address : gmap string ReceiveAddressRequest;
  hv_asset_balance : gmap string AssetBalanceRequest;
  hv_holdings : gmap string HoldingsReport;
  hv_pay : gmap string PayRequest;
  hv_fund : gmap string FundRequest;
}.

Definition apply_effect (h : host_view) (e : effect) : host_view :=
  let '(Build_host_view a b c d e0 f g k) := h in
  match e with
  | Effect.AddLoginRequest r => Build_host_view (<[lr_request_id r := r]> a) b c d e0 f g k
  | Effect.RemoveLoginRequest i => Build_host_view (delete i a) b c d e0 f g k
  | Effect.AddSignRequest r => Build_host_view a (<[sr_request_id r := r]> b) c d e0 f g k
  | Effect.RemoveSignRequest i => Build_host_view a (delete i b) c d e0 f g k
  | Effect.AddSignMessageRequest r => Build_host_view a b (<[smr_request_id r := r]> c) d e0 f g k
  | Effect.RemoveSignMessageRequest i => Build_host_view a b (delete i c) d e0 f g k
  | Effect.AddReceiveAddressRequest r => Build_host_view a b c (<[rar_request_id r := r]> d) e0 f g k
  | Effect.RemoveReceiveAddressRequest i => Build_host_view a b c (delete i d) e0 f g k
  | Effect.AddAssetBalanceRequest r => Build_host_view a b c d (<[abr_request_id r := r]> e0) f g k
  | Effect.RemoveAssetBalanceRequest i => Build_host_view a b c d (delete i e0) f g k
  | Effect.SetHoldings r => Build_host_view a b c d e0 (<[hr_domain r := r]> f) g k
  | Effect.ClearHoldings i => Build_host_view a b c d e0 (delete i f) g k
  | Effect.AddPayRequest r => Build_host_view a b c d e0 f (<[pr_request_id r := r]> g) k
  | Effect.RemovePayRequest i => Build_host_view a b c d e0 f (delete i g) k
  | Effect.AddFundRequest r => Build_host_view a b c d e0 f g (<[fr_request_id r := r]> k)
  | Effect.RemoveFundRequest i => Build_host_view a b c d e0 f g (delete i k)
  | Effect.Send _ | Effect.SessionList _ | Effect.SessionCreated _ | Effect.SessionRemoved _
  | Effect.MinimizeMobileApp | Effect.ActionFailed _ _ => h
  end.

(** Whether an effect is none of the host's stores' business. *)
Definition is_view_effect (e : effect) : bool :=
  match e with
  | Effect.Send _ | Effect.SessionList _ | Effect.SessionCreated _ | Effect.SessionRemoved _
  | Effect.MinimizeMobileApp | Effect.ActionFailed _ _ => false
  | _ => true
  end.

Section mirror.
Context `{!HashesApi, !HexApi, !SchnorrApi, !SerdeWire}.

Definition view_of (s : core) : host_view :=
  Build_host_view s.(login_requests) s.(sign_requests) s.(sign_message_requests)
    s.(receive_address_requests) s.(asset_balance_requests) s.(holdings)
    s.(pay_requests) s.(fund_requests).

Definition replay (h : host_view) (es : list effect) : host_view := foldl apply_effect h es.

Definition Mirror (s s' : core) (es : list effect) : Prop := replay (view_of s) es = view_of s'.

#[local] Instance mirror_effrel : EffRel Mirror.
Proof.
  split; [done|]. intros s1 s2 s3 e1 e2 H12 H23. unfold Mirror, replay in *.
  by rewrite foldl_app, H12, H23.
Qed.

Local Ltac mirror_kind := split; intros; intros []; reflexivity.
#[local] Instance mirror_login : KindRel Mirror LoginRequest.
Proof. mirror_kind. Qed.
#[local] Instance mirror_sign : KindRel Mirror SignRequest.
Proof. mirror_kind. Qed.
#[local] Instance mirror_sign_message : KindRel Mirror SignMessageRequest.
Proof. mirror_kind. Qed.
#[local] Instance mirror_pay : KindRel Mirror PayRequest.
Proof. mirror_kind. Qed.
#[local] Instance mirror_fund : KindRel Mirror FundRequest.
Proof. mirror_kind. Qed.
#[local] Instance mirror_receive_address : KindRel Mirror ReceiveAddressRequest.
Proof. mirror_kind. Qed.
#[local] Instance mirror_asset_balance : KindRel Mirror AssetBalanceRequest.
Proof. mirror_kind. Qed.

Lemma mirror_push e : is_view_effect e = false → respects Mirror (push e).
Proof. intros He []. by destruct e. Qed.
Lemma mirror_modify f : (∀ s, view_of (f s) = view_of s) → respects Mirror (modify f).
Proof. intros Hf s. symmetry. apply Hf. Qed.
Lemma mirror_set_holdings report :
  respects Mirror (seq (modify (upd_holdings <[report.(hr_domain) := report]>))
                     (push (Effect.SetHoldings report))).
Proof. by intros []. Qed.
Lemma mirror_clear_holdings domain :
  respects Mirror (seq (modify (upd_holdings (delete domain))) (push (Effect.ClearHoldings domain))).
Proof. by intros []. Qed.
Lemma mirror_holdings_removed domain :
  respects Mirror (handle_notification (Notif.HoldingsRemoved domain)).
Proof.
  intros [????????????????]. unfold handle_notification, gets, Mirror. simpl.
  destruct (_ !! domain) eqn:E; [done|]. unfold view_of; simpl. by rewrite delete_id.
Qed.

#[local] Opaque skip push modify seq gets for_each.

Local Ltac mirror :=
  repeat first
    [ progress intros
    | apply respects_skip; exact _
    | apply mirror_set_holdings | apply mirror_clear_holdings
    | apply mirror_push; reflexivity
    | apply mirror_modify; intros []; reflexivity
    | apply kr_add; exact _ | apply kr_remove; exact _
    | apply respects_sync_requests; exact _
    | apply respects_seq; [exact _|..]
    | apply respects_gets; intros
    | apply respects_for_each; [exact _|intros]
    | case_match; subst ].

Lemma mirror_sync_holdings reports : respects Mirror (sync_holdings reports).
Proof. unfold sync_holdings. mirror. Qed.
Lemma mirror_send_fcm_token : respects Mirror send_fcm_token.
Proof. unfold send_fcm_token. mirror. Qed.
Lemma mirror_add_user_action action : respects Mirror (add_user_action action).
Proof. unfold add_user_action. mirror. Qed.
Lemma mirror_finish_request id : respects Mirror (finish_request id).
Proof. unfold finish_request. mirror. Qed.
#[local] Opaque sync_holdings sync_requests send_fcm_token add_request remove_request.

Lemma mirror_notification n : respects Mirror (handle_notification n).
Proof.
  destruct n; try apply mirror_holdings_removed; simpl; mirror.
Qed.
Lemma mirror_response id r : respects Mirror (handle_response id r).
Proof.
  unfold handle_response, sync_sign_requests, sync_sign_message_requests, sync_pay_requests,
    sync_fund_requests, sync_receive_address_requests, sync_asset_balance_requests.
  pose proof mirror_sync_holdings. pose proof mirror_send_fcm_token. mirror; auto.
Qed.
Lemma mirror_server_message m : respects Mirror (handle_server_message m).
Proof.
  destruct m; simpl; [apply mirror_response| |apply mirror_notification].
  mirror.
Qed.
Lemma mirror_answer id a : respects Mirror (answer id a).
Proof. apply respects_seq; [exact _|apply mirror_add_user_action|apply mirror_finish_request]. Qed.
Lemma mirror_answer_live live id a : respects Mirror (answer_live live id a).
Proof.
  apply respects_seq; [exact _| |apply mirror_finish_request].
  apply respects_gets; intros []; [apply mirror_add_user_action|apply respects_skip; exact _].
Qed.

Lemma handle_respects_Mirror i : respects Mirror (handle i).
Proof.
  destruct i as [[| |]|[lt ? ? ?]| | | | | | | | | | | | | | | | |];
    unfold handle, handle_transport, handle_app_link, login_accepted;
    mirror; eauto using mirror_answer, mirror_answer_live, mirror_add_user_action,
      mirror_finish_request, mirror_server_message, mirror_send_fcm_token.
Qed.

(** C1. The host's view refines the core: for every input and every state,
    replaying the effects the core returns on the host's picture of the
    pending requests and holdings gives exactly the stores of the new
    state — no request is added, replaced or dropped in silence, and none
    is announced that the core does not hold. *)
Theorem handle_mirrors_host i s :
  replay (view_of s) (handle i s).2 = view_of (handle i s).1.
Proof. apply handle_respects_Mirror. Qed.

(** The same over whole runs: a host that starts with an empty picture
    and applies every effect it is given, in order, shows exactly the
    core's stores after any sequence of inputs. *)
Lemma run_mirrors_host install_id descriptor key inputs :
  let s0 := core_new install_id descriptor key in
  replay (Build_host_view ∅ ∅ ∅ ∅ ∅ ∅ ∅ ∅) (run_inputs inputs s0).2
    = view_of (run_inputs inputs s0).1.
Proof.
  intros s0. refine (respects_for_each Mirror inputs handle _ s0).
  intros i _. apply handle_respects_Mirror.
Qed.
End mirror.
