(* ===== verification/SessionActions.v ===== *)
(** The pending user actions of the session core: which input issues which
    action, what settles one, and the consequences for whole runs — every
    frame that leaves is accounted for, approvals are not lost, ids are
    fresh. *)

From S2P Require Import Prelude Crates Wire Key Link SessionData Session SessionLib.

Section actions.
Context `{!HashesApi, !HexApi, !SchnorrApi, !SerdeWire}.
Implicit Types (s : core) (i : input).

(** ** What the host must have done for an action to be issued *)

(** A login may be accepted without a service binding only when the stored
    request did not ask for one. *)
Definition binding_supplied s (request_id : string) (b : option ServiceBinding) : Prop :=
  ∀ r, s.(login_requests) !! request_id = Some r → is_Some r.(lr_service_challenge) → is_Some b.

Inductive issued s : input → user_action → Prop :=
| issued_link request_id is_mobile network :
    issued s (Input.AppLink (Build_AppLink LinkLogin request_id is_mobile network))
      (UserAction.LinkLoginRequest request_id)
| issued_login_accept request_id b :
    binding_supplied s request_id b →
    issued s (Input.LoginAccepted request_id b)
      (UserAction.AcceptLoginRequest request_id s.(descriptor) (sb_key <$> b) (sb_signature <$> b))
| issued_login_reject request_id :
    issued s (Input.LoginRejected request_id) (UserAction.CancelLoginRequest request_id)
| issued_sign_accept request_id pset :
    issued s (Input.SignAccepted request_id pset) (UserAction.AcceptSignRequest request_id pset)
| issued_sign_reject request_id :
    issued s (Input.SignRejected request_id) (UserAction.CancelSignRequest request_id)
| issued_message_accept request_id r digest :
    s.(sign_message_requests) !! request_id = Some r →
    hex_decode_to_slice 32 r.(smr_digest) = Some digest →
    issued s (Input.SignMessageAccepted request_id)
      (UserAction.AcceptSignMessageRequest request_id
         (signature_to_string (wk_sign_digest s.(wallet_key) digest)))
| issued_message_signed request_id signature :
    is_Some (s.(sign_message_requests) !! request_id) →
    issued s (Input.SignMessageSigned request_id signature)
      (UserAction.AcceptSignMessageRequest request_id signature)
| issued_message_reject request_id :
    issued s (Input.SignMessageRejected request_id) (UserAction.CancelSignMessageRequest request_id)
| issued_address request_id address :
    is_Some (s.(receive_address_requests) !! request_id) →
    issued s (Input.ReceiveAddressProvided request_id address)
      (UserAction.AcceptReceiveAddressRequest request_id address)
| issued_address_reject request_id :
    issued s (Input.ReceiveAddressRejected request_id)
      (UserAction.CancelReceiveAddressRequest request_id)
| issued_balance request_id amount :
    is_Some (s.(asset_balance_requests) !! request_id) →
    issued s (Input.AssetBalanceProvided request_id amount)
      (UserAction.AcceptAssetBalanceRequest request_id amount)
| issued_balance_reject request_id :
    issued s (Input.AssetBalanceRejected request_id)
      (UserAction.CancelAssetBalanceRequest request_id)
| issued_pay request_id txid :
    is_Some (s.(pay_requests) !! request_id) →
    issued s (Input.PayBuilt request_id txid) (UserAction.AcceptPayRequest request_id txid)
| issued_pay_reject request_id :
    issued s (Input.PayRejected request_id) (UserAction.CancelPayRequest request_id)
| issued_fund request_id pset :
    is_Some (s.(fund_requests) !! request_id) →
    issued s (Input.FundSigned request_id pset) (UserAction.AcceptFundRequest request_id pset)
| issued_fund_reject request_id :
    issued s (Input.FundRejected request_id) (UserAction.CancelFundRequest request_id)
| issued_stop session_id :
    issued s (Input.StopSession session_id) (UserAction.StopSession session_id).

(** A server message that settles the pending action [id]. *)
Definition settles i (id : Z) : Prop :=
  ∃ text, i = Input.Transport (Recv text) ∧
    (wire_from_str text = Some (From.Resp id Resp.UserAction) ∨
     ∃ err, wire_from_str text = Some (From.Error id err)).

(** How one input changes the pending actions. *)
Inductive actions_step s i s' : Prop :=
| actions_same :
    s'.(user_actions) = s.(user_actions) → s'.(next_action_id) = s.(next_action_id) →
    actions_step s i s'
| actions_issue a :
    issued s i a →
    s'.(user_actions) = <[s.(next_action_id) := a]> s.(user_actions) →
    s'.(next_action_id) = i32_wrap (s.(next_action_id) + 1) → actions_step s i s'
| actions_settle id :
    settles i id → s'.(user_actions) = delete id s.(user_actions) →
    s'.(next_action_id) = s.(next_action_id) → actions_step s i s'.

(** Methods that leave the pending actions, the login state and the wallet's
    identity alone, and send nothing but the push token of a logged-in
    session. *)
Definition kept s :=
  (s.(user_actions), s.(next_action_id), s.(connected), s.(login_succeed), s.(fcm_token),
   (s.(wallet_key), s.(install_id), s.(descriptor))).
Definition fcm_frame s (d : string) : Prop :=
  ∃ token, s.(fcm_token) = Some token ∧ s.(connected) = true ∧ s.(login_succeed) = true ∧
    d = wire_to_string {| to_id := 0; to_req := Req.RegisterFcm token |}.
Definition Calm s s' (es : list effect) : Prop :=
  kept s' = kept s ∧ ∀ d, Effect.Send d ∈ es → fcm_frame s d.

Lemma fcm_frame_kept s s' d : kept s' = kept s → fcm_frame s' d → fcm_frame s d.
Proof. unfold fcm_frame, kept. intros [=] (token & ?). exists token. naive_solver congruence. Qed.

#[local] Instance calm_effrel : EffRel Calm.
Proof.
  split; [split; [done|]; intros ? []%not_elem_of_nil|].
  intros s1 s2 s3 e1 e2 [K12 S12] [K23 S23]. split; [congruence|].
  intros d [|]%elem_of_app; eauto using fcm_frame_kept.
Qed.

Lemma calm_modify f : (∀ s, kept (f s) = kept s) → respects Calm (modify f).
Proof. intros Hf s. split; [apply Hf|]. by intros ? []%not_elem_of_nil. Qed.
Lemma calm_push e : (∀ d, e ≠ Effect.Send d) → respects Calm (push e).
Proof. intros He s. split; [done|]. intros d Hd%list_elem_of_singleton. by edestruct He. Qed.

Local Ltac calm_kind :=
  split; intros; (apply respects_seq;
    [exact _|apply calm_modify; intros []; done|apply calm_push; done]).
#[local] Instance calm_login : KindRel Calm LoginRequest.
Proof. calm_kind. Qed.
#[local] Instance calm_sign : KindRel Calm SignRequest.
Proof. calm_kind. Qed.
#[local] Instance calm_sign_message : KindRel Calm SignMessageRequest.
Proof. calm_kind. Qed.
#[local] Instance calm_pay : KindRel Calm PayRequest.
Proof. calm_kind. Qed.
#[local] Instance calm_fund : KindRel Calm FundRequest.
Proof. calm_kind. Qed.
#[local] Instance calm_receive_address : KindRel Calm ReceiveAddressRequest.
Proof. calm_kind. Qed.
#[local] Instance calm_asset_balance : KindRel Calm AssetBalanceRequest.
Proof. calm_kind. Qed.

#[local] Opaque skip push modify seq gets for_each.
Local Ltac calm :=
  repeat first
    [ progress intros
    | apply respects_skip; exact _
    | apply calm_push; done
    | apply calm_modify; intros []; done
    | apply kr_add; exact _ | apply kr_remove; exact _
    | apply respects_sync_requests; exact _
    | apply respects_seq; [exact _|..]
    | apply respects_gets; intros
    | apply respects_for_each; [exact _|intros]
    | case_match; subst ].

Lemma calm_sync_holdings reports : respects Calm (sync_holdings reports).
Proof. unfold sync_holdings. calm. Qed.
Lemma calm_finish_request id : respects Calm (finish_request id).
Proof. unfold finish_request. calm. Qed.
#[local] Transparent skip push modify seq gets for_each.
Lemma calm_send_fcm_token : respects Calm send_fcm_token.
Proof.
  intros s. unfold send_fcm_token, gets.
  destruct (fcm_token s) as [token|] eqn:E; [|by apply respects_skip; exact _].
  destruct (_ && _) eqn:E2; [|by apply respects_skip; exact _].
  apply andb_true_iff in E2 as []. split; [done|].
  intros d [= ->]%list_elem_of_singleton. by exists token.
Qed.
#[local] Opaque skip push modify seq gets for_each.
#[local] Opaque sync_holdings sync_requests send_fcm_token add_request remove_request.
Lemma calm_notification n : respects Calm (handle_notification n).
Proof. destruct n; simpl; calm. Qed.

(** The part of the login response's handler after the replay. *)
Definition login_sync (r : LoginResp) : method := (
  sync_sign_requests r.(lresp_sign_requests) ;;
  sync_sign_message_requests r.(lresp_sign_message_requests) ;;
  sync_pay_requests r.(lresp_pay_requests) ;;
  sync_fund_requests r.(lresp_fund_requests) ;;
  sync_receive_address_requests r.(lresp_receive_address_requests) ;;
  sync_asset_balance_requests r.(lresp_asset_balance_requests) ;;
  sync_holdings r.(lresp_holdings) ;;
  push (Effect.SessionList r.(lresp_sessions)) ;;
  send_fcm_token)%M.
Lemma calm_login_sync r : respects Calm (login_sync r).
Proof.
  unfold login_sync, sync_sign_requests, sync_sign_message_requests, sync_pay_requests,
    sync_fund_requests, sync_receive_address_requests, sync_asset_balance_requests.
  calm; auto using calm_sync_holdings, calm_send_fcm_token.
Qed.
#[local] Transparent skip push modify seq gets for_each.

Definition pending_frames s : list effect :=
  (λ '(id, action), send id (Req.UserAction action)) <$> btree_iter Z.le s.(user_actions).

Lemma for_each_push {A} (l : list A) (m : A → method) (f : A → effect) s :
  (∀ x, m x s = (s, [f x])) → for_each l m s = (s, f <$> l).
Proof.
  intros Hm. induction l as [|x l IH]; [done|]. simpl. unfold seq at 1. by rewrite Hm, IH.
Qed.

(** The login response: replay first, then the synchronisation. *)
Lemma login_response_eq id r s :
  let s1 := upd_login_succeed (λ _, true) s in
  handle_response id (Resp.Login r) s
    = ((login_sync r s1).1, pending_frames s ++ (login_sync r s1).2).
Proof.
  intros s1. unfold handle_response. fold (login_sync r). rewrite (surjective_pairing (seq _ _ s)).
  rewrite seq_fst, seq_snd. change (modify _ s) with (s1, @nil effect). cbn [fst snd].
  unfold gets. rewrite seq_fst, seq_snd. erewrite for_each_push; [done|by intros []].
Qed.

Definition NoAct s s' : Prop :=
  s'.(user_actions) = s.(user_actions) ∧ s'.(next_action_id) = s.(next_action_id).
Lemma calm_noact s s' es : Calm s s' es → NoAct s s'.
Proof. intros [[=] _]. by split. Qed.

Lemma calm_step m s i s' : respects Calm m → s' = (m s).1 → actions_step s i s'.
Proof. intros Hm ->. destruct (calm_noact _ _ _ (Hm s)). by apply actions_same. Qed.

(** [add_user_action] followed by a method that leaves the actions alone. *)
Lemma add_user_action_state a s :
  ((add_user_action a s).1).(user_actions) = <[s.(next_action_id) := a]> s.(user_actions) ∧
  ((add_user_action a s).1).(next_action_id) = i32_wrap (s.(next_action_id) + 1).
Proof. unfold add_user_action, gets, seq; simpl. destruct (connected s); done. Qed.

Lemma add_user_action_step a s i : issued s i a → actions_step s i (add_user_action a s).1.
Proof.
  intros Ha. destruct (add_user_action_state a s). by apply (actions_issue _ _ _ a).
Qed.

(** What [finish_request] adds at the end changes no pending action. *)
Lemma actions_step_calm s i s1 s2 es :
  Calm s1 s2 es → actions_step s i s1 → actions_step s i s2.
Proof.
  intros [Hu Hn]%calm_noact [].
  - apply actions_same; congruence.
  - eapply actions_issue; [done|congruence..].
  - eapply actions_settle; [done|congruence..].
Qed.

Lemma answer_step request_id a s i : issued s i a → actions_step s i (answer request_id a s).1.
Proof.
  intros Ha. unfold answer. rewrite seq_fst.
  eapply actions_step_calm; [apply calm_finish_request|by apply add_user_action_step].
Qed.

Lemma answer_live_step live request_id a s i :
  (live s = true → issued s i a) → actions_step s i (answer_live live request_id a s).1.
Proof.
  intros Ha. unfold answer_live. rewrite seq_fst.
  eapply actions_step_calm; [apply calm_finish_request|]. unfold gets.
  destruct (live s); [by apply add_user_action_step; auto|by apply actions_same].
Qed.

Lemma contains_key_true {V} (m : gmap string V) k : contains_key m k = true → is_Some (m !! k).
Proof. unfold contains_key. by destruct (m !! k). Qed.

Lemma server_message_step m s text :
  wire_from_str text = Some m →
  actions_step s (Input.Transport (Recv text)) (handle_server_message m s).1.
Proof.
  intros Hm. destruct m as [id r|id err|n]; simpl.
  - destruct r as [c|r| |].
    + by apply actions_same.
    + rewrite login_response_eq. eapply actions_step_calm; [apply (calm_login_sync r)|].
      by apply actions_same.
    + eapply (actions_settle _ _ _ id); [|done..]. exists text. eauto.
    + by apply actions_same.
  - eapply (actions_settle _ _ _ id).
    + exists text. eauto.
    + unfold gets, seq. simpl. by destruct (_ !! id).
    + unfold gets, seq. simpl. by destruct (_ !! id).
  - by eapply calm_step; [apply calm_notification|].
Qed.

Lemma login_accepted_step s request_id b :
  actions_step s (Input.LoginAccepted request_id b) (login_accepted request_id b s).1.
Proof.
  unfold login_accepted, gets at 1.
  destruct (_ && _) eqn:E; [by apply actions_same|].
  apply answer_step. constructor. intros r Hr Hc. rewrite Hr in E.
  rewrite bool_decide_true in E by done. simpl in E.
  apply bool_decide_eq_false in E. by apply not_eq_None_Some.
Qed.

Lemma sign_message_step s request_id :
  actions_step s (Input.SignMessageAccepted request_id)
    (handle (Input.SignMessageAccepted request_id) s).1.
Proof.
  unfold handle. rewrite seq_fst. eapply actions_step_calm; [apply calm_finish_request|].
  unfold gets. destruct (sign_message_digest s request_id) eqn:E; [|by apply actions_same].
  apply add_user_action_step. unfold sign_message_digest in E. result_inv. by econstructor.
Qed.

Lemma app_link_step s l : actions_step s (Input.AppLink l) (handle_app_link l s).1.
Proof.
  unfold handle_app_link. rewrite seq_fst.
  set (s1 := (_ s).1). assert (NoAct s s1) as [Hu Hn] by (by destruct l as [? ? [] ?]).
  destruct l as [[] id m net]; cbn [al_link_type al_request_id]; try by apply actions_same.
  destruct (add_user_action_state (UserAction.LinkLoginRequest id) s1) as [Hu' Hn'].
  eapply actions_issue; [apply issued_link|rewrite Hu'; congruence|congruence].
Qed.

(** One input issues at most one action, or settles one, or leaves them. *)
Lemma handle_actions_step i s : actions_step s i (handle i s).1.
Proof.
  destruct i as [[|text|]|l| | | | | | | | | | | | | | | | |];
    try (apply answer_step; by constructor);
    try (apply answer_live_step; intros ?%contains_key_true; by constructor).
  - by apply actions_same.
  - simpl. destruct (wire_from_str text) eqn:E; [by apply server_message_step|by apply actions_same].
  - by apply actions_same.
  - apply app_link_step.
  - apply login_accepted_step.
  - apply sign_message_step.
  - eapply actions_step_calm; [|by apply (actions_same s _ (upd_fcm_token (λ _, Some token) s))].
    unfold handle. rewrite seq_fst. apply calm_send_fcm_token.
  - apply add_user_action_step. constructor.
Qed.

(** Conversely, an input that may issue an action does, under the next id,
    and sends it when the core is connected. *)
Lemma add_user_action_effects a s :
  (add_user_action a s).2
    = if s.(connected) then [send s.(next_action_id) (Req.UserAction a)] else [].
Proof. unfold add_user_action, gets, seq; simpl. by destruct (connected s). Qed.

Lemma answer_issues request_id a s :
  ((answer request_id a s).1).(user_actions) = <[s.(next_action_id) := a]> s.(user_actions).
Proof.
  unfold answer. rewrite seq_fst.
  destruct (calm_noact _ _ _ (calm_finish_request request_id (add_user_action a s).1)) as [-> _].
  apply add_user_action_state.
Qed.
Lemma answer_live_issues live request_id a s :
  live s = true →
  ((answer_live live request_id a s).1).(user_actions) = <[s.(next_action_id) := a]> s.(user_actions).
Proof.
  intros Hl. unfold answer_live. rewrite seq_fst. unfold gets. rewrite Hl.
  destruct (calm_noact _ _ _ (calm_finish_request request_id (add_user_action a s).1)) as [-> _].
  apply add_user_action_state.
Qed.
Lemma contains_key_Some {V} (m : gmap string V) k : is_Some (m !! k) → contains_key m k = true.
Proof. intros [? Hk]. unfold contains_key. by rewrite Hk. Qed.

Lemma handle_issues i a s :
  issued s i a →
  ((handle i s).1).(user_actions) = <[s.(next_action_id) := a]> s.(user_actions).
Proof.
  destruct 1 as [ | request_id b Hb | | | | request_id r digest Hr Hd | | | | | | | | | | | ];
    try apply answer_issues; try (by apply answer_live_issues, contains_key_Some).
  - unfold handle, handle_app_link. cbn [al_link_type al_request_id].
    rewrite seq_fst. destruct is_mobile; exact (proj1 (add_user_action_state _ _)).
  - simpl. unfold login_accepted, gets at 1. destruct (_ && _) eqn:E; [|apply answer_issues].
    apply andb_true_iff in E as [E1 E2]. apply bool_decide_eq_true in E2 as ->.
    destruct (login_requests s !! request_id) as [r|] eqn:Er; [|done].
    apply bool_decide_eq_true in E1. by destruct (Hb r Er E1).
  - unfold handle. rewrite seq_fst. unfold gets, sign_message_digest. rewrite Hr. simpl.
    rewrite Hd. simpl.
    destruct (calm_noact _ _ _ (calm_finish_request request_id (add_user_action
      (UserAction.AcceptSignMessageRequest request_id
         (signature_to_string (wk_sign_digest (wallet_key s) digest))) s).1)) as [-> _].
    apply add_user_action_state.
  - apply add_user_action_state.
Qed.
End actions.
