(* ===== verification/SessionRuns.v ===== *)
(** Whole runs of the session core: every frame that leaves is accounted for
    by an earlier input, the ids of actions are fresh, an approval is kept and
    replayed until the server settles it, and a session that is offline stays
    silent. *)

From S2P Require Import Prelude Crates Wire Key Link SessionData Session SessionLib SessionActions.

Section frames.
Context `{!HashesApi, !HexApi, !SchnorrApi, !SerdeWire}.
Implicit Types (s : core) (i : input) (d : string).

Definition frame (id : ReqId) (r : req) : string := wire_to_string {| to_id := id; to_req := r |}.

(** Why a frame may leave while [i] is handled in [s]. *)
Inductive frame_ok s : input → string → Prop :=
| frame_challenge : frame_ok s (Input.Transport Connected) (frame 0 Req.Challenge)
| frame_login text id challenge :
    wire_from_str text = Some (From.Resp id (Resp.Challenge challenge)) →
    frame_ok s (Input.Transport (Recv text))
      (frame 0 (Req.Login {| lreq_public_key := wk_public_key s.(wallet_key);
                             lreq_signature := wk_sign_challenge s.(wallet_key) challenge;
                             lreq_install_id := Some s.(install_id) |}))
| frame_replay text id r req_id a :
    wire_from_str text = Some (From.Resp id (Resp.Login r)) →
    s.(user_actions) !! req_id = Some a →
    frame_ok s (Input.Transport (Recv text)) (frame req_id (Req.UserAction a))
| frame_token i token :
    s.(connected) = true →
    s.(fcm_token) = Some token ∨ i = Input.RegisterFcmToken token →
    frame_ok s i (frame 0 (Req.RegisterFcm token))
| frame_issued i a :
    s.(connected) = true → issued s i a →
    frame_ok s i (frame s.(next_action_id) (Req.UserAction a)).

Definition frames_ok s i (es : list effect) : Prop := ∀ d, Effect.Send d ∈ es → frame_ok s i d.

Lemma frames_ok_nil s i : frames_ok s i [].
Proof. by intros d ?%not_elem_of_nil. Qed.
Lemma frames_ok_app s i e1 e2 : frames_ok s i e1 → frames_ok s i e2 → frames_ok s i (e1 ++ e2).
Proof. intros ?? d [|]%elem_of_app; auto. Qed.
Lemma frames_ok_one s i e : (∀ d, e = Effect.Send d → frame_ok s i d) → frames_ok s i [e].
Proof. intros He d ?%list_elem_of_singleton. auto. Qed.
Lemma frames_ok_calm s i s1 s2 es :
  s1.(connected) = s.(connected) → s1.(fcm_token) = s.(fcm_token) → Calm s1 s2 es → frames_ok s i es.
Proof.
  intros Hc Hf [_ HS] d (token & Ht & Hcon & _ & ->)%HS.
  apply frame_token; [congruence|left; congruence].
Qed.

Lemma frames_ok_add s i a : issued s i a → frames_ok s i (add_user_action a s).2.
Proof.
  intros Ha. rewrite add_user_action_effects. destruct (connected s) eqn:E; [|apply frames_ok_nil].
  apply frames_ok_one. intros d [= <-]. by apply frame_issued.
Qed.
Lemma frames_ok_finish s i request_id a :
  frames_ok s i (finish_request request_id (add_user_action a s).1).2.
Proof.
  eapply frames_ok_calm; [..|apply calm_finish_request];
    unfold add_user_action, gets, seq; simpl; by destruct (connected s) eqn:?.
Qed.
Lemma frames_ok_answer s i request_id a : issued s i a → frames_ok s i (answer request_id a s).2.
Proof.
  intros Ha. unfold answer. rewrite seq_snd. apply frames_ok_app; [by apply frames_ok_add|].
  apply frames_ok_finish.
Qed.
Lemma frames_ok_answer_live s i live request_id a :
  (live s = true → issued s i a) → frames_ok s i (answer_live live request_id a s).2.
Proof.
  intros Ha. unfold answer_live. rewrite seq_snd. unfold gets. destruct (live s).
  - apply frames_ok_app; [apply frames_ok_add; auto|apply frames_ok_finish].
  - by eapply frames_ok_calm; [..|apply calm_finish_request].
Qed.

Lemma frames_ok_recv s text m :
  wire_from_str text = Some m →
  frames_ok s (Input.Transport (Recv text)) (handle_server_message m s).2.
Proof.
  intros Hm. destruct m as [id [c|r| |]|id err|n].
  - apply frames_ok_one. intros d [= <-]. by eapply frame_login.
  - unfold handle_server_message. rewrite login_response_eq. apply frames_ok_app.
    + intros d ([req_id a] & [= ->] & Hin%elem_of_btree_iter)%list_elem_of_fmap.
      by eapply frame_replay.
    + by eapply frames_ok_calm; [..|apply calm_login_sync].
  - apply frames_ok_nil.
  - apply frames_ok_nil.
  - unfold handle_server_message, gets, seq. simpl.
    destruct (_ !! id); [by apply frames_ok_one|apply frames_ok_nil].
  - by eapply frames_ok_calm; [..|apply calm_notification].
Qed.

Lemma handle_frames i s : frames_ok s i (handle i s).2.
Proof.
  destruct i as [[|text|]|l| | | | | | | | | | | | | | | | |];
    try (apply frames_ok_answer; by constructor);
    try (apply frames_ok_answer_live; intros ?%contains_key_true; by constructor).
  - apply frames_ok_one. intros d [= <-]. constructor.
  - simpl. destruct (wire_from_str text) eqn:E; [by apply frames_ok_recv|apply frames_ok_nil].
  - apply frames_ok_nil.
  - unfold handle, handle_app_link. rewrite seq_snd. destruct l as [[] id [] net]; simpl fst;
      try apply frames_ok_nil; (apply frames_ok_app; [apply frames_ok_nil|]);
      cbn [al_link_type al_request_id]; rewrite add_user_action_effects;
      (destruct (connected _) eqn:E; [|apply frames_ok_nil]);
      apply frames_ok_one; intros d [= <-]; apply frame_issued; done || constructor.
  - simpl. unfold login_accepted, gets at 1. destruct (_ && _) eqn:E; [by apply frames_ok_one|].
    apply frames_ok_answer. constructor. intros r Hr Hc. rewrite Hr in E.
    rewrite bool_decide_true in E by done. apply bool_decide_eq_false in E.
    by apply not_eq_None_Some.
  - unfold handle. rewrite seq_snd. unfold gets. destruct (sign_message_digest s _) eqn:E.
    + unfold sign_message_digest in E. result_inv.
      apply frames_ok_app; [apply frames_ok_add; by econstructor|apply frames_ok_finish].
    + by eapply frames_ok_calm; [..|apply calm_finish_request].
  - unfold handle. rewrite seq_snd. intros d Hd. simpl in Hd.
    destruct (calm_send_fcm_token (upd_fcm_token (λ _, Some token) s)) as [_ HS].
    destruct (HS d Hd) as (token' & [= <-] & Hc & _ & ->). apply frame_token; [done|by right].
  - apply frames_ok_add. constructor.
Qed.

(** ** The connection phase and the constant fields *)

(** Connected and logged in, as the transport events alone determine them. *)
Definition spec_phase (p : bool * bool) i : bool * bool :=
  match i with
  | Input.Transport Connected => (true, p.2)
  | Input.Transport Disconnected => (false, false)
  | Input.Transport (Recv text) =>
      match wire_from_str text with
      | Some (From.Resp _ (Resp.Login _)) => (p.1, true)
      | _ => p
      end
  | _ => p
  end.
Definition phase s : bool * bool := (s.(connected), s.(login_succeed)).
Definition identity s := (s.(wallet_key), s.(install_id), s.(descriptor)).
Definition spec_token (t : option string) i : option string :=
  match i with Input.RegisterFcmToken token => Some token | _ => t end.

Definition Fixed s s' (es : list effect) : Prop :=
  (phase s', identity s', s'.(fcm_token)) = (phase s, identity s, s.(fcm_token)).
#[local] Instance fixed_effrel : EffRel Fixed.
Proof. split; [done|]. unfold Fixed. congruence. Qed.
Lemma calm_fixed s s' es : Calm s s' es → Fixed s s' es.
Proof. intros [Hk _]. unfold kept, Fixed, phase, identity in *. congruence. Qed.
Lemma respects_calm_fixed m : respects Calm m → respects Fixed m.
Proof. intros Hm s. apply calm_fixed, Hm. Qed.
Lemma fixed_add_user_action a : respects Fixed (add_user_action a).
Proof. intros s. unfold add_user_action, gets, seq; simpl. by destruct (connected s). Qed.
Lemma fixed_answer request_id a : respects Fixed (answer request_id a).
Proof.
  apply respects_seq; [exact _|apply fixed_add_user_action|].
  apply respects_calm_fixed, calm_finish_request.
Qed.
Lemma fixed_answer_live live request_id a : respects Fixed (answer_live live request_id a).
Proof.
  apply respects_seq; [exact _| |apply respects_calm_fixed, calm_finish_request].
  apply respects_gets. intros []; [apply fixed_add_user_action|apply respects_skip; exact _].
Qed.

(** One input moves the phase and the token as specified, and nothing ever
    changes the key, the installation or the descriptor. *)
Definition handle_fields_spec s i : Prop :=
  let s' := (handle i s).1 in
  phase s' = spec_phase (phase s) i ∧ s'.(fcm_token) = spec_token s.(fcm_token) i ∧
  identity s' = identity s.
Lemma fixed_spec m s i :
  respects Fixed m → handle i s = m s → spec_phase (phase s) i = phase s →
  spec_token s.(fcm_token) i = s.(fcm_token) → handle_fields_spec s i.
Proof.
  intros Hm Hh Hp Ht. unfold handle_fields_spec. rewrite Hh, Hp, Ht.
  specialize (Hm s). unfold Fixed in Hm. repeat split; congruence.
Qed.
Lemma recv_fields s text m :
  wire_from_str text = Some m → handle_fields_spec s (Input.Transport (Recv text)).
Proof.
  intros Hm. destruct m as [id [c|r| |]|id err|n].
  2:{ unfold handle_fields_spec. simpl. rewrite Hm. unfold handle_server_message.
      rewrite login_response_eq. destruct (calm_login_sync r (upd_login_succeed (λ _, true) s))
        as [Hk _]. unfold kept in Hk. injection Hk as ????????. unfold phase, identity.
      simpl in *. repeat split; congruence. }
  4:{ eapply (fixed_spec (handle_server_message _)); simpl; rewrite ?Hm; [|done..].
      apply respects_gets; intros o. apply respects_seq; [exact _|by intros []|].
      destruct o; by intros []. }
  all: eapply (fixed_spec (handle_server_message _)); simpl; rewrite ?Hm; [|done..].
  4: apply respects_calm_fixed, calm_notification.
  all: by intros [].
Qed.

Lemma handle_fields i s : handle_fields_spec s i.
Proof.
  destruct i as [[|text|]|l| | | | | | | | | | | | | | | | |];
    try (by eapply fixed_spec; [apply fixed_answer|..]);
    try (by eapply fixed_spec; [apply fixed_answer_live|..]).
  - done.
  - destruct (wire_from_str text) eqn:E; [by eapply recv_fields|].
    apply (fixed_spec skip); simpl; by rewrite ?E.
  - done.
  - eapply fixed_spec; [|done..]. apply respects_seq; [exact _| |].
    + destruct (al_is_mobile l); by intros [].
    + destruct (al_link_type l); [apply fixed_add_user_action|by intros []..].
  - eapply fixed_spec; [|done..]. apply respects_gets. intros [o desc].
    apply respects_bool; [by intros []|apply fixed_answer].
  - eapply fixed_spec; [|done..]. apply respects_seq; [exact _| |].
    + apply respects_gets. intros []; [apply fixed_add_user_action|by intros []].
    + apply respects_calm_fixed, calm_finish_request.
  - pose proof (calm_fixed _ _ _ (calm_send_fcm_token (upd_fcm_token (λ _, Some token) s))) as Hc.
    unfold handle_fields_spec, handle. rewrite seq_fst. unfold Fixed in Hc.
    injection Hc as ??????. unfold phase, identity. simpl in *. repeat split; congruence.
  - by eapply fixed_spec; [apply fixed_add_user_action|..].
Qed.
End frames.

Section runs.
Context `{!HashesApi, !HexApi, !SchnorrApi, !SerdeWire}.
Context (iid : InstallId) (desc : string) (key : WalletKey).
Implicit Types (s : core) (i : input) (d : string).

(** The core after a sequence of inputs, and the frames it sent. *)
Definition after (inputs : list input) : core := (run_inputs inputs (core_new iid desc key)).1.
Definition sent (es : list effect) : list string :=
  omap (λ e, match e with Effect.Send d => Some d | _ => None end) es.

Lemma elem_of_sent d es : d ∈ sent es ↔ Effect.Send d ∈ es.
Proof.
  unfold sent. rewrite list_elem_of_omap. split.
  - intros ([] & ? & ?); naive_solver.
  - intros. by exists (Effect.Send d).
Qed.

Lemma run_inputs_snoc l i s :
  run_inputs (l ++ [i]) s
    = ((handle i (run_inputs l s).1).1, (run_inputs l s).2 ++ (handle i (run_inputs l s).1).2).
Proof.
  unfold run_inputs. revert s; induction l as [|j l IH]; intros s; simpl.
  - unfold seq. simpl. by destruct (handle i s) as [? ?]; simpl; rewrite app_nil_r.
  - rewrite (surjective_pairing (seq _ (for_each (l ++ [i]) handle) s)).
    rewrite !seq_fst, !seq_snd, IH. simpl. by rewrite app_assoc.
Qed.
Lemma after_snoc l i : after (l ++ [i]) = (handle i (after l)).1.
Proof. unfold after. by rewrite run_inputs_snoc. Qed.

(** An action issued during [inputs], and the id it got. *)
Definition issued_in (inputs : list input) (id : ReqId) (a : user_action) : Prop :=
  ∃ pre i post, inputs = pre ++ i :: post ∧ issued (after pre) i a ∧
    id = (after pre).(next_action_id).

Lemma issued_in_snoc inputs i id a : issued_in inputs id a → issued_in (inputs ++ [i]) id a.
Proof.
  intros (pre & j & post & -> & ? & ?). exists pre, j, (post ++ [i]).
  by rewrite <-app_assoc.
Qed.
Lemma issued_in_last inputs i a :
  issued (after inputs) i a → issued_in (inputs ++ [i]) (after inputs).(next_action_id) a.
Proof. intros. by exists inputs, i, []. Qed.

Lemma pending_issued inputs id a :
  (after inputs).(user_actions) !! id = Some a → issued_in inputs id a.
Proof.
  revert id a. induction inputs as [|i inputs IH] using rev_ind; intros id a; [done|].
  rewrite after_snoc. intros Ha.
  destruct (handle_actions_step i (after inputs)) as [Hu _|b Hb Hu _|k _ Hu _]; rewrite Hu in Ha.
  - by apply issued_in_snoc, IH.
  - apply lookup_insert_Some in Ha as [[<- <-]|[_ ?]]; [by apply issued_in_last|].
    by apply issued_in_snoc, IH.
  - apply lookup_delete_Some in Ha as [_ ?]. by apply issued_in_snoc, IH.
Qed.

Lemma after_fields inputs :
  identity (after inputs) = (key, iid, desc) ∧
  phase (after inputs) = foldl spec_phase (false, false) inputs ∧
  (after inputs).(fcm_token) = foldl spec_token None inputs.
Proof.
  induction inputs as [|i inputs (Hi & Hp & Ht)] using rev_ind; [done|].
  rewrite after_snoc, !foldl_app. simpl.
  destruct (handle_fields i (after inputs)) as (Hp' & Ht' & Hi').
  rewrite <-Hp, <-Ht, <-Hi. auto.
Qed.

Lemma foldl_token_registered inputs token :
  foldl spec_token None inputs = Some token → Input.RegisterFcmToken token ∈ inputs.
Proof.
  induction inputs as [|i inputs IH] using rev_ind; [done|]. rewrite foldl_app. simpl.
  intros Hi. apply elem_of_app. destruct i; simplify_eq/=; auto using list_elem_of_here.
Qed.

(** What may ever leave during [inputs]. *)
Inductive authorised (inputs : list input) : string → Prop :=
| auth_challenge :
    Input.Transport Connected ∈ inputs → authorised inputs (frame 0 Req.Challenge)
| auth_login text id challenge :
    Input.Transport (Recv text) ∈ inputs →
    wire_from_str text = Some (From.Resp id (Resp.Challenge challenge)) →
    authorised inputs
      (frame 0 (Req.Login {| lreq_public_key := wk_public_key key;
                             lreq_signature := wk_sign_challenge key challenge;
                             lreq_install_id := Some iid |}))
| auth_token token :
    Input.RegisterFcmToken token ∈ inputs →
    authorised inputs (frame 0 (Req.RegisterFcm token))
| auth_action id a :
    issued_in inputs id a → authorised inputs (frame id (Req.UserAction a)).

Lemma authorised_snoc inputs i d : authorised inputs d → authorised (inputs ++ [i]) d.
Proof.
  destruct 1; econstructor; eauto using issued_in_snoc; apply elem_of_app; by left.
Qed.

Lemma run_frames_authorised inputs :
  Forall (authorised inputs) (sent (run_inputs inputs (core_new iid desc key)).2).
Proof.
  apply Forall_forall. intros d Hd%elem_of_sent. revert d Hd.
  induction inputs as [|i inputs IH] using rev_ind; intros d; [by intros ?%not_elem_of_nil|].
  rewrite run_inputs_snoc. simpl. fold (after inputs).
  destruct (after_fields inputs) as (Hid & _ & Htok).
  unfold identity in Hid. injection Hid as Hk Hi _.
  intros [Hd|Hd]%elem_of_app; [by apply authorised_snoc, IH|].
  destruct (handle_frames i (after inputs) d Hd) as [|text id c E|text id r q a _ Hp|i t _ Ht|i a _ Ha].
  - constructor. apply elem_of_app. right. by left.
  - rewrite Hk, Hi. eapply auth_login; [|done]. apply elem_of_app. right. by left.
  - apply auth_action, issued_in_snoc, pending_issued, Hp.
  - apply auth_token, elem_of_app. destruct Ht as [Ht| ->]; [left|right; by left].
    apply foldl_token_registered. congruence.
  - by apply auth_action, issued_in_last.
Qed.

(** C2. No frame leaves on its own account: over any run from a fresh core,
    every frame sent is the challenge of a connection, a login that answers
    a challenge the server sent (signed with the wallet's key), the push
    token the host registered, or a user action that an input of the run
    issued — an approval of the host for the request of that id, with the
    liveness and the service binding the core demands — under the id it was
    issued with. *)
Theorem frames_authorised inputs :
  Forall (authorised inputs) (sent (run_inputs inputs (core_new iid desc key)).2).
Proof. apply run_frames_authorised. Qed.

(** The connection state machine: after any run the core is connected
    and logged in exactly as the transport events say — connected since the
    last [Connected], logged in only by a login response after the last
    disconnection — whatever the host did in between. *)
Theorem phase_refines inputs :
  phase (after inputs) = foldl spec_phase (false, false) inputs.
Proof. apply after_fields. Qed.

(** A disconnected core is silent: no input of the host makes it send a
    frame (actions are queued, the login does not proceed). *)
Theorem offline_silent i s :
  s.(connected) = false → (∀ ev, i ≠ Input.Transport ev) → sent (handle i s).2 = [].
Proof.
  intros Hc Hi. apply elem_of_nil_inv. intros d Hd%elem_of_sent.
  destruct (handle_frames i s d Hd); try congruence; by eapply Hi.
Qed.

(** ** Ids and survival of approvals *)

Definition ids_inv (n : Z) s : Prop :=
  1 ≤ s.(next_action_id) ≤ 1 + n ∧
  ∀ id, is_Some (s.(user_actions) !! id) → 1 ≤ id < s.(next_action_id).

Lemma ids_inv_step n s i :
  1 + n < 2 ^ 31 - 1 → ids_inv n s → ids_inv (n + 1) (handle i s).1.
Proof.
  intros Hn [Hnext Hids]. unfold ids_inv.
  destruct (handle_actions_step i s) as [Hu He|a _ Hu He|k _ Hu He]; rewrite Hu, He.
  - split; [lia|]. intros id ?%Hids. lia.
  - rewrite i32_wrap_id by lia. split; [lia|]. intros id Hid.
    destruct (decide (id = next_action_id s)) as [->|]; [lia|].
    rewrite lookup_insert_ne in Hid by done. apply Hids in Hid. lia.
  - split; [lia|]. intros id [a [_ Ha]%lookup_delete_Some]. apply Hids. by eexists.
Qed.
Lemma ids_inv_after inputs :
  Z.of_nat (length inputs) < 2 ^ 31 - 1 → ids_inv (Z.of_nat (length inputs)) (after inputs).
Proof.
  induction inputs as [|i inputs IH] using rev_ind.
  { intros _. split; [simpl; lia|]. intros id [a Ha]. simpl in Ha. by rewrite lookup_empty in Ha. }
  rewrite length_app, after_snoc. simpl. rewrite Nat2Z.inj_add. intros.
  apply ids_inv_step; [lia|]. apply IH. lia.
Qed.

(** A pending action stays until a message settles its id. *)
Lemma pending_kept n s i id a :
  1 + n < 2 ^ 31 - 1 → ids_inv n s → ¬ settles i id →
  s.(user_actions) !! id = Some a → ((handle i s).1).(user_actions) !! id = Some a.
Proof.
  intros Hn [_ Hids] Hs Ha.
  destruct (handle_actions_step i s) as [Hu _|b _ Hu _|k Hk Hu _]; rewrite Hu; [done|..].
  - rewrite lookup_insert_ne; [done|]. assert (1 ≤ id < next_action_id s) by (apply Hids; eauto).
    lia.
  - rewrite lookup_delete_ne; [done|]. by intros ->.
Qed.
Lemma pending_kept_run pre post id a :
  Z.of_nat (length (pre ++ post)) < 2 ^ 31 - 1 → (∀ j, j ∈ post → ¬ settles j id) →
  (after pre).(user_actions) !! id = Some a → (after (pre ++ post)).(user_actions) !! id = Some a.
Proof.
  induction post as [|i post IH] using rev_ind; intros Hlen Hpost Ha.
  { by rewrite app_nil_r. }
  rewrite app_assoc, after_snoc.
  rewrite app_assoc, length_app, Nat2Z.inj_add in Hlen. simpl in Hlen.
  eapply pending_kept; [|apply ids_inv_after; lia|apply Hpost, elem_of_app; right; by left|].
  - lia.
  - apply IH; [lia| |done]. intros j Hj. apply Hpost, elem_of_app. by left.
Qed.

(** The next id never falls, and rises with every action. *)
Lemma next_id_step n s i :
  1 + n < 2 ^ 31 - 1 → ids_inv n s →
  s.(next_action_id) ≤ (handle i s).1.(next_action_id) ∧
  ∀ a, issued s i a → (handle i s).1.(next_action_id) = s.(next_action_id) + 1.
Proof.
  intros Hn [Hnext Hids].
  assert (i32_wrap (s.(next_action_id) + 1) = s.(next_action_id) + 1) as Hw by (apply i32_wrap_id; lia).
  assert (∀ a, issued s i a → s.(user_actions) !! s.(next_action_id) = None ∧
    (handle i s).1.(user_actions) !! s.(next_action_id) = Some a) as Hiss.
  { intros a Ha. split; [|rewrite (handle_issues _ _ _ Ha); apply lookup_insert_eq].
    apply eq_None_not_Some. intros ?%Hids. lia. }
  destruct (handle_actions_step i s) as [Hu He|b _ Hu He|k _ Hu He]; rewrite ?He, ?Hw; split; try lia; try done.
  - intros a [Hno Hyes]%Hiss. rewrite Hu in Hyes. congruence.
  - intros a [Hno Hyes]%Hiss. rewrite Hu in Hyes. apply lookup_delete_Some in Hyes as [_ ?]. congruence.
Qed.
Lemma next_id_run pre post :
  Z.of_nat (length (pre ++ post)) < 2 ^ 31 - 1 → (after pre).(next_action_id) ≤ (after (pre ++ post)).(next_action_id).
Proof.
  induction post as [|i post IH] using rev_ind; [by rewrite app_nil_r|]. rewrite app_assoc, after_snoc, length_app, Nat2Z.inj_add.
  intros Hlen. simpl in Hlen.
  destruct (next_id_step (Z.of_nat (length (pre ++ post))) (after (pre ++ post)) i) as [? _]; [lia|apply ids_inv_after; lia|].
  etrans; [apply IH; lia|done].
Qed.
Lemma issued_id_below pre i post a :
  Z.of_nat (length (pre ++ i :: post)) < 2 ^ 31 - 1 → issued (after pre) i a →
  1 ≤ (after pre).(next_action_id) < (after (pre ++ i :: post)).(next_action_id).
Proof.
  intros Hlen Ha. rewrite cons_middle, app_assoc in Hlen |- *.
  pose proof (next_id_run (pre ++ [i]) post Hlen) as Hle. rewrite !length_app, !Nat2Z.inj_add in Hlen. simpl in Hlen.
  assert (ids_inv (Z.of_nat (length pre)) (after pre)) as Hinv by (apply ids_inv_after; lia).
  destruct (next_id_step (Z.of_nat (length pre)) (after pre) i) as [_ Hup]; [lia|done|].
  rewrite after_snoc, (Hup a Ha) in Hle. destruct Hinv as [? _]. lia.
Qed.
(** C34. Action ids are never reused, not even those of settled actions: in
    a run of fewer than [2^31 - 1] inputs (where [i32] does not wrap), an
    action an input issues is filed under a positive id that is larger than
    that of every action issued before and smaller than the next one; and
    whatever is pending at the end under an id is the one action that was
    issued with it. So no action overwrites another, and a late reply settles
    no action but the one it answers. *)
Theorem action_ids_fresh inputs :
  Z.of_nat (length inputs) < 2 ^ 31 - 1 →
  (∀ pre i post a, inputs = pre ++ i :: post → issued (after pre) i a →
     let id := (after pre).(next_action_id) in
     (after (pre ++ [i])).(user_actions) !! id = Some a ∧ 1 ≤ id < (after inputs).(next_action_id) ∧
     ∀ mid j post' b, post = mid ++ j :: post' → issued (after (pre ++ i :: mid)) j b →
       id < (after (pre ++ i :: mid)).(next_action_id)) ∧
  (∀ id a, (after inputs).(user_actions) !! id = Some a → issued_in inputs id a) ∧
  1 ≤ (after inputs).(next_action_id) < 2 ^ 31.
Proof.
  intros Hlen. split_and!; [|apply pending_issued|destruct (ids_inv_after _ Hlen); lia..].
  intros pre i post a -> Ha id. split; [|split; [by eapply issued_id_below|]].
  - rewrite after_snoc, (handle_issues _ _ _ Ha). apply lookup_insert_eq.
  - intros mid j post' b -> _. eapply issued_id_below; [|exact Ha].
    rewrite !length_app in Hlen. simpl in Hlen. rewrite !length_app in Hlen. rewrite length_app. simpl. lia.
Qed.

(** C33. An approval is not lost: once an input issued an action, and as long
    as the server settles it with neither a response nor an error, the
    action stays pending through any inputs (disconnections included), and
    the next login response sends it again under its id. *)
Theorem approval_survives pre i post a text lid r :
  Z.of_nat (length (pre ++ i :: post)) < 2 ^ 31 - 1 →
  issued (after pre) i a →
  (∀ j, j ∈ post → ¬ settles j (after pre).(next_action_id)) →
  wire_from_str text = Some (From.Resp lid (Resp.Login r)) →
  (after (pre ++ i :: post)).(user_actions) !! (after pre).(next_action_id) = Some a ∧
  frame (after pre).(next_action_id) (Req.UserAction a)
    ∈ sent (handle (Input.Transport (Recv text)) (after (pre ++ i :: post))).2.
Proof.
  intros Hlen Ha Hpost Ht.
  assert ((after (pre ++ i :: post)).(user_actions) !! (after pre).(next_action_id) = Some a) as Hp.
  { rewrite cons_middle, app_assoc in Hlen |- *. apply pending_kept_run; [done..|].
    rewrite after_snoc, (handle_issues _ _ _ Ha). by rewrite lookup_insert_eq. }
  split; [done|]. apply elem_of_sent. simpl. rewrite Ht. unfold handle_server_message.
  rewrite login_response_eq. apply elem_of_app. left. apply list_elem_of_fmap.
  by exists ((after pre).(next_action_id), a); split; [|apply elem_of_btree_iter].
Qed.
End runs.

Section replay.
Context `{!HashesApi, !HexApi, !SchnorrApi, !SerdeWire}.

(** A login response replays every pending action, each once, in
    ascending id order and before everything else it causes; it settles
    none of them, and apart from them sends at most the push token. *)
Theorem login_replays_pending s text lid r :
  wire_from_str text = Some (From.Resp lid (Resp.Login r)) →
  let pending := btree_iter Z.le s.(user_actions) in
  (∀ id a, (id, a) ∈ pending ↔ s.(user_actions) !! id = Some a) ∧
  NoDup pending.*1 ∧ StronglySorted Z.le pending.*1 ∧
  ((handle (Input.Transport (Recv text)) s).1).(user_actions) = s.(user_actions) ∧
  ∃ rest, (handle (Input.Transport (Recv text)) s).2
            = ((λ '(id, a), send id (Req.UserAction a)) <$> pending) ++ rest ∧
          ∀ d, d ∈ sent rest → ∃ token, s.(fcm_token) = Some token ∧ s.(connected) = true ∧
            d = frame 0 (Req.RegisterFcm token).
Proof.
  intros Ht pending. split; [intros; apply elem_of_btree_iter|].
  split; [apply NoDup_btree_iter_keys|]. split; [apply Sorted_btree_iter_keys; apply _|].
  destruct (calm_login_sync r (upd_login_succeed (λ _, true) s)) as [Hk HS].
  simpl. rewrite Ht. unfold handle_server_message. rewrite login_response_eq. split.
  - unfold kept in Hk. by injection Hk.
  - exists (login_sync r (upd_login_succeed (λ _, true) s)).2. split; [done|].
    intros d (token & ? & ? & _ & ?)%elem_of_sent%HS. by exists token.
Qed.
End replay.
