(* ===== verification/SessionWire.v ===== *)
(** The session core over the wire format: what the service reads of the
    frames a run of the core sends, and what the core makes of frames from a
    service of another version. *)

From S2P Require Import Prelude Crates Json Wire WireCodec WireCodecSpec Key Link SessionData Session.
From S2P Require Import SessionLib SessionActions SessionRuns.

Section service.
Context `{!HashesApi, !HexApi, !SchnorrApi, !XonlyText, !JsonText}.
#[local] Existing Instance serde_json_wire.
Context (xonly_roundtrip : ∀ k, xonly_from_str (xonly_to_string k) = Some k).
Context (signature_roundtrip : ∀ s, signature_parse (signature_to_string s) = Some s).
Context (hex_roundtrip : ∀ n (a : bytesN n), hex_decode_to_slice n (hex_encode (slice a)) = Some a).
Context (text_roundtrip : ∀ j, json_plain j = true → json_of_text (json_to_text j) = Some j).
Context (iid : InstallId) (desc : string) (key : WalletKey).

(** The one integer a host hands over is a [u64]. *)
Definition input_fits (i : input) : Prop :=
  match i with Input.AssetBalanceProvided _ amount => u64_fits amount | _ => True end.

Lemma issued_fits s i a : issued s i a → input_fits i → action_fits a.
Proof. by destruct 1. Qed.
Lemma issued_in_fits inputs id a :
  Forall input_fits inputs → issued_in iid desc key inputs id a → action_fits a.
Proof.
  intros Hin (pre & i & post & -> & Ha & _). apply Forall_app in Hin as [_ Hin].
  apply Forall_cons in Hin as [Hi _]. by eapply issued_fits.
Qed.
Lemma next_id_fits inputs : i32_fits (next_action_id (after iid desc key inputs)).
Proof.
  induction inputs as [|i inputs IH] using rev_ind; [by unfold i32_fits|]. rewrite after_snoc.
  destruct (handle_actions_step i (after iid desc key inputs)) as [_ ->|a _ _ ->|id _ _ ->]; [done| |done].
  unfold i32_fits, i32_wrap. pose proof (Z.mod_pos_bound (next_action_id (after iid desc key inputs) + 1 + 2 ^ 31) (2 ^ 32)).
  lia.
Qed.

(** Why the service reads a message, in terms of the run that sent it. *)
Definition accounted (inputs : list input) (m : wire_to) : Prop :=
  match to_req m with
  | Req.Challenge => Input.Transport Connected ∈ inputs
  | Req.Login r => ∃ text id challenge,
      Input.Transport (Recv text) ∈ inputs ∧ wire_from_str text = Some (From.Resp id (Resp.Challenge challenge)) ∧
      r = {| lreq_public_key := wk_public_key key; lreq_signature := wk_sign_challenge key challenge;
             lreq_install_id := Some iid |}
  | Req.RegisterFcm token => Input.RegisterFcmToken token ∈ inputs
  | Req.UserAction a => issued_in iid desc key inputs (to_id m) a
  end.

(** C3. The wallet speaks for itself only: the service reads every frame a
    run of the core sends, and what it reads is accounted for by the run - a
    login carries the wallet's key, its installation and its signature of a
    challenge that the service had sent, and a user action is one that an
    input of the run issued, with its own id and content. *)
Theorem service_reads_run inputs d :
  Forall input_fits inputs → d ∈ sent (run_inputs inputs (core_new iid desc key)).2 →
  ∃ m, service_read d = Some m ∧ accounted inputs m.
Proof.
  intros Hin Hd. pose proof (run_frames_authorised iid desc key inputs) as Hall.
  rewrite Forall_forall in Hall. specialize (Hall d Hd).
  destruct Hall as [Hc|text id c Ht Hf|token Ht|id a Ha]; unfold frame.
  all: eexists; split; [apply (service_read_string xonly_roundtrip signature_roundtrip hex_roundtrip text_roundtrip)|].
  all: try done.
  - by exists text, id, c.
  - split; [|by eapply issued_in_fits]. destruct Ha as (pre & i & post & _ & _ & ->). apply next_id_fits.
Qed.
End service.

Section versions.
Context `{!HashesApi, !HexApi, !SchnorrApi, !XonlyText, !JsonText}.
#[local] Existing Instance serde_json_wire.

(** The frames of a service, as documents. *)
Definition resp_json (id : Z) (content : json) : json :=
  JObj [("Resp", JObj [("id", JNum id); ("resp", content)])].
Definition notif_json (tag : string) (content : json) : json :=
  JObj [("Notif", JObj [("notif", JObj [(tag, content)])])].
Definition error_json (id : Z) (code message : string) : json :=
  JObj [("Error", JObj [("id", JNum id); ("err", JObj [("code", JStr code); ("message", JStr message)])])].
Definition notif_tags : list string :=
  ["SessionCreated"; "SessionRemoved"; "LoginRequestCreated"; "LoginRequestRemoved"; "SignRequestCreated";
   "SignRequestRemoved"; "SignMessageRequestCreated"; "SignMessageRequestRemoved";
   "ReceiveAddressRequestCreated"; "ReceiveAddressRequestRemoved"; "AssetBalanceRequestCreated";
   "AssetBalanceRequestRemoved"; "PayRequestCreated"; "PayRequestRemoved"; "FundRequestCreated";
   "FundRequestRemoved"; "HoldingsUpdated"; "HoldingsRemoved"].

Lemma notif_unknown tag content : tag ∉ notif_tags → dec notif_c (JObj [(tag, content)]) = None.
Proof. intros Ht. by apply enum_unknown. Qed.
Lemma error_code_unknown code : code ∉ ["InvalidRequest"; "Server"] → dec error_code_c (JStr code) = Some Unknown.
Proof. intros Hc. by apply enum_other. Qed.
#[local] Opaque login_resp_c notif_c error_code_c other_login.

(** C5. Services of other versions: a login reply may leave out any of the
    six later lists (each reads as empty) and carry members the wallet does
    not know; an error with a code the wallet does not know is the error
    [Unknown] for its request; and a notification the wallet does not know,
    whatever it holds, changes nothing and causes nothing. *)
Theorem wire_versions text (s : core) :
  (∀ id r keep extra, i32_fits id → login_resp_fits r → droppable keep r →
     (∀ name, name ∈ login_members → name ∉ extra.*1) →
     json_of_text text = Some (resp_json id (JObj [("Login", other_login keep extra r)])) →
     wire_from_str text = Some (From.Resp id (Resp.Login r))) ∧
  (∀ id code message, i32_fits id → code ∉ ["InvalidRequest"; "Server"] →
     json_of_text text = Some (error_json id code message) →
     wire_from_str text = Some (From.Error id {| err_code := Unknown; err_message := message |})) ∧
  (∀ tag content, tag ∉ notif_tags → json_of_text text = Some (notif_json tag content) →
     handle (Input.Transport (Recv text)) s = (s, [])).
Proof.
  split_and!.
  - intros id r keep extra Hid Hr Hk Hx Hj. pose proof (other_login_read keep extra r Hr Hk Hx) as Hl.
    simpl. rewrite Hj. simpl. rewrite !(proj2 (Z.leb_le _ _)) by apply Hid. simpl. by rewrite Hl.
  - intros id code message Hid Hc Hj. simpl. rewrite Hj. simpl. rewrite !(proj2 (Z.leb_le _ _)) by apply Hid. simpl.
    by rewrite (error_code_unknown code Hc).
  - intros tag content Ht Hj. simpl. rewrite Hj. unfold notif_json. simpl.
    by rewrite (notif_unknown tag content Ht).
Qed.
End versions.
