(* ===== verification/SessionStores.v ===== *)
(** The request and holdings stores of the session core: what a login
    snapshot does to them, the invariant that every entry is filed under its
    own id, and the accounting of the app-link bookkeeping. *)

From S2P Require Import Prelude Crates Wire Key Link SessionData Session SessionLib SessionActions.

(** * Reference definitions *)

(** The first request of a snapshot with a given id. *)
Definition first_with `{RequestKind R} (k : string) (rs : list R) : option R :=
  head (filter (λ r, rk_id r = k) rs).

(** The requests of a snapshot that are new to a store with ids [seen]. *)
Fixpoint announced `{RequestKind R} (seen : gset string) (rs : list R) : list R :=
  match rs with
  | [] => []
  | r :: rs =>
      if decide (rk_id r ∈ seen) then announced seen rs
      else r :: announced ({[rk_id r]} ∪ seen) rs
  end.

(** The report a snapshot leaves for a domain: its last non-empty one. *)
Definition last_report (domain : string) (reports : list HoldingsReport) : option HoldingsReport :=
  list.last (filter (λ r, hr_domain r = domain ∧ hr_holdings r ≠ []) reports).

Definition is_minimize (e : effect) : bool :=
  match e with Effect.MinimizeMobileApp => true | _ => false end.
Definition minimizes (es : list effect) : nat := length (filter is_minimize es).
Definition is_mobile_link (i : input) : bool :=
  match i with Input.AppLink l => al_is_mobile l | _ => false end.
Definition mobile_links (inputs : list input) : nat := length (filter is_mobile_link inputs).

Section sync.
Context `{!SchnorrApi}.
Context {R : Type} `{!RequestKind R, !RequestKindLaws R}.
Implicit Types (s : core) (rs : list R) (k : string).

Lemma remove_request_store s k : rk_store (R:=R) (remove_request (R:=R) k s).1 = delete k (rk_store s).
Proof. unfold remove_request. rewrite seq_fst. apply rk_store_upd. Qed.
Lemma add_request_store s (r : R) : rk_store (add_request r s).1 = <[rk_id r := r]> (rk_store s).
Proof. unfold add_request. rewrite seq_fst. apply rk_store_upd. Qed.

Lemma remove_all ks s :
  let res := for_each ks (remove_request (R:=R)) s in
  (∀ k, rk_store (R:=R) res.1 !! k = if decide (k ∈ ks) then None else rk_store s !! k) ∧
  res.2 = rk_remove (R:=R) <$> ks.
Proof.
  revert s; induction ks as [|k0 ks IH]; intros s res; subst res.
  { split; [|done]. intros k. by rewrite decide_False by apply not_elem_of_nil. }
  simpl. rewrite seq_fst, seq_snd. destruct (IH (remove_request (R:=R) k0 s).1) as [Hk He].
  split; [|by rewrite He]. intros k. rewrite Hk, remove_request_store.
  destruct (decide (k = k0)) as [->|Hne].
  - rewrite lookup_delete_eq, (decide_True _ _ (list_elem_of_here _ _)). by case_decide.
  - rewrite lookup_delete_ne by done. apply decide_ext. rewrite elem_of_cons. naive_solver.
Qed.

Definition add_missing (req : R) : method :=
  gets (λ s, rk_store s !! rk_id req) (λ found,
    match found with Some _ => skip | None => add_request req end).

Lemma add_missing_eq r s :
  add_missing r s
    = match rk_store s !! rk_id r with Some _ => (s, []) | None => add_request r s end.
Proof. unfold add_missing, gets. by destruct (rk_store s !! rk_id r). Qed.

Lemma add_all rs s seen :
  (∀ r, r ∈ rs → rk_id r ∈ seen ↔ rk_id r ∈ dom (rk_store (R:=R) s)) →
  let res := for_each rs add_missing s in
  (∀ k, rk_store (R:=R) res.1 !! k
          = match rk_store s !! k with Some old => Some old | None => first_with k rs end) ∧
  res.2 = rk_add <$> announced seen rs.
Proof.
  revert s seen; induction rs as [|r rs IH]; intros s seen Hseen res; subst res.
  { split; [|done]. intros k. simpl. by destruct (rk_store s !! k). }
  simpl. rewrite seq_fst, seq_snd, add_missing_eq.
  pose proof (Hseen r (list_elem_of_here _ _)) as Hr. rewrite elem_of_dom in Hr.
  assert (∀ r', r' ∈ rs → rk_id r' ∈ seen ↔ rk_id r' ∈ dom (rk_store (R:=R) s)) as Hrs
    by (intros; apply Hseen; by right).
  destruct (rk_store s !! rk_id r) as [old|] eqn:E.
  - rewrite decide_True by (apply Hr; by eexists). simpl.
    destruct (IH s seen Hrs) as [Hk He]. split; [|done]. intros k. rewrite Hk.
    destruct (rk_store s !! k) eqn:Ek; [done|]. unfold first_with. rewrite filter_cons.
    by rewrite decide_False by congruence.
  - rewrite decide_False by (rewrite Hr; by intros []).
    edestruct (IH (add_request r s).1 ({[rk_id r]} ∪ seen)) as [Hk He].
    { intros r' Hr'. rewrite add_request_store, dom_insert, !elem_of_union.
      by rewrite (Hrs r' Hr'). }
    split; [|by rewrite He]. intros k. rewrite Hk, add_request_store.
    unfold first_with. rewrite filter_cons. case_decide as Hrk.
    + subst. by rewrite lookup_insert_eq, E.
    + by rewrite lookup_insert_ne.
Qed.

(** What a login snapshot does to one request store: exactly the ids the
    server listed remain; a request the store already had is kept as it
    was; a new one is the first the snapshot lists under its id. The
    effects are the removals in ascending id order, then the additions in
    the snapshot's order, nothing announced twice. *)
Theorem sync_requests_spec rs s :
  let res := sync_requests rs s in
  (∀ k, rk_store (R:=R) res.1 !! k
          = if decide (k ∈ rk_id <$> rs)
            then match rk_store s !! k with Some old => Some old | None => first_with k rs end
            else None) ∧
  dom (rk_store (R:=R) res.1) = list_to_set (rk_id <$> rs) ∧
  res.2 = (rk_remove (R:=R) <$> btree_set_iter String.le
             (dom (rk_store (R:=R) s) ∖ list_to_set (rk_id <$> rs)))
          ++ (rk_add <$> announced (dom (rk_store s)) rs).
Proof.
  assert (∀ k, first_with k rs = None → k ∉ rk_id <$> rs) as Hfirst.
  { intros k Hf (r & -> & Hr)%list_elem_of_fmap. unfold first_with in Hf.
    apply head_None in Hf. assert (r ∈ filter (λ r', rk_id r' = rk_id r) rs) as Hin
      by by apply list_elem_of_filter.
    rewrite Hf in Hin. by apply elem_of_nil in Hin. }
  set (old := dom (rk_store s)).
  set (gone := btree_set_iter String.le (old ∖ list_to_set (rk_id <$> rs))).
  change (sync_requests rs s)
    with (seq (for_each gone (remove_request (R:=R))) (for_each rs add_missing) s).
  intros res.
  destruct (remove_all gone s) as [Hk1 He1].
  set (s1 := (for_each gone (remove_request (R:=R)) s).1) in *.
  assert (∀ k, k ∈ gone ↔ k ∈ old ∧ k ∉ rk_id <$> rs) as Hgone.
  { intros k. unfold gone. rewrite elem_of_btree_set_iter. set_solver. }
  destruct (add_all rs s1 old) as [Hk2 He2].
  { intros r Hr. rewrite elem_of_dom, Hk1. unfold old. rewrite elem_of_dom.
    rewrite decide_False; [done|]. rewrite Hgone. intros [_ Hn]. apply Hn.
    by apply list_elem_of_fmap_2. }
  assert (∀ k, rk_store (R:=R) res.1 !! k
            = if decide (k ∈ rk_id <$> rs)
              then match rk_store s !! k with Some old => Some old | None => first_with k rs end
              else None) as Hlook.
  { intros k. unfold res. rewrite seq_fst. fold s1. rewrite Hk2, Hk1. case_decide as Hin.
    - apply Hgone in Hin as [_ ?]. rewrite decide_False by done.
      destruct (first_with k rs) as [r|] eqn:E; [|done]. exfalso. unfold first_with in E.
      apply head_Some_elem_of, list_elem_of_filter in E as [<- Hr].
      by apply (list_elem_of_fmap_2 rk_id) in Hr.
    - case_decide as Hk; [done|]. destruct (rk_store s !! k) as [x|] eqn:E.
      + destruct Hin. apply Hgone. split; [|done]. apply elem_of_dom. eauto.
      + destruct (first_with k rs) as [r|] eqn:E'; [|done]. exfalso. unfold first_with in E'.
        apply head_Some_elem_of, list_elem_of_filter in E' as [<- Hr].
        by apply (list_elem_of_fmap_2 rk_id) in Hr. }
  split; [done|]. split.
  - apply set_eq. intros k. rewrite elem_of_dom, Hlook, elem_of_list_to_set.
    case_decide; [|by split; [intros []|]].
    destruct (rk_store s !! k); [naive_solver|].
    destruct (first_with k rs) eqn:E; [naive_solver|by apply Hfirst in E].
  - unfold res. rewrite seq_snd, He1. fold s1. by rewrite He2.
Qed.
End sync.

Section holdings.
Context `{!HashesApi, !HexApi, !SchnorrApi, !SerdeWire}.
Implicit Types (s : core) (d : string) (reports : list HoldingsReport).

Lemma clear_all ds s :
  let res := for_each ds (λ domain,
    seq (modify (upd_holdings (delete domain))) (push (Effect.ClearHoldings domain))) s in
  (∀ d, res.1.(holdings) !! d = if decide (d ∈ ds) then None else s.(holdings) !! d) ∧
  res.2 = Effect.ClearHoldings <$> ds.
Proof.
  revert s; induction ds as [|d0 ds IH]; intros s res; subst res.
  { split; [|done]. intros d. by rewrite decide_False by apply not_elem_of_nil. }
  simpl. rewrite seq_fst, seq_snd. destruct (IH (upd_holdings (delete d0) s)) as [Hd He].
  simpl in *. split; [|by rewrite He]. intros d. rewrite Hd. simpl.
  destruct (decide (d = d0)) as [->|Hne].
  - rewrite lookup_delete_eq, (decide_True _ _ (list_elem_of_here _ _)). by case_decide.
  - rewrite lookup_delete_ne by done. apply decide_ext. rewrite elem_of_cons. naive_solver.
Qed.

Definition set_report (report : HoldingsReport) : method :=
  match report.(hr_holdings) with
  | [] => skip
  | _ =>
      seq (modify (upd_holdings <[report.(hr_domain) := report]>)) (push (Effect.SetHoldings report))
  end.

Lemma last_report_cons d r reports :
  last_report d (r :: reports)
    = match last_report d reports with
      | Some r' => Some r'
      | None => if decide (hr_domain r = d ∧ hr_holdings r ≠ []) then Some r else None
      end.
Proof.
  unfold last_report. rewrite filter_cons. destruct (decide _); [|by destruct (list.last _)].
  by rewrite last_cons.
Qed.

Lemma set_all reports s :
  let res := for_each reports set_report s in
  (∀ d, res.1.(holdings) !! d
          = match last_report d reports with Some r => Some r | None => s.(holdings) !! d end) ∧
  res.2 = Effect.SetHoldings <$> filter (λ r, hr_holdings r ≠ []) reports.
Proof.
  revert s; induction reports as [|r reports IH]; intros s res; subst res; [done|].
  simpl. rewrite seq_fst, seq_snd. destruct (IH (set_report r s).1) as [Hd He].
  split.
  - intros d. rewrite Hd, last_report_cons. destruct (last_report d reports); [done|].
    unfold set_report. destruct (hr_holdings r) as [|h hs] eqn:E.
    + rewrite decide_False by (by intros [_ ?]). done.
    + simpl. case_decide as Hr; [destruct Hr as [<- _]; by rewrite lookup_insert_eq|].
      rewrite lookup_insert_ne; [done|]. intros Hne. by destruct Hr.
  - rewrite He, filter_cons. unfold set_report. by destruct (hr_holdings r) eqn:E; case_decide.
Qed.

Lemma sync_holdings_effects reports s :
  let res := sync_holdings reports s in
  (∀ d, res.1.(holdings) !! d
          = match last_report d reports with
            | Some r => Some r
            | None => if decide (d ∈ hr_domain <$> reports) then s.(holdings) !! d else None
            end) ∧
  res.2 = (Effect.ClearHoldings <$> btree_set_iter String.le
             (dom s.(holdings) ∖ list_to_set (hr_domain <$> reports)))
          ++ (Effect.SetHoldings <$> filter (λ r, hr_holdings r ≠ []) reports).
Proof.
  set (gone := btree_set_iter String.le (dom s.(holdings) ∖ list_to_set (hr_domain <$> reports))).
  change (sync_holdings reports s) with (seq (for_each gone (λ domain,
    seq (modify (upd_holdings (delete domain))) (push (Effect.ClearHoldings domain))))
    (for_each reports set_report) s).
  intros res. destruct (clear_all gone s) as [Hd1 He1].
  set (s1 := (for_each gone _ s).1) in *. destruct (set_all reports s1) as [Hd2 He2].
  split; [|unfold res; rewrite seq_snd, He1; fold s1; by rewrite He2].
  intros d. unfold res. rewrite seq_fst. fold s1. rewrite Hd2.
  destruct (last_report d reports); [done|]. rewrite Hd1. unfold gone.
  pose proof (elem_of_btree_set_iter String.le
    (dom s.(holdings) ∖ list_to_set (hr_domain <$> reports)) d) as Hg.
  rewrite elem_of_difference, elem_of_list_to_set, elem_of_dom in Hg.
  case_decide as H1'; case_decide as H2'; try done.
  - by apply Hg in H1' as [_ []].
  - destruct (holdings s !! d) eqn:E; [|done]. destruct H1'. apply Hg. split; [by eexists|done].
Qed.

(** What the holdings snapshot of a login does. A domain the snapshot
    does not list is cleared; for a listed one the last non-empty report
    wins; and where every report listed for a domain is empty the entry the
    core had is left in place without an effect — unlike [holdings_updated],
    where an empty report clears. *)
Theorem sync_holdings_spec reports s :
  let res := sync_holdings reports s in
  (∀ d, res.1.(holdings) !! d
          = match last_report d reports with
            | Some r => Some r
            | None => if decide (d ∈ hr_domain <$> reports) then s.(holdings) !! d else None
            end) ∧
  res.2 = (Effect.ClearHoldings <$> btree_set_iter String.le
             (dom s.(holdings) ∖ list_to_set (hr_domain <$> reports)))
          ++ (Effect.SetHoldings <$> filter (λ r, hr_holdings r ≠ []) reports).
Proof. apply sync_holdings_effects. Qed.

(** The two ways a server can report "nothing left" for a domain do not
    agree: an empty [holdings_updated] removes the entry and tells the
    host, an empty report in a login snapshot leaves a stale entry the host
    goes on showing. *)
Theorem empty_report_divergence s d as_of old :
  s.(holdings) !! d = Some old →
  let report := {| hr_domain := d; hr_holdings := []; hr_as_of := as_of |} in
  ((handle_notification (Notif.HoldingsUpdated report) s).1.(holdings) !! d = None ∧
   (handle_notification (Notif.HoldingsUpdated report) s).2 = [Effect.ClearHoldings d]) ∧
  ((sync_holdings [report] s).1.(holdings) !! d = Some old ∧
   Effect.ClearHoldings d ∉ (sync_holdings [report] s).2).
Proof.
  intros Hold report. split; [split; [|done]; simpl; by rewrite lookup_delete_eq|].
  destruct (sync_holdings_effects [report] s) as [Hd He]. split.
  - rewrite Hd, decide_True by set_solver. rewrite last_report_cons. simpl.
    by rewrite decide_False by (intros [_ Hn]; by apply Hn).
  - rewrite He. simpl. rewrite app_nil_r.
    intros (d' & [= <-] & Hin%elem_of_btree_set_iter)%list_elem_of_fmap. set_solver.
Qed.
End holdings.

(** * Invariants *)

Section invariants.
Context `{!HashesApi, !HexApi, !SchnorrApi, !SerdeWire}.
Implicit Types (s : core) (i : input).

Definition keyed (R : Type) `{!RequestKind R} s : Prop :=
  map_Forall (λ k r, rk_id r = k) (rk_store (R:=R) s).

(** Every store files its entries under their own id, and a held report
    reports something. *)
Definition stores_wf s : Prop :=
  keyed LoginRequest s ∧ keyed SignRequest s ∧ keyed SignMessageRequest s ∧
  keyed ReceiveAddressRequest s ∧ keyed AssetBalanceRequest s ∧
  keyed PayRequest s ∧ keyed FundRequest s ∧
  map_Forall (λ d r, hr_domain r = d ∧ hr_holdings r ≠ []) s.(holdings).

Definition KeepsWf s s' (es : list effect) : Prop := stores_wf s → stores_wf s'.
#[local] Instance keeps_wf_effrel : EffRel KeepsWf.
Proof. split; [by intros ??|]. unfold KeepsWf. auto. Qed.

(** A change of one store that keeps it keyed keeps the invariant. *)
Local Ltac keeps :=
  intros [????????????????]; unfold KeepsWf, stores_wf, keyed; simpl;
  intros (?&?&?&?&?&?&?&?); split_and!; try done;
    try (by apply map_Forall_delete); try (by apply map_Forall_insert_2).
Local Ltac keeps_kind := split; intros; keeps.
#[local] Instance keeps_login : KindRel KeepsWf LoginRequest.
Proof. keeps_kind. Qed.
#[local] Instance keeps_sign : KindRel KeepsWf SignRequest.
Proof. keeps_kind. Qed.
#[local] Instance keeps_sign_message : KindRel KeepsWf SignMessageRequest.
Proof. keeps_kind. Qed.
#[local] Instance keeps_pay : KindRel KeepsWf PayRequest.
Proof. keeps_kind. Qed.
#[local] Instance keeps_fund : KindRel KeepsWf FundRequest.
Proof. keeps_kind. Qed.
#[local] Instance keeps_receive_address : KindRel KeepsWf ReceiveAddressRequest.
Proof. keeps_kind. Qed.
#[local] Instance keeps_asset_balance : KindRel KeepsWf AssetBalanceRequest.
Proof. keeps_kind. Qed.

Lemma keeps_modify f : (∀ s, stores_wf s → stores_wf (f s)) → respects KeepsWf (modify f).
Proof. intros Hf s. exact (Hf s). Qed.
Lemma keeps_push e : respects KeepsWf (push e).
Proof. by intros s ?. Qed.
Lemma keeps_add_user_action a : respects KeepsWf (add_user_action a).
Proof. intros s Hs. unfold add_user_action, gets, seq. simpl. destruct (connected s); exact Hs. Qed.

#[local] Opaque skip push modify seq gets for_each.
Local Ltac walk :=
  repeat first
    [ progress intros
    | apply respects_skip; exact _
    | apply keeps_push
    | apply keeps_add_user_action
    | apply kr_add; exact _ | apply kr_remove; exact _
    | apply respects_sync_requests; exact _
    | apply keeps_modify; by keeps
    | apply respects_seq; [exact _|..]
    | apply respects_gets; intros
    | apply respects_for_each; [exact _|intros]
    | case_match; subst ].

Lemma keeps_sync_holdings reports : respects KeepsWf (sync_holdings reports).
Proof.
  unfold sync_holdings. walk. apply keeps_modify. keeps. apply map_Forall_insert_2; [|done].
  split; [done|]. congruence.
Qed.
Lemma keeps_send_fcm_token : respects KeepsWf send_fcm_token.
Proof. unfold send_fcm_token. walk. Qed.
Lemma keeps_finish_request id : respects KeepsWf (finish_request id).
Proof. unfold finish_request. walk. Qed.
#[local] Opaque sync_holdings sync_requests send_fcm_token add_request remove_request
  add_user_action finish_request.
Lemma keeps_notification n : respects KeepsWf (handle_notification n).
Proof.
  destruct n; simpl; walk. apply keeps_modify. keeps. apply map_Forall_insert_2; [|done].
  split; [done|]. congruence.
Qed.
Lemma keeps_response id r : respects KeepsWf (handle_response id r).
Proof.
  unfold handle_response, sync_sign_requests, sync_sign_message_requests, sync_pay_requests,
    sync_fund_requests, sync_receive_address_requests, sync_asset_balance_requests.
  walk; auto using keeps_sync_holdings, keeps_send_fcm_token.
Qed.
Lemma keeps_handle i : respects KeepsWf (handle i).
Proof.
  destruct i as [[| |]|l| | | | | | | | | | | | | | | | |];
    unfold handle, handle_transport, handle_app_link, handle_server_message, login_accepted,
      answer, answer_live; walk;
    auto using keeps_finish_request, keeps_response, keeps_notification, keeps_send_fcm_token.
Qed.

(** C35. The stores stay well formed over any run: every request is filed
    under its own id, every holdings report under its own domain, and no
    report that reports nothing is held. *)
Theorem stores_wf_run iid desc key inputs :
  stores_wf (run_inputs inputs (core_new iid desc key)).1.
Proof.
  apply (respects_for_each KeepsWf inputs handle (λ i _, keeps_handle i)).
  unfold stores_wf, keyed. split_and!; apply map_Forall_empty.
Qed.
End invariants.

(** * Accounting of app links, refusals and errors *)

Section accounting.
Context `{!HashesApi, !HexApi, !SchnorrApi, !SerdeWire}.
Implicit Types (s : core) (i : input).

(** Each [MinimizeMobileApp] uses up a link that was opened on the phone. *)
Definition Pays s s' (es : list effect) : Prop :=
  (minimizes es + size s'.(mobile_requests) ≤ size s.(mobile_requests))%nat.
#[local] Instance pays_effrel : EffRel Pays.
Proof.
  split; unfold Pays; [done|]. intros s1 s2 s3 e1 e2 H12 H23.
  unfold minimizes in *. rewrite list.filter_app, length_app. lia.
Qed.
Lemma pays_modify f : (∀ s, mobile_requests (f s) = mobile_requests s) → respects Pays (modify f).
Proof. intros Hf s. unfold Pays. simpl. by rewrite Hf. Qed.
Lemma pays_push e : is_minimize e = false → respects Pays (push e).
Proof. intros He s. unfold Pays, minimizes. simpl. by destruct e. Qed.
Local Ltac pays_kind :=
  split; intros; (apply respects_seq;
    [exact _|apply pays_modify; intros []; done|apply pays_push; done]).
#[local] Instance pays_login : KindRel Pays LoginRequest.
Proof. pays_kind. Qed.
#[local] Instance pays_sign : KindRel Pays SignRequest.
Proof. pays_kind. Qed.
#[local] Instance pays_sign_message : KindRel Pays SignMessageRequest.
Proof. pays_kind. Qed.
#[local] Instance pays_pay : KindRel Pays PayRequest.
Proof. pays_kind. Qed.
#[local] Instance pays_fund : KindRel Pays FundRequest.
Proof. pays_kind. Qed.
#[local] Instance pays_receive_address : KindRel Pays ReceiveAddressRequest.
Proof. pays_kind. Qed.
#[local] Instance pays_asset_balance : KindRel Pays AssetBalanceRequest.
Proof. pays_kind. Qed.

Lemma pays_finish_request id : respects Pays (finish_request id).
Proof.
  intros s. unfold finish_request, gets, Pays, seq. simpl.
  case_bool_decide as Hin; simpl.
  - rewrite size_difference by set_solver. rewrite size_singleton.
    assert (size {[id]} ≤ size (mobile_requests s))%nat as Hs by (apply subseteq_size; set_solver).
    rewrite size_singleton in Hs. unfold minimizes. simpl. lia.
  - apply subseteq_size. set_solver.
Qed.
Lemma pays_add_user_action a : respects Pays (add_user_action a).
Proof. intros s. unfold add_user_action, gets, seq, Pays. simpl. by destruct (connected s). Qed.

#[local] Opaque skip push modify seq gets for_each.
Local Ltac walk :=
  repeat first
    [ progress intros
    | apply respects_skip; exact _
    | apply pays_push; reflexivity
    | apply pays_add_user_action | apply pays_finish_request
    | apply kr_add; exact _ | apply kr_remove; exact _
    | apply respects_sync_requests; exact _
    | apply pays_modify; intros []; reflexivity
    | apply respects_seq; [exact _|..]
    | apply respects_gets; intros
    | apply respects_for_each; [exact _|intros]
    | case_match; subst ].
Lemma pays_sync_holdings reports : respects Pays (sync_holdings reports).
Proof. unfold sync_holdings. walk. Qed.
Lemma pays_send_fcm_token : respects Pays send_fcm_token.
Proof. unfold send_fcm_token. walk. Qed.
#[local] Opaque sync_holdings sync_requests send_fcm_token add_request remove_request
  add_user_action finish_request.
Lemma pays_response id r : respects Pays (handle_response id r).
Proof.
  unfold handle_response, sync_sign_requests, sync_sign_message_requests, sync_pay_requests,
    sync_fund_requests, sync_receive_address_requests, sync_asset_balance_requests.
  walk; auto using pays_sync_holdings, pays_send_fcm_token.
Qed.
Lemma pays_notification n : respects Pays (handle_notification n).
Proof. destruct n; simpl; walk. Qed.
Lemma pays_handle i : is_mobile_link i = false → respects Pays (handle i).
Proof.
  intros Hi. destruct i as [[| |]|[? ? [] ?]| | | | | | | | | | | | | | | | |]; try done;
    unfold handle, handle_transport, handle_app_link, handle_server_message, login_accepted,
      answer, answer_live; walk;
    auto using pays_response, pays_notification, pays_send_fcm_token.
Qed.
#[local] Transparent skip push modify seq gets for_each add_user_action.

Lemma minimizes_app e1 e2 : minimizes (e1 ++ e2) = (minimizes e1 + minimizes e2)%nat.
Proof. unfold minimizes. by rewrite list.filter_app, length_app. Qed.

Lemma mobile_link_step l s :
  (minimizes (handle (Input.AppLink l) s).2 + size ((handle (Input.AppLink l) s).1).(mobile_requests)
   ≤ size s.(mobile_requests) + 1)%nat.
Proof.
  unfold handle, handle_app_link. rewrite seq_fst, seq_snd, minimizes_app.
  set (s1 := (_ s).1). set (m := match al_link_type l with LinkLogin => _ | _ => _ end).
  assert (respects Pays m) as Hm by (unfold m; destruct (al_link_type l);
    [apply pays_add_user_action|apply respects_skip; exact _..]).
  specialize (Hm s1). unfold Pays in Hm.
  assert (minimizes ((if al_is_mobile l then modify (upd_mobile_requests ({[al_request_id l]} ∪.))
                      else skip) s).2 = 0%nat) as -> by by destruct (al_is_mobile l).
  assert (size s1.(mobile_requests) ≤ size s.(mobile_requests) + 1)%nat; [|lia].
  unfold s1. destruct (al_is_mobile l); simpl; [|lia].
  rewrite size_union_alt, size_singleton.
  assert (size (mobile_requests s ∖ {[al_request_id l]}) ≤ size (mobile_requests s))%nat
    by (apply subseteq_size; set_solver). lia.
Qed.

(** The app is minimised at most once per link opened on the phone: over
    any run, the minimisations plus the links still waiting for an answer
    are at most the mobile app links received. *)
Theorem minimize_accounted iid desc key inputs :
  let res := run_inputs inputs (core_new iid desc key) in
  (minimizes res.2 + size res.1.(mobile_requests) ≤ mobile_links inputs)%nat.
Proof.
  intros res. subst res.
  enough (∀ s, minimizes (run_inputs inputs s).2 + size (run_inputs inputs s).1.(mobile_requests)
               ≤ size s.(mobile_requests) + mobile_links inputs)%nat as Hs by apply Hs.
  unfold run_inputs, mobile_links. induction inputs as [|i inputs IH]; intros s.
  { simpl. unfold minimizes. simpl. lia. }
  simpl for_each. rewrite seq_fst, seq_snd, minimizes_app, filter_cons.
  specialize (IH (handle i s).1).
  destruct (is_mobile_link i) eqn:E.
  - destruct i as [|l| | | | | | | | | | | | | | | | |]; try done.
    pose proof (mobile_link_step l s). rewrite decide_True by done. simpl length. lia.
  - pose proof (pays_handle i E s) as Hp. unfold Pays in Hp.
    rewrite decide_False by (by intros []). lia.
Qed.

Lemma login_accept_refused s request_id r :
  s.(login_requests) !! request_id = Some r → is_Some r.(lr_service_challenge) →
  handle (Input.LoginAccepted request_id None) s
    = (s, [Effect.ActionFailed (UserAction.CancelLoginRequest request_id)
             "this login needs a service key and none was supplied"]).
Proof.
  intros Hr Hc. simpl. unfold login_accepted, gets at 1. rewrite Hr.
  by rewrite !bool_decide_true.
Qed.

(** A login that asks for a service key is never accepted without one:
    such an acceptance changes nothing, sends nothing, and fails the action
    the host can still take (cancelling), so the request stays answerable. *)
Theorem login_binding_refused s request_id r :
  s.(login_requests) !! request_id = Some r → is_Some r.(lr_service_challenge) →
  handle (Input.LoginAccepted request_id None) s
    = (s, [Effect.ActionFailed (UserAction.CancelLoginRequest request_id)
             "this login needs a service key and none was supplied"]).
Proof. apply login_accept_refused. Qed.

(** A server error settles the action it names and no other: the host
    hears of a pending action's failure once, with the server's message,
    and an error for an id that is not pending has no effect at all. *)
Theorem error_settles s text id err :
  wire_from_str text = Some (From.Error id err) →
  let res := handle (Input.Transport (Recv text)) s in
  res.1 = upd_user_actions (delete id) s ∧
  res.2 = (match s.(user_actions) !! id with
           | Some action => [Effect.ActionFailed action err.(err_message)]
           | None => []
           end) ∧
  (handle (Input.Transport (Recv text)) res.1).2 = [].
Proof.
  intros Ht. simpl. rewrite Ht. simpl. unfold gets, seq. simpl.
  assert (delete id s.(user_actions) !! id = None) as Hd by apply lookup_delete_eq.
  destruct (s.(user_actions) !! id); simpl; by rewrite ?Hd.
Qed.
End accounting.
