(* ===== verification/Transport.v ===== *)
(** The ready-made transport ([lc-wallet-core/src/transport.rs]): the handle's
    methods, the split of effects into frames and host events, and the actor
    loop as a transition function over what its environment does. *)

From S2P Require Import Prelude Crates Wire Key Link SessionData Session.

(** * Events shown to the host *)

Module WalletEvent.
Inductive wallet_event :=
| Connected
| LoggedIn
| Disconnected
| LoginRequested (request : LoginRequest)
| LoginRequestRemoved (request_id : string)
| SignRequested (request : SignRequest)
| SignRequestRemoved (request_id : string)
| SignMessageRequested (request : SignMessageRequest)
| ReceiveAddressRequested (request : ReceiveAddressRequest)
| ReceiveAddressRequestRemoved (request_id : string)
| AssetBalanceRequested (request : AssetBalanceRequest)
| AssetBalanceRequestRemoved (request_id : string)
| HoldingsUpdated (report : HoldingsReport)
| HoldingsRemoved (domain : string)
| SignMessageRequestRemoved (request_id : string)
| PayRequested (request : PayRequest)
| PayRequestRemoved (request_id : string)
| FundRequested (request : FundRequest)
| FundRequestRemoved (request_id : string)
| Sessions (sessions : list Session)
| ActionFailed (action : user_action) (message : string)
| SessionCreated (session : Session)
| SessionRemoved (session_id : string)
| MinimizeMobileApp.
End WalletEvent.
Abbreviation wallet_event := WalletEvent.wallet_event.

(** The event of an effect; [Send] is a frame instead. *)
Definition effect_event (e : effect) : string + wallet_event :=
  match e with
  | Effect.Send data => inl data
  | Effect.AddLoginRequest request => inr (WalletEvent.LoginRequested request)
  | Effect.RemoveLoginRequest request_id => inr (WalletEvent.LoginRequestRemoved request_id)
  | Effect.AddSignRequest request => inr (WalletEvent.SignRequested request)
  | Effect.RemoveSignRequest request_id => inr (WalletEvent.SignRequestRemoved request_id)
  | Effect.AddSignMessageRequest request => inr (WalletEvent.SignMessageRequested request)
  | Effect.AddReceiveAddressRequest request => inr (WalletEvent.ReceiveAddressRequested request)
  | Effect.RemoveReceiveAddressRequest request_id =>
      inr (WalletEvent.ReceiveAddressRequestRemoved request_id)
  | Effect.AddAssetBalanceRequest request => inr (WalletEvent.AssetBalanceRequested request)
  | Effect.RemoveAssetBalanceRequest request_id =>
      inr (WalletEvent.AssetBalanceRequestRemoved request_id)
  | Effect.SetHoldings report => inr (WalletEvent.HoldingsUpdated report)
  | Effect.ClearHoldings domain => inr (WalletEvent.HoldingsRemoved domain)
  | Effect.RemoveSignMessageRequest request_id =>
      inr (WalletEvent.SignMessageRequestRemoved request_id)
  | Effect.AddPayRequest request => inr (WalletEvent.PayRequested request)
  | Effect.RemovePayRequest request_id => inr (WalletEvent.PayRequestRemoved request_id)
  | Effect.AddFundRequest request => inr (WalletEvent.FundRequested request)
  | Effect.RemoveFundRequest request_id => inr (WalletEvent.FundRequestRemoved request_id)
  | Effect.SessionList sessions => inr (WalletEvent.Sessions sessions)
  | Effect.SessionCreated session => inr (WalletEvent.SessionCreated session)
  | Effect.SessionRemoved session_id => inr (WalletEvent.SessionRemoved session_id)
  | Effect.MinimizeMobileApp => inr WalletEvent.MinimizeMobileApp
  | Effect.ActionFailed action message => inr (WalletEvent.ActionFailed action message)
  end.

(** [apply_effects]: the frames pushed on [outgoing], the events sent. *)
Fixpoint apply_effects (effects : list effect) : list string * list wallet_event :=
  match effects with
  | [] => ([], [])
  | e :: effects =>
      let '(outgoing, events) := apply_effects effects in
      match effect_event e with
      | inl data => (data :: outgoing, events)
      | inr event => (outgoing, event :: events)
      end
  end.

(** * The handle: each method sends one input to the actor *)

Section handle.
Context `{UrlApi}.
Definition open_link (url : string) : result string input :=
  app_link ← parse_app_link url; Ok (Input.AppLink app_link).
Definition accept_login (request_id : string) : input := Input.LoginAccepted request_id None.
Definition accept_login_with_service_key (request_id key signature : string) : input :=
  Input.LoginAccepted request_id (Some {| sb_key := key; sb_signature := signature |}).
Definition reject_login (request_id : string) : input := Input.LoginRejected request_id.
Definition accept_sign (request_id signed_pset : string) : input :=
  Input.SignAccepted request_id signed_pset.
Definition reject_sign (request_id : string) : input := Input.SignRejected request_id.
Definition accept_sign_message (request_id : string) : input := Input.SignMessageAccepted request_id.
Definition accept_sign_message_signed (request_id signature : string) : input :=
  Input.SignMessageSigned request_id signature.
Definition reject_sign_message (request_id : string) : input := Input.SignMessageRejected request_id.
Definition provide_receive_address (request_id address : string) : input :=
  Input.ReceiveAddressProvided request_id address.
Definition reject_receive_address (request_id : string) : input :=
  Input.ReceiveAddressRejected request_id.
Definition provide_asset_balance (request_id : string) (amount : Z) : input :=
  Input.AssetBalanceProvided request_id amount.
Definition reject_asset_balance (request_id : string) : input := Input.AssetBalanceRejected request_id.
Definition accept_pay (request_id txid : string) : input := Input.PayBuilt request_id txid.
Definition reject_pay (request_id : string) : input := Input.PayRejected request_id.
Definition accept_fund (request_id pset : string) : input := Input.FundSigned request_id pset.
Definition reject_fund (request_id : string) : input := Input.FundRejected request_id.
Definition stop_session (session_id : string) : input := Input.StopSession session_id.
Definition register_fcm_token (token : string) : input := Input.RegisterFcmToken token.
End handle.

(** * The actor *)

(** Seconds. *)
Definition RECONNECT_MIN : Z := 1.
Definition RECONNECT_MAX : Z := 60.
Definition PING_INTERVAL : Z := 30.
Definition backoff (delay : Z) : Z := Z.min (delay * 2) RECONNECT_MAX.

(** What the environment of the actor does next: the connection attempt
    resolves, a frame or an error arrives on the socket, a handle delivers an
    input (or the last handle was dropped), the ping timer ticks. The sink
    takes [accepts] more messages before it fails ([None]: it does not). *)
Inductive env_event :=
| ConnectFailed
| ConnectOk (accepts : option nat)
| WsText (text : string) (accepts : option nat)
| WsPing
| WsOther
| WsError
| WsEnd
| HostInput (i : input) (accepts : option nat)
| HandlesDropped
| PingTick (accepted : bool).

Inductive output :=
| Event (e : wallet_event)
| Frame (data : string)
| Ping
| Pong
| Sleep (seconds : Z).

Inductive actor_phase :=
| Connecting
| Online (was_logged_in : bool)
| Stopped.

(** The frames the sink takes, and whether it took them all. *)
Definition sink_send (accepts : option nat) (frames : list string) : list string * bool :=
  match accepts with
  | None => (frames, true)
  | Some n => (take n frames, bool_decide (length frames ≤ n)%nat)
  end.

Section actor.
Context `{!HashesApi, !HexApi, !SchnorrApi, !SerdeWire}.

Record actor := Actor { a_core : core; a_delay : Z; a_phase : actor_phase }.

Definition actor_new (install_id : InstallId) (descriptor : string) (key : WalletKey) : actor :=
  Actor (core_new install_id descriptor key) RECONNECT_MIN Connecting.

Record WalletConnectConfig := {
  cfg_url : string;
  cfg_descriptor : string;
  cfg_key : WalletKey;
  cfg_install_id : InstallId;
}.
(** [spawn]: the actor it starts, over fresh channels of inputs and events.
    The address is for the connection attempts, which are the environment's. *)
Definition spawn (config : WalletConnectConfig) : actor * list input * list wallet_event :=
  (actor_new config.(cfg_install_id) config.(cfg_descriptor) config.(cfg_key), [], []).

(** After ['connected] is left: the disconnection, the sleep, the backoff. *)
Definition disconnect (a : actor) : actor * list output :=
  let '(core, effects) := handle (Input.Transport Disconnected) a.(a_core) in
  let '(_, events) := apply_effects effects in
  (Actor core (backoff a.(a_delay)) Connecting,
   (Event <$> events) ++ [Event WalletEvent.Disconnected; Sleep a.(a_delay)]).

(** The end of one turn of ['connected]: send the frames, or leave it. *)
Definition flush (a : actor) (accepts : option nat) (outgoing : list string) (outs : list output)
    : actor * list output :=
  let '(taken, ok) := sink_send accepts outgoing in
  if ok then (a, outs ++ (Frame <$> taken))
  else let '(a, outs') := disconnect a in (a, outs ++ (Frame <$> taken) ++ outs').

(** One step of [run]; [None] when the actor does not wait for the event. *)
Definition actor_step (a : actor) (ev : env_event) : option (actor * list output) :=
  match a.(a_phase), ev with
  | Connecting, ConnectFailed =>
      Some (Actor a.(a_core) (backoff a.(a_delay)) Connecting, [Sleep a.(a_delay)])
  | Connecting, ConnectOk accepts =>
      let '(core, effects) := handle (Input.Transport Connected) a.(a_core) in
      let '(outgoing, events) := apply_effects effects in
      let '(taken, _) := sink_send accepts outgoing in
      Some (Actor core RECONNECT_MIN (Online false),
            (Event <$> events) ++ [Event WalletEvent.Connected] ++ (Frame <$> taken))
  | Online was_logged_in, WsText text accepts =>
      let '(core, effects) := handle (Input.Transport (Recv text)) a.(a_core) in
      let '(outgoing, events) := apply_effects effects in
      let first := is_logged_in core && negb was_logged_in in
      Some (flush (Actor core a.(a_delay) (Online (was_logged_in || first))) accepts outgoing
              ((Event <$> events) ++ (if first then [Event WalletEvent.LoggedIn] else [])))
  | Online _, WsPing => Some (a, [Pong])
  | Online _, WsOther => Some (a, [])
  | Online _, WsError | Online _, WsEnd => Some (disconnect a)
  | Online was_logged_in, HostInput i accepts =>
      let '(core, effects) := handle i a.(a_core) in
      let '(outgoing, events) := apply_effects effects in
      Some (flush (Actor core a.(a_delay) (Online was_logged_in)) accepts outgoing (Event <$> events))
  | Online _, HandlesDropped => Some (Actor a.(a_core) a.(a_delay) Stopped, [])
  | Online _, PingTick accepted =>
      if accepted then Some (a, [Ping]) else Some (disconnect a)
  | _, _ => None
  end.

Fixpoint actor_run (a : actor) (evs : list env_event) : option (actor * list output) :=
  match evs with
  | [] => Some (a, [])
  | ev :: evs =>
      '(a, o1) ← actor_step a ev;
      '(a, o2) ← actor_run a evs;
      Some (a, o1 ++ o2)
  end.
End actor.
