(* ===== verification/TransportRuns.v ===== *)
(** Runs of the transport actor: the host's picture built from its event
    stream, the shape of that stream, the frames on the wire, and the
    reconnection policy. *)

From S2P Require Import Prelude Crates Wire Key Link SessionData Session SessionLib SessionMirror.
From S2P Require Import SessionActions SessionRuns Transport.

(** * What events say *)

(** The effect an event reports; the three connection events report none. *)
Definition event_effect (e : wallet_event) : option effect :=
  match e with
  | WalletEvent.Connected | WalletEvent.LoggedIn | WalletEvent.Disconnected => None
  | WalletEvent.LoginRequested r => Some (Effect.AddLoginRequest r)
  | WalletEvent.LoginRequestRemoved i => Some (Effect.RemoveLoginRequest i)
  | WalletEvent.SignRequested r => Some (Effect.AddSignRequest r)
  | WalletEvent.SignRequestRemoved i => Some (Effect.RemoveSignRequest i)
  | WalletEvent.SignMessageRequested r => Some (Effect.AddSignMessageRequest r)
  | WalletEvent.ReceiveAddressRequested r => Some (Effect.AddReceiveAddressRequest r)
  | WalletEvent.ReceiveAddressRequestRemoved i => Some (Effect.RemoveReceiveAddressRequest i)
  | WalletEvent.AssetBalanceRequested r => Some (Effect.AddAssetBalanceRequest r)
  | WalletEvent.AssetBalanceRequestRemoved i => Some (Effect.RemoveAssetBalanceRequest i)
  | WalletEvent.HoldingsUpdated r => Some (Effect.SetHoldings r)
  | WalletEvent.HoldingsRemoved d => Some (Effect.ClearHoldings d)
  | WalletEvent.SignMessageRequestRemoved i => Some (Effect.RemoveSignMessageRequest i)
  | WalletEvent.PayRequested r => Some (Effect.AddPayRequest r)
  | WalletEvent.PayRequestRemoved i => Some (Effect.RemovePayRequest i)
  | WalletEvent.FundRequested r => Some (Effect.AddFundRequest r)
  | WalletEvent.FundRequestRemoved i => Some (Effect.RemoveFundRequest i)
  | WalletEvent.Sessions l => Some (Effect.SessionList l)
  | WalletEvent.ActionFailed a m => Some (Effect.ActionFailed a m)
  | WalletEvent.SessionCreated r => Some (Effect.SessionCreated r)
  | WalletEvent.SessionRemoved i => Some (Effect.SessionRemoved i)
  | WalletEvent.MinimizeMobileApp => Some Effect.MinimizeMobileApp
  end.

Definition apply_event (h : host_view) (e : wallet_event) : host_view :=
  match event_effect e with Some effect => apply_effect h effect | None => h end.

Definition out_events (outs : list output) : list wallet_event :=
  omap (λ o, match o with Event e => Some e | _ => None end) outs.
Definition out_frames (outs : list output) : list string :=
  omap (λ o, match o with Frame d => Some d | _ => None end) outs.
Definition out_sleeps (outs : list output) : list Z :=
  omap (λ o, match o with Sleep t => Some t | _ => None end) outs.

(** The connection status a host keeps: offline, or online and logged in or
    not. [None] when the stream breaks its contract: a connection event out
    of turn, or any other event while offline. *)
Definition status := option bool.
Definition scan_event (st : status) (e : wallet_event) : option status :=
  match e, st with
  | WalletEvent.Connected, None => Some (Some false)
  | WalletEvent.LoggedIn, Some false => Some (Some true)
  | WalletEvent.Disconnected, Some _ => Some None
  | WalletEvent.Connected, Some _ | WalletEvent.LoggedIn, _ | WalletEvent.Disconnected, None => None
  | _, Some l => Some (Some l)
  | _, None => None
  end.
Fixpoint scan (st : status) (es : list wallet_event) : option status :=
  match es with [] => Some st | e :: es => st ← scan_event st e; scan st es end.

(** Inputs the handle can produce: everything but transport events. *)
Definition host_input (i : input) : bool :=
  match i with Input.Transport _ => false | _ => true end.
Definition host_event (ev : env_event) : bool :=
  match ev with HostInput i _ => host_input i | _ => true end.

Section effects.
Implicit Types (es : list effect).

Lemma effect_event_lossless e w : effect_event e = inr w → event_effect w = Some e.
Proof. by destruct e; intros [= <-]. Qed.
Lemma effect_event_send e d : effect_event e = inl d ↔ e = Effect.Send d.
Proof. split; [destruct e; simpl; congruence|by intros ->]. Qed.

Lemma apply_effects_cons e es :
  apply_effects (e :: es)
    = match effect_event e with
      | inl data => (data :: (apply_effects es).1, (apply_effects es).2)
      | inr event => ((apply_effects es).1, event :: (apply_effects es).2)
      end.
Proof. simpl. destruct (apply_effects es). by destruct (effect_event e). Qed.
Lemma apply_effects_app es es' :
  apply_effects (es ++ es')
    = ((apply_effects es).1 ++ (apply_effects es').1, (apply_effects es).2 ++ (apply_effects es').2).
Proof.
  induction es as [|e es IH]; [apply surjective_pairing|].
  change ((e :: es) ++ es') with (e :: (es ++ es')). rewrite !apply_effects_cons, IH.
  by destruct (effect_event e), (apply_effects es).
Qed.
Lemma apply_effects_frames es : (apply_effects es).1 = sent es.
Proof.
  induction es as [|e es IH]; [done|]. rewrite apply_effects_cons.
  destruct e; simpl; by rewrite IH.
Qed.
Lemma apply_effects_reported es :
  Forall (λ w, is_Some (event_effect w)) (apply_effects es).2.
Proof.
  induction es as [|e es IH]; [constructor|]. rewrite apply_effects_cons.
  destruct (effect_event e) eqn:E; [done|]. simpl. constructor; [|done].
  apply effect_event_lossless in E. by eexists.
Qed.
Lemma apply_effects_shown es e w : e ∈ es → effect_event e = inr w → w ∈ (apply_effects es).2.
Proof.
  intros He Hw. induction es as [|e' es IH]; [by apply not_elem_of_nil in He|]. rewrite apply_effects_cons.
  apply elem_of_cons in He as [<-|He]; [rewrite Hw; left|]. specialize (IH He).
  destruct (effect_event e'); [exact IH|by right].
Qed.
Lemma apply_effects_view es h :
  foldl apply_event h (apply_effects es).2 = foldl apply_effect h es.
Proof.
  revert h; induction es as [|e es IH]; intros h; [done|]. rewrite apply_effects_cons.
  destruct (effect_event e) as [d|w] eqn:E; simpl.
  - apply effect_event_send in E as ->. rewrite IH. by destruct h.
  - unfold apply_event at 2. by rewrite (effect_event_lossless e w E).
Qed.
End effects.

Section actor.
Context `{!HashesApi, !HexApi, !SchnorrApi, !SerdeWire}.
Implicit Types (a : actor) (ev : env_event) (outs : list output).

Lemma out_events_app o1 o2 : out_events (o1 ++ o2) = out_events o1 ++ out_events o2.
Proof. apply omap_app. Qed.
Lemma out_frames_app o1 o2 : out_frames (o1 ++ o2) = out_frames o1 ++ out_frames o2.
Proof. apply omap_app. Qed.
Lemma out_events_Event l : out_events (Event <$> l) = l.
Proof. induction l as [|e l IH]; [done|]. exact (f_equal (cons e) IH). Qed.
Lemma out_events_Frame l : out_events (Frame <$> l) = [].
Proof. by induction l. Qed.
Lemma out_frames_Frame l : out_frames (Frame <$> l) = l.
Proof. induction l as [|e l IH]; [done|]. exact (f_equal (cons e) IH). Qed.
Lemma out_frames_Event l : out_frames (Event <$> l) = [].
Proof. by induction l. Qed.
Lemma sink_send_sublist accepts l : sublist (sink_send accepts l).1 l.
Proof. destruct accepts; simpl; [apply sublist_take|done]. Qed.

(** Where the inputs of the core come from. *)
Definition input_of ev (i : input) : Prop :=
  i = Input.Transport Disconnected ∨
  match ev with
  | ConnectOk _ => i = Input.Transport Connected
  | WsText text _ => i = Input.Transport (Recv text)
  | HostInput j _ => i = j
  | _ => False
  end.

(** What a stretch of the actor did: it ran the core on [ins], told the
    host of every event, sent some of the frames in order, and moved the
    status and the phase together. *)
Definition status_of (p : actor_phase) (st : status) : Prop :=
  match p with Connecting => st = None | Online w => st = Some w | Stopped => is_Some st end.
Definition in_phase a : Prop :=
  match a.(a_phase) with
  | Connecting => phase a.(a_core) = (false, false)
  | Online w => phase a.(a_core) = (true, w)
  | Stopped => True
  end ∧ RECONNECT_MIN ≤ a.(a_delay) ≤ RECONNECT_MAX.

Record stretch a a' outs (ins : list input) : Prop := {
  st_core : a'.(a_core) = (run_inputs ins a.(a_core)).1;
  st_view h : foldl apply_event h (out_events outs)
                = foldl apply_effect h (run_inputs ins a.(a_core)).2;
  st_frames : sublist (out_frames outs) (sent (run_inputs ins a.(a_core)).2);
  st_shown e w : e ∈ (run_inputs ins a.(a_core)).2 → effect_event e = inr w → w ∈ out_events outs;
}.

Lemma run_inputs_app l k s :
  run_inputs (l ++ k) s
    = ((run_inputs k (run_inputs l s).1).1, (run_inputs l s).2 ++ (run_inputs k (run_inputs l s).1).2).
Proof.
  unfold run_inputs. revert s; induction l as [|i l IH]; intros s; simpl.
  - by destruct (for_each k handle s).
  - rewrite (surjective_pairing (seq _ (for_each (l ++ k) handle) s)).
    rewrite !seq_fst, !seq_snd, IH. simpl. by rewrite app_assoc.
Qed.
Lemma run_inputs_one i s : run_inputs [i] s = handle i s.
Proof.
  unfold run_inputs. simpl. rewrite (surjective_pairing (seq _ _ s)), seq_fst, seq_snd. simpl.
  rewrite app_nil_r. by destruct (handle i s).
Qed.
Lemma sent_app e1 e2 : sent (e1 ++ e2) = sent e1 ++ sent e2.
Proof. apply omap_app. Qed.

(** Nothing is handled and nothing but sleeps and pongs happens. *)
Lemma stretch_still a a' outs :
  a'.(a_core) = a.(a_core) → out_events outs = [] → out_frames outs = [] → stretch a a' outs [].
Proof. intros Hc He Hf. split; rewrite ?He, ?Hf; try done. by intros e w ?%not_elem_of_nil. Qed.
Lemma stretch_nil a : stretch a a [] [].
Proof. by apply stretch_still. Qed.
Lemma stretch_app a1 a2 a3 o1 o2 i1 i2 :
  stretch a1 a2 o1 i1 → stretch a2 a3 o2 i2 → stretch a1 a3 (o1 ++ o2) (i1 ++ i2).
Proof.
  intros [C1 V1 F1 S1] [C2 V2 F2 S2]. split; rewrite run_inputs_app; simpl; rewrite <-?C1.
  - done.
  - intros h. by rewrite out_events_app, !foldl_app, V1, V2.
  - rewrite out_frames_app, sent_app. by apply sublist_app.
  - rewrite out_events_app. intros e w [He|He]%elem_of_app Hw; apply elem_of_app; eauto.
Qed.

(** A turn of the actor: the core handles [i], the host gets the events and
    perhaps a connection event, the sink takes some of the frames. *)
Lemma stretch_turn a i c delay p conn taken :
  c = (handle i a.(a_core)).1 → Forall (λ e, event_effect e = None) conn →
  sublist taken (apply_effects (handle i a.(a_core)).2).1 →
  stretch a (Actor c delay p)
    (((Event <$> (apply_effects (handle i a.(a_core)).2).2) ++ (Event <$> conn)) ++ (Frame <$> taken)) [i].
Proof.
  intros -> Hconn Ht. split; rewrite run_inputs_one; simpl; [done|..].
  - intros h. rewrite !out_events_app, !out_events_Event, out_events_Frame, app_nil_r, foldl_app.
    rewrite apply_effects_view. generalize (foldl apply_effect h (handle i (a_core a)).2).
    clear -Hconn. induction Hconn as [|e l He Hl IH]; intros h; [done|]. simpl.
    unfold apply_event at 2. by rewrite He.
  - rewrite !out_frames_app, !out_frames_Event, out_frames_Frame. simpl.
    by rewrite apply_effects_frames in Ht.
  - intros e w He Hw. rewrite !out_events_app, out_events_Event, <-app_assoc. apply elem_of_app. left.
    by eapply apply_effects_shown.
Qed.

Lemma disconnect_eq a :
  disconnect a = (Actor (handle (Input.Transport Disconnected) a.(a_core)).1 (backoff a.(a_delay)) Connecting,
                  [Event WalletEvent.Disconnected; Sleep a.(a_delay)]).
Proof. done. Qed.
Lemma stretch_disconnect a : stretch a (disconnect a).1 (disconnect a).2 [Input.Transport Disconnected].
Proof. split; try done. by intros e w ?%not_elem_of_nil. Qed.

Lemma flush_eq a accepts outgoing outs :
  ∃ taken, sublist taken outgoing ∧
    (flush a accepts outgoing outs = (a, outs ++ (Frame <$> taken)) ∨
     flush a accepts outgoing outs
       = ((disconnect a).1, (outs ++ (Frame <$> taken)) ++ (disconnect a).2)).
Proof.
  unfold flush. pose proof (sink_send_sublist accepts outgoing) as Hs.
  destruct (sink_send accepts outgoing) as [taken ok]. exists taken. split; [done|].
  destruct ok; [by left|right]. rewrite disconnect_eq. by rewrite <-app_assoc.
Qed.

Lemma apply_effects_pair es : apply_effects es = ((apply_effects es).1, (apply_effects es).2).
Proof. apply surjective_pairing. Qed.

(** A turn that ends in [flush]. *)
Lemma flush_stretch a i delay p conn accepts a' outs :
  Forall (λ e, event_effect e = None) conn →
  flush (Actor (handle i a.(a_core)).1 delay p) accepts (apply_effects (handle i a.(a_core)).2).1
    ((Event <$> (apply_effects (handle i a.(a_core)).2).2) ++ (Event <$> conn)) = (a', outs) →
  stretch a a' outs [i] ∨ stretch a a' outs ([i] ++ [Input.Transport Disconnected]).
Proof.
  intros Hconn Hf. destruct (flush_eq (Actor (handle i a.(a_core)).1 delay p) accepts
    (apply_effects (handle i a.(a_core)).2).1
    ((Event <$> (apply_effects (handle i a.(a_core)).2).2) ++ (Event <$> conn))) as (taken & Ht & [E|E]);
    rewrite Hf in E; injection E as -> ->.
  - left. by apply stretch_turn.
  - right. eapply stretch_app; [by apply stretch_turn|exact (stretch_disconnect (Actor _ delay p))].
Qed.

Lemma actor_step_stretch a ev a' outs :
  actor_step a ev = Some (a', outs) → ∃ ins, stretch a a' outs ins ∧ Forall (input_of ev) ins.
Proof.
  unfold actor_step. destruct (a_phase a) as [|w|] eqn:Ep; destruct ev; try done.
  - intros [= <- <-]. exists []. by split; [apply stretch_still|].
  - rewrite (surjective_pairing (handle _ _)), apply_effects_pair.
    pose proof (sink_send_sublist accepts
      (apply_effects (handle (Input.Transport Connected) (a_core a)).2).1) as Hs.
    destruct (sink_send _ _) as [taken ok]. intros [= <- <-].
    exists [Input.Transport Connected]. split; [|apply Forall_singleton; by right].
    by refine (stretch_turn a (Input.Transport Connected) _ _ _ [WalletEvent.Connected] taken _ _ Hs);
      [|repeat constructor].
  - rewrite (surjective_pairing (handle _ _)), apply_effects_pair. intros [= Hf].
    assert (∀ b : bool, (if b then [Event WalletEvent.LoggedIn] else [])
      = Event <$> (if b then [WalletEvent.LoggedIn] else [])) as Hb by by intros [].
    rewrite Hb in Hf. destruct (λ H, flush_stretch a (Input.Transport (Recv text)) _ _ _ _ _ _ H Hf) as [?|?].
    + by destruct (_ && _); repeat constructor.
    + eexists; split; [done|]. apply Forall_singleton. by right.
    + eexists; split; [done|]. apply Forall_cons; split; [by right|apply Forall_singleton; by left].
  - intros [= <- <-]. exists []. by split; [apply stretch_still|].
  - intros [= <- <-]. exists []. by split; [apply stretch_still|].
  - intros [= <- <-]. exists [Input.Transport Disconnected].
    split; [apply stretch_disconnect|apply Forall_singleton; by left].
  - intros [= <- <-]. exists [Input.Transport Disconnected].
    split; [apply stretch_disconnect|apply Forall_singleton; by left].
  - rewrite (surjective_pairing (handle _ _)), apply_effects_pair. intros [= Hf].
    rewrite <-(app_nil_r (Event <$> _)) in Hf.
    destruct (flush_stretch a i _ _ [] _ _ _ (List.Forall_nil _) Hf) as [?|?].
    + eexists; split; [done|]. apply Forall_singleton. by right.
    + eexists; split; [done|]. apply Forall_cons; split; [by right|apply Forall_singleton; by left].
  - intros [= <- <-]. exists []. by split; [apply stretch_still|].
  - destruct accepted; intros [= <- <-].
    + exists []. by split; [apply stretch_still|].
    + exists [Input.Transport Disconnected].
      split; [apply stretch_disconnect|apply Forall_singleton; by left].
Qed.

Lemma actor_run_stretch evs a a' outs :
  actor_run a evs = Some (a', outs) →
  ∃ ins, stretch a a' outs ins ∧ Forall (λ i, ∃ ev, ev ∈ evs ∧ input_of ev i) ins.
Proof.
  revert a a' outs; induction evs as [|ev evs IH]; intros a a' outs; simpl.
  { intros [= <- <-]. exists []. by split; [apply stretch_nil|]. }
  destruct (actor_step a ev) as [[a1 o1]|] eqn:E1; [|done]. simpl.
  destruct (actor_run a1 evs) as [[a2 o2]|] eqn:E2; [|done]. intros [= <- <-].
  apply actor_step_stretch in E1 as (i1 & ? & F1). apply IH in E2 as (i2 & ? & F2).
  exists (i1 ++ i2). split; [by eapply stretch_app|]. apply Forall_app. split.
  - eapply Forall_impl; [exact F1|]. intros i Hi. exists ev. split; [left|done].
  - eapply Forall_impl; [exact F2|]. intros i (ev' & ? & ?). exists ev'. split; [by right|done].
Qed.

(** ** The phase of the actor, the core's and the host's status agree *)

Lemma scan_app st e1 e2 : scan st (e1 ++ e2) = scan st e1 ≫= λ st, scan st e2.
Proof.
  revert st; induction e1 as [|e e1 IH]; intros st; [done|]. simpl.
  destruct (scan_event st e); [apply IH|done].
Qed.
Lemma scan_reported l es :
  Forall (λ w, is_Some (event_effect w)) es → scan (Some l) es = Some (Some l).
Proof.
  induction 1 as [|e es He _ IH]; [done|]. simpl.
  replace (scan_event (Some l) e) with (Some (Some l)); [exact IH|].
  destruct e; try done; by destruct He.
Qed.
Lemma backoff_bounds d :
  RECONNECT_MIN ≤ d ≤ RECONNECT_MAX → RECONNECT_MIN ≤ backoff d ≤ RECONNECT_MAX.
Proof. unfold backoff, RECONNECT_MIN, RECONNECT_MAX. lia. Qed.
Lemma host_input_phase i s : host_input i = true → phase (handle i s).1 = phase s.
Proof. intros Hi. destruct (handle_fields i s) as [-> _]. by destruct i. Qed.
Lemma recv_phase text s :
  (handle (Input.Transport (Recv text)) s).1.(connected) = s.(connected) ∧
  (s.(login_succeed) = true → (handle (Input.Transport (Recv text)) s).1.(login_succeed) = true).
Proof.
  destruct (handle_fields (Input.Transport (Recv text)) s) as [Hp _].
  unfold phase, spec_phase in Hp. cbn [fst snd] in Hp.
  generalize dependent (handle (Input.Transport (Recv text)) s).1. intros s' Hp.
  repeat case_match; split; intros; congruence.
Qed.

(** Well-phased and the host's status in step, after a stretch. *)
Definition in_step st0 a' outs : Prop :=
  in_phase a' ∧ ∃ st, scan st0 (out_events outs) = Some st ∧ status_of a'.(a_phase) st.

Lemma in_step_disconnect w a :
  RECONNECT_MIN ≤ a.(a_delay) ≤ RECONNECT_MAX →
  in_step (Some w) (disconnect a).1 (disconnect a).2.
Proof.
  intros Hd. rewrite disconnect_eq. split; [split; [done|by apply backoff_bounds]|].
  by exists None.
Qed.
Lemma in_step_flush st0 w a accepts outgoing outs a' outs' :
  in_phase a → a.(a_phase) = Online w → scan st0 (out_events outs) = Some (Some w) →
  flush a accepts outgoing outs = (a', outs') → in_step st0 a' outs'.
Proof.
  intros Ha Hp Hs Hf.
  destruct (flush_eq a accepts outgoing outs) as (taken & _ & [E|E]); rewrite Hf in E;
    injection E as -> ->; unfold in_step.
  - split; [done|]. exists (Some w). rewrite Hp, out_events_app, out_events_Frame, app_nil_r. done.
  - destruct (in_step_disconnect w a (proj2 Ha)) as [? (st & Hst & ?)]. split; [done|].
    exists st. split; [|done]. rewrite !out_events_app, out_events_Frame, app_nil_r, scan_app, Hs.
    exact Hst.
Qed.

Lemma actor_step_in_step a st0 ev a' outs :
  in_phase a → status_of a.(a_phase) st0 → host_event ev = true →
  actor_step a ev = Some (a', outs) → in_step st0 a' outs.
Proof.
  intros [Hp Hd] Hst Hh. unfold actor_step.
  destruct (a_phase a) as [|w|] eqn:Ep; destruct ev; try done; simpl in Hst; subst st0.
  - intros [= <- <-]. split; [split; [done|by apply backoff_bounds]|]. by exists None.
  - rewrite (surjective_pairing (handle _ _)), apply_effects_pair.
    destruct (sink_send _ _) as [taken ok]. intros [= <- <-]. split; [split|].
    + unfold phase in Hp |- *. assert (login_succeed (a_core a) = false) as Hl by congruence.
      simpl. by rewrite Hl.
    + unfold RECONNECT_MIN, RECONNECT_MAX. simpl. lia.
    + exists (Some false). split; [|done].
      change (scan None (WalletEvent.Connected :: out_events (Frame <$> taken)) = Some (Some false)).
      by rewrite out_events_Frame.
  - rewrite (surjective_pairing (handle _ _)), apply_effects_pair. intros Hf%(inj Some).
    destruct (recv_phase text (a_core a)) as [Hc Hl].
    set (c := (handle (Input.Transport (Recv text)) (a_core a)).1) in *.
    pose proof (apply_effects_reported (handle (Input.Transport (Recv text)) (a_core a)).2) as Hr.
    assert (connected (a_core a) = true ∧ login_succeed (a_core a) = w) as [Hpc Hpl]
      by (unfold phase in Hp; split; congruence).
    eapply in_step_flush; [| | |exact Hf]; [|done|].
    + split; [|done]. fold c. cbn [a_phase a_core]. unfold phase, is_logged_in. rewrite Hc, Hpc.
      f_equal. destruct w; [by rewrite Hl|]. by destruct (login_succeed c).
    + rewrite out_events_app, out_events_Event, scan_app, scan_reported by done.
      fold c. cbn [mbind option_bind]. unfold is_logged_in. by destruct (_ && login_succeed c), w.
  - intros [= <- <-]. split; [by split; [rewrite Ep|]|]. rewrite Ep. by exists (Some w).
  - intros [= <- <-]. split; [by split; [rewrite Ep|]|]. rewrite Ep. by exists (Some w).
  - intros [= <- <-]. by apply in_step_disconnect.
  - intros [= <- <-]. by apply in_step_disconnect.
  - rewrite (surjective_pairing (handle _ _)), apply_effects_pair. intros Hf%(inj Some).
    eapply in_step_flush; [| | |exact Hf]; [|done|].
    + split; [|done]. simpl. by rewrite host_input_phase.
    + rewrite out_events_Event. apply scan_reported, apply_effects_reported.
  - intros [= <- <-]. split; [by split|]. exists (Some w); split; [done|by eexists].
  - destruct accepted; intros [= <- <-]; [|by apply in_step_disconnect].
    split; [by split; [rewrite Ep|]|]. rewrite Ep. by exists (Some w).
Qed.

Lemma actor_run_in_step evs a st0 a' outs :
  in_phase a → status_of a.(a_phase) st0 → forallb host_event evs = true →
  actor_run a evs = Some (a', outs) → in_step st0 a' outs.
Proof.
  revert a st0 a' outs; induction evs as [|ev evs IH]; intros a st0 a' outs Ha Hst; simpl.
  { intros _ [= <- <-]. split; [done|]. by exists st0. }
  intros [Hev Hevs]%andb_true_iff.
  destruct (actor_step a ev) as [[a1 o1]|] eqn:E1; [|done]. simpl.
  destruct (actor_run a1 evs) as [[a2 o2]|] eqn:E2; [|done]. intros [= <- <-].
  destruct (actor_step_in_step a st0 ev a1 o1 Ha Hst Hev E1) as [Ha1 (st1 & Hs1 & Hst1)].
  destruct (IH a1 st1 a2 o2 Ha1 Hst1 Hevs E2) as [Ha2 (st2 & Hs2 & Hst2)].
  split; [done|]. exists st2. by rewrite out_events_app, scan_app, Hs1.
Qed.
Lemma in_phase_new iid desc key : in_phase (actor_new iid desc key).
Proof. split; [done|]. by unfold RECONNECT_MIN, RECONNECT_MAX. Qed.

Lemma actor_run_view iid desc key evs a outs :
  actor_run (actor_new iid desc key) evs = Some (a, outs) →
  foldl apply_event (Build_host_view ∅ ∅ ∅ ∅ ∅ ∅ ∅ ∅) (out_events outs) = view_of a.(a_core).
Proof.
  intros (ins & [Hc Hv _ _] & _)%actor_run_stretch. rewrite Hv, Hc. apply run_mirrors_host.
Qed.

(** * Properties *)

(** The event stream is enough to show the truth: for every behaviour of
    the network, the sink and the host, replaying the events the actor gave
    the host on an empty picture yields exactly the request and holdings
    stores of the core it drives. *)
Theorem actor_mirrors_host iid desc key evs a outs :
  actor_run (actor_new iid desc key) evs = Some (a, outs) →
  foldl apply_event (Build_host_view ∅ ∅ ∅ ∅ ∅ ∅ ∅ ∅) (out_events outs) = view_of a.(a_core).
Proof.
  apply actor_run_view.
Qed.

(** C36. The host's connection status is never wrong: the events of any run
    are well formed (connected, then at most once logged in, then
    disconnected, and so on; nothing else is shown while offline), the
    status they leave is the actor's, and while online it is the core's own
    connected and logged-in state. *)
Theorem actor_status iid desc key evs a outs :
  forallb host_event evs = true →
  actor_run (actor_new iid desc key) evs = Some (a, outs) →
  ∃ st, scan None (out_events outs) = Some st ∧
    match a.(a_phase) with
    | Connecting => st = None ∧ phase a.(a_core) = (false, false)
    | Online w => st = Some w ∧ phase a.(a_core) = (true, w)
    | Stopped => is_Some st
    end.
Proof.
  intros Hh Hr. destruct (actor_run_in_step _ _ None _ _ (in_phase_new iid desc key) eq_refl Hh Hr)
    as [[Hp _] (st & Hs & Hst)].
  exists st. split; [done|]. by destruct (a_phase a).
Qed.

(** Nothing reaches the wire that the core did not authorise: every text
    frame of a run is a challenge, a login, a push token or a user action
    that the inputs delivered to the core account for, and those inputs are
    the connection's own events, the texts received and what the handle
    sent. *)
Theorem actor_frames_authorised iid desc key evs a outs :
  actor_run (actor_new iid desc key) evs = Some (a, outs) →
  ∃ ins, Forall (λ i, ∃ ev, ev ∈ evs ∧ input_of ev i) ins ∧
    Forall (authorised iid desc key ins) (out_frames outs).
Proof.
  intros (ins & [_ _ Hf _] & Hi)%actor_run_stretch. exists ins. split; [done|].
  eapply Forall_sublist; [exact Hf|apply run_frames_authorised].
Qed.

(** The reconnection delay: [n] failed attempts in a row, from a delay
    [d] between the minimum and the maximum, sleep [min (d * 2^k) 60]
    seconds at the k-th, leave the core as it was, and a connection resets
    the delay to one second. *)
Theorem reconnect_backoff a (n : nat) :
  a.(a_phase) = Connecting → RECONNECT_MIN ≤ a.(a_delay) ≤ RECONNECT_MAX →
  actor_run a (replicate n ConnectFailed)
    = Some (Actor a.(a_core) (Z.min (a.(a_delay) * 2 ^ Z.of_nat n) RECONNECT_MAX) Connecting,
            (λ k : nat, Sleep (Z.min (a.(a_delay) * 2 ^ Z.of_nat k) RECONNECT_MAX)) <$> List.seq 0 n) ∧
  ∀ accepts, ∃ outs, actor_step a (ConnectOk accepts)
    = Some (Actor (handle (Input.Transport Connected) a.(a_core)).1 RECONNECT_MIN (Online false), outs).
Proof.
  intros Hp Hd. split; cycle 1.
  { intros accepts. unfold actor_step. rewrite Hp, (surjective_pairing (handle _ _)), apply_effects_pair.
    destruct (sink_send _ _). by eexists. }
  destruct a as [c d p]; simpl in *; subst p. unfold RECONNECT_MIN, RECONNECT_MAX in *.
  revert d Hd. induction n as [|n IH]; intros d Hd.
  { simpl. by rewrite Z.mul_1_r, Z.min_l by lia. }
  simpl. unfold backoff, RECONNECT_MAX. rewrite IH by lia. simpl. f_equal. f_equal.
  - f_equal. rewrite Nat2Z.inj_succ, Z.pow_succ_r by lia.
    pose proof (Z.pow_pos_nonneg 2 (Z.of_nat n) ltac:(lia) ltac:(lia)). nia.
  - f_equal; [f_equal; lia|]. rewrite <-(fmap_S_seq 0 n), <-list_fmap_compose.
    apply list_fmap_ext. intros _ k _. simpl. f_equal.
    rewrite Nat2Z.inj_succ, Z.pow_succ_r by lia.
    pose proof (Z.pow_pos_nonneg 2 (Z.of_nat k) ltac:(lia) ltac:(lia)). nia.
Qed.

(** Dropping the handle does not stop an actor that cannot connect:
    while it is connecting there is no step for the drop and none that
    stops, so the actor goes on retrying; once online the drop stops it. *)
Theorem drop_while_connecting a :
  (a.(a_phase) = Connecting →
     actor_step a HandlesDropped = None ∧
     ∀ ev a' outs, actor_step a ev = Some (a', outs) → a'.(a_phase) ≠ Stopped) ∧
  (∀ w, a.(a_phase) = Online w →
     actor_step a HandlesDropped = Some (Actor a.(a_core) a.(a_delay) Stopped, [])).
Proof.
  unfold actor_step. split; intros; rewrite H3; [|done]. split; [done|].
  intros [] a' outs; try done; [by intros [= <- <-]|].
  rewrite (surjective_pairing (handle _ _)), apply_effects_pair.
  destruct (sink_send _ _). by intros [= <- <-].
Qed.
End actor.
