(* ===== verification/System.v ===== *)
(** A host around the library: the program that reads the actor's events and
    calls its handle, a second source of text (a file of links, a terminal)
    from which it takes calls too, their channels and the actor, as one
    transition system. *)

From S2P Require Import Prelude Crates Wire Key Link SessionData Session Transport.

(** [str::lines] *)
Definition line_feed : Ascii.ascii := Ascii.ascii_of_N 10.
Definition carriage_return : Ascii.ascii := Ascii.ascii_of_N 13.
Fixpoint strip_cr (s : string) : string :=
  match s with
  | EmptyString => EmptyString
  | String c EmptyString => if bool_decide (c = carriage_return) then EmptyString else String c EmptyString
  | String c s => String c (strip_cr s)
  end.
Definition text_lines (text : string) : list string :=
  let pieces := split_on line_feed text in
  let ended := (length pieces - 1)%nat in
  (strip_cr <$> take ended pieces) ++ List.filter (λ line, negb (bool_decide (line = ""))) (drop ended pieces).

Section links.
Context `{!UrlApi}.
(** One turn of the thread that watches the file of links: the new lines
    are opened, and how many lines were seen. *)
Definition open_new_links (seen : nat) (text : string) : nat * list input :=
  let lines := text_lines text in
  (length lines,
   omap (λ line, let line := str_trim line in
           if bool_decide (line = "") then None
           else match open_link line with Ok i => Some i | Err _ => None end)
     (drop seen lines)).
End links.

(** * The host and the actor *)

(** What the program keeps ([H], which includes what it is yet to learn of
    the world), and its turns: the calls it makes on the handle when it reads
    an event, and when it reads a text. *)
Record host (H : Type) := {
  react : H → wallet_event → H * list input;
  reads : H → string → H * list input;
}.
Arguments react {_} _ _ _ : assert.
Arguments reads {_} _ _ _ : assert.

Section system.
Context `{!HashesApi, !HexApi, !SchnorrApi, !SerdeWire, !UrlApi}.
Context {K : Type} (h : host K).

(** The actor, the events the host has not read, the inputs the actor has
    not read, what the host keeps; and, for the record, all events shown, all
    texts read and all frames sent so far. *)
Record system := System {
  sys_actor : actor;
  sys_events : list wallet_event;
  sys_inputs : list input;
  sys_kept : K;
  sys_shown : list wallet_event;
  sys_texts : list string;
  sys_sent : list string;
}.
(** What happens around the actor; the host keeps its handle. *)
Definition environment (ev : env_event) : bool :=
  match ev with HostInput _ _ | HandlesDropped => false | _ => true end.

(** The actor has moved. *)
Definition moved (st : system) (a : actor) (outs : list output) (inputs : list input) : system :=
  let events := omap (λ o, match o with Event e => Some e | _ => None end) outs in
  System a (st.(sys_events) ++ events) inputs st.(sys_kept) (st.(sys_shown) ++ events) st.(sys_texts)
    (st.(sys_sent) ++ omap (λ o, match o with Frame d => Some d | _ => None end) outs).

Inductive sys_step (st : system) : system → Prop :=
| step_env ev a outs :
    environment ev = true → actor_step st.(sys_actor) ev = Some (a, outs) →
    sys_step st (moved st a outs st.(sys_inputs))
| step_deliver i inputs accepts a outs :
    st.(sys_inputs) = i :: inputs → actor_step st.(sys_actor) (HostInput i accepts) = Some (a, outs) →
    sys_step st (moved st a outs inputs)
| step_host event events kept inputs :
    st.(sys_events) = event :: events → react h st.(sys_kept) event = (kept, inputs) →
    sys_step st (System st.(sys_actor) events (st.(sys_inputs) ++ inputs) kept
                   st.(sys_shown) st.(sys_texts) st.(sys_sent))
| step_text text kept inputs :
    reads h st.(sys_kept) text = (kept, inputs) →
    sys_step st (System st.(sys_actor) st.(sys_events) (st.(sys_inputs) ++ inputs) kept
                   st.(sys_shown) (st.(sys_texts) ++ [text]) st.(sys_sent)).

(** The same steps, to be run. *)
Inductive sys_event := SysEnv (ev : env_event) | SysDeliver (accepts : option nat) | SysHost | SysText (text : string).
Definition sys_exec (st : system) (e : sys_event) : option system :=
  match e with
  | SysEnv ev =>
      if environment ev then '(a, outs) ← actor_step st.(sys_actor) ev; Some (moved st a outs st.(sys_inputs)) else None
  | SysDeliver accepts =>
      match st.(sys_inputs) with
      | i :: inputs => '(a, outs) ← actor_step st.(sys_actor) (HostInput i accepts); Some (moved st a outs inputs)
      | [] => None
      end
  | SysHost =>
      match st.(sys_events) with
      | event :: events =>
          let '(kept, inputs) := react h st.(sys_kept) event in
          Some (System st.(sys_actor) events (st.(sys_inputs) ++ inputs) kept
                  st.(sys_shown) st.(sys_texts) st.(sys_sent))
      | [] => None
      end
  | SysText text =>
      let '(kept, inputs) := reads h st.(sys_kept) text in
      Some (System st.(sys_actor) st.(sys_events) (st.(sys_inputs) ++ inputs) kept
              st.(sys_shown) (st.(sys_texts) ++ [text]) st.(sys_sent))
  end.
Fixpoint sys_run (st : system) (es : list sys_event) : option system :=
  match es with [] => Some st | e :: es => st ← sys_exec st e; sys_run st es end.

Definition sys_new (install_id : InstallId) (descriptor : string) (key : WalletKey) (kept : K) : system :=
  System (actor_new install_id descriptor key) [] [] kept [] [] [].
End system.
