(* ===== verification/SystemSpec.v ===== *)
(** What a host around the library can cause, whatever it is: every reachable
    system is a run of the actor whose host inputs come from what the program
    decided, and every frame that leaves is one the program's rules allow. *)

From S2P Require Import Prelude Crates Wire Key Link SessionData Session SessionLib SessionMirror SessionActions.
From S2P Require Import SessionRuns Transport TransportRuns System.

Section links.
Context `{!UrlApi}.
(** A link is all the watcher of a file of links can deliver. *)
Lemma open_link_input line i : open_link line = Ok i → ∃ app_link, i = Input.AppLink app_link.
Proof. unfold open_link. intros Hl. result_inv. eauto. Qed.
(** A text of the file has a line that opens as [i]. *)
Definition link_line (texts : list string) (i : input) : Prop :=
  ∃ text line, text ∈ texts ∧ line ∈ text_lines text ∧ open_link (str_trim line) = Ok i.
Lemma open_new_links_line seen text i : i ∈ (open_new_links seen text).2 → link_line [text] i.
Proof.
  intros (line & Hin & Hl)%list_elem_of_omap. simpl in Hl. destruct (bool_decide _); [done|].
  destruct (open_link (str_trim line)) eqn:E; [|done]. injection Hl as <-. exists text, line.
  split_and!; [by left| |done].
  rewrite <-(take_drop seen (text_lines text)). apply elem_of_app. by right.
Qed.
Lemma link_line_input texts i : link_line texts i → ∃ app_link, i = Input.AppLink app_link.
Proof. intros (text & line & _ & _ & Hl). by eapply open_link_input. Qed.
Lemma link_line_of text texts i : text ∈ texts → link_line [text] i → link_line texts i.
Proof. intros Ht (text' & line & ->%list_elem_of_singleton & ?). by exists text, line. Qed.
End links.

(** * What is held was shown

    Every request of a store is one of the occurrences in a list, under its
    own id. *)
Definition filed {E R} (mk : R → E) (key_of : R → string) (l : list E) (store : gmap string R) : Prop :=
  ∀ id r, store !! id = Some r → mk r ∈ l ∧ key_of r = id.
Lemma filed_app {E R} (mk : R → E) key_of l k store : filed mk key_of l store → filed mk key_of (l ++ k) store.
Proof. intros Hf id r Hr. destruct (Hf id r Hr). split; [apply elem_of_app; by left|done]. Qed.
Lemma filed_delete {E R} (mk : R → E) key_of l store i : filed mk key_of l store → filed mk key_of l (delete i store).
Proof. intros Hf id r [_ Hr]%lookup_delete_Some. by apply Hf. Qed.
Lemma filed_insert {E R} (mk : R → E) key_of l store r :
  filed mk key_of l store → filed mk key_of (l ++ [mk r]) (<[key_of r := r]> store).
Proof.
  intros Hf id r' [[<- ->]|[_ Hr]]%lookup_insert_Some; [|by apply (filed_app mk key_of l [mk r] store Hf)].
  split; [apply elem_of_app; right; left|done].
Qed.
Lemma filed_empty {E R} (mk : R → E) key_of l : filed mk key_of l ∅.
Proof. intros id r Hr. by rewrite lookup_empty in Hr. Qed.
Create HintDb filed.
#[export] Hint Resolve filed_app filed_delete filed_insert filed_empty : filed.

(** The stores whose requests an approval must find. *)
Lemma replay_filed es :
  let v := replay (Build_host_view ∅ ∅ ∅ ∅ ∅ ∅ ∅ ∅) es in
  filed Effect.AddSignMessageRequest smr_request_id es v.(hv_sign_message) ∧
  filed Effect.AddReceiveAddressRequest rar_request_id es v.(hv_receive_address) ∧
  filed Effect.AddAssetBalanceRequest abr_request_id es v.(hv_asset_balance) ∧
  filed Effect.AddPayRequest pr_request_id es v.(hv_pay) ∧
  filed Effect.AddFundRequest fr_request_id es v.(hv_fund).
Proof.
  unfold replay. induction es as [|e es IH] using rev_ind; [simpl; split_and!; auto with filed|].
  rewrite foldl_app. cbn [foldl]. destruct (foldl apply_effect _ es) as [a b c d e0 f g k]. cbn in IH.
  destruct IH as (? & ? & ? & ? & ?). destruct e; cbn; split_and!; auto with filed.
Qed.

(** The requests a core holds were shown under their ids. *)
Definition requests_shown `{!SchnorrApi} (shown : list wallet_event) (s : core) : Prop :=
  filed WalletEvent.SignMessageRequested smr_request_id shown s.(sign_message_requests) ∧
  filed WalletEvent.ReceiveAddressRequested rar_request_id shown s.(receive_address_requests) ∧
  filed WalletEvent.AssetBalanceRequested abr_request_id shown s.(asset_balance_requests) ∧
  filed WalletEvent.PayRequested pr_request_id shown s.(pay_requests) ∧
  filed WalletEvent.FundRequested fr_request_id shown s.(fund_requests).
Lemma filed_events {R} (mk : R → effect) (mk' : R → wallet_event) key_of es shown store :
  (∀ r, effect_event (mk r) = inr (mk' r)) → (∀ e w, e ∈ es → effect_event e = inr w → w ∈ shown) →
  filed mk key_of es store → filed mk' key_of shown store.
Proof. intros Hmk Hes Hf id r Hr. destruct (Hf id r Hr). eauto. Qed.

Section system.
Context `{!HashesApi, !HexApi, !SchnorrApi, !SerdeWire, !UrlApi}.
Context {K : Type} (h : host K) (kept0 : K) (iid : InstallId) (desc : string) (key : WalletKey).
Implicit Types (st : system (K := K)).

(** Where an input of the host comes from: an event shown or a text read. *)
Definition caused (shown : list wallet_event) (texts : list string) (i : input) : Prop :=
  (∃ e k, e ∈ shown ∧ i ∈ (react h k e).2) ∨ ∃ text k, text ∈ texts ∧ i ∈ (reads h k text).2.
Definition reachable st : Prop := rtc (sys_step h) (sys_new iid desc key kept0) st.

Lemma sys_exec_step st e st' : sys_exec h st e = Some st' → sys_step h st st'.
Proof.
  destruct e as [ev|accepts| |text]; simpl.
  - destruct (environment ev) eqn:He; [|done]. destruct (actor_step _ _) as [[a outs]|] eqn:Ea; [|done].
    intros [= <-]. by eapply step_env.
  - destruct (sys_inputs st) as [|i inputs] eqn:Ei; [done|].
    destruct (actor_step _ _) as [[a outs]|] eqn:Ea; [|done]. intros [= <-]. by eapply step_deliver.
  - destruct (sys_events st) as [|event events] eqn:Ee; [done|].
    destruct (react h _ event) as [kept inputs] eqn:Er. intros [= <-]. by eapply step_host.
  - destruct (reads h _ text) as [kept inputs] eqn:Er. intros [= <-]. by eapply step_text.
Qed.
Lemma sys_run_steps es st st' : sys_run h st es = Some st' → rtc (sys_step h) st st'.
Proof.
  revert st. induction es as [|e es IH]; intros st; simpl; [intros [= <-]; constructor|].
  destruct (sys_exec h st e) as [s1|] eqn:E; [|done]. simpl. intros Hr.
  eapply rtc_l; [by eapply sys_exec_step|by apply IH].
Qed.
Lemma sys_run_reachable es st : sys_run h (sys_new iid desc key kept0) es = Some st → reachable st.
Proof. apply sys_run_steps. Qed.

Lemma caused_app shown more texts more_texts i :
  caused shown texts i → caused (shown ++ more) (texts ++ more_texts) i.
Proof.
  intros [(e & k & He & Hi)|(t & k & Ht & Hi)]; [left; exists e, k|right; exists t, k];
    (split; [apply elem_of_app; by left|done]).
Qed.
Lemma caused_shown shown more texts i : caused shown texts i → caused (shown ++ more) texts i.
Proof. rewrite <-(app_nil_r texts) at 2. apply caused_app. Qed.
Lemma caused_text shown texts t i : caused shown texts i → caused shown (texts ++ [t]) i.
Proof. rewrite <-(app_nil_r shown) at 2. apply caused_app. Qed.
Lemma actor_run_snoc a evs ev a1 o1 a2 o2 :
  actor_run a evs = Some (a1, o1) → actor_step a1 ev = Some (a2, o2) →
  actor_run a (evs ++ [ev]) = Some (a2, o1 ++ o2).
Proof.
  revert a o1; induction evs as [|e evs IH]; intros a o1; simpl.
  - intros [= <- <-] ->. simpl. by rewrite app_nil_r.
  - destruct (actor_step a e) as [[a' o']|]; [|done]. simpl.
    destruct (actor_run a' evs) as [[a'' o'']|] eqn:E; [|done]. simpl. intros [= -> <-] Hs.
    rewrite (IH a' o'' E Hs). simpl. by rewrite app_assoc.
Qed.

(** Every reachable system is a run of the actor whose host inputs all come
    from events shown or links opened. *)
Record explained st (evs : list env_event) (outs : list output) : Prop := {
  ex_run : actor_run (actor_new iid desc key) evs = Some (st.(sys_actor), outs);
  ex_shown : st.(sys_shown) = out_events outs;
  ex_sent : st.(sys_sent) = out_frames outs;
  ex_inputs i accepts : HostInput i accepts ∈ evs → caused st.(sys_shown) st.(sys_texts) i;
  ex_queue i : i ∈ st.(sys_inputs) → caused st.(sys_shown) st.(sys_texts) i;
  ex_events e : e ∈ st.(sys_events) → e ∈ st.(sys_shown);
}.

Lemma explained_moved st evs outs ev a o inputs :
  explained st evs outs → actor_step st.(sys_actor) ev = Some (a, o) →
  (∀ i accepts, ev = HostInput i accepts → caused st.(sys_shown) st.(sys_texts) i) →
  (∀ i, i ∈ inputs → i ∈ st.(sys_inputs)) →
  explained (moved st a o inputs) (evs ++ [ev]) (outs ++ o).
Proof.
  intros [Hr Hs Hd Hi Hq He] Hstep Hev Hin. split; simpl.
  - by eapply actor_run_snoc.
  - by rewrite out_events_app, Hs.
  - by rewrite out_frames_app, Hd.
  - intros i accepts [Hx|Hx%list_elem_of_singleton]%elem_of_app; apply caused_shown; eauto.
  - intros i Hx. apply caused_shown. auto.
  - intros e [Hx|Hx]%elem_of_app; apply elem_of_app; auto.
Qed.
Lemma reachable_explained st : reachable st → ∃ evs outs, explained st evs outs.
Proof.
  unfold reachable. intros Hr.
  refine (rtc_ind_r (λ st, ∃ evs outs, explained st evs outs) _ _ _ _ Hr);
    [|clear st Hr; intros st st' _ Hstep (evs & outs & Hex)].
  { exists [], []. split; try done; [intros ? ? Hx|intros ? Hx..]; by apply not_elem_of_nil in Hx. }
  destruct Hstep as [ev a o Hev Hs|i inputs accepts a o Hq Hs|event events kept inputs Hq Hl|text kept inputs Hl].
  - eexists _, _. apply (explained_moved _ _ _ _ _ _ _ Hex Hs); [by intros i accepts ->|done].
  - eexists _, _. apply (explained_moved _ _ _ _ _ _ _ Hex Hs).
    + intros ? ? [= <- _]. apply (ex_queue _ _ _ Hex). rewrite Hq. left.
    + intros j Hj. rewrite Hq. by right.
  - exists evs, outs. destruct Hex as [Hr Hs Hd Hi Hqu He]. split; simpl; try done.
    + intros i [Hx|Hx]%elem_of_app; [auto|]. left. exists event, (sys_kept st). rewrite Hl.
      split; [|done]. apply He. rewrite Hq. left.
    + intros e Hx. apply He. rewrite Hq. by right.
  - exists evs, outs. destruct Hex as [Hr Hs Hd Hi Hqu He]. split; simpl; try done.
    + intros i accepts Hx. apply caused_text. eauto.
    + intros i [Hx|Hx]%elem_of_app; [apply caused_text; auto|]. right. exists text, (sys_kept st). rewrite Hl.
      split; [apply elem_of_app; right; by left|done].
Qed.

(** What the frames of a reachable system are. *)
Lemma host_frames st d :
  reachable st → d ∈ st.(sys_sent) →
  ∃ ins, authorised iid desc key ins d ∧
    (∀ i, i ∈ ins → (∃ ev, i = Input.Transport ev) ∨ caused st.(sys_shown) st.(sys_texts) i) ∧
    (∀ pre post, ins = pre ++ post → requests_shown st.(sys_shown) (after iid desc key pre)).
Proof.
  intros (evs & outs & [Hr Hs Hd Hi _ _])%reachable_explained Hin.
  destruct (actor_run_stretch evs _ _ _ Hr) as (ins & [_ _ Hf Hsh] & Hins). exists ins. rewrite Hs in Hi |- *.
  rewrite Forall_forall in Hins. split_and!.
  - rewrite Hd in Hin. pose proof (Forall_sublist _ _ _ Hf (run_frames_authorised iid desc key ins)) as Hall.
    rewrite Forall_forall in Hall. by apply Hall.
  - intros i (ev & Hev & Hof)%Hins. destruct Hof as [->|Hof]; [left; by eexists|].
    destruct ev; try done; try (left; by eexists). subst i0. right. by eapply Hi.
  - intros pre post ->. pose proof (run_mirrors_host iid desc key pre) as Hm. cbn zeta in Hm.
    pose proof (replay_filed (run_inputs pre (core_new iid desc key)).2) as Hfd. rewrite Hm in Hfd.
    assert (∀ e w, e ∈ (run_inputs pre (core_new iid desc key)).2 → effect_event e = inr w → w ∈ out_events outs) as He.
    { intros e w He. apply Hsh. rewrite run_inputs_app. simpl. apply elem_of_app. by left. }
    destruct Hfd as (? & ? & ? & ? & ?). split_and!; (eapply filed_events; [|exact He|eassumption]; done).
Qed.

(** What leaves, for a program whose calls issue only actions of a kind
    [allowed] describes, by what was shown. *)
Inductive policy_frame (allowed : user_action → Prop) : string → Prop :=
| policy_challenge : policy_frame allowed (frame 0 Req.Challenge)
| policy_login challenge :
    policy_frame allowed
      (frame 0 (Req.Login {| lreq_public_key := wk_public_key key; lreq_signature := wk_sign_challenge key challenge;
                             lreq_install_id := Some iid |}))
| policy_action id a : allowed a → policy_frame allowed (frame id (Req.UserAction a)).

Lemma policy_frames (allowed : list wallet_event → list string → user_action → Prop) st :
  (∀ shown texts token, ¬ caused shown texts (Input.RegisterFcmToken token)) →
  (∀ shown texts s i a, s.(descriptor) = desc → s.(wallet_key) = key → caused shown texts i → issued s i a →
     requests_shown shown s → allowed shown texts a) →
  reachable st → Forall (policy_frame (allowed st.(sys_shown) st.(sys_texts))) st.(sys_sent).
Proof.
  intros Hfcm Hall Hst. apply Forall_forall. intros d Hd.
  destruct (host_frames st d Hst Hd) as (ins & Ha & Hins & Hreq).
  destruct Ha as [|text id challenge|token Ht|id a (pre & i & post & -> & Hi & _)].
  - constructor.
  - constructor.
  - exfalso. apply Hins in Ht as [(ev & ?)|Hc]; [done|]. by eapply Hfcm.
  - constructor. destruct (after_fields iid desc key pre) as (Hid & _). unfold identity in Hid.
    eapply (Hall _ _ (after iid desc key pre) i); [congruence|congruence| |exact Hi|].
    + destruct (Hins i) as [(ev & ->)|?]; [apply elem_of_app; right; left|inversion Hi|done].
    + by apply (Hreq pre (i :: post)).
Qed.
End system.

(** * No feedback between a host and the library *)

(** The events that the handling of a host's own calls can show. *)
Definition echo (e : wallet_event) : Prop :=
  match e with
  | WalletEvent.MinimizeMobileApp | WalletEvent.ActionFailed _ _ | WalletEvent.Disconnected => True
  | _ => False
  end.

(** A host that makes at most [calls e] calls of the handle when it reads
    [e], and none on an echo of its own. *)
Class Measured {K} (h : host K) (calls : wallet_event → nat) : Prop := {
  react_handle k e i : i ∈ (react h k e).2 → host_input i = true;
  reads_handle k text i : i ∈ (reads h k text).2 → host_input i = true;
  react_calls k e : (length (react h k e).2 ≤ calls e)%nat;
  echo_calls e : echo e → calls e = 0%nat;
}.

Section quiesce.
Context `{!HashesApi, !HexApi, !SchnorrApi, !SerdeWire, !UrlApi}.
Context {K : Type} (h : host K) (calls : wallet_event → nat) `{!Measured h calls}.
Implicit Types (st : system (K := K)).

(** What an input of the host causes the host to see. *)
Abbreviation shows es := ((apply_effects es).2).

Lemma shows_add_user_action a s : shows (add_user_action a s).2 = [].
Proof. rewrite add_user_action_effects. by destruct (connected s). Qed.
Definition one_quiet (l : list wallet_event) : Prop := (length l ≤ 1)%nat ∧ Forall echo l.
Lemma shows_finish_request id s : one_quiet (shows (finish_request id s).2).
Proof.
  unfold finish_request, gets, seq, modify. simpl. destruct (bool_decide _); split; simpl; try lia; repeat constructor.
Qed.
Lemma one_quiet_seq a b s :
  shows (a s).2 = [] → (∀ s', one_quiet (shows (b s').2)) → one_quiet (shows (seq a b s).2).
Proof. intros Ha Hb. rewrite seq_snd, apply_effects_app. simpl. rewrite Ha. apply Hb. Qed.
Lemma one_quiet_answer id a s : one_quiet (shows (answer id a s).2).
Proof. apply one_quiet_seq; [apply shows_add_user_action|apply shows_finish_request]. Qed.
Lemma one_quiet_answer_live live id a s : one_quiet (shows (answer_live live id a s).2).
Proof.
  apply one_quiet_seq; [|apply shows_finish_request]. unfold gets. destruct (live s); [apply shows_add_user_action|done].
Qed.
Lemma one_quiet_nil : one_quiet [].
Proof. split; [simpl; lia|constructor]. Qed.

Lemma host_input_quiet i s : host_input i = true → one_quiet (shows (handle i s).2).
Proof.
  destruct i as [ev|l| | | | | | | | | | | | | | | | |]; intros Hi; try done;
    try apply one_quiet_answer; try apply one_quiet_answer_live.
  - unfold handle, handle_app_link. destruct l as [[] id [] net]; try apply one_quiet_nil;
      rewrite seq_snd, apply_effects_app; simpl; rewrite shows_add_user_action; apply one_quiet_nil.
  - unfold handle, login_accepted, gets. destruct (_ && _); [|apply one_quiet_answer].
    split; [simpl; lia|by repeat constructor].
  - unfold handle, gets. apply one_quiet_seq; [|apply shows_finish_request].
    by destruct (sign_message_digest s request_id); [apply shows_add_user_action|].
  - unfold handle, send_fcm_token, gets. rewrite seq_snd, apply_effects_app. simpl.
    destruct (_ && _); apply one_quiet_nil.
  - unfold handle. rewrite shows_add_user_action. apply one_quiet_nil.
Qed.

(** What is still to be read and delivered, weighed. *)
Definition event_weight (e : wallet_event) : nat := S (3 * calls e).
Definition backlog st : nat := (sum_list_with event_weight st.(sys_events) + 3 * length st.(sys_inputs))%nat.
Definition internal (e : sys_event) : Prop := match e with SysHost | SysDeliver _ => True | _ => False end.

Lemma echo_weight l : Forall echo l → sum_list_with event_weight l = length l.
Proof.
  induction 1 as [|e l He _ IH]; [done|]. simpl. rewrite IH. unfold event_weight. by rewrite (echo_calls e He).
Qed.

(** A delivery shows at most two events, and the host answers neither. *)
Lemma deliver_quiet a i accepts a' outs :
  host_input i = true → actor_step a (HostInput i accepts) = Some (a', outs) →
  (length (out_events outs) ≤ 2)%nat ∧ Forall echo (out_events outs).
Proof.
  intros Hi. unfold actor_step. destruct (a_phase a) as [|w|]; try done.
  rewrite (surjective_pairing (handle _ _)), apply_effects_pair. intros Hf%(inj Some).
  destruct (host_input_quiet i (a_core a) Hi) as [Hl Hq].
  match type of Hf with flush ?x ?y ?z ?o = _ => destruct (flush_eq x y z o) as (taken & _ & [E|E]) end;
    rewrite Hf in E; injection E as -> ->.
  - rewrite out_events_app, out_events_Event, out_events_Frame, app_nil_r. split; [lia|done].
  - rewrite !out_events_app, out_events_Event, out_events_Frame, app_nil_r. split.
    + rewrite length_app. simpl. lia.
    + apply Forall_app. split; [done|by repeat constructor].
Qed.

Lemma internal_decreases st e st' :
  Forall (λ i, host_input i = true) st.(sys_inputs) → internal e → sys_exec h st e = Some st' →
  (backlog st' < backlog st)%nat ∧ Forall (λ i, host_input i = true) st'.(sys_inputs).
Proof.
  intros Hin He. destruct e as [ev|accepts| |text]; try done; simpl; unfold backlog.
  - destruct (sys_inputs st) as [|i inputs] eqn:Ei; [done|]. apply Forall_cons in Hin as [Hi Hin].
    destruct (actor_step _ _) as [[a outs]|] eqn:Ea; [|done]. intros [= <-].
    destruct (deliver_quiet _ _ _ _ _ Hi Ea) as [Hl Hq]. simpl. fold (out_events outs).
    rewrite sum_list_with_app, (echo_weight _ Hq). split; [lia|done].
  - destruct (sys_events st) as [|event events] eqn:Ee; [done|]. pose proof (react_calls st.(sys_kept) event) as Hc.
    pose proof (react_handle st.(sys_kept) event) as Hh. destruct (react h _ event) as [kept inputs].
    intros [= <-]. simpl in *. rewrite length_app.
    split; [change (event_weight event) with (S (3 * calls event)); lia|]. apply Forall_app. split; [done|].
    apply Forall_forall. intros i. apply Hh.
Qed.

Lemma internal_bounded kept0 iid desc key st es st' :
  reachable h kept0 iid desc key st → Forall internal es → sys_run h st es = Some st' →
  (length es + backlog st' ≤ backlog st)%nat.
Proof.
  intros (evs & outs & Hex)%reachable_explained Hes.
  assert (Forall (λ i, host_input i = true) st.(sys_inputs)) as Hin.
  { apply Forall_forall. intros i [(e & k & _ & Hi)|(text & k & _ & Hi)]%(ex_queue _ _ _ _ _ _ _ Hex);
      eauto using react_handle, reads_handle. }
  clear Hex. revert st Hin. induction Hes as [|e es He Hes IH]; intros st Hin; simpl; [intros [= <-]; lia|].
  destruct (sys_exec h st e) as [st1|] eqn:E; [|done]. simpl. intros Hr.
  destruct (internal_decreases _ _ _ Hin He E) as [Hlt Hin1]. specialize (IH _ Hin1 Hr). lia.
Qed.

(** C30. A host and the library cannot keep each other busy: for every host
    that calls the handle boundedly often on each event and not at all when
    it is told of an echo of its own calls, from any state the system
    reaches, without further news from the network or the second source, the reads of events and the deliveries of inputs that can
    follow are at most the backlog - an event weighs one and three for each
    call it may make, a call three - and as long as an event is unread, or the
    actor is online and an input undelivered, such a step exists. *)
Theorem host_quiesces kept0 iid desc key st :
  reachable h kept0 iid desc key st →
  (∀ es st', Forall internal es → sys_run h st es = Some st' → (length es + backlog st' ≤ backlog st)%nat) ∧
  (st.(sys_events) ≠ [] → is_Some (sys_exec h st SysHost)) ∧
  (∀ w accepts, st.(sys_actor).(a_phase) = Online w → st.(sys_inputs) ≠ [] →
     is_Some (sys_exec h st (SysDeliver accepts))).
Proof.
  intros Hst. split_and!; [by eauto using internal_bounded|..].
  - intros Hne. simpl. destruct (sys_events st) as [|e es]; [done|]. destruct (react h _ e). by eexists.
  - intros w accepts Hp Hne. simpl. destruct (sys_inputs st) as [|i inputs]; [done|].
    unfold actor_step. rewrite Hp, (surjective_pairing (handle _ _)), apply_effects_pair. simpl.
    destruct (flush _ _ _ _). by eexists.
Qed.
End quiesce.
