(* ===== verification/ShortId.v ===== *)
(** The short wallet id ([lc-wallet-core/src/short_id.rs]): eight Crockford
    base32 digits of a tagged hash of the identity key, and the reading of
    what people type for it. *)

From S2P Require Import Prelude Crates Key.

Definition ALPHABET : list Ascii.ascii := list_ascii_of_string "0123456789ABCDEFGHJKMNPQRSTVWXYZ".
Definition SHORT_ID_LEN : nat := 8.

(** [ALPHABET[i] as char] *)
Definition alphabet_char (i : Z) : Ascii.ascii := List.nth (Z.to_nat i) ALPHABET "0"%char.

(** [while bits >= 5 { bits -= 5; raw.push(..) }]; [bits] turns are enough. *)
Fixpoint push_digits (fuel : nat) (raw : list Ascii.ascii) (acc bits : Z) : list Ascii.ascii * Z :=
  match fuel with
  | O => (raw, bits)
  | S fuel =>
      if 5 <=? bits then
        let bits := bits - 5 in
        push_digits fuel (raw ++ [alphabet_char (Z.land (Z.shiftr acc bits) 31)]) acc bits
      else (raw, bits)
  end.

(** The body of [for &byte in &digest[..5]], on [u32] words. *)
Definition push_byte (st : list Ascii.ascii * Z * Z) (byte : byte) : list Ascii.ascii * Z * Z :=
  let '(raw, acc, bits) := st in
  let acc := Z.lor (Z.shiftl acc 8 mod 2 ^ 32) (byte_Z byte) in
  let bits := bits + 8 in
  let '(raw, bits) := push_digits (Z.to_nat bits) raw acc bits in
  (raw, Z.land acc (Z.shiftl 1 bits - 1), bits).

(** [group]: [format!("{}-{}", &raw[0..4], &raw[4..8])]. *)
Definition group (raw : list Ascii.ascii) : string :=
  string_of_list_ascii (take 4 raw ++ "-"%char :: take 4 (drop 4 raw)).

Definition raw_digits (digest : list byte) : list Ascii.ascii :=
  let '(raw, _, _) := foldl push_byte ([], 0, 0) (take 5 digest) in raw.

(** The character a typed character stands for, after the dashes and spaces. *)
Definition canonical_char (c : Ascii.ascii) : Ascii.ascii :=
  let c := to_ascii_upper c in
  if bool_decide (c = "I"%char) || bool_decide (c = "L"%char) then "1"%char
  else if bool_decide (c = "O"%char) then "0"%char
  else c.
Definition skipped_char (c : Ascii.ascii) : bool :=
  let c := to_ascii_upper c in bool_decide (c = "-"%char) || bool_decide (c = " "%char).
Definition in_alphabet (c : Ascii.ascii) : bool := bool_decide (c ∈ ALPHABET).

(** The loop of [normalize]: [None] is its early return. *)
Fixpoint normalize_raw (input : string) : option (list Ascii.ascii) :=
  match input with
  | EmptyString => Some []
  | String c input =>
      if skipped_char c then normalize_raw input
      else
        let c := canonical_char c in
        if in_alphabet c then raw ← normalize_raw input; Some (c :: raw) else None
  end.

Definition normalize (input : string) : option string :=
  raw ← normalize_raw input;
  if bool_decide (length raw = SHORT_ID_LEN) then Some (group raw) else None.

Section short_id.
Context `{HashesApi}.
Definition wallet_id_hash (public_key : bytes32) : list byte :=
  slice (tagged_hash "liquidconnect/wallet-id" (slice public_key)).
Definition short_wallet_id (public_key : bytes32) : string := group (raw_digits (wallet_id_hash public_key)).
(** [WalletKey::short_id] ([key.rs]). *)
Definition wk_short_id `{!SchnorrApi} (k : WalletKey) : string := short_wallet_id (wk_public_key k).
Definition matches (input : string) (public_key : bytes32) : bool :=
  match normalize input with
  | Some id => bool_decide (id = short_wallet_id public_key)
  | None => false
  end.
End short_id.

(** * Reference: base32 numbers *)

Definition base32_value (ds : list Z) : Z := foldl (λ v d, 32 * v + d) 0 ds.
Definition is_digit (d : Z) : Prop := 0 ≤ d < 32.

(** The digit a character of the alphabet stands for. *)
Definition digit_value (c : Ascii.ascii) : option Z :=
  Z.of_nat <$> (fst <$> list_find (λ a, a = c) ALPHABET).

(** The number a typed id denotes, if it is an id at all: eight digits once
    dashes and spaces are dropped, read case-insensitively, with [I] and [L]
    for 1 and [O] for 0. *)
Fixpoint typed_digits (input : string) : option (list Z) :=
  match input with
  | EmptyString => Some []
  | String c input =>
      if skipped_char c then typed_digits input
      else d ← digit_value (canonical_char c); ds ← typed_digits input; Some (d :: ds)
  end.
Definition typed_number (input : string) : option Z :=
  ds ← typed_digits input;
  if bool_decide (length ds = SHORT_ID_LEN) then Some (base32_value ds) else None.

Lemma base32_value_snoc ds d : base32_value (ds ++ [d]) = 32 * base32_value ds + d.
Proof. unfold base32_value. by rewrite foldl_app. Qed.

Lemma base32_value_bound ds :
  Forall is_digit ds → 0 ≤ base32_value ds < 32 ^ Z.of_nat (length ds).
Proof.
  induction ds as [|d ds IH] using rev_ind; [intros; simpl; unfold base32_value; simpl; lia|].
  intros [Hds [Hd _]%Forall_cons]%Forall_app. specialize (IH Hds).
  rewrite base32_value_snoc, length_app, Nat2Z.inj_add, Z.pow_add_r by lia.
  unfold is_digit in Hd. simpl length. lia.
Qed.

(** Numbers with the same count of base32 digits are equal only when their
    digits are. *)
Lemma base32_value_inj ds es :
  Forall is_digit ds → Forall is_digit es → length ds = length es →
  base32_value ds = base32_value es → ds = es.
Proof.
  revert es; induction ds as [|d ds IH] using rev_ind; intros es Hds Hes Hl Hv.
  { by destruct es. }
  destruct es as [|e es _] using rev_ind; [rewrite length_app in Hl; simpl in Hl; lia|].
  apply Forall_app in Hds as [Hds [Hd _]%Forall_cons]. apply Forall_app in Hes as [Hes [He _]%Forall_cons].
  rewrite !length_app in Hl. simpl in Hl. rewrite !base32_value_snoc in Hv.
  unfold is_digit in Hd, He. assert (d = e) as -> by lia.
  rewrite (IH es); [done|done|done|lia|lia].
Qed.

Lemma digit_value_char d : is_digit d → digit_value (alphabet_char d) = Some d.
Proof.
  intros Hd. assert (forallb (λ d, bool_decide (digit_value (alphabet_char (Z.of_nat d)) = Some (Z.of_nat d)))
    (List.seq 0 32) = true) as Hall by by vm_compute.
  rewrite forallb_forall in Hall. specialize (Hall (Z.to_nat d)).
  rewrite in_seq, bool_decide_eq_true, Z2Nat.id in Hall by (unfold is_digit in Hd; lia).
  apply Hall. unfold is_digit in Hd. lia.
Qed.
Lemma alphabet_char_elem d : is_digit d → alphabet_char d ∈ ALPHABET.
Proof.
  intros Hd. apply list_elem_of_In, nth_In. unfold is_digit in Hd.
  change (length ALPHABET) with 32%nat. lia.
Qed.
Lemma digit_value_elem c : c ∈ ALPHABET ↔ ∃ d, is_digit d ∧ c = alphabet_char d.
Proof.
  split; [|intros (d & ? & ->); by apply alphabet_char_elem].
  intros Hc%list_elem_of_In. destruct (In_nth _ _ "0"%char Hc) as (n & Hn & <-).
  change (length ALPHABET) with 32%nat in Hn. exists (Z.of_nat n).
  split; [unfold is_digit; lia|]. unfold alphabet_char. by rewrite Nat2Z.id.
Qed.
Lemma digit_value_None c : c ∉ ALPHABET → digit_value c = None.
Proof.
  intros Hc. unfold digit_value.
  destruct (list_find _ ALPHABET) as [[i a]|] eqn:E; [|done]. exfalso.
  apply list_find_Some in E as (Hl & -> & _). by apply list_elem_of_lookup_2 in Hl.
Qed.

(** * The digit loop computes the base32 digits of the 40-bit number *)

(** [ds] and the low [bits] of [acc] together make [T], with [n] bits read. *)
Definition loop_inv (T n : Z) (raw : list Ascii.ascii) (acc bits : Z) : Prop :=
  ∃ ds, raw = alphabet_char <$> ds ∧ Forall is_digit ds ∧ 0 ≤ bits ∧
    5 * Z.of_nat (length ds) + bits = n ∧ base32_value ds * 2 ^ bits + acc mod 2 ^ bits = T.

Lemma push_digits_inv fuel T n raw acc bits :
  0 ≤ acc → bits < 5 * Z.of_nat fuel + 5 → loop_inv T n raw acc bits →
  let '(raw', bits') := push_digits fuel raw acc bits in
  loop_inv T n raw' acc bits' ∧ bits' < 5.
Proof.
  revert raw bits; induction fuel as [|fuel IH]; intros raw bits Hacc Hf Hinv; simpl.
  { split; [done|lia]. }
  destruct (Z.leb_spec 5 bits); [|split; [done|lia]].
  apply IH; [done|lia|]. destruct Hinv as (ds & -> & Hds & Hb & Hn & HT).
  set (d := Z.land (Z.shiftr acc (bits - 5)) 31).
  assert (d = acc / 2 ^ (bits - 5) mod 32) as Hd.
  { unfold d. change 31 with (Z.ones 5). by rewrite Z.land_ones, Z.shiftr_div_pow2 by lia. }
  exists (ds ++ [d]). split_and!.
  - by rewrite fmap_app.
  - apply Forall_app. split; [done|]. repeat constructor; rewrite Hd; apply Z.mod_pos_bound; lia.
  - lia.
  - rewrite length_app. simpl. lia.
  - rewrite base32_value_snoc, Hd, <-HT.
    replace (2 ^ bits) with (2 ^ (bits - 5) * 32) by (rewrite <-(Z.pow_add_r 2 _ 5) by lia; f_equal; lia).
    rewrite Z.rem_mul_r by lia. lia.
Qed.

Lemma push_byte_inv T n raw acc bits b :
  0 ≤ acc < 2 ^ bits → bits < 5 → loop_inv T n raw acc bits →
  let '(raw', acc', bits') := push_byte (raw, acc, bits) b in
  loop_inv (256 * T + byte_Z b) (n + 8) raw' acc' bits' ∧ 0 ≤ acc' < 2 ^ bits' ∧ bits' < 5.
Proof.
  intros Hacc Hb Hinv. assert (0 ≤ bits) as Hb0 by (by destruct Hinv as (? & ? & ? & ? & _)).
  pose proof (byte_Z_bound b) as Hbyte. unfold push_byte.
  assert (2 ^ bits ≤ 2 ^ 4) as H4 by (apply Z.pow_le_mono_r; lia).
  assert (Z.lor (Z.shiftl acc 8 mod 2 ^ 32) (byte_Z b) = 256 * acc + byte_Z b) as ->.
  { rewrite Z.shiftl_mul_pow2, Z.mod_small by lia. change (2 ^ 8) with 256.
    assert (Z.land (acc * 2 ^ 8) (byte_Z b) = 0) as Hl.
    { apply Z.bits_inj'. intros k Hk. rewrite Z.land_spec, Z.bits_0.
      destruct (Z.ltb_spec k 8); [by rewrite Z.mul_pow2_bits_low by lia|].
      rewrite (Z.bits_above_log2 (byte_Z b)); [apply andb_false_r|lia|].
      destruct (decide (byte_Z b = 0)) as [->|]; [simpl; lia|].
      assert (Z.log2 (byte_Z b) < 8) by (apply Z.log2_lt_pow2; lia). lia. }
    change 256 with (2 ^ 8) in *. rewrite <-Z.lxor_lor, <-Z.add_nocarry_lxor by done. lia. }
  set (acc' := 256 * acc + byte_Z b).
  assert (0 ≤ acc') as Hacc' by (unfold acc'; lia).
  assert (loop_inv (256 * T + byte_Z b) (n + 8) raw acc' (bits + 8)) as Hinv'.
  { destruct Hinv as (ds & -> & Hds & _ & Hn & HT). exists ds. split_and!; [done|done|lia|lia|].
    rewrite (Z.mod_small acc) in HT by lia. rewrite Z.pow_add_r by lia. change (2 ^ 8) with 256.
    rewrite Z.mod_small by (unfold acc'; lia). unfold acc'. lia. }
  pose proof (push_digits_inv (Z.to_nat (bits + 8)) _ _ raw acc' (bits + 8) Hacc' ltac:(lia) Hinv') as Hp.
  destruct (push_digits _ _ _ _) as [raw' bits']. destruct Hp as [(ds & -> & Hds & Hb' & Hn & HT) Hlt].
  assert (Z.land acc' (Z.shiftl 1 bits' - 1) = acc' mod 2 ^ bits') as ->.
  { rewrite Z.shiftl_mul_pow2, Z.mul_1_l by lia.
    replace (2 ^ bits' - 1) with (Z.ones bits') by (rewrite Z.ones_equiv; lia).
    by rewrite Z.land_ones by lia. }
  split; [|split; [apply Z.mod_pos_bound; lia|done]].
  exists ds. split_and!; try done. by rewrite Z.mod_mod by lia.
Qed.

Lemma be_val_snoc l b : be_val (l ++ [b]) = 256 * be_val l + byte_Z b.
Proof. unfold be_val. rewrite reverse_app. simpl. lia. Qed.

Lemma push_bytes_inv l :
  let '(raw, acc, bits) := foldl push_byte ([], 0, 0) l in
  loop_inv (be_val l) (8 * Z.of_nat (length l)) raw acc bits ∧ 0 ≤ acc < 2 ^ bits ∧ bits < 5.
Proof.
  induction l as [|b l IH] using rev_ind.
  { simpl. split; [|lia]. exists []. split_and!; try done. }
  rewrite foldl_app. simpl. destruct (foldl push_byte _ l) as [[raw acc] bits].
  destruct IH as (Hinv & Hacc & Hb). pose proof (push_byte_inv _ _ _ _ _ b Hacc Hb Hinv) as Hp.
  destruct (push_byte _ b) as [[raw' acc'] bits']. rewrite be_val_snoc, length_app.
  destruct Hp as (Hp & ? & ?). split; [|done].
  simpl length. by replace (8 * Z.of_nat (length l + 1)) with (8 * Z.of_nat (length l) + 8) by lia.
Qed.

(** The digits of a digest, as base32 digits of its first five bytes. *)
Lemma raw_digits_value digest :
  (5 ≤ length digest)%nat →
  ∃ ds, raw_digits digest = alphabet_char <$> ds ∧ Forall is_digit ds ∧ length ds = SHORT_ID_LEN ∧
    base32_value ds = be_val (take 5 digest).
Proof.
  intros Hl. unfold raw_digits. pose proof (push_bytes_inv (take 5 digest)) as Hp.
  destruct (foldl push_byte _ _) as [[raw acc] bits].
  destruct Hp as ((ds & -> & Hds & Hb & Hn & HT) & Hacc & Hlt).
  rewrite length_take, Nat.min_l in Hn by lia. simpl in Hn.
  assert (bits = 0) as -> by lia. exists ds. split_and!; [done|done|unfold SHORT_ID_LEN; lia|].
  rewrite <-HT, Z.pow_0_r, Z.mod_1_r. lia.
Qed.

(** * Display form and reading *)

Lemma string_of_list_ascii_inj l k : string_of_list_ascii l = string_of_list_ascii k → l = k.
Proof.
  intros Hs. rewrite <-(list_ascii_of_string_of_list_ascii l),
    <-(list_ascii_of_string_of_list_ascii k). by rewrite Hs.
Qed.
Lemma group_inj l k : length l = 8%nat → length k = 8%nat → group l = group k → l = k.
Proof.
  unfold group. intros Hl Hk Hg%string_of_list_ascii_inj.
  do 9 (destruct l as [|? l]; try done). do 9 (destruct k as [|? k]; try done).
  simpl in Hg. by injection Hg as -> -> -> -> -> -> -> ->.
Qed.

Lemma ALPHABET_fixed c : c ∈ ALPHABET → skipped_char c = false ∧ canonical_char c = c.
Proof.
  intros (d & Hd & ->)%digit_value_elem.
  assert (forallb (λ n, let c := alphabet_char (Z.of_nat n) in
    negb (skipped_char c) && bool_decide (canonical_char c = c)) (List.seq 0 32) = true) as Hall
    by by vm_compute.
  rewrite forallb_forall in Hall. specialize (Hall (Z.to_nat d)).
  rewrite in_seq, Z2Nat.id in Hall by (unfold is_digit in Hd; lia).
  specialize (Hall ltac:(unfold is_digit in Hd; lia)). simpl in Hall.
  apply andb_true_iff in Hall as [?%negb_true_iff ?]. split; [done|by eapply bool_decide_eq_true].
Qed.

Lemma normalize_raw_alphabet l :
  Forall (.∈ ALPHABET) l → normalize_raw (string_of_list_ascii l) = Some l.
Proof.
  induction 1 as [|c l Hc _ IH]; [done|]. simpl. destruct (ALPHABET_fixed c Hc) as [-> ->].
  unfold in_alphabet. rewrite bool_decide_true by done. by rewrite IH.
Qed.
Lemma normalize_raw_app l k :
  normalize_raw (string_of_list_ascii (l ++ k))
    = (a ← normalize_raw (string_of_list_ascii l); b ← normalize_raw (string_of_list_ascii k); Some (a ++ b)).
Proof.
  induction l as [|c l IH]; simpl.
  - by destruct (normalize_raw (string_of_list_ascii k)).
  - destruct (skipped_char c); [done|]. destruct (in_alphabet _); [|done]. rewrite IH.
    destruct (normalize_raw (string_of_list_ascii l)); [|done]. simpl.
    by destruct (normalize_raw (string_of_list_ascii k)).
Qed.
Lemma normalize_raw_elem s raw : normalize_raw s = Some raw → Forall (.∈ ALPHABET) raw.
Proof.
  revert raw; induction s as [|c s IH]; intros raw; simpl; [by intros [= <-]|].
  destruct (skipped_char c); [auto|]. unfold in_alphabet. case_bool_decide; [|done].
  destruct (normalize_raw s); [|done]. intros [= <-]. constructor; auto.
Qed.

(** The display form reads back as itself. *)
Lemma normalize_group raw :
  Forall (.∈ ALPHABET) raw → length raw = SHORT_ID_LEN → normalize (group raw) = Some (group raw).
Proof.
  intros Ha Hl. unfold normalize, group.
  change (take 4 raw ++ "-"%char :: take 4 (drop 4 raw))
    with (take 4 raw ++ ["-"%char] ++ take 4 (drop 4 raw)).
  rewrite !normalize_raw_app, (normalize_raw_alphabet (take 4 raw)),
    (normalize_raw_alphabet (take 4 (drop 4 raw))) by auto using Forall_take, Forall_drop.
  unfold SHORT_ID_LEN in *. clear Ha. by do 9 (destruct raw as [|? raw]; try done).
Qed.

(** Characters back to digits. *)
Definition read_char (c : Ascii.ascii) : Z := default 0 (digit_value c).
Lemma read_char_digits ds : Forall is_digit ds → read_char <$> (alphabet_char <$> ds) = ds.
Proof.
  induction 1 as [|d ds Hd _ IH]; [done|]. csimpl. rewrite IH. unfold read_char.
  by rewrite digit_value_char.
Qed.
Lemma alphabet_chars_inj ds es :
  Forall is_digit ds → Forall is_digit es → alphabet_char <$> ds = alphabet_char <$> es → ds = es.
Proof. intros Hds Hes Heq. by rewrite <-(read_char_digits ds), Heq, read_char_digits. Qed.
Lemma raw_as_digits raw :
  Forall (.∈ ALPHABET) raw → ∃ ds, raw = alphabet_char <$> ds ∧ Forall is_digit ds.
Proof.
  induction 1 as [|c raw Hc _ (ds & -> & ?)]; [by exists []|].
  apply digit_value_elem in Hc as (d & ? & ->). exists (d :: ds). by split; [|constructor].
Qed.
(** Display forms of eight digits are equal when the numbers are. *)
Lemma group_digits ds es :
  Forall is_digit ds → Forall is_digit es → length ds = 8%nat → length es = 8%nat →
  group (alphabet_char <$> ds) = group (alphabet_char <$> es) ↔ base32_value ds = base32_value es.
Proof.
  intros Hds Hes Hl Hl'. split.
  - intros Hg%group_inj; [|by rewrite length_fmap..]. f_equal. by apply alphabet_chars_inj.
  - intros Hv. f_equal. f_equal. apply base32_value_inj; [done..|congruence|done].
Qed.

(** What is typed, as digits. *)
Lemma typed_digits_raw s :
  typed_digits s = (raw ← normalize_raw s; Some (read_char <$> raw : list Z)).
Proof.
  induction s as [|c s IH]; [done|]. simpl. destruct (skipped_char c); [done|].
  unfold in_alphabet. case_bool_decide as Hc.
  - apply digit_value_elem in Hc as (d & Hd & ->). rewrite digit_value_char by done. simpl.
    rewrite IH. destruct (normalize_raw s); [|done]. csimpl. unfold read_char.
    by rewrite digit_value_char.
  - by rewrite digit_value_None.
Qed.

(** * Properties *)

Section properties.
Context `{HashesApi}.

Lemma wallet_digits pk :
  ∃ ds, raw_digits (wallet_id_hash pk) = alphabet_char <$> ds ∧ Forall is_digit ds ∧
    length ds = SHORT_ID_LEN ∧ base32_value ds = be_val (take 5 (wallet_id_hash pk)).
Proof. apply raw_digits_value. unfold wallet_id_hash. rewrite length_bytesN. lia. Qed.

(** C39. The id is the 40-bit number, written in base32: the shift-and-mask
    loop produces exactly the eight base32 digits, most significant first,
    of the first five bytes of the tagged hash, so two keys share an id
    exactly when they share those 40 bits. *)
Theorem short_wallet_id_digits pk :
  (∃ ds, Forall is_digit ds ∧ length ds = 8%nat ∧
     base32_value ds = be_val (take 5 (wallet_id_hash pk)) ∧
     short_wallet_id pk = group (alphabet_char <$> ds)) ∧
  ∀ pk', short_wallet_id pk = short_wallet_id pk' ↔
         be_val (take 5 (wallet_id_hash pk)) = be_val (take 5 (wallet_id_hash pk')).
Proof.
  unfold short_wallet_id. destruct (wallet_digits pk) as (ds & -> & Hds & Hl & Hv).
  split; [by exists ds|]. intros pk'. destruct (wallet_digits pk') as (es & -> & Hes & Hl' & <-).
  rewrite <-Hv. by apply group_digits.
Qed.

(** Reading is forgiving and exact at once: a typed text names a key
    if and only if, after dropping dashes and spaces and reading case, [I],
    [L] and [O] the Crockford way, it is eight base32 digits whose number
    is the key's 40 bits. *)
Theorem matches_iff input pk :
  matches input pk = true ↔ typed_number input = Some (be_val (take 5 (wallet_id_hash pk))).
Proof.
  unfold matches, typed_number, normalize. rewrite typed_digits_raw.
  destruct (normalize_raw input) as [raw|] eqn:En; [|done]. simpl.
  apply normalize_raw_elem in En. rewrite length_fmap.
  case_bool_decide as Hl; [|done]. simpl. rewrite bool_decide_eq_true.
  unfold short_wallet_id. destruct (wallet_digits pk) as (es & -> & Hes & Hle & <-).
  destruct (raw_as_digits raw En) as (ds & -> & Hds). rewrite length_fmap in Hl.
  rewrite read_char_digits by done. rewrite group_digits by done. split; [by intros ->|by intros [= ->]].
Qed.

(** [normalize] is a canonical form: it is idempotent, accepts every id
    the wallet displays unchanged, and gives two texts the same result
    exactly when they read as the same number. *)
Theorem normalize_canonical s t :
  (∀ d, normalize s = Some d → normalize d = Some d) ∧
  (∀ pk, normalize (short_wallet_id pk) = Some (short_wallet_id pk)) ∧
  (normalize s = normalize t ↔ typed_number s = typed_number t).
Proof.
  split_and!.
  - unfold normalize at 1. destruct (normalize_raw s) as [raw|] eqn:E; [|done]. simpl.
    case_bool_decide; [|done]. intros d [= <-]. apply normalize_group; [|done].
    by eapply normalize_raw_elem.
  - intros pk. unfold short_wallet_id. destruct (wallet_digits pk) as (ds & -> & Hds & Hl & _).
    apply normalize_group; [|by rewrite length_fmap].
    apply Forall_fmap. eapply Forall_impl; [exact Hds|]. intros d Hd. by apply alphabet_char_elem.
  - unfold normalize, typed_number. rewrite !typed_digits_raw.
    pose proof (normalize_raw_elem s) as Hs. pose proof (normalize_raw_elem t) as Ht.
    destruct (normalize_raw s) as [r1|], (normalize_raw t) as [r2|]; simpl; try done;
      try (destruct (raw_as_digits r1) as (ds & -> & Hds); [by apply Hs|]);
      try (destruct (raw_as_digits r2) as (es & -> & Hes); [by apply Ht|]);
      rewrite ?length_fmap; repeat case_bool_decide; try done.
    rewrite !read_char_digits by done. rewrite !(inj_iff Some). by apply group_digits.
Qed.
End properties.
