(* ===== verification/Identity.v ===== *)
(** The identity API client ([lc-wallet-core/src/identity.rs]): challenge,
    signature and call, one definition per method of [IdentityClient]. *)

From S2P Require Import Prelude Http Crates Key ShortId.

Record IdentityClient := { ic_base_url : string; ic_gateway_bearer : option string }.
Definition IdentityClient_new (base_url : string) (gateway_bearer : option string) : IdentityClient :=
  {| ic_base_url := trim_end_matches "/" base_url; ic_gateway_bearer := gateway_bearer |}.

(** * Replies *)

Record Discoverability := { by_contact_hash : bool; by_handle : bool }.
Record IdentityStatus := {
  ids_identity_id : option string;
  ids_email : bool;
  ids_phone : bool;
  ids_handle : option string;
  ids_short_id : option string;
  ids_discoverability : Discoverability;
}.
Record VerifyOutcome := { vo_verified : bool; vo_identity_id : option string; vo_txid : option string }.
Record ConnectHint := { ch_request_id : string; ch_link : string }.
Record PhoneQuote := {
  pq_order_id : string;
  pq_price_sats : Z;
  pq_asset_id : string;
  pq_connected : bool;
  pq_connect : option ConnectHint;
}.
Record PhoneStage := { ps_stage : string; ps_txid : option string }.
Record ContactMatch := { cm_input_index : Z; cm_identity_id : string }.
Record DiscoverOutcome := { do_matched : list ContactMatch; do_unparsed_input_indexes : list Z }.
Record Contact := { ct_identity_id : string; ct_handle : option string }.
(** [Reply] of [contacts_list]. *)
Record ContactsReply := { cr_contacts : list Contact }.

(** The decoders serde derives for them. *)
Class IdentityReplies `{!JsonApi} := {
  status_from_value :: FromValue IdentityStatus;
  verify_from_value :: FromValue VerifyOutcome;
  quote_from_value :: FromValue PhoneQuote;
  stage_from_value :: FromValue PhoneStage;
  discover_from_value :: FromValue DiscoverOutcome;
  contacts_from_value :: FromValue ContactsReply;
}.

(** The route of an action; [None] is [unreachable!]. *)
Definition action_path (action : string) : option string :=
  if bool_decide (action = "status") then Some "status"
  else if bool_decide (action = "email_start") then Some "email/start"
  else if bool_decide (action = "email_confirm") then Some "email/confirm"
  else if bool_decide (action = "phone_start") then Some "phone/start"
  else if bool_decide (action = "phone_pay") then Some "phone/pay"
  else if bool_decide (action = "phone_status") then Some "phone/status"
  else if bool_decide (action = "phone_sms") then Some "phone/sms"
  else if bool_decide (action = "phone_confirm") then Some "phone/confirm"
  else if bool_decide (action = "discoverability") then Some "discoverability"
  else if bool_decide (action = "handle") then Some "handle"
  else if bool_decide (action = "id") then Some "id"
  else if bool_decide (action = "contacts_discover") then Some "contacts/discover"
  else if bool_decide (action = "contacts_save") then Some "contacts/save"
  else if bool_decide (action = "contacts_list") then Some "contacts/list"
  else if bool_decide (action = "contact_address") then Some "contacts/address"
  else None.

(** * The methods *)

Section client.
Context `{!HashesApi, !SchnorrApi, !JsonApi, !JsonBuild, !IdentityReplies}.
Context `{!XonlyText}.
Implicit Types (c : IdentityClient) (key : WalletKey).

Abbreviation api := (client Value string).

(** [value.get(name).and_then(as_str)] *)
Definition str_member (v : Value) (name : string) : option string := e ← json_get v name; json_as_str e.

(** The error text of a refusal: the body's ["error"], when it has one. *)
Definition refusal_detail (text : string) : string :=
  default "no detail" (v ← json_from_str text; str_member v "error").
Definition bearer_headers (bearer : option string) : list (string * string) :=
  match bearer with Some b => [("Authorization", "Bearer " +:+ b)] | None => [] end.

Definition post c (path : string) (body : Value) : api Value :=
  Post (c.(ic_base_url) +:+ path) (bearer_headers c.(ic_gateway_bearer)) body (λ reply, Done
    match reply with
    | HttpOk text => ok_or (json_from_str text) "invalid JSON in reply"
    | HttpStatus code text =>
        Err ("identity API refused (" +:+ dec_string code +:+ "): " +:+ refusal_detail text)
    | HttpUnread err | HttpError err => Err err
    end).

Definition authed c key (action value : string) (body : Value) : api Value :=
  let pubkey := xonly_to_string (wk_public_key key) in
  reply ← post c "/challenge" (json_of_object {[ "public_key" := json_of_string pubkey ]});
  challenge ← local (ok_or (str_member reply "challenge") "no challenge in reply");
  let signature := wk_sign_identity key challenge action value in
  object ← local (ok_or (json_as_object body) "body must be an object");
  let object := <["public_key" := json_of_string pubkey]> object in
  let object := <["challenge" := json_of_string challenge]> object in
  let object := <["signature" := json_of_string (signature_to_string signature)]> object in
  path ← local (ok_or (action_path action) "unknown action");
  post c ("/" +:+ path) (json_of_object object).

(** [Ok(serde_json::from_value(value)?)] *)
Definition decoded {A} `{!FromValue A} (v : Value) : api A := local (ok_or (from_value v) "unexpected reply").
(** [value.get(name).and_then(as_str).ok_or_else(..)] *)
Definition member (v : Value) (name error : string) : api string := local (ok_or (str_member v name) error).
(** [json!({ .. })] with string members. *)
Definition str_object (members : list (string * string)) : Value :=
  json_of_object (list_to_map ((λ '(k, v), (k, json_of_string v)) <$> members)).
(** [format!("{bool}")] *)
Definition bool_text (b : bool) : string := if b then "true" else "false".

Definition status c key : api IdentityStatus := authed c key "status" "" (json_of_object ∅) ≫= decoded.
Definition email_start c key (email : string) : api unit :=
  _ ← authed c key "email_start" email (str_object [("email", email)]); mret ().
Definition email_confirm c key (email code : string) : api VerifyOutcome :=
  authed c key "email_confirm" email (str_object [("email", email); ("code", code)]) ≫= decoded.
Definition phone_start c key (phone : string) : api PhoneQuote :=
  authed c key "phone_start" phone (str_object [("phone", phone)]) ≫= decoded.
Definition phone_pay c key (order_id : string) : api unit :=
  _ ← authed c key "phone_pay" order_id (str_object [("order_id", order_id)]); mret ().
Definition phone_status c key (order_id : string) : api PhoneStage :=
  authed c key "phone_status" order_id (str_object [("order_id", order_id)]) ≫= decoded.
Definition phone_sms c key (order_id : string) : api unit :=
  _ ← authed c key "phone_sms" order_id (str_object [("order_id", order_id)]); mret ().
Definition phone_confirm c key (order_id code : string) : api VerifyOutcome :=
  authed c key "phone_confirm" order_id (str_object [("order_id", order_id); ("code", code)]) ≫= decoded.
Definition set_discoverability c key (contact_hash handle : bool) : api unit :=
  let value := bool_text contact_hash +:+ ":" +:+ bool_text handle in
  _ ← authed c key "discoverability" value
        (json_of_object (<["by_contact_hash" := json_of_bool contact_hash]> {[ "by_handle" := json_of_bool handle ]}));
  mret ().
Definition claim_handle c key (handle : string) : api string :=
  value ← authed c key "handle" handle (str_object [("handle", handle)]);
  member value "handle" "no handle in reply".
Definition claim_short_id c key : api string :=
  let id := wk_short_id key in
  value ← authed c key "id" id (str_object [("id", id)]);
  member value "id" "no id in reply".
Definition contacts_discover c key (contacts : list (string * string)) : api DiscoverOutcome :=
  let entries := (λ '(channel, value), str_object [("channel", channel); ("value", value)]) <$> contacts in
  authed c key "contacts_discover" "" (json_of_object {[ "contacts" := json_of_array entries ]}) ≫= decoded.
Definition contacts_save c key (channel value : string) : api unit :=
  _ ← authed c key "contacts_save" value (str_object [("channel", channel); ("value", value)]); mret ().
Definition contacts_list c key : api (list Contact) :=
  value ← authed c key "contacts_list" "" (json_of_object ∅);
  reply ← decoded value;
  mret reply.(cr_contacts).
Definition contact_address c key (identity_id : string) : api string :=
  value ← authed c key "contact_address" identity_id (str_object [("identity_id", identity_id)]);
  member value "address" "no address in reply".
End client.
