(* ===== verification/IdentityCodec.v ===== *)
(** The decoders serde derives for the replies of the identity API
    ([lc-wallet-core/src/identity.rs]), an instance of [IdentityReplies] over
    what a [serde_json::Value] holds; and their tolerance: what an older
    service leaves out reads as its default, what a newer one adds is not
    looked at. The encoding halves write what the decoders read. *)

From S2P Require Import Prelude Json Crates Http Key ShortId Identity.

Definition opt_string_c : codec (option string) := option_c string_c.
Definition discoverability_c : codec Discoverability :=
  struct (default_field "by_contact_hash" bool_c false ⊗ default_field "by_handle" bool_c false)
    (λ d, (by_contact_hash d, by_handle d)) (λ '(c, h), Build_Discoverability c h).
Definition identity_status_c : codec IdentityStatus :=
  struct (opt_field "identity_id" string_c ⊗ default_field "email" bool_c false ⊗ default_field "phone" bool_c false
          ⊗ default_field "handle" opt_string_c None ⊗ default_field "short_id" opt_string_c None
          ⊗ default_field "discoverability" discoverability_c (Build_Discoverability false false))
    (λ s, (ids_identity_id s, ids_email s, ids_phone s, ids_handle s, ids_short_id s, ids_discoverability s))
    (λ '(i, e, p, h, s, d), Build_IdentityStatus i e p h s d).
Definition verify_outcome_c : codec VerifyOutcome :=
  struct (field "verified" bool_c ⊗ default_field "identity_id" opt_string_c None
          ⊗ default_field "txid" opt_string_c None)
    (λ o, (vo_verified o, vo_identity_id o, vo_txid o)) (λ '(v, i, t), Build_VerifyOutcome v i t).
Definition connect_hint_c : codec ConnectHint :=
  struct (field "request_id" string_c ⊗ field "link" string_c)
    (λ h, (ch_request_id h, ch_link h)) (λ '(i, l), Build_ConnectHint i l).
Definition phone_quote_c : codec PhoneQuote :=
  struct (field "order_id" string_c ⊗ field "price_sats" u64_c ⊗ field "asset_id" string_c
          ⊗ field "connected" bool_c ⊗ opt_field "connect" connect_hint_c)
    (λ q, (pq_order_id q, pq_price_sats q, pq_asset_id q, pq_connected q, pq_connect q))
    (λ '(o, p, a, c, h), Build_PhoneQuote o p a c h).
Definition phone_stage_c : codec PhoneStage :=
  struct (field "stage" string_c ⊗ default_field "txid" opt_string_c None)
    (λ s, (ps_stage s, ps_txid s)) (λ '(s, t), Build_PhoneStage s t).
(** [usize] on a 64-bit target *)
Abbreviation usize_c := u64_c.
Definition contact_match_c : codec ContactMatch :=
  struct (field "input_index" usize_c ⊗ field "identity_id" string_c)
    (λ m, (cm_input_index m, cm_identity_id m)) (λ '(n, i), Build_ContactMatch n i).
Definition discover_outcome_c : codec DiscoverOutcome :=
  struct (field "matched" (list_c contact_match_c) ⊗ default_field "unparsed_input_indexes" (list_c usize_c) [])
    (λ o, (do_matched o, do_unparsed_input_indexes o)) (λ '(m, u), Build_DiscoverOutcome m u).
Definition contact_c : codec Contact :=
  struct (field "identity_id" string_c ⊗ default_field "handle" opt_string_c None)
    (λ c, (ct_identity_id c, ct_handle c)) (λ '(i, h), Build_Contact i h).
Definition contacts_reply_c : codec ContactsReply :=
  struct (field "contacts" (list_c contact_c)) cr_contacts Build_ContactsReply.

(** What a [serde_json::Value] is: a document without duplicate members. *)
Class ValueView `{!JsonApi} := { value_json : Value → json }.

#[export] Instance identity_codecs `{!JsonApi, !ValueView} : IdentityReplies :=
  {| status_from_value := λ v, dec identity_status_c (value_json v);
     verify_from_value := λ v, dec verify_outcome_c (value_json v);
     quote_from_value := λ v, dec phone_quote_c (value_json v);
     stage_from_value := λ v, dec phone_stage_c (value_json v);
     discover_from_value := λ v, dec discover_outcome_c (value_json v);
     contacts_from_value := λ v, dec contacts_reply_c (value_json v) |}.

Section replies.
Context `{!JsonApi, !ValueView}.

Lemma opt_string_ok : codec_ok opt_string_c (λ _, True).
Proof. eapply codec_ok_impl; [by apply option_ok; [apply string_ok|]|done]. Qed.
#[local] Hint Resolve opt_string_ok : codecs.
Lemma opt_keeps {A} keep name (c : codec A) fits :
  codec_ok c fits → not_null c →
  keeps_ok keep (opt_field name c) (λ o, (keep name = false → o = None) ∧ option_fits fits o).
Proof.
  intros Hc Hn o [Hk Ho]. simpl. destruct (keep name); [by apply (option_ok (real := no_real) c fits)|by rewrite Hk].
Qed.

Ltac reply_tac :=
  repeat first
    [ apply both_ok
    | eapply opt_field_ok; [eauto with codecs nocore|done]
    | eapply default_field_ok; eauto with codecs nocore
    | eapply field_ok; eauto with codecs nocore ].
Ltac keeps_tac :=
  repeat first
    [ eapply both_keeps; [solve [reply_tac]|solve [reply_tac]| |]
    | eapply opt_keeps; [eauto with codecs nocore|done]
    | eapply default_keeps; eauto with codecs nocore
    | eapply field_keeps; eauto with codecs nocore ].
Ltac names_tac := apply (bool_decide_unpack _); vm_compute; exact I.

Lemma discoverability_ok : codec_ok discoverability_c (λ _, True).
Proof. eapply codec_ok_impl; [eapply struct_ok; [names_tac|reply_tac|by intros []]|done]. Qed.
Lemma connect_hint_ok : codec_ok connect_hint_c (λ _, True).
Proof. eapply codec_ok_impl; [eapply struct_ok; [names_tac|reply_tac|by intros []]|done]. Qed.
#[local] Hint Resolve discoverability_ok connect_hint_ok : codecs.

(** A reply of a service of another version: some members left out, others
    added. *)
Definition other_reply (keep : string → bool) (extra : list (string * json)) (j : json) : json :=
  match j with JObj members => JObj (keep_members keep members ++ extra) | j => j end.
Definition status_names : list string := ["identity_id"; "email"; "phone"; "handle"; "short_id"; "discoverability"].

(** Identity services of other versions: a status reply reads as the
    status it is about when members whose value is the default are left out
    and members the wallet does not know are added; the same holds of a
    quote without a connect hint; and a quote without its price is refused,
    never read as free. *)
Theorem identity_replies_read v keep extra :
  (∀ s, (keep "identity_id" = false → ids_identity_id s = None) → (keep "email" = false → ids_email s = false) →
     (keep "phone" = false → ids_phone s = false) → (keep "handle" = false → ids_handle s = None) →
     (keep "short_id" = false → ids_short_id s = None) →
     (keep "discoverability" = false → ids_discoverability s = Build_Discoverability false false) →
     (∀ name, name ∈ status_names → name ∉ extra.*1) →
     value_json v = other_reply keep extra (enc identity_status_c s) → from_value v = Some s) ∧
  (∀ q, 0 ≤ pq_price_sats q ≤ 2 ^ 64 - 1 →
     keep "order_id" && keep "price_sats" && keep "asset_id" && keep "connected" = true →
     (keep "connect" = false → pq_connect q = None) →
     (∀ name, name ∈ ["order_id"; "price_sats"; "asset_id"; "connected"; "connect"] → name ∉ extra.*1) →
     value_json v = other_reply keep extra (enc phone_quote_c q) → from_value v = Some q) ∧
  (∀ members, value_json v = JObj members → "price_sats" ∉ members.*1 → from_value (A:=PhoneQuote) v = None).
Proof.
  split_and!.
  - intros s ?????? Hx Hv. unfold from_value. simpl status_from_value. rewrite Hv.
    change (dec identity_status_c (other_reply keep extra (enc identity_status_c s)) = Some s).
    unfold other_reply, identity_status_c. eapply struct_keeps; [names_tac|reply_tac|keeps_tac|by destruct s| |exact Hx].
    simpl. by split_and!.
  - intros q Hp Hk ? Hx Hv. unfold from_value. simpl quote_from_value. rewrite Hv.
    rewrite !andb_true_iff in Hk. destruct Hk as [[[? ?] ?] ?].
    change (dec phone_quote_c (other_reply keep extra (enc phone_quote_c q)) = Some q).
    unfold other_reply, phone_quote_c. eapply struct_keeps; [names_tac|reply_tac|keeps_tac|by destruct q| |exact Hx].
    simpl. split_and!; done || lia.
  - intros members Hv Hn. unfold from_value. simpl quote_from_value. rewrite Hv. simpl.
    assert (slot_at members "price_sats" = Some None) as -> by by (unfold slot_at; rewrite members_at_notin).
    destruct (slot_at members "order_id") as [[]|], (slot_at members "asset_id"), (slot_at members "connected"),
      (slot_at members "connect"); try done. simpl. by destruct j.
Qed.
End replies.
