(* ===== verification/IdentitySpec.v ===== *)
(** What the identity client asks, signs and answers: one table of the calls,
    and the theorems that every method implements its row. *)

From S2P Require Import Prelude Http Crates Key ShortId Identity.

(** The laws of [Value::as_object_mut]. *)
Class JsonBuildLaws `{JsonBuild} := as_object_of : ∀ m, json_as_object (json_of_object m) = Some m.

(** * The calls of the API *)

Inductive api_call :=
| CStatus
| CEmailStart (email : string)
| CEmailConfirm (email code : string)
| CPhoneStart (phone : string)
| CPhonePay (order_id : string)
| CPhoneStatus (order_id : string)
| CPhoneSms (order_id : string)
| CPhoneConfirm (order_id code : string)
| CDiscoverability (contact_hash handle : bool)
| CHandle (handle : string)
| CShortId
| CDiscover (contacts : list (string * string))
| CSave (channel value : string)
| CList
| CAddress (identity_id : string).

(** The action a signature names, and the route the call goes to. *)
Definition call_action (call : api_call) : string :=
  match call with
  | CStatus => "status" | CEmailStart _ => "email_start" | CEmailConfirm _ _ => "email_confirm"
  | CPhoneStart _ => "phone_start" | CPhonePay _ => "phone_pay" | CPhoneStatus _ => "phone_status"
  | CPhoneSms _ => "phone_sms" | CPhoneConfirm _ _ => "phone_confirm"
  | CDiscoverability _ _ => "discoverability" | CHandle _ => "handle" | CShortId => "id"
  | CDiscover _ => "contacts_discover" | CSave _ _ => "contacts_save" | CList => "contacts_list"
  | CAddress _ => "contact_address"
  end.
Definition call_route (call : api_call) : string :=
  match call with
  | CStatus => "/status" | CEmailStart _ => "/email/start" | CEmailConfirm _ _ => "/email/confirm"
  | CPhoneStart _ => "/phone/start" | CPhonePay _ => "/phone/pay" | CPhoneStatus _ => "/phone/status"
  | CPhoneSms _ => "/phone/sms" | CPhoneConfirm _ _ => "/phone/confirm"
  | CDiscoverability _ _ => "/discoverability" | CHandle _ => "/handle" | CShortId => "/id"
  | CDiscover _ => "/contacts/discover" | CSave _ _ => "/contacts/save" | CList => "/contacts/list"
  | CAddress _ => "/contacts/address"
  end.

Lemma call_action_no_comma call : string_contains "," (call_action call) = false.
Proof. by destruct call. Qed.
Lemma action_path_call call : (String "/" <$> action_path (call_action call)) = Some (call_route call).
Proof. by destruct call. Qed.
Lemma call_action_route call call' : call_action call = call_action call' → call_route call = call_route call'.
Proof.
  intros E. pose proof (action_path_call call) as H1. pose proof (action_path_call call') as H2.
  rewrite E in H1. congruence.
Qed.

Section spec.
Context `{!HashesApi, !SchnorrApi, !JsonApi, !JsonBuild, !IdentityReplies}.
Context `{!XonlyText}.
Implicit Types (c : IdentityClient) (key : WalletKey) (call : api_call).

(** The primary value a signature covers, and the members of the body. *)
Definition call_value key call : string :=
  match call with
  | CStatus | CDiscover _ | CList => ""
  | CEmailStart v | CEmailConfirm v _ | CPhoneStart v | CPhonePay v | CPhoneStatus v | CPhoneSms v
  | CPhoneConfirm v _ | CHandle v | CSave _ v | CAddress v => v
  | CDiscoverability a b => bool_text a +:+ ":" +:+ bool_text b
  | CShortId => wk_short_id key
  end.
Definition call_members key call : gmap string Value :=
  match call with
  | CStatus | CList => ∅
  | CEmailStart email => {[ "email" := json_of_string email ]}
  | CEmailConfirm email code => {[ "email" := json_of_string email; "code" := json_of_string code ]}
  | CPhoneStart phone => {[ "phone" := json_of_string phone ]}
  | CPhonePay id | CPhoneStatus id | CPhoneSms id => {[ "order_id" := json_of_string id ]}
  | CPhoneConfirm id code => {[ "order_id" := json_of_string id; "code" := json_of_string code ]}
  | CDiscoverability a b => {[ "by_contact_hash" := json_of_bool a; "by_handle" := json_of_bool b ]}
  | CHandle handle => {[ "handle" := json_of_string handle ]}
  | CShortId => {[ "id" := json_of_string (wk_short_id key) ]}
  | CDiscover contacts =>
      {[ "contacts" := json_of_array ((λ '(channel, value),
           json_of_object {[ "channel" := json_of_string channel; "value" := json_of_string value ]}) <$> contacts) ]}
  | CSave channel value => {[ "channel" := json_of_string channel; "value" := json_of_string value ]}
  | CAddress id => {[ "identity_id" := json_of_string id ]}
  end.

(** What a call returns, how it is read from the answer, and the method. *)
Definition call_result call : Type :=
  match call with
  | CStatus => IdentityStatus
  | CEmailConfirm _ _ | CPhoneConfirm _ _ => VerifyOutcome
  | CPhoneStart _ => PhoneQuote
  | CPhoneStatus _ => PhoneStage
  | CHandle _ | CShortId | CAddress _ => string
  | CDiscover _ => DiscoverOutcome
  | CList => list Contact
  | CEmailStart _ | CPhonePay _ | CPhoneSms _ | CDiscoverability _ _ | CSave _ _ => unit
  end.
Definition decode {A} `{!FromValue A} (v : Value) : result string A := ok_or (from_value v) "unexpected reply".
Definition call_decode call : Value → result string (call_result call) :=
  match call with
  | CStatus | CEmailConfirm _ _ | CPhoneConfirm _ _ | CPhoneStart _ | CPhoneStatus _ | CDiscover _ => decode
  | CHandle _ => λ v, ok_or (str_member v "handle") "no handle in reply"
  | CShortId => λ v, ok_or (str_member v "id") "no id in reply"
  | CAddress _ => λ v, ok_or (str_member v "address") "no address in reply"
  | CList => λ v, cr_contacts <$> decode v
  | CEmailStart _ | CPhonePay _ | CPhoneSms _ | CDiscoverability _ _ | CSave _ _ => λ _, Ok ()
  end.
Definition invoke c key call : client Value string (call_result call) :=
  match call with
  | CStatus => status c key
  | CEmailStart email => email_start c key email
  | CEmailConfirm email code => email_confirm c key email code
  | CPhoneStart phone => phone_start c key phone
  | CPhonePay id => phone_pay c key id
  | CPhoneStatus id => phone_status c key id
  | CPhoneSms id => phone_sms c key id
  | CPhoneConfirm id code => phone_confirm c key id code
  | CDiscoverability a b => set_discoverability c key a b
  | CHandle handle => claim_handle c key handle
  | CShortId => claim_short_id c key
  | CDiscover contacts => contacts_discover c key contacts
  | CSave channel value => contacts_save c key channel value
  | CList => contacts_list c key
  | CAddress id => contact_address c key id
  end.

(** * The two requests of a call *)

Definition challenge_request c key : request Value :=
  {| rq_url := c.(ic_base_url) +:+ "/challenge";
     rq_headers := bearer_headers c.(ic_gateway_bearer);
     rq_body := json_of_object {[ "public_key" := json_of_string (xonly_to_string (wk_public_key key)) ]} |}.
Definition signed_request c key call (challenge : string) : request Value :=
  let message := identity_auth_message challenge (call_action call) (call_value key call) in
  {| rq_url := c.(ic_base_url) +:+ call_route call;
     rq_headers := bearer_headers c.(ic_gateway_bearer);
     rq_body := json_of_object
       (<["signature" := json_of_string (signature_to_string (sign_schnorr message key.(wk_keypair)))]>
        (<["challenge" := json_of_string challenge]>
        (<["public_key" := json_of_string (xonly_to_string (wk_public_key key))]>
        (call_members key call)))) |}.
(** What a reply is worth. *)
Definition reply_value (reply : http_reply string) : result string Value :=
  match reply with
  | HttpOk text => ok_or (json_from_str text) "invalid JSON in reply"
  | HttpStatus code text =>
      Err ("identity API refused (" +:+ dec_string code +:+ "): " +:+ refusal_detail text)
  | HttpUnread err | HttpError err => Err err
  end.
Definition challenge_of (reply : http_reply string) : result string string :=
  v ← reply_value reply; ok_or (str_member v "challenge") "no challenge in reply".

(** Every method is its row of the table: it runs as one authenticated call
    with the row's action, value and members, then the reading of the answer. *)
Lemma invoke_authed c key call replies :
  run_http (invoke c key call) replies
  = run_http (authed c key (call_action call) (call_value key call)
                (json_of_object (call_members key call)) ≫= λ v, local (call_decode call v)) replies.
Proof.
  destruct call; try reflexivity. apply run_ext. intros v ?. simpl. unfold decoded, decode.
  by destruct (from_value v).
Qed.

Lemma authed_ends c key action value body : ends (authed c key action value body) 2.
Proof.
  apply (ends_then _ _ 1 1); [done|]. intros reply.
  apply (ends_then _ _ 0 1); [done|]. intros challenge.
  apply (ends_then _ _ 0 1); [done|]. intros object.
  by apply (ends_then _ _ 0 1).
Qed.
Lemma identity_call_ends c key call : ends (invoke c key call) 2.
Proof.
  destruct call; (apply (ends_then _ _ 2 0); [apply authed_ends|]); intros v; try done.
  by apply (ends_then _ _ 0 0).
Qed.

(** * What a signature binds *)

Lemma identity_auth_text_inj ch action value ch' action' value' :
  string_contains "," ch = false → string_contains "," ch' = false →
  string_contains "," action = false → string_contains "," action' = false →
  identity_auth_text ch action value = identity_auth_text ch' action' value' →
  ch = ch' ∧ action = action' ∧ value = value'.
Proof.
  intros Hch Hch' Ha Ha' E%string_app_inj_l.
  apply split_app_inj in E as [-> E]; [|done..]. apply (string_app_inj_l " action: ") in E.
  apply split_app_inj in E as [-> E]; [|done..]. by apply (string_app_inj_l " value: ") in E as ->.
Qed.

(** C15. The signature of an identity call belongs to that call: for
    challenges without a comma, two calls sign the same message only for the
    same challenge, the same action - hence the same route - and the same
    primary value, or their texts are a collision of the identity hash. *)
Theorem identity_signature_binds key ch ch' call call' :
  string_contains "," ch = false → string_contains "," ch' = false →
  identity_auth_message ch (call_action call) (call_value key call)
    = identity_auth_message ch' (call_action call') (call_value key call') →
  (ch = ch' ∧ call_action call = call_action call' ∧ call_route call = call_route call' ∧
   call_value key call = call_value key call') ∨
  tagged_collision "liquidconnect/identity"
    (as_bytes (identity_auth_text ch (call_action call) (call_value key call)))
    (as_bytes (identity_auth_text ch' (call_action call') (call_value key call'))).
Proof.
  intros Hch Hch' [E%as_bytes_inj|?]%tagged_collision_or; [left|by right].
  apply identity_auth_text_inj in E as (? & Ha & ?); auto using call_action_no_comma.
  split_and!; [done..| |done]. by apply call_action_route.
Qed.
(** The condition on the challenge is needed: a challenge with a comma can
    stand for a challenge, an action and the start of a value. *)
Example identity_text_ambiguous :
  identity_auth_text "n1" "handle" "x, action: status, value: "
  = identity_auth_text "n1, action: handle, value: x" "status" "".
Proof. reflexivity. Qed.

Context `{!JsonBuildLaws}.

(** What a call does, as a function of the replies. *)
Lemma run_identity_call c key call replies :
  run_http (invoke c key call) replies
  = match replies with
    | [] => ([challenge_request c key], None)
    | first :: replies =>
        match challenge_of first with
        | Err e => ([challenge_request c key], Some (Err e))
        | Ok challenge =>
            ([challenge_request c key; signed_request c key call challenge],
             match replies with
             | [] => None
             | second :: _ => Some (reply_value second ≫= call_decode call)
             end)
        end
    end.
Proof.
  rewrite invoke_authed.
  pose proof (action_path_call call) as Hp. unfold authed. rewrite as_object_of.
  destruct (action_path (call_action call)) as [path|]; [|done]. injection Hp as Hp.
  destruct replies as [|first replies]; [done|].
  destruct first as [text|err|code text|err]; [|done..]. unfold challenge_of. simpl.
  destruct (json_from_str text) as [v|]; [|done]. simpl.
  destruct (str_member v "challenge") as [ch|]; [|done]. simpl.
  unfold signed_request. rewrite <-Hp. destruct replies as [|second replies]; [done|]. simpl.
  by destruct second as [text'| | |]; simpl; [destruct (json_from_str text')|..].
Qed.

(** C14. An identity call asks its service for a challenge and then makes the
    one request it signed, nothing else: whatever comes back, the requests
    are the challenge request alone or followed by the call's own route with
    the call's own members, the wallet's public key, the challenge received
    and the identity key's signature over that challenge, the call's action
    and its primary value, both under the base URL and with the gateway's
    bearer if there is one (a request is one call of [ureq]; redirects it
    follows inside are not modelled). Nothing is signed without a challenge; the error
    of the last answer is the outcome; a success is the second answer, read
    as the call's result. *)
Theorem identity_requests c key call replies :
  let '(requests, outcome) := run_http (invoke c key call) replies in
  (requests = [challenge_request c key] ∨
   ∃ first challenge, head replies = Some first ∧ challenge_of first = Ok challenge ∧
     requests = [challenge_request c key; signed_request c key call challenge]) ∧
  (∀ reply e, replies !! pred (length requests) = Some reply → reply_value reply = Err e →
     outcome = Some (Err e)) ∧
  (∀ first e, head replies = Some first → challenge_of first = Err e →
     requests = [challenge_request c key] ∧ outcome = Some (Err e)) ∧
  (∀ r, outcome = Some (Ok r) →
     ∃ second v, replies !! 1%nat = Some second ∧ reply_value second = Ok v ∧ call_decode call v = Ok r).
Proof.
  rewrite run_identity_call.
  destruct replies as [|first replies]; [split_and!; [by left|done..]|].
  destruct (challenge_of first) as [challenge|e0] eqn:Hc.
  - split_and!; [right; eauto| | |].
    + intros reply e Hr He. destruct replies as [|second replies]; [done|].
      injection Hr as <-. simpl. by rewrite He.
    + intros ? e [= <-]. congruence.
    + destruct replies as [|second replies]; [done|]. simpl.
      destruct (reply_value second) as [v|] eqn:Hv; [|done]. intros r [= Hr]. by exists second, v.
  - split_and!; [by left| |by intros ? e [= <-]; rewrite Hc; intros [= <-]|done].
    intros reply e [= <-] He. unfold challenge_of in Hc. rewrite He in Hc. by injection Hc as <-.
Qed.
End spec.
