(* ===== verification/Pset.v ===== *)
(** Partially signed Elements transactions, as the third-party [elements]
    crate presents them: records of the fields the sources read, and the
    crate's operations on them as parameters. *)

From S2P Require Import Prelude Crates Key.

(** Commitments, blind proofs and transaction ids are opaque. *)
Class PsetTypes := {
  AssetComm : Type;
  ValueComm : Type;
  AssetProof : Type;
  ValueProof : Type;
  Txid : Type;
}.

Section pset.
Context `{PsetTypes}.

(** [confidential::Asset] and [confidential::Value]. *)
Inductive ConfAsset := AssetNull | AssetExplicit (a : AssetId) | AssetConfidential (g : AssetComm).
Inductive ConfValue := ValueNull | ValueExplicit (v : Z) | ValueConfidential (c : ValueComm).

Record TxOut := {
  txo_asset : ConfAsset;
  txo_value : ConfValue;
  txo_script_pubkey : Script;
}.

(** [pset::Input] *)
Record PsetInput := {
  in_previous_txid : Txid;
  in_previous_output_index : Z;
  in_witness_utxo : option TxOut;
  in_asset : option AssetId;
  in_amount : option Z;
  in_blind_asset_proof : option AssetProof;
  in_blind_value_proof : option ValueProof;
  in_issuance_value_amount : option Z;
  in_blinded_issuance : option Z;
  in_issuance_inflation_keys : option Z;
  in_issuance_blinding_nonce : option bytes32;
  in_issuance_asset_entropy : option bytes32;
  in_final_script_witness : option (list (list byte));
}.

(** [pset::Output] *)
Record PsetOutput := {
  out_script_pubkey : Script;
  out_asset : option AssetId;
  out_amount : option Z;
  out_asset_comm : option AssetComm;
  out_amount_comm : option ValueComm;
  out_blind_asset_proof : option AssetProof;
  out_blind_value_proof : option ValueProof;
}.

Record Pset := { pset_inputs : list PsetInput; pset_outputs : list PsetOutput }.

(** The crate's operations: [base64] and [encode::deserialize], the blind
    proofs' verification, the asset id of a new issuance
    ([generate_asset_entropy] then [from_entropy]), [ZERO_TWEAK], and
    [Address::from_script] on a network's parameters. *)
Class PsetApi := {
  base64_decode : string → option (list byte);
  pset_deserialize : list byte → option Pset;
  blind_asset_proof_verify : AssetProof → AssetId → AssetComm → bool;
  blind_value_proof_verify : ValueProof → Z → AssetComm → ValueComm → bool;
  issued_asset_id : Txid → Z → bytes32 → AssetId;
  zero_tweak : bytes32;
  address_from_script : Network → Script → option string;
}.
End pset.
#[export] Instance asset_id_eq_dec : EqDecision AssetId.
Proof. apply _. Defined.
#[export] Instance asset_id_countable : Countable AssetId.
Proof. apply _. Defined.
