(* ===== verification/Approval.v ===== *)
(** What a sign request asks for and the arithmetic of fund templates
    ([lc-wallet-core/src/approval.rs]). *)

From S2P Require Import Prelude Crates Key Pset.

Record OutputSummary := {
  os_address : option string;
  os_script_hex : string;
  os_asset : option string;
  os_amount : option Z;
  os_is_fee : bool;
  os_is_payjoin_service_fee : bool;
  os_confidential : bool;
}.

Record TransactionSummary := {
  ts_input_count : nat;
  ts_outputs : list OutputSummary;
  ts_fee : option Z;
  ts_fully_explicit : bool;
}.

Record PayjoinContext := { fee_address : string }.

Record FundTemplateSummary := {
  fts_input_count : nat;
  fts_output_count : nat;
  fts_fee : Z;
  fts_deficit : Z;
  fts_proven_rows : nat;
  fts_owned_inputs : nat;
}.

Record OwnedInput := { oi_index : nat; oi_asset : AssetId; oi_amount : Z }.

Definition mark_payjoin (o : OutputSummary) : OutputSummary :=
  {| os_address := o.(os_address); os_script_hex := o.(os_script_hex); os_asset := o.(os_asset);
     os_amount := o.(os_amount); os_is_fee := o.(os_is_fee); os_is_payjoin_service_fee := true;
     os_confidential := o.(os_confidential) |}.

(** [iter().enumerate()] *)
Definition enumerate {A} (l : list A) : list (nat * A) := imap pair l.

(** Whether the positions of [owned] are pairwise different: the second
    [ensure] of the first loop of [verify_fund_template_owned]. *)
Fixpoint check_owned (inputs : nat) (seen : list nat) (owned : list OwnedInput) : result string unit :=
  match owned with
  | [] => Ok tt
  | o :: owned =>
      _ ← ensure (o.(oi_index) <? inputs)%nat "owned input is outside the template";
      _ ← ensure (negb (existsb (λ p, (p =? o.(oi_index))%nat) seen)) "owned input declared twice";
      check_owned inputs (o.(oi_index) :: seen) owned
  end.

Section approval.
Context `{!ElementsApi, !PsetTypes, !PsetApi}.

Definition decode_pset (pset_b64 : string) : result string Pset :=
  bytes ← ok_or (base64_decode pset_b64) "invalid base64";
  ok_or (pset_deserialize bytes) "invalid pset".

(** One turn of the loop of [summarize_pset]. *)
Definition summarize_output (network : Network) (o : PsetOutput) : OutputSummary :=
  let is_fee := bool_decide (o.(out_script_pubkey) = []) in
  {| os_address := if is_fee then None else address_from_script network o.(out_script_pubkey);
     os_script_hex := script_to_hex o.(out_script_pubkey);
     os_asset := asset_to_string <$> o.(out_asset);
     os_amount := o.(out_amount);
     os_is_fee := is_fee;
     os_is_payjoin_service_fee := false;
     os_confidential := bool_decide (o.(out_amount) = None) || bool_decide (o.(out_asset) = None) |}.

(** The loop's variables: outputs, fee, fee_outputs, fully_explicit. *)
Definition summarize_step (network : Network)
    (st : list OutputSummary * option Z * nat * bool) (o : PsetOutput) :=
  let '(outputs, fee, fee_outputs, fully_explicit) := st in
  let s := summarize_output network o in
  (outputs ++ [s],
   if s.(os_is_fee) then o.(out_amount) else fee,
   if s.(os_is_fee) then S fee_outputs else fee_outputs,
   if s.(os_confidential) then false else fully_explicit).

Definition summarize_pset (pset_b64 : string) (network : Network) : result string TransactionSummary :=
  pset ← decode_pset pset_b64;
  let '(outputs, fee, fee_outputs, fully_explicit) :=
    foldl (summarize_step network) ([], None, O, true) (pset_outputs pset) in
  Ok {| ts_input_count := length (pset_inputs pset);
        ts_outputs := outputs;
        ts_fee := if (fee_outputs =? 1)%nat then fee else None;
        ts_fully_explicit := fully_explicit |}.

(** [annotate_payjoin]: the summary marked, and how many outputs were. *)
Definition annotate_payjoin (t : TransactionSummary) (ctx : PayjoinContext)
    : result string (TransactionSummary * nat) :=
  fee_script ← ok_or (address_script_pubkey ctx.(fee_address)) "invalid address";
  let fee_script := script_to_hex fee_script in
  let hit o := bool_decide (o.(os_script_hex) = fee_script) in
  Ok ({| ts_input_count := t.(ts_input_count);
         ts_outputs := (λ o, if hit o then mark_payjoin o else o) <$> t.(ts_outputs);
         ts_fee := t.(ts_fee); ts_fully_explicit := t.(ts_fully_explicit) |},
      length (filter (λ o, os_script_hex o = fee_script) t.(ts_outputs))).

(** ** [verify_fund_template_owned] *)

(** The asset and value a template input enters the sums with, and whether
    a proof vouched for them. *)
Definition input_row (owned : list OwnedInput) (i : nat) (input : PsetInput)
    : result string (AssetId * Z * bool) :=
  utxo ← ok_or input.(in_witness_utxo) "template input has no witness_utxo";
  let declared := List.find (λ o, (o.(oi_index) =? i)%nat) owned in
  match utxo.(txo_asset), utxo.(txo_value), declared with
  | AssetExplicit asset, ValueExplicit value, Some o =>
      _ ← ensure (bool_decide (asset = o.(oi_asset)) && (value =? o.(oi_amount)))
            "owned input: declaration disagrees with the explicit row";
      Ok (asset, value, false)
  | AssetConfidential _, ValueConfidential _, Some o => Ok (o.(oi_asset), o.(oi_amount), false)
  | _, _, Some _ => Err "owned input: half-blinded row"
  | AssetExplicit asset, ValueExplicit value, None => Ok (asset, value, false)
  | AssetConfidential asset_gen, ValueConfidential value_commit, None =>
      match input.(in_asset), input.(in_amount),
            input.(in_blind_asset_proof), input.(in_blind_value_proof) with
      | Some asset, Some value, Some asset_proof, Some value_proof =>
          _ ← ensure (blind_asset_proof_verify asset_proof asset asset_gen)
                "template input: asset proof does not verify against the commitment";
          _ ← ensure (blind_value_proof_verify value_proof value asset_gen value_commit)
                "template input: value proof does not verify against the commitment";
          Ok (asset, value, true)
      | _, _, _, _ => Err "template input is confidential — unverifiable, refused"
      end
  | _, _, _ => Err "template input is confidential — unverifiable, refused"
  end.

(** The new asset an input issues, and how much of it. *)
Definition input_issuance (input : PsetInput) : result string (option (AssetId * Z)) :=
  match input.(in_issuance_value_amount) with
  | None => Ok None
  | Some issued =>
      _ ← ensure (default 0 input.(in_blinded_issuance) =? 0)
            "template input: blinded issuance — unverifiable, refused";
      _ ← ensure (default 0 input.(in_issuance_inflation_keys) =? 0)
            "template input: issuance with reissuance tokens — refused";
      let is_new_issuance :=
        match input.(in_issuance_blinding_nonce) with
        | Some n => bool_decide (n = zero_tweak)
        | None => true
        end in
      _ ← ensure is_new_issuance "template input: reissuance — refused";
      contract_hash ← ok_or input.(in_issuance_asset_entropy) "template input: issuance without entropy";
      Ok (Some (issued_asset_id input.(in_previous_txid) input.(in_previous_output_index) contract_hash,
                issued))
  end.

Definition output_row (output : PsetOutput) : result string (AssetId * Z * bool) :=
  match output.(out_asset_comm), output.(out_amount_comm) with
  | None, None =>
      match output.(out_asset), output.(out_amount) with
      | Some asset, Some value => Ok (asset, value, false)
      | _, _ => Err "template output is confidential — unverifiable, refused"
      end
  | Some asset_gen, Some value_commit =>
      match output.(out_asset), output.(out_amount),
            output.(out_blind_asset_proof), output.(out_blind_value_proof) with
      | Some asset, Some value, Some asset_proof, Some value_proof =>
          _ ← ensure (negb (bool_decide (output.(out_script_pubkey) = [])))
                "template output: the fee output must be explicit";
          _ ← ensure (blind_asset_proof_verify asset_proof asset asset_gen)
                "template output: asset proof does not verify against the commitment";
          _ ← ensure (blind_value_proof_verify value_proof value asset_gen value_commit)
                "template output: value proof does not verify against the commitment";
          Ok (asset, value, true)
      | _, _, _, _ => Err "template output is confidential — unverifiable, refused"
      end
  | _, _ => Err "template output is confidential — unverifiable, refused"
  end.

(** [sums.entry(asset).or_default()], the in or the out side, checked. *)
Abbreviation Sums := (gmap AssetId (Z * Z)).
Definition add_in (sums : Sums) (asset : AssetId) (value : Z) : result string Sums :=
  let '(i, o) := default (0, 0) (sums !! asset) in
  i ← ok_or (u64_checked_add i value) "input sum overflow";
  Ok (<[asset := (i, o)]> sums).
Definition add_out (sums : Sums) (asset : AssetId) (value : Z) : result string Sums :=
  let '(i, o) := default (0, 0) (sums !! asset) in
  o ← ok_or (u64_checked_add o value) "output sum overflow";
  Ok (<[asset := (i, o)]> sums).

Definition input_step (owned : list OwnedInput) (st : Sums * nat) (ii : nat * PsetInput)
    : result string (Sums * nat) :=
  let '(sums, proven_rows) := st in
  let '(i, input) := ii in
  '(asset, value, proven) ← input_row owned i input;
  sums ← add_in sums asset value;
  issuance ← input_issuance input;
  sums ← match issuance with
         | None => Ok sums
         | Some (issued_asset, issued) => add_in sums issued_asset issued
         end;
  Ok (sums, if (proven : bool) then S proven_rows else proven_rows).

(** The variables of the second loop: sums, proven_rows, fee, fee_outputs. *)
Definition output_step (st : Sums * nat * option Z * nat) (output : PsetOutput)
    : result string (Sums * nat * option Z * nat) :=
  let '(sums, proven_rows, fee, fee_outputs) := st in
  '(asset, value, proven) ← output_row output;
  let is_fee := bool_decide (output.(out_script_pubkey) = []) in
  sums ← add_out sums asset value;
  Ok (sums, if (proven : bool) then S proven_rows else proven_rows,
      if is_fee then Some value else fee,
      if is_fee then S fee_outputs else fee_outputs).

Definition verify_fund_template_owned (template_b64 asset_id : string) (amount : Z)
    (owned : list OwnedInput) : result string FundTemplateSummary :=
  _ ← ensure (0 <? amount) "zero amount";
  want_asset ← ok_or (asset_from_str asset_id) "asset_id is not a 64-hex asset id";
  pset ← decode_pset template_b64;
  _ ← ensure (negb (bool_decide (pset_outputs pset = []))) "template has no outputs";
  _ ← check_owned (length (pset_inputs pset)) [] owned;
  '(sums, proven_rows) ← try_fold (input_step owned) (enumerate (pset_inputs pset)) (∅, O);
  '(sums, proven_rows, fee, fee_outputs) ←
    try_fold output_step (pset_outputs pset) (sums, proven_rows, None, O);
  _ ← ensure (fee_outputs =? 1)%nat "template must carry exactly one fee output";
  fee ← ok_or fee "fee_outputs == 1";
  _ ← ensure (0 <? fee) "template fee output is zero";
  let '(asset_in, asset_out) := default (0, 0) (sums !! want_asset) in
  deficit ← ok_or (u64_checked_sub asset_out asset_in)
              "template has a surplus of the requested asset — nothing to fund";
  _ ← ensure (deficit =? amount)
        "stated amount does not equal the template's deficit for the requested asset";
  _ ← ensure (forallb (λ '(_, (asset_in, asset_out)), asset_out <=? asset_in)
                (map_to_list (delete want_asset sums)))
        "template asks for undeclared funding";
  Ok {| fts_input_count := length (pset_inputs pset);
        fts_output_count := length (pset_outputs pset);
        fts_fee := fee; fts_deficit := deficit;
        fts_proven_rows := proven_rows;
        fts_owned_inputs := length owned |}.

Definition verify_fund_template (template_b64 asset_id : string) (amount : Z)
    : result string FundTemplateSummary :=
  verify_fund_template_owned template_b64 asset_id amount [].
End approval.
