(* ===== verification/ApprovalSpec.v ===== *)
(** The fund-template rules as a specification over rows, and the theorems
    that [verify_fund_template_owned] implements it: what a template reads
    as, when it is accepted, and what that bounds. *)

From S2P Require Import Prelude Crates Key Pset Approval.

(** * Rows and totals *)

Abbreviation Row := (AssetId * Z)%type.

Definition total (a : AssetId) (rows : list Row) : Z :=
  foldr (λ '(b, v) s, if decide (b = a) then v + s else s) 0 rows.

Lemma total_app a r1 r2 : total a (r1 ++ r2) = total a r1 + total a r2.
Proof. induction r1 as [|[b v] r1 IH]; simpl; [done|]. case_decide; lia. Qed.
Lemma total_nonneg a rows : Forall (λ r : Row, 0 ≤ r.2) rows → 0 ≤ total a rows.
Proof. induction 1 as [|[b v] rows Hv _ IH]; simpl in *; [lia|]. case_decide; lia. Qed.

Section rows.
Context `{!ElementsApi, !PsetTypes, !PsetApi}.

(** What one input of a template contributes: rule 1 and rule 1a. *)
Inductive input_value (owned : list OwnedInput) (i : nat) (input : PsetInput) : AssetId → Z → bool → Prop :=
| value_explicit u a v :
    input.(in_witness_utxo) = Some u → u.(txo_asset) = AssetExplicit a → u.(txo_value) = ValueExplicit v →
    (∀ o, o ∈ owned → o.(oi_index) = i → a = o.(oi_asset) ∧ v = o.(oi_amount)) →
    input_value owned i input a v false
| value_owned u g c o :
    input.(in_witness_utxo) = Some u → u.(txo_asset) = AssetConfidential g →
    u.(txo_value) = ValueConfidential c → o ∈ owned → o.(oi_index) = i →
    input_value owned i input o.(oi_asset) o.(oi_amount) false
| value_proven u g c a v pa pv :
    input.(in_witness_utxo) = Some u → u.(txo_asset) = AssetConfidential g →
    u.(txo_value) = ValueConfidential c → (∀ o, o ∈ owned → o.(oi_index) ≠ i) →
    input.(in_asset) = Some a → input.(in_amount) = Some v →
    input.(in_blind_asset_proof) = Some pa → input.(in_blind_value_proof) = Some pv →
    blind_asset_proof_verify pa a g = true → blind_value_proof_verify pv v g c = true →
    input_value owned i input a v true.

(** An issuance is read by its explicit amount; without one nothing of the
    issuance is looked at, be it blinded or one of reissuance tokens only. *)
Inductive input_issues (input : PsetInput) : list Row → Prop :=
| issuance_unseen : input.(in_issuance_value_amount) = None → input_issues input []
| issues_new v entropy :
    input.(in_issuance_value_amount) = Some v →
    default 0 input.(in_blinded_issuance) = 0 → default 0 input.(in_issuance_inflation_keys) = 0 →
    default zero_tweak input.(in_issuance_blinding_nonce) = zero_tweak →
    input.(in_issuance_asset_entropy) = Some entropy →
    input_issues input
      [(issued_asset_id input.(in_previous_txid) input.(in_previous_output_index) entropy, v)].

Definition input_reads (owned : list OwnedInput) (ii : nat * PsetInput) (r : list Row * bool) : Prop :=
  ∃ a v issued, input_value owned ii.1 ii.2 a v r.2 ∧ input_issues ii.2 issued ∧ r.1 = (a, v) :: issued.

Inductive output_reads (output : PsetOutput) : Row * bool → Prop :=
| reads_explicit a v :
    output.(out_asset_comm) = None → output.(out_amount_comm) = None →
    output.(out_asset) = Some a → output.(out_amount) = Some v → output_reads output (a, v, false)
| reads_proven g c a v pa pv :
    output.(out_asset_comm) = Some g → output.(out_amount_comm) = Some c →
    output.(out_asset) = Some a → output.(out_amount) = Some v →
    output.(out_blind_asset_proof) = Some pa → output.(out_blind_value_proof) = Some pv →
    output.(out_script_pubkey) ≠ [] →
    blind_asset_proof_verify pa a g = true → blind_value_proof_verify pv v g c = true →
    output_reads output (a, v, true).

(** The owned declarations name different inputs of the template. *)
Definition owned_wf (inputs : nat) (owned : list OwnedInput) : Prop :=
  NoDup (oi_index <$> owned) ∧ Forall (λ o, (o.(oi_index) < inputs)%nat) owned.

Lemma check_owned_Ok inputs seen owned u :
  check_owned inputs seen owned = Ok u ↔
  owned_wf inputs owned ∧ ∀ o, o ∈ owned → o.(oi_index) ∉ seen.
Proof.
  revert seen; induction owned as [|o owned IH]; intros seen; simpl.
  { destruct u. split; [|done]. split; [split; constructor|by intros ? ?%not_elem_of_nil]. }
  rewrite bind_Ok. setoid_rewrite ensure_Ok. setoid_rewrite Nat.ltb_lt.
  setoid_rewrite bind_Ok. setoid_rewrite ensure_Ok. setoid_rewrite negb_true_iff.
  setoid_rewrite IH. unfold owned_wf. csimpl. rewrite NoDup_cons, Forall_cons.
  assert (existsb (λ p, (p =? oi_index o)%nat) seen = false ↔ oi_index o ∉ seen) as Hseen.
  { rewrite <-not_true_iff_false, existsb_exists. apply not_iff_compat.
    setoid_rewrite Nat.eqb_eq. setoid_rewrite <-list_elem_of_In. naive_solver. }
  split.
  - intros (_ & Hlt & _ & Hs & (Hnd & Hall) & Hin). rewrite Hseen in Hs. split_and!; try done.
    + intros (o' & Heq & Ho')%list_elem_of_fmap. apply (Hin o' Ho'). rewrite Heq. left.
    + intros o' [->|Ho']%elem_of_cons; [done|]. intros Hs'. apply (Hin o' Ho'). by right.
  - intros (([Hni Hnd] & Hlt & Hall) & Hin). exists tt. split; [done|]. exists tt. split.
    { apply Hseen, Hin. left. }
    split; [done|]. intros o' Ho' [Heq|Hs]%elem_of_cons.
    + apply Hni. rewrite <-Heq. by apply list_elem_of_fmap_2.
    + by apply (Hin o'); [right|].
Qed.

Lemma find_owned owned i :
  NoDup (oi_index <$> owned) →
  match List.find (λ o, (o.(oi_index) =? i)%nat) owned with
  | Some o => o ∈ owned ∧ o.(oi_index) = i ∧ ∀ p, p ∈ owned → p.(oi_index) = i → p = o
  | None => ∀ p, p ∈ owned → p.(oi_index) ≠ i
  end.
Proof.
  induction owned as [|o owned IH]; simpl; [by intros _ ? ?%not_elem_of_nil|].
  csimpl. rewrite NoDup_cons. intros [Hni Hnd]. specialize (IH Hnd).
  destruct (Nat.eqb_spec (oi_index o) i) as [<-|Hne].
  - split_and!; [left|done|]. intros p [->|Hp]%elem_of_cons Hpi; [done|].
    destruct Hni. rewrite <-Hpi. by apply list_elem_of_fmap_2.
  - destruct (List.find _ owned) as [o'|].
    + destruct IH as (? & ? & Hu). split_and!; [by right|done|].
      intros p [->|Hp]%elem_of_cons Hpi; [done|auto].
    + intros p [->|Hp]%elem_of_cons; [done|auto].
Qed.

Lemma input_row_Ok owned i input a v p :
  NoDup (oi_index <$> owned) →
  input_row owned i input = Ok (a, v, p) ↔ input_value owned i input a v p.
Proof.
  intros Hnd. pose proof (find_owned owned i Hnd) as Hf. unfold input_row. split.
  - intros Hr. result_inv. destruct (List.find _ owned) as [o|] eqn:E.
    + destruct Hf as (Ho & Hi & Hu). destruct (txo_asset x) eqn:Ea, (txo_value x) eqn:Ev; result_inv.
      * bool_inv. subst. eapply value_explicit; [done..|]. intros o' Ho' Hi'. by rewrite (Hu o').
      * by eapply value_owned.
    + destruct (txo_asset x) eqn:Ea, (txo_value x) eqn:Ev; result_inv.
      * eapply value_explicit; [done..|]. intros o' Ho' Hi'. by destruct (Hf o').
      * repeat case_match; result_inv. by eapply value_proven.
  - destruct 1 as [u a v Hu Ha Hv Ho|u g c o Hu Ha Hv Ho Hi|u g c a v pa pv Hu Ha Hv Ho Hia Hiv Hpa Hpv Hva Hvv];
      rewrite Hu; simpl; rewrite Ha, Hv.
    + destruct (List.find _ owned) as [o|]; [|done]. destruct Hf as (Ho' & Hi & _).
      destruct (Ho o Ho' Hi) as [-> ->]. rewrite bool_decide_true, Z.eqb_refl by done. done.
    + destruct (List.find _ owned) as [o'|]; [|by destruct (Hf o)].
      destruct Hf as (_ & _ & Hu'). by rewrite (Hu' o).
    + destruct (List.find _ owned) as [o'|]; [by destruct Hf as (? & ? & _), (Ho o')|].
      rewrite Hia, Hiv, Hpa, Hpv, Hva. simpl. by rewrite Hvv.
Qed.

Lemma input_issuance_Ok input rows :
  (∃ o, input_issuance input = Ok o ∧ rows = option_list o) ↔ input_issues input rows.
Proof.
  unfold input_issuance. split.
  - intros (o & Ho & ->). destruct (in_issuance_value_amount input) as [v|] eqn:E; [|result_inv; by constructor].
    result_inv. bool_inv. eapply issues_new; [done..| |done].
    destruct (in_issuance_blinding_nonce input); [|done]. by bool_inv.
  - destruct 1 as [E|v entropy E Hb Hk Hn He]; rewrite E; [by exists None|].
    rewrite Hb, Hk. simpl. destruct (in_issuance_blinding_nonce input); simpl in Hn; subst.
    + rewrite bool_decide_true by done. simpl. rewrite He. by eexists.
    + simpl. rewrite He. by eexists.
Qed.

Lemma output_row_Ok output a v p : output_row output = Ok (a, v, p) ↔ output_reads output (a, v, p).
Proof.
  unfold output_row. split.
  - intros Hr. destruct (out_asset_comm output) eqn:?, (out_amount_comm output) eqn:?; try done;
      repeat case_match; result_inv; try (by constructor).
    bool_inv. by eapply reads_proven.
  - inversion 1 as [? ? E1 E2 E3 E4|? ? ? ? ? ? E1 E2 E3 E4 E5 E6 E7 E8 E9]; subst;
      rewrite E1, E2, E3, E4; [done|]. rewrite E5, E6, bool_decide_false by done. simpl.
    by rewrite E8; simpl; rewrite E9.
Qed.
End rows.

(** * Checked sums *)

Section sums.
Abbreviation Sums := (gmap AssetId (Z * Z)).
Implicit Types (sums : Sums) (rows : list Row).

Definition sum_in sums (a : AssetId) : Z := (default (0, 0) (sums !! a)).1.
Definition sum_out sums (a : AssetId) : Z := (default (0, 0) (sums !! a)).2.

Lemma add_in_Ok sums a v sums' :
  add_in sums a v = Ok sums' ↔
  sum_in sums a + v < 2 ^ 64 ∧ sums' = <[a := (sum_in sums a + v, sum_out sums a)]> sums.
Proof.
  unfold add_in, sum_in, sum_out. destruct (default (0, 0) (sums !! a)) as [i o]. simpl.
  unfold u64_checked_add. destruct (Z.ltb_spec (i + v) (2 ^ 64)); simpl; [|naive_solver lia].
  split; [intros [= <-]; done|]. by intros [_ ->].
Qed.
Lemma add_out_Ok sums a v sums' :
  add_out sums a v = Ok sums' ↔
  sum_out sums a + v < 2 ^ 64 ∧ sums' = <[a := (sum_in sums a, sum_out sums a + v)]> sums.
Proof.
  unfold add_out, sum_in, sum_out. destruct (default (0, 0) (sums !! a)) as [i o]. simpl.
  unfold u64_checked_add. destruct (Z.ltb_spec (o + v) (2 ^ 64)); simpl; [|naive_solver lia].
  split; [intros [= <-]; done|]. by intros [_ ->].
Qed.
Lemma sum_insert sums a i o b :
  sum_in (<[a := (i, o)]> sums) b = (if decide (a = b) then i else sum_in sums b) ∧
  sum_out (<[a := (i, o)]> sums) b = (if decide (a = b) then o else sum_out sums b).
Proof.
  unfold sum_in, sum_out. case_decide as Hab; [subst; by rewrite lookup_insert_eq|].
  by rewrite lookup_insert_ne.
Qed.

Definition add_ins rows sums : result string Sums := try_fold (λ s '(a, v), add_in s a v) rows sums.
Definition add_outs rows sums : result string Sums := try_fold (λ s '(a, v), add_out s a v) rows sums.

(** The fold of checked additions succeeds exactly when every total fits,
    and then holds the totals. *)
Lemma add_ins_Ok rows sums sums' :
  add_ins rows sums = Ok sums' →
  (∀ b, sum_in sums' b = sum_in sums b + total b rows ∧ sum_out sums' b = sum_out sums b) ∧
  ((∀ b, sum_in sums b < 2 ^ 64) → ∀ b, sum_in sums' b < 2 ^ 64).
Proof.
  unfold add_ins. revert sums; induction rows as [|[a v] rows IH]; intros sums; simpl.
  { intros [= <-]. split; [intros b; split; lia|done]. }
  intros (s1 & [Hlt ->]%add_in_Ok & Hr)%bind_Ok. destruct (IH _ Hr) as [Hs Hb]. split.
  - intros b. destruct (Hs b) as [-> ->]. destruct (sum_insert sums a (sum_in sums a + v) (sum_out sums a) b)
      as [-> ->]. case_decide; subst; split; lia.
  - intros Hall. apply Hb. intros b.
    destruct (sum_insert sums a (sum_in sums a + v) (sum_out sums a) b) as [-> _]. by case_decide.
Qed.
Lemma add_ins_fits rows sums :
  Forall (λ r : Row, 0 ≤ r.2) rows → (∀ b, sum_in sums b + total b rows < 2 ^ 64) →
  ∃ sums', add_ins rows sums = Ok sums'.
Proof.
  unfold add_ins. revert sums; induction rows as [|[a v] rows IH]; intros sums Hnn Hfit; simpl.
  { by eexists. }
  apply Forall_cons in Hnn as [Hv Hnn]. pose proof (total_nonneg a rows Hnn).
  pose proof (Hfit a) as Ha. simpl in Ha. rewrite decide_True in Ha by done.
  rewrite (proj2 (add_in_Ok sums a v _)) by (split; [lia|done]). simpl. apply IH; [done|].
  intros b. destruct (sum_insert sums a (sum_in sums a + v) (sum_out sums a) b) as [-> _].
  specialize (Hfit b). simpl in Hfit. case_decide; subst; lia.
Qed.
Lemma add_outs_Ok rows sums sums' :
  add_outs rows sums = Ok sums' →
  (∀ b, sum_out sums' b = sum_out sums b + total b rows ∧ sum_in sums' b = sum_in sums b) ∧
  ((∀ b, sum_out sums b < 2 ^ 64) → ∀ b, sum_out sums' b < 2 ^ 64).
Proof.
  unfold add_outs. revert sums; induction rows as [|[a v] rows IH]; intros sums; simpl.
  { intros [= <-]. split; [intros b; split; lia|done]. }
  intros (s1 & [Hlt ->]%add_out_Ok & Hr)%bind_Ok. destruct (IH _ Hr) as [Hs Hb]. split.
  - intros b. destruct (Hs b) as [-> ->]. destruct (sum_insert sums a (sum_in sums a) (sum_out sums a + v) b)
      as [-> ->]. case_decide; subst; split; lia.
  - intros Hall. apply Hb. intros b.
    destruct (sum_insert sums a (sum_in sums a) (sum_out sums a + v) b) as [_ ->]. by case_decide.
Qed.
Lemma add_outs_fits rows sums :
  Forall (λ r : Row, 0 ≤ r.2) rows → (∀ b, sum_out sums b + total b rows < 2 ^ 64) →
  ∃ sums', add_outs rows sums = Ok sums'.
Proof.
  unfold add_outs. revert sums; induction rows as [|[a v] rows IH]; intros sums Hnn Hfit; simpl.
  { by eexists. }
  apply Forall_cons in Hnn as [Hv Hnn]. pose proof (total_nonneg a rows Hnn).
  pose proof (Hfit a) as Ha. simpl in Ha. rewrite decide_True in Ha by done.
  rewrite (proj2 (add_out_Ok sums a v _)) by (split; [lia|done]). simpl. apply IH; [done|].
  intros b. destruct (sum_insert sums a (sum_in sums a) (sum_out sums a + v) b) as [_ ->].
  specialize (Hfit b). simpl in Hfit. case_decide; subst; lia.
Qed.
End sums.

(** * The loops read rows and sum them *)

Definition count_proven {A} (reads : list (A * bool)) : nat := foldr (λ r n, Nat.b2n r.2 + n)%nat 0%nat reads.

Section loops.
Context `{!ElementsApi, !PsetTypes, !PsetApi}.
Abbreviation Sums := (gmap AssetId (Z * Z)).

Lemma input_step_Ok owned (sums : Sums) p ii res :
  NoDup (oi_index <$> owned) →
  input_step owned (sums, p) ii = Ok res ↔
  ∃ r, input_reads owned ii r ∧ add_ins r.1 sums = Ok res.1 ∧ res.2 = (Nat.b2n r.2 + p)%nat.
Proof.
  intros Hnd. destruct ii as [i input], res as [sums' p']. simpl. rewrite bind_Ok. split.
  - intros ([[a v] pr] & Hrow%input_row_Ok & Hrest); [|done].
    apply bind_Ok in Hrest as (s1 & Hs1 & (o & Ho & Hrest)%bind_Ok).
    apply bind_Ok in Hrest as (s2 & Hs2 & [= <- <-]).
    exists ((a, v) :: option_list o, pr). split; [|split; [|by destruct pr]].
    + exists a, v, (option_list o). split_and!; [done| |done]. apply input_issuance_Ok. by exists o.
    + simpl. unfold add_ins. simpl. rewrite Hs1. simpl. destruct o as [[b w]|]; simpl; [|done].
      by rewrite Hs2.
  - intros ([rows pr] & (a & v & issued & Hv & Hi & Hrows) & Hadd & Hp). simpl in *. subst.
    apply input_issuance_Ok in Hi as (o & Ho & ->). exists (a, v, pr).
    split; [by apply input_row_Ok|]. unfold add_ins in Hadd. simpl in Hadd.
    apply bind_Ok in Hadd as (s1 & -> & Hadd). simpl. rewrite Ho. simpl.
    destruct o as [[b w]|]; simpl in *; [|by injection Hadd as ->; destruct pr].
    apply bind_Ok in Hadd as (s2 & -> & [= ->]). by destruct pr.
Qed.

Lemma input_loop_Ok owned l (sums : Sums) p res :
  NoDup (oi_index <$> owned) →
  try_fold (input_step owned) l (sums, p) = Ok res ↔
  ∃ reads, Forall2 (input_reads owned) l reads ∧
    add_ins (concat reads.*1) sums = Ok res.1 ∧ res.2 = (count_proven reads + p)%nat.
Proof.
  intros Hnd. revert sums p; induction l as [|ii l IH]; intros sums p; simpl.
  - split.
    + intros [= <-]. by exists [].
    + intros (reads & ->%Forall2_nil_inv_l & [= Hs] & Hp). destruct res. simpl in *. by subst.
  - rewrite bind_Ok. split.
    + intros ([s1 p1] & (r & Hr & Hadd & Hp1)%input_step_Ok & (reads & Hf & Hadd' & Hp')%IH); [|done].
      simpl in *. subst. exists (r :: reads). split_and!.
      * by constructor.
      * csimpl. unfold add_ins in *. rewrite try_fold_app, Hadd. done.
      * simpl. lia.
    + intros (reads & Hf & Hadd & Hp). apply Forall2_cons_inv_l in Hf as (r & reads' & Hr & Hf & ->).
      csimpl in *. unfold add_ins in Hadd. rewrite try_fold_app in Hadd.
      apply bind_Ok in Hadd as (s1 & H1' & H2'). exists (s1, (Nat.b2n r.2 + p)%nat). split.
      * apply input_step_Ok; [done|]. by exists r.
      * apply IH. exists reads'. split_and!; [done|done|]. simpl in *. lia.
Qed.

Lemma Forall2_input_reads_nonneg owned l reads :
  Forall2 (input_reads owned) l reads →
  Forall (λ ii, ∀ r, input_reads owned ii r → Forall (λ row : Row, 0 ≤ row.2) r.1) l →
  Forall (λ r : Row, 0 ≤ r.2) (concat reads.*1).
Proof.
  induction 1 as [|ii r l reads Hr _ IH]; [constructor|].
  intros [Hii Hl]%Forall_cons. csimpl. apply Forall_app. auto.
Qed.

(** The fee rows of a template: the values of the rows with an empty script. *)
Definition fees (outputs : list PsetOutput) (reads : list (Row * bool)) : list Z :=
  omap (λ '(o, ((_, v), _)), if decide (out_script_pubkey o = []) then Some v else None)
    (zip outputs reads).

Lemma fees_cons o l r reads :
  fees (o :: l) (r :: reads)
    = if decide (out_script_pubkey o = []) then r.1.2 :: fees l reads else fees l reads.
Proof. unfold fees. destruct r as [[a v] pr]. simpl. by case_decide. Qed.

Lemma add_outs_cons r rows (sums : Sums) :
  add_outs (r :: rows) sums = add_outs [r] sums ≫= add_outs rows.
Proof. unfold add_outs. simpl. destruct r as [a v]. by destruct (add_out sums a v). Qed.

Lemma output_step_Ok (sums : Sums) p fee n output res :
  output_step (sums, p, fee, n) output = Ok res ↔
  ∃ r, output_reads output r ∧ add_outs [r.1] sums = Ok res.1.1.1 ∧
    res.1.1.2 = (Nat.b2n r.2 + p)%nat ∧
    res.1.2 = (if decide (out_script_pubkey output = []) then Some r.1.2 else fee) ∧
    res.2 = (if decide (out_script_pubkey output = []) then S n else n).
Proof.
  destruct res as [[[sums' p'] fee'] n']. unfold output_step, add_outs. rewrite bind_Ok. simpl. split.
  - intros ([[a v] pr] & Hrow%output_row_Ok & (s1 & Hs1 & [= <- <- <- <-])%bind_Ok).
    exists (a, v, pr). simpl. rewrite Hs1. simpl.
    split_and!; [done|done|by destruct pr|..]; by repeat case_decide; repeat case_bool_decide.
  - intros ([[a v] pr] & Hrow%output_row_Ok & (s1 & Hs1 & [= ->])%bind_Ok & -> & -> & ->).
    exists (a, v, pr). split; [done|]. simpl in *. rewrite Hs1. simpl.
    destruct pr; by repeat case_decide; repeat case_bool_decide.
Qed.

Lemma output_loop_Ok l (sums : Sums) p fee n res :
  try_fold output_step l (sums, p, fee, n) = Ok res ↔
  ∃ reads, Forall2 output_reads l reads ∧ add_outs reads.*1 sums = Ok res.1.1.1 ∧
    res.1.1.2 = (count_proven reads + p)%nat ∧
    res.1.2 = (match list.last (fees l reads) with Some v => Some v | None => fee end) ∧
    res.2 = (length (fees l reads) + n)%nat.
Proof.
  revert sums p fee n; induction l as [|output l IH]; intros sums p fee n; simpl.
  - split.
    + intros [= <-]. by exists [].
    + intros (reads & ->%Forall2_nil_inv_l & [= Hs] & Hp & Hfee & Hn).
      destruct res as [[[??]?]?]. simpl in *. by subst.
  - rewrite bind_Ok. split.
    + intros ([[[s1 p1] fee1] n1] & (r & Hr & Hadd & Hp1 & Hf1 & Hn1)%output_step_Ok
        & (reads & Hf & Hadd' & Hp' & Hf' & Hn')%IH).
      cbn [fst snd] in *. subst. exists (r :: reads). split_and!.
      * by constructor.
      * rewrite fmap_cons, add_outs_cons, Hadd. done.
      * simpl. lia.
      * rewrite Hf', fees_cons. case_decide; [rewrite last_cons|]; by destruct (list.last _).
      * rewrite Hn', fees_cons. case_decide; simpl; lia.
    + intros (reads & Hf & Hadd & Hp & Hfee & Hn).
      apply Forall2_cons_inv_l in Hf as (r & reads' & Hr & Hf & ->).
      rewrite fmap_cons, add_outs_cons in Hadd. apply bind_Ok in Hadd as (s1 & H1' & H2').
      exists (s1, (Nat.b2n r.2 + p)%nat,
              if decide (out_script_pubkey output = []) then Some r.1.2 else fee,
              if decide (out_script_pubkey output = []) then S n else n). split.
      * apply output_step_Ok. by exists r.
      * apply IH. exists reads'. split_and!; [done|done|simpl in *; lia|..].
        -- cbn [fst snd]. rewrite Hfee, fees_cons. repeat case_decide; try done.
           ++ rewrite last_cons. by destruct (list.last (fees l reads')).
        -- cbn [fst snd]. rewrite Hn, fees_cons. repeat case_decide; simpl; lia || done.
Qed.
End loops.

(** * The specification and the refinement *)

Section spec.
Context `{!ElementsApi, !PsetTypes, !PsetApi}.

(** The amounts of a decoded transaction are [u64]s. *)
Definition input_u64 (input : PsetInput) : Prop :=
  (∀ u v, input.(in_witness_utxo) = Some u → u.(txo_value) = ValueExplicit v → in_u64 v) ∧
  (∀ v, input.(in_amount) = Some v → in_u64 v) ∧
  (∀ v, input.(in_issuance_value_amount) = Some v → in_u64 v).
Definition output_u64 (output : PsetOutput) : Prop := ∀ v, output.(out_amount) = Some v → in_u64 v.
Definition pset_u64 (pset : Pset) : Prop :=
  Forall input_u64 (pset_inputs pset) ∧ Forall output_u64 (pset_outputs pset).

(** The rules of a fund template, over the rows it reads as: [ins] and
    [outs] are the rows of its inputs (issuances included) and outputs. *)
Record accepts (owned : list OwnedInput) (want : AssetId) (amount : Z) (pset : Pset)
    (ins : list (list Row * bool)) (outs : list (Row * bool)) (fee : Z) : Prop := {
  acc_owned : owned_wf (length (pset_inputs pset)) owned;
  acc_ins : Forall2 (input_reads owned) (enumerate (pset_inputs pset)) ins;
  acc_outs : Forall2 output_reads (pset_outputs pset) outs;
  acc_fit a : total a (concat ins.*1) < 2 ^ 64 ∧ total a outs.*1 < 2 ^ 64;
  acc_fee : fees (pset_outputs pset) outs = [fee] ∧ 0 < fee;
  acc_deficit : total want outs.*1 - total want (concat ins.*1) = amount;
  acc_covered a : a ≠ want → total a outs.*1 ≤ total a (concat ins.*1);
}.

Definition summary_of (owned : list OwnedInput) (amount : Z) (pset : Pset)
    (ins : list (list Row * bool)) (outs : list (Row * bool)) (fee : Z) : FundTemplateSummary :=
  {| fts_input_count := length (pset_inputs pset);
     fts_output_count := length (pset_outputs pset);
     fts_fee := fee; fts_deficit := amount;
     fts_proven_rows := count_proven outs + count_proven ins;
     fts_owned_inputs := length owned |}.

Lemma input_reads_nonneg owned ii r :
  Forall (λ o, in_u64 o.(oi_amount)) owned → input_u64 ii.2 → input_reads owned ii r →
  Forall (λ row : Row, 0 ≤ row.2) r.1.
Proof.
  intros Ho (Hu & Ha & Hi) (a & v & issued & Hv & Hiss & ->). unfold in_u64 in *.
  rewrite list.Forall_forall in Ho. constructor; simpl.
  - destruct Hv; [naive_solver lia|by apply Ho|naive_solver lia].
  - destruct Hiss; [constructor|]. repeat constructor; simpl. naive_solver lia.
Qed.
Lemma reads_nonneg owned pset ins outs :
  Forall (λ o, in_u64 o.(oi_amount)) owned → pset_u64 pset →
  Forall2 (input_reads owned) (enumerate (pset_inputs pset)) ins →
  Forall2 output_reads (pset_outputs pset) outs →
  Forall (λ r : Row, 0 ≤ r.2) (concat ins.*1) ∧ Forall (λ r : Row, 0 ≤ r.2) outs.*1.
Proof.
  intros Ho [Hi Hout] Hins Houts. split.
  - eapply Forall2_input_reads_nonneg; [exact Hins|]. apply Forall_lookup. intros k [i input] Hk r Hr.
    eapply input_reads_nonneg; [done| |done]. simpl. unfold enumerate in Hk.
    apply list_lookup_imap_Some in Hk as (x & Hx & [= -> ->]).
    by eapply (list.Forall_lookup_1 _ _ _ _ Hi).
  - clear -Hout Houts. induction Houts as [|o r os rs Hr _ IH]; [constructor|].
    apply Forall_cons in Hout as [Hu Hout]. csimpl. constructor; [|auto].
    unfold output_u64, in_u64 in Hu. inversion Hr; subst; simpl; naive_solver lia.
Qed.

Lemma sum_empty a : sum_in ∅ a = 0 ∧ sum_out ∅ a = 0.
Proof. unfold sum_in, sum_out. by rewrite lookup_empty. Qed.

(** The sums after both loops are the totals of the rows. *)
Lemma loops_sums ins outs s1 s2 :
  add_ins ins ∅ = Ok s1 → add_outs outs s1 = Ok s2 →
  ∀ a, sum_in s2 a = total a ins ∧ sum_out s2 a = total a outs ∧
       total a ins < 2 ^ 64 ∧ total a outs < 2 ^ 64.
Proof.
  intros [Hi Hib]%add_ins_Ok [Ho Hob]%add_outs_Ok a.
  destruct (Hi a) as [Hia Hoa], (Ho a) as [Hoa' Hia'], (sum_empty a) as [E1 E2].
  assert (sum_in s1 a < 2 ^ 64).
  { apply Hib. intros b. destruct (sum_empty b) as [-> _]. lia. }
  assert (sum_out s2 a < 2 ^ 64).
  { apply Hob. intros b. destruct (Hi b) as [_ ->], (sum_empty b) as [_ ->]. lia. }
  lia.
Qed.

Lemma undeclared_ok (sums : gmap AssetId (Z * Z)) want :
  forallb (λ '(_, (asset_in, asset_out)), asset_out <=? asset_in)
    (map_to_list (delete want sums)) = true ↔
  ∀ a, a ≠ want → sum_out sums a ≤ sum_in sums a.
Proof.
  rewrite forallb_forall. unfold sum_in, sum_out. split.
  - intros Hall a Ha. destruct (sums !! a) as [[i o]|] eqn:E; simpl; [|done].
    apply Z.leb_le. apply (Hall (a, (i, o))), list_elem_of_In, elem_of_map_to_list.
    by rewrite lookup_delete_ne.
  - intros Hall [a [i o]] Hin%list_elem_of_In%elem_of_map_to_list.
    apply lookup_delete_Some in Hin as [Hne Hl]. specialize (Hall a).
    rewrite Hl in Hall. simpl in Hall. apply Z.leb_le. auto.
Qed.

(** The checks after the loops. *)
Lemma verify_unfold template_b64 asset_id amount owned s :
  verify_fund_template_owned template_b64 asset_id amount owned = Ok s ↔
  0 < amount ∧ ∃ want pset, asset_from_str asset_id = Some want ∧ decode_pset template_b64 = Ok pset ∧
    owned_wf (length (pset_inputs pset)) owned ∧
    ∃ ins outs fee s1 s2,
      Forall2 (input_reads owned) (enumerate (pset_inputs pset)) ins ∧
      Forall2 output_reads (pset_outputs pset) outs ∧
      add_ins (concat ins.*1) ∅ = Ok s1 ∧ add_outs outs.*1 s1 = Ok s2 ∧
      fees (pset_outputs pset) outs = [fee] ∧ 0 < fee ∧
      sum_in s2 want ≤ sum_out s2 want ∧ sum_out s2 want - sum_in s2 want = amount ∧
      (∀ a, a ≠ want → sum_out s2 a ≤ sum_in s2 a) ∧
      s = summary_of owned amount pset ins outs fee.
Proof.
  unfold verify_fund_template_owned. split.
  - intros Hv. repeat match goal with
      | H : (_ ≫= _) = Ok _ |- _ => apply bind_Ok in H as (? & ? & H)
      | H : context [let '(_, _) := ?p in _] |- _ => destruct p eqn:?
      end.
    result_inv. bool_inv.
    repeat match goal with
      | H : check_owned _ _ _ = Ok _ |- _ => apply check_owned_Ok in H as [? _]
      | H : u64_checked_sub _ _ = Some _ |- _ => apply u64_checked_sub_Some in H as [-> ?]
      | H : try_fold output_step _ _ = Ok _ |- _ =>
          apply output_loop_Ok in H as (outs & Hos & Hao & Hpo & Hfo & Hno); simpl in *
      end.
    match goal with H : try_fold (input_step _) _ _ = Ok _ |- _ =>
      apply input_loop_Ok in H as (ins & His & Hai & Hpi); [|by match goal with H : owned_wf _ _ |- _ => apply H end] end.
    simpl in *. subst. split; [done|]. eexists _, _. split_and!; [done..|].
    match goal with H : forallb _ _ = true |- _ => pose proof (proj1 (undeclared_ok _ _) H) as Hcov end.
    match goal with H : default _ (?s !! ?w) = (?i, ?o) |- _ =>
      assert (sum_in s w = i ∧ sum_out s w = o) as [Hsi Hso]
        by (unfold sum_in, sum_out; by rewrite H) end.
    eexists ins, outs, _, _, _. rewrite Hsi, Hso. split_and!; [done..| |done|done|done|done|].
    + destruct (fees _ outs) as [|f [|]]; simpl in *; [lia|congruence|lia].
    + unfold summary_of. by rewrite Nat.add_0_r.
  - intros (Hamt & want & pset & Hw & Hp & Howned & ins & outs & fee & s1 & s2 &
      Hins & Houts & Ha1 & Ha2 & Hfees & Hfee & Hle & Hdef & Hcov & ->).
    rewrite (proj2 (Z.ltb_lt _ _) Hamt). simpl. rewrite Hw. simpl. rewrite Hp. simpl.
    rewrite bool_decide_false; [|by intros E; rewrite E in Hfees]. simpl.
    rewrite (proj2 (check_owned_Ok _ [] owned tt)) by (split; [done|by intros ? ? ?%not_elem_of_nil]).
    simpl. rewrite (proj2 (input_loop_Ok owned _ ∅ 0%nat (s1, count_proven ins) (proj1 Howned)));
      [|exists ins; split; [exact Hins|split; [exact Ha1|simpl; lia]]].
    simpl. rewrite (proj2 (output_loop_Ok (pset_outputs pset) s1 (count_proven ins) None 0%nat
      (s2, (count_proven outs + count_proven ins)%nat, Some fee, 1%nat)));
      [|exists outs; rewrite Hfees; split; [exact Houts|split; [exact Ha2|done]]].
    simpl. rewrite (proj2 (Z.ltb_lt _ _) Hfee). simpl.
    destruct (default (0, 0) (s2 !! want)) as [i o] eqn:E.
    assert (sum_in s2 want = i ∧ sum_out s2 want = o) as [Hsi Hso]
      by (unfold sum_in, sum_out; by rewrite E).
    rewrite Hsi, Hso in *. rewrite (proj2 (u64_checked_sub_Some o i (o - i))) by done. simpl.
    rewrite Hdef, Z.eqb_refl. simpl. by rewrite (proj2 (undeclared_ok s2 want) Hcov).
Qed.

(** C7. The fund-template check is exactly its rules. For a template whose
    amounts are [u64]s, [verify_fund_template_owned] succeeds with a summary
    if and only if the amount is positive and the template, decoded, reads
    as rows that satisfy the rules: owned declarations name different
    inputs; every input row is explicit, the host's own, or proven, and
    every issuance with an explicit amount a new one that is not blinded and
    makes no reissuance tokens (an issuance without an explicit amount is not
    looked at, whatever else it states); every output row is explicit or
    proven; no per-asset total leaves [u64]; there is exactly one fee row,
    positive; the outputs exceed the inputs of the requested asset by
    exactly the amount, and of no other asset at all. The summary is the
    one those rows give. *)
Theorem verify_fund_template_iff template_b64 asset_id amount owned s :
  Forall (λ o, in_u64 o.(oi_amount)) owned →
  (∀ pset, decode_pset template_b64 = Ok pset → pset_u64 pset) →
  verify_fund_template_owned template_b64 asset_id amount owned = Ok s ↔
  0 < amount ∧ ∃ want pset ins outs fee,
    asset_from_str asset_id = Some want ∧ decode_pset template_b64 = Ok pset ∧
    accepts owned want amount pset ins outs fee ∧ s = summary_of owned amount pset ins outs fee.
Proof.
  intros Ho Hu. rewrite verify_unfold. split.
  - intros (Hamt & want & pset & Hw & Hp & Howned & ins & outs & fee & s1 & s2 &
      Hins & Houts & Ha1 & Ha2 & Hfees & Hfee & Hle & Hdef & Hcov & ->).
    pose proof (loops_sums _ _ _ _ Ha1 Ha2) as Hs. split; [done|].
    exists want, pset, ins, outs, fee. split_and!; [done..| |done]. split; try done.
    + intros a. by destruct (Hs a) as (_ & _ & ?).
    + by destruct (Hs want) as (<- & <- & _).
    + intros a Ha. destruct (Hs a) as (<- & <- & _). auto.
  - intros (Hamt & want & pset & ins & outs & fee & Hw & Hp & [Howned Hins Houts Hfit [Hfees Hfee] Hdef Hcov] & ->).
    split; [done|]. exists want, pset. split_and!; [done..|]. exists ins, outs, fee.
    destruct (reads_nonneg owned pset ins outs Ho (Hu pset Hp) Hins Houts) as [Hni Hno].
    destruct (add_ins_fits (concat ins.*1) ∅ Hni) as [s1 Ha1].
    { intros b. destruct (sum_empty b) as [-> _], (Hfit b). lia. }
    destruct (add_outs_fits outs.*1 s1 Hno) as [s2 Ha2].
    { intros b. destruct (proj1 (add_ins_Ok _ _ _ Ha1) b) as [_ ->], (sum_empty b) as [_ ->], (Hfit b). lia. }
    pose proof (loops_sums _ _ _ _ Ha1 Ha2) as Hs. exists s1, s2. split_and!; try done.
    + destruct (Hs want) as (-> & -> & _). lia.
    + by destruct (Hs want) as (-> & -> & _).
    + intros a Ha. destruct (Hs a) as (-> & -> & _). auto.
Qed.

(** The rows the host declares as its own among the template's inputs. *)
Definition owned_rows (owned : list OwnedInput) : list Row := (λ o, (o.(oi_asset), o.(oi_amount))) <$> owned.

Lemma owned_row_read owned inputs ins o :
  NoDup (oi_index <$> owned) → Forall2 (input_reads owned) (enumerate inputs) ins → o ∈ owned →
  (o.(oi_index) < length inputs)%nat →
  ∃ issued p, ins !! o.(oi_index) = Some ((o.(oi_asset), o.(oi_amount)) :: issued, p).
Proof.
  intros Hnd Hins Ho Hlt. destruct (lookup_lt_is_Some_2 inputs (oi_index o)) as [input Hi]; [done|].
  destruct (Forall2_lookup_l _ _ _ (oi_index o) (oi_index o, input) Hins) as ([rows p] & Hr & a & v & issued & Hv & _ & E).
  { unfold enumerate. by rewrite list_lookup_imap, Hi. }
  simpl in *. subst rows. exists issued, p. rewrite Hr. do 3 f_equal.
  inversion Hv as [u a' v' _ _ _ Hag|u g c o' _ _ _ Ho' Hidx|u g c a' v' pa pv _ _ _ Hno]; subst.
  - destruct (Hag o Ho eq_refl) as [-> ->]. done.
  - pose proof (find_owned owned (oi_index o) Hnd) as Hf. destruct (List.find _ owned) as [o1|].
    + destruct Hf as (_ & _ & Hu). by rewrite (Hu o Ho eq_refl), (Hu o' Ho' Hidx).
    + by destruct (Hf o Ho).
  - by destruct (Hno o Ho).
Qed.

(** C10. What an accepted template can cost the host. Let the host add its
    own input rows and its own change rows to a template it accepted, and
    let the whole transaction balance per asset, as consensus demands. The
    inputs it declared as its own are rows of the template with the asset and
    the amount it declared. What it gives of the requested asset - those
    inputs and the ones it added, less its change - is exactly the amount it
    was told plus its declared inputs of that asset, and of every other asset
    at most its declared inputs: with none declared, the amount and nothing
    else. (What outputs of the template pay back to the host comes off that.) *)
Theorem host_outflow template_b64 asset_id amount owned s host_ins host_outs :
  verify_fund_template_owned template_b64 asset_id amount owned = Ok s →
  ∃ want pset ins outs,
    asset_from_str asset_id = Some want ∧ decode_pset template_b64 = Ok pset ∧
    Forall2 (input_reads owned) (enumerate (pset_inputs pset)) ins ∧
    Forall2 output_reads (pset_outputs pset) outs ∧
    NoDup (oi_index <$> owned) ∧
    (∀ o, o ∈ owned → ∃ issued p, ins !! o.(oi_index) = Some ((o.(oi_asset), o.(oi_amount)) :: issued, p)) ∧
    let given a := total a (owned_rows owned ++ host_ins) - total a host_outs in
    ((∀ a, total a (concat ins.*1 ++ host_ins) = total a (outs.*1 ++ host_outs)) →
     given want = amount + total want (owned_rows owned) ∧
     ∀ a, a ≠ want → given a ≤ total a (owned_rows owned)).
Proof.
  intros (Hamt & want & pset & Hw & Hp & [Hnd Hlt] & ins & outs & fee & s1 & s2 &
    Hins & Houts & Ha1 & Ha2 & Hfees & Hfee & Hle & Hdef & Hcov & ->)%verify_unfold.
  pose proof (loops_sums _ _ _ _ Ha1 Ha2) as Hs. rewrite Forall_forall in Hlt.
  exists want, pset, ins, outs. split_and!; [done..| |].
  { intros o Ho. by eapply owned_row_read; [| |exact Ho|apply Hlt]. }
  intros given Hbal. subst given. cbv beta. setoid_rewrite total_app. split.
  - specialize (Hbal want). rewrite !total_app in Hbal.
    destruct (Hs want) as (E1 & E2 & _). rewrite E1, E2 in Hdef. lia.
  - intros a Ha. specialize (Hbal a). specialize (Hcov a Ha). rewrite !total_app in Hbal.
    destruct (Hs a) as (E1 & E2 & _). rewrite E1, E2 in Hcov. lia.
Qed.
End spec.

Section summary.
Context `{!ElementsApi, !PsetTypes, !PsetApi}.

Definition fee_rows (outputs : list PsetOutput) : list PsetOutput :=
  filter (λ o, out_script_pubkey o = []) outputs.

Lemma summarize_loop network outputs :
  foldl (summarize_step network) ([], None, O, true) outputs
    = (summarize_output network <$> outputs,
       (match list.last (fee_rows outputs) with Some o => o.(out_amount) | None => None end),
       length (fee_rows outputs),
       forallb (λ o, negb (summarize_output network o).(os_confidential)) outputs).
Proof.
  induction outputs as [|o outputs IH] using rev_ind; [done|].
  rewrite foldl_app, IH. simpl. unfold fee_rows. rewrite list.filter_app, forallb_app, fmap_app. simpl.
  f_equal; [f_equal; [f_equal|]|].
  - rewrite filter_cons, filter_nil. case_bool_decide; case_decide; try done; [by rewrite last_snoc|].
    by rewrite app_nil_r.
  - rewrite filter_cons, filter_nil, length_app. case_bool_decide; case_decide; simpl; try done; lia.
  - rewrite andb_true_r. destruct (_ || _); simpl; [by rewrite andb_false_r|by rewrite andb_true_r].
Qed.

(** The approval screen's decode is faithful: every output of the
    transaction is summarised, in order; the fee is shown only when there
    is exactly one fee output, and is its explicit amount; and
    [fully_explicit] holds exactly when no output hides its asset or its
    amount. *)
Lemma summarize_pset_spec pset_b64 network t :
  summarize_pset pset_b64 network = Ok t →
  ∃ pset, decode_pset pset_b64 = Ok pset ∧
    t.(ts_input_count) = length (pset_inputs pset) ∧
    t.(ts_outputs) = summarize_output network <$> pset_outputs pset ∧
    t.(ts_fee) = (match fee_rows (pset_outputs pset) with [o] => o.(out_amount) | _ => None end) ∧
    (t.(ts_fully_explicit) = true ↔
     ∀ o, o ∈ pset_outputs pset → is_Some o.(out_asset) ∧ is_Some o.(out_amount)).
Proof.
  unfold summarize_pset. intros (pset & Hp & Ht)%bind_Ok. exists pset. split; [done|].
  rewrite summarize_loop in Ht. injection Ht as <-. simpl. split_and!; try done.
  - by destruct (fee_rows (pset_outputs pset)) as [|? [|]].
  - rewrite forallb_forall. setoid_rewrite list_elem_of_In. apply forall_proper. intros o.
    apply imp_iff_compat_l. rewrite negb_true_iff, orb_false_iff, !bool_decide_eq_false.
    rewrite <-!not_eq_None_Some. tauto.
Qed.
End summary.
