(* ===== verification/LendingData.v ===== *)
(** Typed lending claims ([lc-wallet-core/src/lending.rs]): the claims, their
    parsing, the digests and scripts they are checked against, and their
    rendering. *)

From S2P Require Import Prelude Crates Pset.

(** One quote row of an offer. *)
Record OfferRowClaim := {
  row_collateral : AssetId;
  row_expiry : Z;
  row_price_out : Z;
  row_buyback : Z;
  row_fee_per_unit : Z;
  row_min_size : Z;
}.

Inductive TypedFund :=
| Fill (size sale buyback expiry : Z) (cash : AssetId) (collateral : option AssetId) (fee : Z)
| FillV2 (size sale buyback expiry : Z) (cash : AssetId) (collateral : option AssetId) (fee : Z)
    (payout : bytes32)
| FillV3 (size sale buyback expiry : Z) (cash : AssetId) (collateral : option AssetId) (fee : Z)
    (payout : bytes32)
| FillV4 (size sale buyback expiry : Z) (cash : AssetId) (collateral : option AssetId) (fee : Z)
    (payout lastlook : bytes32) (lastlook_height : Z)
| FillV5 (size sale buyback expiry : Z) (cash : AssetId) (collateral : option AssetId) (fee : Z)
    (payout lastlook : bytes32) (lastlook_height : Z)
| FillV6 (size sale buyback expiry : Z) (cash : AssetId) (collateral : option AssetId) (fee : Z)
    (payout lastlook : bytes32) (lastlook_height : Z) (lender_nft : AssetId)
| Offer (cash : AssetId) (amounts : list Z) (lender_token : AssetId)
    (claim fee_script position_leaf : bytes32) (fee_min cutoff : Z) (rows : list OfferRowClaim)
    (token_output : option Z)
| OfferCancel (cash : AssetId) (amount fee : Z) (lender_token : AssetId)
| Claim (lender_token : AssetId) (fee : Z) (receives : list (AssetId * Z))
| SellRight (price : Z) (cash : AssetId) (fee : Z)
| Exercise (amount released remaining : Z) (cash : AssetId) (collateral : option AssetId).

(** [None]: not a typed memo. [Some (Err _)]: typed but malformed. *)
Definition U64_MAX : Z := 2 ^ 64 - 1.
Definition parse_u64 (s : string) : option Z := parse_uint U64_MAX s.

Section parse.
Context `{!HexApi, !JsonApi, !ElementsApi}.

(** The closures of [parse_fields] (and, on a row, of its offer arm). *)
Definition str_field (value : Value) (name : string) : result string string :=
  ok_or (v ← json_get value name; json_as_str v) ("missing or non-string field: " +:+ name).
Definition u64_field (value : Value) (name : string) : result string Z :=
  s ← str_field value name;
  ok_or (parse_u64 s) ("field " +:+ name +:+ " is not a u64 string").
Definition asset_field (value : Value) (name : string) : result string AssetId :=
  s ← str_field value name;
  ok_or (asset_from_str s) ("field " +:+ name +:+ " is not an asset id").
Definition opt_asset_field (value : Value) (name : string) : result string (option AssetId) :=
  match json_get value name with
  | None => Ok None
  | Some v => if json_is_null v then Ok None else a ← asset_field value name; Ok (Some a)
  end.
(** [.and_then(|v| v.as_u64()).and_then(|v| u32::try_from(v).ok())] *)
Definition u32_field (value : Value) (name : string) : result string Z :=
  ok_or (v ← json_get value name; n ← json_as_u64 v; u32_try_from n)
    ("missing or invalid field: " +:+ name).
Definition hex32_field (value : Value) (name : string) : result string bytes32 :=
  s ← str_field value name;
  ok_or (hex_decode_to_slice 32 s) (name +:+ " is not 32 bytes of hex").

Definition array_field (value : Value) (name : string) : result string (list Value) :=
  ok_or (v ← json_get value name; json_as_array v) ("missing or invalid field: " +:+ name).

Definition row_str (row : Value) (name : string) : result string string :=
  ok_or (v ← json_get row name; json_as_str v) ("row field missing or non-string: " +:+ name).
Definition row_u64 (row : Value) (name : string) : result string Z :=
  s ← row_str row name;
  ok_or (parse_u64 s) ("row field " +:+ name +:+ " is not a u64 string").
Definition parse_row (row : Value) : result string OfferRowClaim :=
  collateral_str ← row_str row "collateral";
  collateral ← ok_or (asset_from_str collateral_str) "row collateral is not an asset id";
  expiry ← ok_or (v ← json_get row "expiry"; n ← json_as_u64 v; u32_try_from n)
             "row field missing or invalid: expiry";
  price_out ← row_u64 row "price_out";
  buyback ← row_u64 row "buyback";
  fee_per_unit ← row_u64 row "fee_per_unit";
  min_size ← row_u64 row "min_size";
  Ok {| row_collateral := collateral; row_expiry := expiry; row_price_out := price_out;
        row_buyback := buyback; row_fee_per_unit := fee_per_unit; row_min_size := min_size |}.

Definition parse_receive (r : Value) : result string (AssetId * Z) :=
  asset ← ok_or (v ← json_get r "asset"; s ← json_as_str v; asset_from_str s)
            "receives: asset is not an asset id";
  amount ← ok_or (v ← json_get r "amount"; s ← json_as_str v; parse_u64 s)
             "receives: amount is not a u64 string";
  Ok (asset, amount).

(** The seven fields every fill names, in the order they are read. *)
Definition fill_fields {A} (value : Value)
    (k : Z → Z → Z → Z → AssetId → option AssetId → Z → result string A) : result string A :=
  size ← u64_field value "size";
  sale ← u64_field value "sale";
  buyback ← u64_field value "buyback";
  expiry ← u32_field value "expiry";
  cash ← asset_field value "cash";
  collateral ← opt_asset_field value "collateral";
  fee ← u64_field value "fee";
  k size sale buyback expiry cash collateral fee.

Definition parse_fill_v1 (value : Value) : result string TypedFund :=
  fill_fields value (λ size sale buyback expiry cash collateral fee,
    Ok (Fill size sale buyback expiry cash collateral fee)).
Definition parse_fill_v2 (value : Value) : result string TypedFund :=
  payout ← hex32_field value "payout";
  fill_fields value (λ size sale buyback expiry cash collateral fee,
    Ok (FillV2 size sale buyback expiry cash collateral fee payout)).
Definition parse_fill_v3 (value : Value) : result string TypedFund :=
  payout ← hex32_field value "payout";
  fill_fields value (λ size sale buyback expiry cash collateral fee,
    Ok (FillV3 size sale buyback expiry cash collateral fee payout)).
Definition parse_fill_v4 (value : Value) : result string TypedFund :=
  payout ← hex32_field value "payout";
  lastlook ← hex32_field value "lastlook";
  fill_fields value (λ size sale buyback expiry cash collateral fee,
    lastlook_height ← u32_field value "lastlook_height";
    Ok (FillV4 size sale buyback expiry cash collateral fee payout lastlook lastlook_height)).
Definition parse_fill_v5 (value : Value) : result string TypedFund :=
  payout ← hex32_field value "payout";
  lastlook ← hex32_field value "lastlook";
  fill_fields value (λ size sale buyback expiry cash collateral fee,
    lastlook_height ← u32_field value "lastlook_height";
    Ok (FillV5 size sale buyback expiry cash collateral fee payout lastlook lastlook_height)).
Definition parse_fill_v6 (value : Value) : result string TypedFund :=
  payout ← hex32_field value "payout";
  lastlook ← hex32_field value "lastlook";
  fill_fields value (λ size sale buyback expiry cash collateral fee,
    lastlook_height ← u32_field value "lastlook_height";
    lender_nft ← asset_field value "lender_nft";
    Ok (FillV6 size sale buyback expiry cash collateral fee payout lastlook lastlook_height lender_nft)).

Definition parse_offer (value : Value) : result string TypedFund :=
  amounts_json ← array_field value "amounts";
  amounts ← try_collect (λ a, ok_or (s ← json_as_str a; parse_u64 s) "amounts must be u64 strings")
              amounts_json;
  rows_json ← array_field value "rows";
  rows ← try_collect parse_row rows_json;
  cash ← asset_field value "cash";
  lender_token ← asset_field value "lender_token";
  claim ← hex32_field value "claim";
  fee_script ← hex32_field value "fee_script";
  position_leaf ← hex32_field value "position_leaf";
  fee_min ← u64_field value "fee_min";
  cutoff ← u32_field value "cutoff";
  token_output ←
    match json_get value "token_output" with
    | None => Ok None
    | Some v =>
        if json_is_null v then Ok None
        else t ← ok_or (n ← json_as_u64 v; u32_try_from n) "token_output is not an output index";
             Ok (Some t)
    end;
  Ok (Offer cash amounts lender_token claim fee_script position_leaf fee_min cutoff rows token_output).

Definition parse_offer_cancel (value : Value) : result string TypedFund :=
  cash ← asset_field value "cash";
  amount ← u64_field value "amount";
  fee ← u64_field value "fee";
  lender_token ← asset_field value "lender_token";
  Ok (OfferCancel cash amount fee lender_token).

Definition parse_claim (value : Value) : result string TypedFund :=
  receives_json ← array_field value "receives";
  receives ← try_collect parse_receive receives_json;
  lender_token ← asset_field value "lender_token";
  fee ← u64_field value "fee";
  Ok (Claim lender_token fee receives).

Definition parse_sell_right (value : Value) : result string TypedFund :=
  price ← u64_field value "price";
  cash ← asset_field value "cash";
  fee ← u64_field value "fee";
  Ok (SellRight price cash fee).

Definition parse_exercise (value : Value) : result string TypedFund :=
  amount ← u64_field value "amount";
  released ← u64_field value "released";
  remaining ← u64_field value "remaining";
  cash ← asset_field value "cash";
  collateral ← opt_asset_field value "collateral";
  Ok (Exercise amount released remaining cash collateral).

Definition parse_fields (kind : string) (value : Value) : result string TypedFund :=
  if bool_decide (kind = "sw/lend/fill/v1") then parse_fill_v1 value
  else if bool_decide (kind = "sw/lend/fill/v2") then parse_fill_v2 value
  else if bool_decide (kind = "sw/lend/fill/v3") then parse_fill_v3 value
  else if bool_decide (kind = "sw/lend/fill/v4") then parse_fill_v4 value
  else if bool_decide (kind = "sw/lend/fill/v5") then parse_fill_v5 value
  else if bool_decide (kind = "sw/lend/fill/v6") then parse_fill_v6 value
  else if bool_decide (kind = "sw/lend/offer/v1") then parse_offer value
  else if bool_decide (kind = "sw/lend/offer-cancel/v1") then parse_offer_cancel value
  else if bool_decide (kind = "sw/lend/claim/v1") then parse_claim value
  else if bool_decide (kind = "sw/lend/sellright/v1") then parse_sell_right value
  else if bool_decide (kind = "sw/lend/exercise/v1") then parse_exercise value
  else Err ("unknown typed fund kind: " +:+ kind).

Definition parse_typed_fund (memo : string) : option (result string TypedFund) :=
  value ← json_from_str (str_trim memo);
  kind ← (k ← json_get value "kind"; json_as_str k);
  if String.prefix "sw/" kind then Some (parse_fields kind value) else None.
End parse.

(** * Digests and scripts *)

Definition SWAPTION_LENDING_V2_LEAF : bytes32 :=
  hex_array 32 "41d218d4f2b492a9afb9e179ab76cd5d96a4977d2d266d558f7dd87c7df4522c".
Definition SWAPTION_LENDING_V3_LEAF : bytes32 :=
  hex_array 32 "880d441e2d854331fd1d5c48afac9fd8b705c5c001f48587325820dc10ee73a8".
Definition SWAPTION_LENDING_V4_LEAF : bytes32 :=
  hex_array 32 "939c233fc8ebbd59cce2ec10ef7bbf681dd933fa6431e4d58dc013b728d9ef1a".
Definition SWAPTION_LENDING_V5_LEAF : bytes32 :=
  hex_array 32 "da43157b075c4c18c1f7354ada37455fdfbd7eb481d6762a9f1843896d659725".
Definition SWAPTION_CLAIM_LEAF : bytes32 :=
  hex_array 32 "51f916310d382610bf7efd7b345d9641b3dc93917d2afb77289add911f3403e1".
Definition SWAPTION_OFFER_LEAF : bytes32 :=
  hex_array 32 "881b1416b04e9fb47b6ecde9701880470713c37b5b99388da973d4e0d508f41f".
Definition NUMS_KEY : bytes32 :=
  hex_array 32 "50929b74c1a04954b78b4b6035e97a5e078a5a0f28ec96d547bfee9ace803ac0".

Section scripts.
Context `{!HashesApi, !ElementsApi}.

(** The preimages, in the covenants' witness order. *)
Definition v2_terms (collateral cash : AssetId) (collateral_amount buyback_amount expiry_height : Z)
    (borrower_nft lender_nft : AssetId) (payout_script_hash : bytes32) : list byte :=
  slice collateral ++ slice cash ++ u64_be collateral_amount ++ u64_be buyback_amount
    ++ u32_be expiry_height ++ slice borrower_nft ++ slice lender_nft ++ slice payout_script_hash.
Definition v2_terms_digest (collateral cash : AssetId) (collateral_amount buyback_amount expiry_height : Z)
    (borrower_nft lender_nft : AssetId) (payout_script_hash : bytes32) : bytes32 :=
  sha256 (v2_terms collateral cash collateral_amount buyback_amount expiry_height
            borrower_nft lender_nft payout_script_hash).

Definition v4_terms (collateral cash : AssetId) (collateral_amount buyback_amount expiry_height : Z)
    (borrower_nft lender_nft : AssetId)
    (payout_script_hash borrower_payout_script_hash last_look_script_hash : bytes32)
    (last_look_height : Z) : list byte :=
  slice collateral ++ slice cash ++ u64_be collateral_amount ++ u64_be buyback_amount
    ++ u32_be expiry_height ++ slice borrower_nft ++ slice lender_nft ++ slice payout_script_hash
    ++ slice borrower_payout_script_hash ++ slice last_look_script_hash ++ u32_be last_look_height.
Definition v4_terms_digest (collateral cash : AssetId) (collateral_amount buyback_amount expiry_height : Z)
    (borrower_nft lender_nft : AssetId)
    (payout_script_hash borrower_payout_script_hash last_look_script_hash : bytes32)
    (last_look_height : Z) : bytes32 :=
  sha256 (v4_terms collateral cash collateral_amount buyback_amount expiry_height borrower_nft
            lender_nft payout_script_hash borrower_payout_script_hash last_look_script_hash
            last_look_height).
Definition v5_terms_digest := v4_terms_digest.

Definition row_bytes (r : option OfferRowClaim) : list byte :=
  match r with
  | Some r =>
      slice r.(row_collateral) ++ u32_be r.(row_expiry) ++ u64_be r.(row_price_out)
        ++ u64_be r.(row_buyback) ++ u64_be r.(row_fee_per_unit) ++ u64_be r.(row_min_size)
  | None => replicate 68 x00
  end.
Definition offer_terms (cash lender_token : AssetId)
    (claim_script_hash fee_script_hash position_leaf : bytes32) (fee_min cutoff_height : Z)
    (rows : list OfferRowClaim) : list byte :=
  slice cash ++ slice lender_token ++ slice claim_script_hash ++ slice fee_script_hash
    ++ slice position_leaf ++ u64_be fee_min ++ u32_be cutoff_height
    ++ row_bytes (rows !! 0%nat) ++ row_bytes (rows !! 1%nat) ++ row_bytes (rows !! 2%nat)
    ++ row_bytes (rows !! 3%nat).
Definition offer_terms_digest (cash lender_token : AssetId)
    (claim_script_hash fee_script_hash position_leaf : bytes32) (fee_min cutoff_height : Z)
    (rows : list OfferRowClaim) : bytes32 :=
  sha256 (offer_terms cash lender_token claim_script_hash fee_script_hash position_leaf
            fee_min cutoff_height rows).

Definition tap_tagged (tag : string) (parts : list (list byte)) : bytes32 :=
  let t := slice (sha256 (as_bytes tag)) in
  sha256 (t ++ t ++ concat parts).
Definition tap_branch (a b : bytes32) : bytes32 :=
  let '(l, r) := if bytes_leb (slice a) (slice b) then (a, b) else (b, a) in
  tap_tagged "TapBranch/elements" [slice l; slice r].
Definition nums_script (node : bytes32) : Script :=
  script_push1_slice (xonly_add_tweak NUMS_KEY (tap_tweak_hash NUMS_KEY (Some node))).

Definition debt_slot (remaining_debt : Z) : list byte := replicate 24 x00 ++ u64_be remaining_debt.
Definition position_node (program_leaf digest : bytes32) (remaining_debt : Z) : bytes32 :=
  tap_branch (tap_branch program_leaf (tap_tagged "TapData" [slice digest]))
    (tap_tagged "TapData" [debt_slot remaining_debt]).
Definition position_script (program_leaf digest : bytes32) (remaining_debt : Z) : Script :=
  nums_script (position_node program_leaf digest remaining_debt).
Definition v2_position_script : bytes32 → Z → Script := position_script SWAPTION_LENDING_V2_LEAF.
Definition v3_position_script : bytes32 → Z → Script := position_script SWAPTION_LENDING_V3_LEAF.
Definition v4_position_script : bytes32 → Z → Script := position_script SWAPTION_LENDING_V4_LEAF.
Definition v5_position_script : bytes32 → Z → Script := position_script SWAPTION_LENDING_V5_LEAF.
Definition offer_script : bytes32 → Z → Script := position_script SWAPTION_OFFER_LEAF.
Definition claim_script (lender_nft : AssetId) : Script :=
  nums_script (tap_branch SWAPTION_CLAIM_LEAF (tap_tagged "TapData" [slice lender_nft])).
End scripts.

(** Payload of an [OP_RETURN <push>] script. *)
Definition op_return_payload (script : Script) : option (list byte) :=
  match script with
  | b0 :: rest =>
      if bool_decide (b0 = x6a) then
        match rest with
        | [] => None
        | b1 :: _ =>
            let n := byte_Z b1 in
            if (1 <=? n) && (n <=? 75) then
              if bool_decide (Z.of_nat (length script) = 2 + n) then Some (drop 2 script) else None
            else if n =? 76 then
              b2 ← script !! 2%nat;
              if bool_decide (Z.of_nat (length script) = 3 + byte_Z b2) then Some (drop 3 script) else None
            else None
        end
      else None
  | [] => None
  end.

(** * Rendering *)

Definition fmt8 (sats : Z) : string :=
  let whole := sats / 100000000 in
  let frac := sats mod 100000000 in
  if frac =? 0 then dec_string whole
  else trim_end_matches "0" (dec_string whole +:+ "." +:+ fixed_digits 8 frac "").

Definition collateral (f : TypedFund) : option AssetId :=
  match f with
  | Fill _ _ _ _ _ collateral _ | FillV2 _ _ _ _ _ collateral _ _ | FillV3 _ _ _ _ _ collateral _ _
  | FillV4 _ _ _ _ _ collateral _ _ _ _ | FillV5 _ _ _ _ _ collateral _ _ _ _
  | FillV6 _ _ _ _ _ collateral _ _ _ _ _ | Exercise _ _ _ _ collateral => collateral
  | Offer _ _ _ _ _ _ _ _ rows _ => row_collateral <$> head rows
  | SellRight _ _ _ | OfferCancel _ _ _ _ | Claim _ _ _ => None
  end.

Definition cash (f : TypedFund) : AssetId :=
  match f with
  | Fill _ _ _ _ cash _ _ | FillV2 _ _ _ _ cash _ _ _ | FillV3 _ _ _ _ cash _ _ _
  | FillV4 _ _ _ _ cash _ _ _ _ _ | FillV5 _ _ _ _ cash _ _ _ _ _ | FillV6 _ _ _ _ cash _ _ _ _ _ _
  | Offer cash _ _ _ _ _ _ _ _ _ | OfferCancel cash _ _ _ | SellRight _ cash _
  | Exercise _ _ _ cash _ => cash
  | Claim lender_token _ receives => default lender_token (fst <$> head receives)
  end.

(** The sentence all fills share. *)
Definition render_fill (collateral_symbol cash_symbol : string) (size sale buyback expiry fee : Z) : string :=
  "Sell " +:+ fmt8 size +:+ " " +:+ collateral_symbol +:+ " for " +:+ fmt8 sale +:+ " " +:+ cash_symbol
    +:+ " · buy back for " +:+ fmt8 buyback +:+ " " +:+ cash_symbol +:+ " until block " +:+ dec_string expiry
    +:+ " · fee " +:+ fmt8 fee +:+ " " +:+ cash_symbol.
Definition render_lastlook (lastlook_height : Z) : string :=
  " · from block " +:+ dec_string lastlook_height
    +:+ " Swaption may exercise an unused in-the-money right for you and pay you the surplus less its fee".

Fixpoint join_strings (sep : string) (l : list string) : string :=
  match l with [] => "" | [s] => s | s :: l => s +:+ sep +:+ join_strings sep l end.

Definition render_row (collateral_symbol cash_symbol : string) (r : OfferRowClaim) : string :=
  "pay up to " +:+ fmt8 r.(row_price_out) +:+ " " +:+ cash_symbol +:+ " per " +:+ collateral_symbol
    +:+ " (Swaption's fee included) with buyback at " +:+ fmt8 r.(row_buyback) +:+ " " +:+ cash_symbol
    +:+ " until block " +:+ dec_string r.(row_expiry).

Definition render_with (f : TypedFund) (collateral_symbol cash_symbol : string) : string :=
  match f with
  | Fill size sale buyback expiry _ _ fee
  | FillV2 size sale buyback expiry _ _ fee _
  | FillV3 size sale buyback expiry _ _ fee _ =>
      render_fill collateral_symbol cash_symbol size sale buyback expiry fee
  | FillV4 size sale buyback expiry _ _ fee _ _ lastlook_height
  | FillV5 size sale buyback expiry _ _ fee _ _ lastlook_height =>
      render_fill collateral_symbol cash_symbol size sale buyback expiry fee
        +:+ render_lastlook lastlook_height
  | FillV6 size sale buyback expiry _ _ fee _ _ lastlook_height _ =>
      render_fill collateral_symbol cash_symbol size sale buyback expiry fee
        +:+ render_lastlook lastlook_height
        +:+ " · the cash comes from a lender's offer on chain"
  | Offer _ amounts _ _ _ _ _ cutoff rows token_output =>
      let total := foldr Z.add 0 amounts mod 2 ^ 64 in
      let rows_text := render_row collateral_symbol cash_symbol <$> rows in
      let coins := if (1 <? length amounts)%nat
                   then " in " +:+ dec_string (Z.of_nat (length amounts)) +:+ " coins" else "" in
      let token := match token_output with
                   | Some _ => " · you receive your lender token: it withdraws your offers and collects what your lending pays, keep it"
                   | None => ""
                   end in
      "Lend " +:+ fmt8 total +:+ " " +:+ cash_symbol +:+ " on chain" +:+ coins +:+ ": "
        +:+ join_strings "; " rows_text
        +:+ " · anyone may fill it with no further approval from you · withdraw any time; after block "
        +:+ dec_string cutoff +:+ " it returns to your claim" +:+ token
  | OfferCancel _ amount fee _ =>
      "Withdraw your lend offer: " +:+ fmt8 amount +:+ " " +:+ cash_symbol
        +:+ " back to this wallet · you pay the " +:+ dec_string fee +:+ " sat network fee"
  | Claim _ fee receives =>
      "Collect what your lending paid into this wallet (" +:+ dec_string (Z.of_nat (length receives))
        +:+ " coin" +:+ (if (length receives =? 1)%nat then "" else "s") +:+ ") · you pay the "
        +:+ dec_string fee +:+ " sat network fee"
  | SellRight price _ fee =>
      "Sell your buyback right for " +:+ fmt8 price +:+ " " +:+ cash_symbol +:+ " · you pay the "
        +:+ dec_string fee +:+ " sat network fee · the position closes for you"
  | Exercise amount released remaining _ _ =>
      let tail := if 0 <? remaining
                  then fmt8 remaining +:+ " " +:+ cash_symbol +:+ " still owed after"
                  else "position closed" in
      "Buy back " +:+ fmt8 released +:+ " " +:+ collateral_symbol +:+ " for " +:+ fmt8 amount +:+ " "
        +:+ cash_symbol +:+ " · " +:+ tail
  end.
Definition render (f : TypedFund) (cash_symbol : string) : string := render_with f "BTC" cash_symbol.
