(* ===== verification/FieldsLib.v ===== *)
(** The ranges of the numeric fields of a typed claim, whatever module parses
    it: a [u64] is a decimal string, a [u32] a JSON number. *)

From S2P Require Import Prelude Crates Pset LendingData.

(** [serde_json]: [as_u64] returns a [u64]. *)
Class JsonLaws `{JsonApi} := as_u64_range : ∀ v n, json_as_u64 v = Some n → in_u64 n.

Section fields.
Context `{!HexApi, !JsonApi, !ElementsApi}.

Lemma dec_value_nonneg s acc v : 0 ≤ acc → dec_value acc s = Some v → 0 ≤ v.
Proof.
  revert acc; induction s as [|a s IH]; intros acc Ha; simpl; [by intros [= <-]|].
  destruct (is_ascii_digit a) eqn:E; [|done]. unfold is_ascii_digit in E. bool_inv.
  apply IH. lia.
Qed.
Lemma parse_u64_range s v : parse_u64 s = Some v → in_u64 v.
Proof.
  unfold parse_u64, parse_uint. case_bool_decide; [done|].
  destruct (dec_value 0 _) as [w|] eqn:E; [|done]. simpl.
  destruct (Z.leb_spec w U64_MAX); [|done]. intros [= <-].
  apply dec_value_nonneg in E; [|lia]. unfold in_u64, U64_MAX in *. lia.
Qed.
Lemma u64_field_range value name v : u64_field value name = Ok v → in_u64 v.
Proof. unfold u64_field. intros. result_inv. by eapply parse_u64_range. Qed.
Lemma row_u64_range value name v : row_u64 value name = Ok v → in_u64 v.
Proof. unfold row_u64. intros. result_inv. by eapply parse_u64_range. Qed.

Context `{!JsonLaws}.

Lemma and_then_u32_range (o : option Value) v :
  (v ← o; n ← json_as_u64 v; u32_try_from n) = Some v → in_u32 v.
Proof.
  destruct o as [j|]; [|done]. simpl. destruct (json_as_u64 j) as [n|] eqn:E; [|done]. simpl.
  intros [-> ?]%u32_try_from_Some. apply as_u64_range in E. unfold in_u32, in_u64 in *. lia.
Qed.
Lemma u32_field_range value name v : u32_field value name = Ok v → in_u32 v.
Proof. unfold u32_field. intros ?%ok_or_Ok. by eapply and_then_u32_range. Qed.
End fields.

Create HintDb ranges.
#[export] Hint Resolve parse_u64_range u64_field_range row_u64_range u32_field_range and_then_u32_range : ranges.
