(* ===== verification/Lending.v ===== *)
(** The check of a typed claim against the template it describes:
    [verify_typed_fund] ([lc-wallet-core/src/lending.rs]), one definition per
    arm. *)

From S2P Require Import Prelude Crates Key Pset Approval LendingData.

Definition FILL_POSITION_OUTPUT : nat := 0.
Definition FILL_BORROWER_NFT_OUTPUT : nat := 1.
Definition FILL_LENDER_NFT_OUTPUT : nat := 2.
Definition FILL_METADATA_OUTPUT : nat := 3.
Definition METADATA_LEN : nat := 80.

Record TypedFundCheck := { tfc_claim : TypedFund; tfc_receives : Z }.

(** [&meta[a..b]] *)
Definition subslice (a b : nat) (l : list byte) : list byte := take (b - a) (drop a l).

Section verify.
Context `{!HashesApi, !ElementsApi, !PsetTypes, !PsetApi}.
(** The variables the arms share: the fund request's asset and amount, the
    network's policy asset, the template's outputs, and what the host
    declared as its own. *)
Context (requested : AssetId) (amount : Z) (policy_asset : AssetId).
Context (outputs : list PsetOutput) (mine : list nat) (owned : list OwnedInput).

Definition explicit (i : nat) : result string (AssetId * Z) :=
  out ← ok_or (outputs !! i) "template has no output";
  match out.(out_asset), out.(out_amount) with
  | Some asset, Some amount => Ok (asset, amount)
  | _, _ => Err "template output is not explicit"
  end.
Definition is_mine (i : nat) : bool := existsb (Nat.eqb i) mine.
Definition mine_paying (asset : AssetId) : list Z :=
  omap (λ i, match explicit i with
             | Ok (a, v) => if bool_decide (a = asset) then Some v else None
             | Err _ => None
             end) mine.

(** ** The checks the fill arms repeat *)

Definition fill_head (collateral : AssetId) (size sale buyback : Z) : result string unit :=
  _ ← ensure (bool_decide (requested = collateral)) "fill: the funded asset must be the collateral asset";
  _ ← ensure (amount =? size) "fill: stated size does not equal the funded amount";
  ensure (sale <? buyback) "fill: buyback must exceed the sale price".
Definition fill_position (collateral : AssetId) (size : Z) : result string unit :=
  '(asset, value) ← explicit FILL_POSITION_OUTPUT;
  ensure (bool_decide (asset = collateral) && (value =? size))
    "fill: output 0 is not the size of the collateral asset".
Definition fill_borrower_token : result string AssetId :=
  '(borrower_nft, nft) ← explicit FILL_BORROWER_NFT_OUTPUT;
  _ ← ensure ((nft =? 1) && is_mine FILL_BORROWER_NFT_OUTPUT)
        "fill: output 1 must pay this wallet its position token";
  Ok borrower_nft.
Definition fill_lender_token : result string AssetId :=
  '(lender_nft, nft2) ← explicit FILL_LENDER_NFT_OUTPUT;
  _ ← ensure (nft2 =? 1) "fill: output 2 must be the lender's token";
  Ok lender_nft.
Definition fill_claim_payout (lender_nft : AssetId) (payout : bytes32) : result string unit :=
  ensure (bool_decide (sha256 (claim_script lender_nft) = payout))
    "fill: the lender payout is not the claim script of the lender token".
Definition fill_covenant (expected : Script) : result string unit :=
  out0 ← ok_or (outputs !! FILL_POSITION_OUTPUT) "checked above";
  ensure (bool_decide (out_script_pubkey out0 = expected))
    "fill: output 0 is not the lending covenant for the stated terms".
Definition fill_borrower_hash : result string bytes32 :=
  borrower_script ← ok_or (out_script_pubkey <$> outputs !! FILL_BORROWER_NFT_OUTPUT)
                      "template has no output 1";
  Ok (sha256 borrower_script).
Definition fill_lastlook (lastlook_height expiry : Z) : result string unit :=
  ensure ((lastlook_height =? 0) || (lastlook_height <? expiry))
    "fill: the last-look height must be before expiry".
Definition fill_proceeds (sale fee : Z) (cash : AssetId) : result string Z :=
  proceeds ← ok_or (u64_checked_sub sale fee) "fill: fee exceeds the sale price";
  _ ← ensure (existsb (Z.eqb proceeds) (mine_paying cash))
        "fill: no output pays this wallet the sale proceeds";
  Ok proceeds.

(** ** One definition per arm: what the wallet receives *)

Definition verify_fill (size sale buyback expiry : Z) (cash : AssetId) (collateral : option AssetId)
    (fee : Z) : result string Z :=
  let collateral := default policy_asset collateral in
  _ ← fill_head collateral size sale buyback;
  _ ← fill_position collateral size;
  _ ← fill_borrower_token;
  meta ← ok_or (o ← outputs !! FILL_METADATA_OUTPUT; op_return_payload o.(out_script_pubkey))
           "fill: output 3 is not the creation metadata";
  _ ← ensure (length meta =? METADATA_LEN)%nat "fill: metadata length";
  meta_cash ← ok_or (asset_from_slice (subslice 4 36 meta)) "invalid asset";
  let meta_buyback := le_val (subslice 36 44 meta) in
  let meta_expiry := le_val (subslice 44 48 meta) in
  _ ← ensure (bool_decide (meta_cash = cash)) "fill: metadata names a different cash asset";
  _ ← ensure (meta_buyback =? buyback) "fill: metadata buyback does not match the claim";
  _ ← ensure (meta_expiry =? expiry) "fill: metadata expiry does not match the claim";
  fill_proceeds sale fee cash.

Definition verify_fill_v2 (size sale buyback expiry : Z) (cash : AssetId)
    (collateral : option AssetId) (fee : Z) (payout : bytes32) : result string Z :=
  let collateral := default policy_asset collateral in
  _ ← fill_head collateral size sale buyback;
  _ ← fill_position collateral size;
  borrower_nft ← fill_borrower_token;
  lender_nft ← fill_lender_token;
  let digest := v2_terms_digest collateral cash size buyback expiry borrower_nft lender_nft payout in
  _ ← fill_covenant (v2_position_script digest buyback);
  fill_proceeds sale fee cash.

Definition verify_fill_v3 (size sale buyback expiry : Z) (cash : AssetId)
    (collateral : option AssetId) (fee : Z) (payout : bytes32) : result string Z :=
  let collateral := default policy_asset collateral in
  _ ← fill_head collateral size sale buyback;
  _ ← fill_position collateral size;
  borrower_nft ← fill_borrower_token;
  lender_nft ← fill_lender_token;
  _ ← fill_claim_payout lender_nft payout;
  let digest := v2_terms_digest collateral cash size buyback expiry borrower_nft lender_nft payout in
  _ ← fill_covenant (v3_position_script digest buyback);
  fill_proceeds sale fee cash.

Definition verify_fill_v4 (size sale buyback expiry : Z) (cash : AssetId)
    (collateral : option AssetId) (fee : Z) (payout lastlook : bytes32) (lastlook_height : Z)
    : result string Z :=
  let collateral := default policy_asset collateral in
  _ ← fill_head collateral size sale buyback;
  _ ← fill_position collateral size;
  borrower_nft ← fill_borrower_token;
  lender_nft ← fill_lender_token;
  _ ← fill_claim_payout lender_nft payout;
  borrower_hash ← fill_borrower_hash;
  _ ← fill_lastlook lastlook_height expiry;
  let digest := v4_terms_digest collateral cash size buyback expiry borrower_nft lender_nft payout
                  borrower_hash lastlook lastlook_height in
  _ ← fill_covenant (v4_position_script digest buyback);
  fill_proceeds sale fee cash.

Definition verify_fill_v5 (size sale buyback expiry : Z) (cash : AssetId)
    (collateral : option AssetId) (fee : Z) (payout lastlook : bytes32) (lastlook_height : Z)
    : result string Z :=
  let collateral := default policy_asset collateral in
  _ ← fill_head collateral size sale buyback;
  _ ← fill_position collateral size;
  borrower_nft ← fill_borrower_token;
  lender_nft ← fill_lender_token;
  _ ← fill_claim_payout lender_nft payout;
  borrower_hash ← fill_borrower_hash;
  _ ← fill_lastlook lastlook_height expiry;
  let digest := v5_terms_digest collateral cash size buyback expiry borrower_nft lender_nft payout
                  borrower_hash lastlook lastlook_height in
  _ ← fill_covenant (v5_position_script digest buyback);
  fill_proceeds sale fee cash.

Definition verify_fill_v6 (size sale buyback expiry : Z) (cash : AssetId)
    (collateral : option AssetId) (fee : Z) (payout lastlook : bytes32) (lastlook_height : Z)
    (lender_nft : AssetId) : result string Z :=
  let collateral := default policy_asset collateral in
  _ ← fill_head collateral size sale buyback;
  _ ← fill_position collateral size;
  borrower_nft ← fill_borrower_token;
  _ ← fill_claim_payout lender_nft payout;
  borrower_hash ← fill_borrower_hash;
  _ ← fill_lastlook lastlook_height expiry;
  let digest := v5_terms_digest collateral cash size buyback expiry borrower_nft lender_nft payout
                  borrower_hash lastlook lastlook_height in
  _ ← fill_covenant (v5_position_script digest buyback);
  fill_proceeds sale fee cash.

Definition row_positive (r : OfferRowClaim) : bool :=
  (0 <? r.(row_expiry)) && (0 <? r.(row_price_out)) && (0 <? r.(row_buyback)) && (0 <? r.(row_min_size)).

(** [amounts.iter().try_fold(0u64, checked_add)] *)
Definition checked_total (amounts : list Z) : result string Z :=
  try_fold (λ acc a, ok_or (u64_checked_add acc a) "offer: amounts overflow") amounts 0.

Definition offer_coin (cash : AssetId) (digest : bytes32) (ia : nat * Z) : result string unit :=
  let '(i, a) := ia in
  '(asset, value) ← explicit i;
  _ ← ensure (bool_decide (asset = cash) && (value =? a)) "offer: output is not the amount of the cash asset";
  out ← ok_or (outputs !! i) "checked above";
  ensure (bool_decide (out_script_pubkey out = offer_script digest a))
    "offer: output is not the offer covenant for the stated terms".

Definition verify_offer (cash : AssetId) (amounts : list Z) (lender_token : AssetId)
    (claim_hash fee_script position_leaf : bytes32) (fee_min cutoff : Z)
    (rows : list OfferRowClaim) (token_output : option Z) : result string Z :=
  _ ← ensure (bool_decide (requested = cash)) "offer: the funded asset must be the cash asset";
  _ ← ensure (negb (bool_decide (amounts = [])) && (length amounts <=? 4)%nat) "offer: one to four coins";
  total ← checked_total amounts;
  _ ← ensure (amount =? total) "offer: stated amounts do not equal the funded amount";
  _ ← ensure (negb (Nat.eqb (length rows) 0) && (length rows <=? 4)%nat) "offer: one to four rows";
  _ ← try_fold (λ (_ : unit) r, ensure (row_positive r) "offer: a row with a zero term") rows tt;
  _ ← ensure (bool_decide (position_leaf = SWAPTION_LENDING_V5_LEAF))
        "offer: the position program is not the one this wallet verifies";
  _ ← ensure (bool_decide (claim_hash = sha256 (claim_script lender_token)))
        "offer: the claim script is not the lender token's";
  let digest := offer_terms_digest cash lender_token claim_hash fee_script position_leaf fee_min cutoff rows in
  _ ← try_fold (λ (_ : unit) ia, offer_coin cash digest ia) (enumerate amounts) tt;
  _ ← match token_output with
      | None => Ok tt
      | Some t =>
          let t := Z.to_nat t in
          '(asset, value) ← explicit t;
          ensure (bool_decide (asset = lender_token) && (value =? 1) && is_mine t)
            "offer: output must pay this wallet its lender token"
      end;
  Ok 0.

(** [owned.iter().find(|o| o.index == 0)] *)
Definition owned_input0 (e : string) : result string OwnedInput :=
  ok_or (List.find (λ o, (o.(oi_index) =? 0)%nat) owned) e.

(** The largest own row of an asset that pays at least [least]. *)
Definition best_paying (asset : AssetId) (least : Z) (e : string) : result string Z :=
  ok_or (list_max_opt (List.filter (λ v, least <=? v) (mine_paying asset))) e.

Definition verify_offer_cancel (cash : AssetId) (back fee : Z) (lender_token : AssetId) : result string Z :=
  token ← owned_input0 "offer cancel: input 0 must be this wallet's lender token";
  _ ← ensure ((token.(oi_amount) =? 1) && bool_decide (token.(oi_asset) = lender_token))
        "offer cancel: input 0 is not the lender token";
  _ ← ensure (bool_decide (requested = policy_asset) && (amount =? fee))
        "offer cancel: the wallet funds only the network fee";
  _ ← ensure (fee <=? 5000) "offer cancel: network fee is unreasonable";
  '(a0, v0) ← explicit 0;
  _ ← ensure (bool_decide (a0 = lender_token) && (v0 =? 1) && is_mine 0)
        "offer cancel: output 0 must return the lender token to this wallet";
  best_paying cash back "offer cancel: no output pays this wallet at least that much cash".

Definition verify_claim (lender_token : AssetId) (fee : Z) (receives : list (AssetId * Z)) : result string Z :=
  token ← owned_input0 "claim: input 0 must be this wallet's lender token";
  _ ← ensure ((token.(oi_amount) =? 1) && bool_decide (token.(oi_asset) = lender_token))
        "claim: input 0 is not the lender token";
  _ ← ensure (bool_decide (requested = policy_asset) && (amount =? fee))
        "claim: the wallet funds only the network fee";
  _ ← ensure (fee <=? 20000) "claim: network fee is unreasonable";
  _ ← ensure (negb (bool_decide (receives = []))) "claim: nothing received";
  '(a0, v0) ← explicit 0;
  _ ← ensure (bool_decide (a0 = lender_token) && (v0 =? 1) && is_mine 0)
        "claim: output 0 must return the lender token to this wallet";
  _ ← try_fold (λ (_ : unit) '(asset, amt),
        ensure (existsb (λ v, amt <=? v) (mine_paying asset))
          "claim: no output pays this wallet at least that much of the asset") receives tt;
  Ok (default 0 (snd <$> head receives)).

Definition verify_sell_right (price : Z) (cash : AssetId) (fee : Z) : result string Z :=
  token ← owned_input0 "sell right: input 0 must be this wallet's position token";
  _ ← ensure (token.(oi_amount) =? 1) "sell right: input 0 is not a one-unit token";
  _ ← ensure (bool_decide (requested = policy_asset) && (amount =? fee))
        "sell right: the wallet funds only the network fee";
  _ ← ensure (fee <=? 5000) "sell right: network fee is unreasonable";
  _ ← ensure (0 <? price) "sell right: price must be positive";
  best_paying cash price "sell right: no output pays this wallet at least the price of cash".

Definition verify_exercise (pay released remaining : Z) (cash : AssetId) (collateral : option AssetId)
    : result string Z :=
  let collateral := default policy_asset collateral in
  _ ← ensure (bool_decide (requested = cash)) "exercise: the funded asset must be the cash asset";
  _ ← ensure (amount =? pay) "exercise: stated amount does not equal the funded amount";
  token ← owned_input0 "exercise: input 0 must be this wallet's position token";
  _ ← ensure (token.(oi_amount) =? 1) "exercise: input 0 is not a one-unit token";
  _ ← (if 0 <? remaining then
         '(asset, value) ← explicit 0;
         let burned := match outputs !! 0%nat with
                       | Some o => bool_decide (is_Some (op_return_payload o.(out_script_pubkey)))
                       | None => true
                       end in
         _ ← ensure (bool_decide (asset = token.(oi_asset)) && (value =? 1) && is_mine 0 && negb burned)
               "exercise: output 0 must return the position token to this wallet";
         '(asset, _) ← explicit 1;
         ensure (bool_decide (asset = collateral)) "exercise: output 1 must be the continuing position"
       else
         out ← ok_or (outputs !! 0%nat) "template has no output 0";
         ensure (bool_decide (is_Some (op_return_payload out.(out_script_pubkey)))
                 && bool_decide (out.(out_asset) = Some token.(oi_asset)))
           "exercise: a full buyback must burn the position token at output 0");
  best_paying collateral released "exercise: no output pays this wallet at least the collateral released".

Definition verify_arm (claim : TypedFund) : result string Z :=
  match claim with
  | Fill size sale buyback expiry cash collateral fee =>
      verify_fill size sale buyback expiry cash collateral fee
  | FillV2 size sale buyback expiry cash collateral fee payout =>
      verify_fill_v2 size sale buyback expiry cash collateral fee payout
  | FillV3 size sale buyback expiry cash collateral fee payout =>
      verify_fill_v3 size sale buyback expiry cash collateral fee payout
  | FillV4 size sale buyback expiry cash collateral fee payout lastlook lastlook_height =>
      verify_fill_v4 size sale buyback expiry cash collateral fee payout lastlook lastlook_height
  | FillV5 size sale buyback expiry cash collateral fee payout lastlook lastlook_height =>
      verify_fill_v5 size sale buyback expiry cash collateral fee payout lastlook lastlook_height
  | FillV6 size sale buyback expiry cash collateral fee payout lastlook lastlook_height lender_nft =>
      verify_fill_v6 size sale buyback expiry cash collateral fee payout lastlook lastlook_height lender_nft
  | Offer cash amounts lender_token claim fee_script position_leaf fee_min cutoff rows token_output =>
      verify_offer cash amounts lender_token claim fee_script position_leaf fee_min cutoff rows token_output
  | OfferCancel cash back fee lender_token => verify_offer_cancel cash back fee lender_token
  | Claim lender_token fee receives => verify_claim lender_token fee receives
  | SellRight price cash fee => verify_sell_right price cash fee
  | Exercise pay released remaining cash collateral => verify_exercise pay released remaining cash collateral
  end.
End verify.

Section typed.
Context `{!HashesApi, !ElementsApi, !PsetTypes, !PsetApi}.

Definition verify_typed_fund (claim : TypedFund) (template_b64 asset_id : string) (amount : Z)
    (policy_asset : AssetId) (mine : list nat) (owned : list OwnedInput) : result string TypedFundCheck :=
  requested ← ok_or (asset_from_str asset_id) "asset_id is not a 64-hex asset id";
  pset ← decode_pset template_b64;
  receives ← verify_arm requested amount policy_asset (pset_outputs pset) mine owned claim;
  Ok {| tfc_claim := claim; tfc_receives := receives |}.
End typed.
