(* ===== verification/LendingSpec.v ===== *)
(** What an accepted typed claim guarantees: the funding it demands, what the
    wallet receives, the covenant the template builds, and that the digests
    and scripts bind every term. *)

From S2P Require Import Prelude Crates Key Pset Approval LendingData Lending.

(** * Reading a claim *)

(** The terms all fills share. *)
Record FillTerms := {
  ft_size : Z; ft_sale : Z; ft_buyback : Z; ft_expiry : Z;
  ft_cash : AssetId; ft_collateral : option AssetId; ft_fee : Z;
}.
Definition fill_terms (f : TypedFund) : option FillTerms :=
  match f with
  | Fill size sale buyback expiry cash collateral fee
  | FillV2 size sale buyback expiry cash collateral fee _
  | FillV3 size sale buyback expiry cash collateral fee _
  | FillV4 size sale buyback expiry cash collateral fee _ _ _
  | FillV5 size sale buyback expiry cash collateral fee _ _ _
  | FillV6 size sale buyback expiry cash collateral fee _ _ _ _ =>
      Some {| ft_size := size; ft_sale := sale; ft_buyback := buyback; ft_expiry := expiry;
              ft_cash := cash; ft_collateral := collateral; ft_fee := fee |}
  | _ => None
  end.

(** What a claim says the wallet funds, and the cap on a pure network fee. *)
Definition pays (policy_asset : AssetId) (f : TypedFund) : AssetId * Z :=
  match f with
  | Fill size _ _ _ _ collateral _ | FillV2 size _ _ _ _ collateral _ _
  | FillV3 size _ _ _ _ collateral _ _ | FillV4 size _ _ _ _ collateral _ _ _ _
  | FillV5 size _ _ _ _ collateral _ _ _ _ | FillV6 size _ _ _ _ collateral _ _ _ _ _ =>
      (default policy_asset collateral, size)
  | Offer cash amounts _ _ _ _ _ _ _ _ => (cash, foldr Z.add 0 amounts)
  | OfferCancel _ _ fee _ | Claim _ fee _ | SellRight _ _ fee => (policy_asset, fee)
  | Exercise amount _ _ cash _ => (cash, amount)
  end.
Definition fee_cap (f : TypedFund) : option Z :=
  match f with
  | OfferCancel _ _ _ _ | SellRight _ _ _ => Some 5000
  | Claim _ _ _ => Some 20000
  | _ => None
  end.

(** The asset a claim brings in and the least amount it promises. *)
Definition promises (policy_asset : AssetId) (f : TypedFund) : option (AssetId * Z) :=
  match f with
  | Fill _ sale _ _ cash _ fee | FillV2 _ sale _ _ cash _ fee _ | FillV3 _ sale _ _ cash _ fee _
  | FillV4 _ sale _ _ cash _ fee _ _ _ | FillV5 _ sale _ _ cash _ fee _ _ _
  | FillV6 _ sale _ _ cash _ fee _ _ _ _ => Some (cash, sale - fee)
  | OfferCancel cash amount _ _ => Some (cash, amount)
  | SellRight price cash _ => Some (cash, price)
  | Exercise _ released _ _ collateral => Some (default policy_asset collateral, released)
  | Offer _ _ _ _ _ _ _ _ _ _ | Claim _ _ _ => None
  end.
(** All a claim says the wallet receives: a collection lists its rows, an
    offer brings nothing in. *)
Definition promised (policy_asset : AssetId) (f : TypedFund) : list (AssetId * Z) :=
  match f with Claim _ _ receives => receives | f => option_list (promises policy_asset f) end.

Section rows.
Context `{!HashesApi, !ElementsApi, !PsetTypes, !PsetApi}.
Implicit Types (outputs : list PsetOutput) (mine : list nat).

(** Output [i] states [v] of [a]. *)
Definition row_is outputs (i : nat) (a : AssetId) (v : Z) : Prop :=
  ∃ o, outputs !! i = Some o ∧ o.(out_asset) = Some a ∧ o.(out_amount) = Some v.

Lemma explicit_Ok outputs i a v : explicit outputs i = Ok (a, v) ↔ row_is outputs i a v.
Proof.
  unfold explicit, row_is. destruct (outputs !! i) as [o|]; simpl; [|naive_solver].
  destruct (out_asset o) eqn:?, (out_amount o) eqn:?; naive_solver.
Qed.
Lemma is_mine_true mine i : is_mine mine i = true ↔ i ∈ mine.
Proof.
  unfold is_mine. rewrite existsb_exists. setoid_rewrite Nat.eqb_eq.
  setoid_rewrite <-list_elem_of_In. naive_solver.
Qed.
Lemma mine_paying_elem outputs mine a v :
  v ∈ mine_paying outputs mine a ↔ ∃ i, i ∈ mine ∧ row_is outputs i a v.
Proof.
  unfold mine_paying. rewrite list_elem_of_omap. apply exist_proper. intros i.
  apply and_iff_compat_l. rewrite <-explicit_Ok. destruct (explicit outputs i) as [[b w]|]; [|naive_solver].
  case_bool_decide; naive_solver.
Qed.
Lemma list_max_opt_Some l m : list_max_opt l = Some m → m ∈ l ∧ ∀ v, v ∈ l → v ≤ m.
Proof.
  revert m; induction l as [|x l IH]; intros m; simpl; [done|].
  destruct (list_max_opt l) as [w|] eqn:E; intros [= <-].
  - destruct (IH w eq_refl) as [Hin Hmax]. split.
    + apply elem_of_cons. destruct (Z.max_spec x w) as [[_ ->]|[_ ->]]; auto.
    + intros v [->|Hv%Hmax]%elem_of_cons; lia.
  - split; [by left|]. destruct l as [|y l]; [|by simpl in E; destruct (list_max_opt l)].
    intros v [->|?%not_elem_of_nil]%elem_of_cons; [lia|done].
Qed.
Lemma best_paying_Ok outputs mine a least e m :
  best_paying outputs mine a least e = Ok m →
  least ≤ m ∧ (∃ i, i ∈ mine ∧ row_is outputs i a m) ∧
  ∀ i v, i ∈ mine → row_is outputs i a v → v ≤ m.
Proof.
  unfold best_paying. intros [Hin Hmax]%ok_or_Ok%list_max_opt_Some.
  apply list_elem_of_In, filter_In in Hin as [Hin Hle%Z.leb_le].
  apply list_elem_of_In, mine_paying_elem in Hin. split_and!; [done..|].
  intros i v Hi Hv. destruct (Z.leb_spec least v); [|lia]. apply Hmax.
  apply list_elem_of_In, filter_In. split; [|by apply Z.leb_le].
  apply list_elem_of_In, mine_paying_elem. eauto.
Qed.
Lemma fill_proceeds_Ok outputs mine sale fee cash m :
  fill_proceeds outputs mine sale fee cash = Ok m →
  m = sale - fee ∧ fee ≤ sale ∧ ∃ i, i ∈ mine ∧ row_is outputs i cash m.
Proof.
  unfold fill_proceeds. intros Hp. result_inv.
  match goal with H : u64_checked_sub _ _ = _ |- _ => apply u64_checked_sub_Some in H as [-> ?] end.
  match goal with H : existsb _ _ = true |- _ => apply existsb_exists in H as (w & Hw & <-%Z.eqb_eq) end.
  apply list_elem_of_In, mine_paying_elem in Hw. done.
Qed.
Lemma checked_total_Ok acc amounts t :
  try_fold (λ acc a, ok_or (u64_checked_add acc a) "offer: amounts overflow") amounts acc = Ok t →
  t = acc + foldr Z.add 0 amounts ∧ (acc < 2 ^ 64 → t < 2 ^ 64).
Proof.
  revert acc; induction amounts as [|a l IH]; intros acc; simpl; [intros [= <-]; lia|].
  intros (b & [-> ?]%ok_or_Ok%u64_checked_add_Some & [-> Hb]%IH)%bind_Ok. split; [lia|auto].
Qed.
Lemma try_fold_unit {A} (f : A → result string unit) l u v :
  try_fold (λ _ x, f x) l u = Ok v → Forall (λ x, f x = Ok tt) l.
Proof.
  revert u; induction l as [|x l IH]; intros u; simpl; [constructor|].
  intros ([] & ? & ?%IH)%bind_Ok. by constructor.
Qed.
End rows.

(** Break a successful check into its conditions. *)
Ltac check_inv :=
  repeat match goal with
  | H : (_ ≫= _) = Ok _ |- _ => apply bind_Ok in H as (? & ? & H)
  | H : context [let '(_, _) := ?p in _] |- _ => destruct p
  | H : ensure _ _ = Ok _ |- _ => apply ensure_Ok in H
  | H : explicit _ _ = Ok _ |- _ => apply explicit_Ok in H
  end; bool_inv.

Section arms.
Context `{!HashesApi, !ElementsApi, !PsetTypes, !PsetApi}.
Context (requested : AssetId) (amount : Z) (policy_asset : AssetId).
Context (outputs : list PsetOutput) (mine : list nat) (owned : list OwnedInput).
Abbreviation arm := (verify_arm requested amount policy_asset outputs mine owned).

Lemma fill_head_Ok c size sale buyback u :
  fill_head requested amount c size sale buyback = Ok u →
  requested = c ∧ amount = size ∧ sale < buyback.
Proof. unfold fill_head. intros Hh. check_inv. done. Qed.
Lemma fill_position_Ok c size u : fill_position outputs c size = Ok u → row_is outputs 0 c size.
Proof. unfold fill_position. intros Hp. check_inv. by subst. Qed.
Lemma fill_borrower_token_Ok t :
  fill_borrower_token outputs mine = Ok t → row_is outputs 1 t 1 ∧ 1%nat ∈ mine.
Proof.
  unfold fill_borrower_token. intros Hp. check_inv. result_inv. subst. split; [done|].
  by apply is_mine_true.
Qed.
Lemma fill_lender_token_Ok t : fill_lender_token outputs = Ok t → row_is outputs 2 t 1.
Proof. unfold fill_lender_token. intros Hp. check_inv. result_inv. by subst. Qed.
Lemma fill_claim_payout_Ok t payout u :
  fill_claim_payout t payout = Ok u → payout = sha256 (claim_script t).
Proof. unfold fill_claim_payout. intros Hp. check_inv. done. Qed.
Lemma fill_covenant_Ok s u :
  fill_covenant outputs s = Ok u → ∃ o, outputs !! 0%nat = Some o ∧ o.(out_script_pubkey) = s.
Proof. unfold fill_covenant. intros Hp. result_inv. bool_inv. eauto. Qed.
Lemma fill_borrower_hash_Ok h :
  fill_borrower_hash outputs = Ok h →
  ∃ o, outputs !! 1%nat = Some o ∧ h = sha256 o.(out_script_pubkey).
Proof.
  unfold fill_borrower_hash. intros Hp. result_inv.
  match goal with H : _ <$> _ = Some _ |- _ => apply fmap_Some in H as (o & ? & ->) end. eauto.
Qed.

(** A successful arm of a fill, as its steps. *)
Ltac fill_inv :=
  check_inv;
  repeat match goal with
  | H : fill_head _ _ _ _ _ _ = Ok _ |- _ => apply fill_head_Ok in H as (? & ? & ?)
  | H : fill_position _ _ _ = Ok _ |- _ => apply fill_position_Ok in H
  | H : fill_borrower_token _ _ = Ok _ |- _ => apply fill_borrower_token_Ok in H as [? ?]
  | H : fill_lender_token _ = Ok _ |- _ => apply fill_lender_token_Ok in H
  | H : fill_claim_payout _ _ = Ok _ |- _ => apply fill_claim_payout_Ok in H
  | H : fill_covenant _ _ = Ok _ |- _ => apply fill_covenant_Ok in H as (? & ? & ?)
  | H : fill_borrower_hash _ = Ok _ |- _ => apply fill_borrower_hash_Ok in H as (? & ? & ?)
  | H : fill_proceeds _ _ _ _ _ = Ok _ |- _ => apply fill_proceeds_Ok in H as (? & ? & ?)
  end.
Ltac arm_unfold :=
  unfold verify_arm, verify_fill, verify_fill_v2, verify_fill_v3, verify_fill_v4, verify_fill_v5,
    verify_fill_v6, verify_offer, verify_offer_cancel, verify_claim, verify_sell_right,
    verify_exercise, checked_total in *.

Lemma arm_funding f m :
  arm f = Ok m →
  requested = (pays policy_asset f).1 ∧ amount = (pays policy_asset f).2 ∧
  match fee_cap f with Some cap => amount ≤ cap | None => True end.
Proof.
  intros Hv. destruct f; arm_unfold; fill_inv; try (by subst); cbn in *.
  match goal with H : try_fold _ _ 0 = Ok _ |- _ => apply checked_total_Ok in H as [-> _] end.
  split_and!; [done|lia|done].
Qed.

Lemma arm_receives f m a least :
  arm f = Ok m → promises policy_asset f = Some (a, least) →
  least ≤ m ∧ ∃ i, i ∈ mine ∧ row_is outputs i a m.
Proof.
  intros Hv Hp. destruct f; simplify_eq/=; arm_unfold; fill_inv;
    try match goal with H : best_paying _ _ _ _ _ = Ok _ |- _ => apply best_paying_Ok in H as (? & ? & _) end;
    subst; try done; split; by try lia.
Qed.

(** A collection reports the amount its first row states. *)
Lemma arm_claim token fee receives m :
  arm (Claim token fee receives) = Ok m →
  receives ≠ [] ∧ m = default 0 (snd <$> head receives) ∧
  ∀ a least, (a, least) ∈ receives → ∃ i v, i ∈ mine ∧ row_is outputs i a v ∧ least ≤ v.
Proof.
  intros Hv. arm_unfold. fill_inv. injection Hv as <-. split_and!; [done..|]. intros a least Ha.
  match goal with H : try_fold _ _ _ = Ok _ |- _ => apply try_fold_unit in H; rewrite Forall_forall in H; apply H in Ha end.
  apply ensure_Ok, existsb_exists in Ha as (v & Hv%list_elem_of_In & Hle%Z.leb_le).
  apply mine_paying_elem in Hv as (i & Hi & Hrow). by exists i, v.
Qed.
Lemma arm_offer cash amounts token claim_hash fee_script leaf fee_min cutoff rows t m :
  arm (Offer cash amounts token claim_hash fee_script leaf fee_min cutoff rows t) = Ok m → requested = cash ∧ m = 0.
Proof. intros Hv. arm_unfold. fill_inv; by injection Hv as <-. Qed.

Lemma arm_fill f t m :
  arm f = Ok m → fill_terms f = Some t →
  row_is outputs 0 (default policy_asset t.(ft_collateral)) t.(ft_size) ∧
  (∃ token, row_is outputs 1 token 1 ∧ 1%nat ∈ mine) ∧
  t.(ft_sale) < t.(ft_buyback) ∧ t.(ft_fee) ≤ t.(ft_sale) ∧ m = t.(ft_sale) - t.(ft_fee).
Proof.
  intros Hv Ht. destruct f; simplify_eq/=; arm_unfold; fill_inv; subst; split_and!; eauto; done.
Qed.
End arms.

(** * Bindings: what a digest and a script commit to *)

#[local] Opaque u64_be u32_be.
Section bindings.
Context `{!HashesApi, !ElementsApi}.

(** The v4/v5/v6 terms as one record. *)
Record Terms := {
  t_collateral : AssetId; t_cash : AssetId; t_amount : Z; t_buyback : Z; t_expiry : Z;
  t_borrower : AssetId; t_lender : AssetId; t_payout : bytes32; t_borrower_payout : bytes32;
  t_lastlook : bytes32; t_lastlook_height : Z;
}.
Definition terms_wf (t : Terms) : Prop :=
  in_u64 t.(t_amount) ∧ in_u64 t.(t_buyback) ∧ in_u32 t.(t_expiry) ∧ in_u32 t.(t_lastlook_height).
Definition terms_bytes (t : Terms) : list byte :=
  v4_terms t.(t_collateral) t.(t_cash) t.(t_amount) t.(t_buyback) t.(t_expiry) t.(t_borrower)
    t.(t_lender) t.(t_payout) t.(t_borrower_payout) t.(t_lastlook) t.(t_lastlook_height).
Definition terms_digest (t : Terms) : bytes32 :=
  v4_terms_digest t.(t_collateral) t.(t_cash) t.(t_amount) t.(t_buyback) t.(t_expiry) t.(t_borrower)
    t.(t_lender) t.(t_payout) t.(t_borrower_payout) t.(t_lastlook) t.(t_lastlook_height).

Lemma terms_bytes_inj t u : terms_wf t → terms_wf u → terms_bytes t = terms_bytes u → t = u.
Proof.
  intros (A1 & A2 & A3 & A4) (B1 & B2 & B3 & B4) Hb.
  destruct t, u. unfold terms_bytes, v4_terms in Hb. simpl in *. field_inv. done.
Qed.

Lemma length_row_bytes r : length (row_bytes r) = 68%nat.
Proof.
  destruct r; simpl; [|done]. rewrite !length_app, length_bytesN, !length_u64_be, length_u32_be. done.
Qed.
Definition row_wf (r : OfferRowClaim) : Prop :=
  in_u32 r.(row_expiry) ∧ in_u64 r.(row_price_out) ∧ in_u64 r.(row_buyback) ∧
  in_u64 r.(row_fee_per_unit) ∧ in_u64 r.(row_min_size).

Lemma row_bytes_Some_inj r s :
  row_wf r → row_wf s → row_bytes (Some r) = row_bytes (Some s) → r = s.
Proof.
  intros (A1 & A2 & A3 & A4 & A5) (B1 & B2 & B3 & B4 & B5) Hb. unfold row_bytes in Hb.
  destruct r, s. simpl in *. field_inv. done.
Qed.
(** An absent row is written as the row of zeros, and as no other. *)
Definition zero_row : OfferRowClaim :=
  {| row_collateral := zeros 32; row_expiry := 0; row_price_out := 0; row_buyback := 0; row_fee_per_unit := 0;
     row_min_size := 0 |}.
Lemma zero_row_absent : row_bytes (Some zero_row) = row_bytes None.
Proof. by vm_compute. Qed.
Lemma row_bytes_None_ne r : row_wf r → r ≠ zero_row → row_bytes (Some r) ≠ row_bytes None.
Proof.
  intros Hr Hne. rewrite <-zero_row_absent. intros Hb. apply Hne, row_bytes_Some_inj; [done| |done].
  unfold row_wf, in_u32, in_u64. simpl. lia.
Qed.
Lemma row_bytes_inj o p :
  (∀ r, o = Some r → row_wf r ∧ r ≠ zero_row) →
  (∀ r, p = Some r → row_wf r ∧ r ≠ zero_row) → row_bytes o = row_bytes p → o = p.
Proof.
  intros Ho Hp Hb. destruct o as [r|], p as [s|].
  - f_equal. destruct (Ho r), (Hp s); try done. by apply row_bytes_Some_inj.
  - destruct (Ho r eq_refl). by destruct (row_bytes_None_ne r).
  - destruct (Hp s eq_refl). by destruct (row_bytes_None_ne s).
  - done.
Qed.

(** ** The taproot tree *)

Definition tag_prefix (tag : string) : list byte :=
  slice (sha256 (as_bytes tag)) ++ slice (sha256 (as_bytes tag)).
Definition branch_preimage (a b : bytes32) : list byte :=
  let '(l, r) := if bytes_leb (slice a) (slice b) then (a, b) else (b, a) in
  tag_prefix "TapBranch/elements" ++ slice l ++ slice r.
Definition data_preimage (d : list byte) : list byte := tag_prefix "TapData" ++ d.

Lemma tap_branch_eq a b : tap_branch a b = sha256 (branch_preimage a b).
Proof.
  unfold tap_branch, branch_preimage, tap_tagged, tag_prefix.
  by destruct (bytes_leb _ _); simpl; rewrite app_nil_r, <-app_assoc.
Qed.
Lemma tap_data_eq d : tap_tagged "TapData" [d] = sha256 (data_preimage d).
Proof. unfold tap_tagged, data_preimage, tag_prefix. simpl. by rewrite app_nil_r, <-app_assoc. Qed.

Lemma branch_preimage_inj a b c d :
  branch_preimage a b = branch_preimage c d → (a = c ∧ b = d) ∨ (a = d ∧ b = c).
Proof.
  unfold branch_preimage. destruct (bytes_leb (slice a) _), (bytes_leb (slice c) _);
    intros Hb; apply app_inj_length in Hb as [_ Hb]; try done;
    apply app_inj_length in Hb as [->%slice_inj ->%slice_inj]; rewrite ?length_bytesN; auto.
Qed.
Lemma length_branch_preimage a b : length (branch_preimage a b) = 128%nat.
Proof.
  unfold branch_preimage, tag_prefix. destruct (bytes_leb _ _); by rewrite !length_app, !length_bytesN.
Qed.
Lemma length_data_preimage d : length (data_preimage d) = (64 + length d)%nat.
Proof. unfold data_preimage, tag_prefix. by rewrite !length_app, !length_bytesN. Qed.
Lemma length_debt_slot r : length (debt_slot r) = 32%nat.
Proof. unfold debt_slot. by rewrite length_app, length_replicate, length_u64_be. Qed.

(** The byte strings hashed to compute a position's tree. *)
Definition position_preimages (leaf digest : bytes32) (debt : Z) : list (list byte) :=
  let d := data_preimage (slice digest) in
  let r := data_preimage (debt_slot debt) in
  [d; r; branch_preimage leaf (sha256 d);
   branch_preimage (sha256 (branch_preimage leaf (sha256 d))) (sha256 r)].

Lemma position_node_eq leaf digest debt :
  position_node leaf digest debt
    = sha256 (branch_preimage (sha256 (branch_preimage leaf (sha256 (data_preimage (slice digest)))))
                (sha256 (data_preimage (debt_slot debt)))).
Proof. unfold position_node. by rewrite !tap_branch_eq, !tap_data_eq. Qed.

(** Same program, same tree: same digest and same debt, or a collision
    among the strings the two computations hash. *)
Lemma position_node_binds leaf d1 d2 r1 r2 :
  in_u64 r1 → in_u64 r2 → position_node leaf d1 r1 = position_node leaf d2 r2 →
  (d1 = d2 ∧ r1 = r2) ∨ collision (position_preimages leaf d1 r1) (position_preimages leaf d2 r2).
Proof.
  intros Hr1 Hr2. rewrite !position_node_eq. intros Hn.
  assert (∀ x y, x ∈ position_preimages leaf d1 r1 → y ∈ position_preimages leaf d2 r2 →
    sha256 x = sha256 y → x = y ∨ collision (position_preimages leaf d1 r1) (position_preimages leaf d2 r2))
    as Hc by (intros; by apply collision_or).
  unfold position_preimages in Hc at 1 2.
  apply Hc in Hn as [Hn|]; [|by right|set_solver..].
  apply branch_preimage_inj in Hn as [[Hb Hr]|[Hb Hr]].
  - apply Hc in Hb as [Hb|]; [|by right|set_solver..].
    apply Hc in Hr as [Hr|]; [|by right|set_solver..].
    assert (data_preimage (slice d1) = data_preimage (slice d2) ∨ collision (position_preimages leaf d1 r1)
      (position_preimages leaf d2 r2)) as [Hd|]; [|left; split|by right].
    { apply Hc; [set_solver..|]. apply branch_preimage_inj in Hb as [[_ ?]|[-> ->]]; done. }
    + apply app_inv_head in Hd. by apply slice_inj.
    + apply app_inv_head, app_inv_head in Hr. by apply u64_be_inj.
  - apply Hc in Hb as [Hb|]; [|by right|set_solver..]. exfalso.
    apply (f_equal length) in Hb.
    rewrite length_branch_preimage, length_data_preimage, length_debt_slot in Hb. lia.
Qed.

(** The tweak step of [nums_script] kept two trees apart or did not. *)
Definition tweak_collision (n m : bytes32) : Prop := n ≠ m ∧ nums_script n = nums_script m.
End bindings.

(** * Properties *)

Section properties.
Context `{!HashesApi, !ElementsApi, !PsetTypes, !PsetApi}.

Lemma verify_typed_fund_Ok f template_b64 asset_id amount policy mine owned c :
  verify_typed_fund f template_b64 asset_id amount policy mine owned = Ok c ↔
  ∃ requested pset m, asset_from_str asset_id = Some requested ∧ decode_pset template_b64 = Ok pset ∧
    verify_arm requested amount policy (pset_outputs pset) mine owned f = Ok m ∧
    c = {| tfc_claim := f; tfc_receives := m |}.
Proof.
  unfold verify_typed_fund. split.
  - intros Hv. result_inv. eauto 10.
  - intros (r & p & m & -> & -> & Hm & ->). simpl. by rewrite Hm.
Qed.

(** C16. A typed claim cannot hide what it costs: whatever the claim, an
    accepted one asks the wallet to fund exactly the asset and the amount
    the claim itself names (the collateral of a fill, the sum of an offer's
    coins, the price of a buyback, or else only a network fee in the policy
    asset, under its cap). *)
Theorem typed_fund_funding f template_b64 asset_id amount policy mine owned c :
  verify_typed_fund f template_b64 asset_id amount policy mine owned = Ok c →
  asset_from_str asset_id = Some (pays policy f).1 ∧ amount = (pays policy f).2 ∧
  match fee_cap f with Some cap => amount ≤ cap | None => True end.
Proof.
  intros (r & p & m & Hr & _ & Hm & _)%verify_typed_fund_Ok.
  by apply arm_funding in Hm as (-> & ? & ?).
Qed.

(** C17. A typed claim pays what it promises. Of any accepted claim, each
    amount it says the wallet receives - the sale price less the fee of a
    fill, the refund of a cancelled offer, the price of a right sold, the
    collateral released, every row of a collection - is met by an output of
    the template that is the wallet's own, of that asset, and states at least
    as much. The amount reported to the screen is that output's own for all
    claims with one promise (for a fill, exactly the promised one); a
    collection reports what the claim states for its first row, and an offer,
    which brings nothing in, zero. *)
Theorem typed_fund_receives f template_b64 asset_id amount policy mine owned c :
  verify_typed_fund f template_b64 asset_id amount policy mine owned = Ok c →
  c.(tfc_claim) = f ∧ ∃ pset, decode_pset template_b64 = Ok pset ∧
    (∀ a least, (a, least) ∈ promised policy f →
       ∃ i v, i ∈ mine ∧ row_is (pset_outputs pset) i a v ∧ least ≤ v) ∧
    match f with
    | Offer _ _ _ _ _ _ _ _ _ _ => promised policy f = [] ∧ c.(tfc_receives) = 0
    | Claim _ _ receives => receives ≠ [] ∧ c.(tfc_receives) = default 0 (snd <$> head receives)
    | _ =>
        ∃ a least, promised policy f = [(a, least)] ∧ least ≤ c.(tfc_receives) ∧
          (is_Some (fill_terms f) → c.(tfc_receives) = least) ∧
          ∃ i, i ∈ mine ∧ row_is (pset_outputs pset) i a c.(tfc_receives)
    end.
Proof.
  intros (r & p & m & _ & Hp & Hm & ->)%verify_typed_fund_Ok. simpl. split; [done|]. exists p. split; [done|].
  assert (∀ a least, promises policy f = Some (a, least) →
    (∃ i v, i ∈ mine ∧ row_is (pset_outputs p) i a v ∧ least ≤ v) ∧ least ≤ m ∧
    (is_Some (fill_terms f) → m = least) ∧ ∃ i, i ∈ mine ∧ row_is (pset_outputs p) i a m) as Hone.
  { intros a least Hpr. destruct (arm_receives _ _ _ _ _ _ _ _ _ _ Hm Hpr) as (Hle & i & Hi & Hrow).
    split_and!; eauto. intros [t Ht]. destruct (arm_fill _ _ _ _ _ _ _ _ _ Hm Ht) as (_ & _ & _ & _ & ->).
    destruct f; by simplify_eq/=. }
  destruct f; try (destruct (Hone _ _ eq_refl) as (Hrow & Hrep); simpl;
    split; [by intros a least [= -> ->]%list_elem_of_singleton|by eexists _, _]).
  - apply arm_offer in Hm as [_ ->]. by split; [intros ?? ?%not_elem_of_nil|].
  - apply arm_claim in Hm as (Hne & -> & Hrows). by split; [exact Hrows|].
Qed.

(** The leaf, digest and debt of the covenant a fill builds, from the
    claim, the tokens' ids and the borrower's script. *)
Definition covenant_of (policy : AssetId) (f : TypedFund) (borrower lender : AssetId)
    (borrower_hash : bytes32) : option (bytes32 * bytes32 * Z) :=
  match f with
  | FillV2 size _ buyback expiry cash collateral _ payout =>
      Some (SWAPTION_LENDING_V2_LEAF,
            v2_terms_digest (default policy collateral) cash size buyback expiry borrower lender payout,
            buyback)
  | FillV3 size _ buyback expiry cash collateral _ payout =>
      Some (SWAPTION_LENDING_V3_LEAF,
            v2_terms_digest (default policy collateral) cash size buyback expiry borrower lender payout,
            buyback)
  | FillV4 size _ buyback expiry cash collateral _ payout lastlook lastlook_height =>
      Some (SWAPTION_LENDING_V4_LEAF,
            v4_terms_digest (default policy collateral) cash size buyback expiry borrower lender payout
              borrower_hash lastlook lastlook_height, buyback)
  | FillV5 size _ buyback expiry cash collateral _ payout lastlook lastlook_height
  | FillV6 size _ buyback expiry cash collateral _ payout lastlook lastlook_height _ =>
      Some (SWAPTION_LENDING_V5_LEAF,
            v4_terms_digest (default policy collateral) cash size buyback expiry borrower lender payout
              borrower_hash lastlook lastlook_height, buyback)
  | _ => None
  end.
(** The lender's side: the token's id, and for v3 on its claim script. *)
Definition lender_of (outputs : list PsetOutput) (f : TypedFund) (lender : AssetId) : Prop :=
  match f with
  | FillV6 _ _ _ _ _ _ _ payout _ _ lender_nft =>
      lender = lender_nft ∧ payout = sha256 (claim_script lender)
  | FillV3 _ _ _ _ _ _ _ payout | FillV4 _ _ _ _ _ _ _ payout _ _ | FillV5 _ _ _ _ _ _ _ payout _ _ =>
      row_is outputs 2 lender 1 ∧ payout = sha256 (claim_script lender)
  | _ => row_is outputs 2 lender 1
  end.

(** C8. The covenant is the one the claim states. For every fill from v2 on,
    an accepted template holds the claimed size of the collateral in
    output 0, locked by the pinned program with a digest over exactly the
    claimed terms and the full buyback as debt; the borrower's token is
    output 1, one unit, the wallet's own, and from v4 on its script is the
    borrower payout of the terms; the lender's token is output 2 (or the one
    the claim names), and from v3 on the lender is paid at that token's claim
    script. *)
Theorem fill_covenant_verified f template_b64 asset_id amount policy mine owned c :
  verify_typed_fund f template_b64 asset_id amount policy mine owned = Ok c →
  (∀ b l h, is_Some (covenant_of policy f b l h)) →
  ∃ pset t borrower lender o0 o1 leaf digest debt,
    decode_pset template_b64 = Ok pset ∧ fill_terms f = Some t ∧
    pset_outputs pset !! 0%nat = Some o0 ∧ pset_outputs pset !! 1%nat = Some o1 ∧
    row_is (pset_outputs pset) 0 (default policy t.(ft_collateral)) t.(ft_size) ∧
    row_is (pset_outputs pset) 1 borrower 1 ∧ 1%nat ∈ mine ∧
    lender_of (pset_outputs pset) f lender ∧
    covenant_of policy f borrower lender (sha256 o1.(out_script_pubkey)) = Some (leaf, digest, debt) ∧
    debt = t.(ft_buyback) ∧ o0.(out_script_pubkey) = position_script leaf digest debt.
Proof.
  intros (r & p & m & _ & Hp & Hm & _)%verify_typed_fund_Ok Hf. exists p.
  destruct f; try (by destruct (Hf r r r)); simpl in Hm;
    unfold verify_fill_v2, verify_fill_v3, verify_fill_v4, verify_fill_v5, verify_fill_v6 in Hm;
    check_inv;
    repeat match goal with
    | H : fill_position _ _ _ = Ok _ |- _ => apply fill_position_Ok in H
    | H : fill_borrower_token _ _ = Ok _ |- _ => apply fill_borrower_token_Ok in H as [(? & ? & ?) ?]
    | H : fill_lender_token _ = Ok _ |- _ => apply fill_lender_token_Ok in H
    | H : fill_claim_payout _ _ = Ok _ |- _ => apply fill_claim_payout_Ok in H
    | H : fill_covenant _ _ = Ok _ |- _ => apply fill_covenant_Ok in H as (? & ? & ?)
    | H : fill_borrower_hash _ = Ok _ |- _ => apply fill_borrower_hash_Ok in H as (? & ? & ?)
    end; simplify_eq;
    eexists _, _, _, _, _, _, _, _;
    split_and!; first [done | by eexists | idtac]; try done; try (by eexists).
  all: try (simpl; split; [eassumption|reflexivity]).
  all: try eassumption.
Qed.

(** C19. The covenant script binds the terms: two position scripts of the
    same program that are equal were built from the same eleven terms and
    the same remaining debt, unless the very strings hashed on the way are
    a SHA-256 collision or the two tree roots tweak to the same output key. *)
Theorem position_binds_terms leaf t u r1 r2 :
  terms_wf t → terms_wf u → in_u64 r1 → in_u64 r2 →
  position_script leaf (terms_digest t) r1 = position_script leaf (terms_digest u) r2 →
  (t = u ∧ r1 = r2) ∨
  collision (terms_bytes t :: position_preimages leaf (terms_digest t) r1)
            (terms_bytes u :: position_preimages leaf (terms_digest u) r2) ∨
  tweak_collision (position_node leaf (terms_digest t) r1) (position_node leaf (terms_digest u) r2).
Proof.
  intros Ht Hu Hr1 Hr2 Hs. unfold position_script in Hs.
  destruct (decide (position_node leaf (terms_digest t) r1 = position_node leaf (terms_digest u) r2))
    as [Hn|Hn]; [|by right; right].
  destruct (position_node_binds _ _ _ _ _ Hr1 Hr2 Hn) as [[Hd Hr]|(x & y & Hx & Hy & Hxy)].
  - destruct (collision_or (terms_bytes t :: position_preimages leaf (terms_digest t) r1)
      (terms_bytes u :: position_preimages leaf (terms_digest u) r2) (terms_bytes t) (terms_bytes u))
      as [Hb|]; [left|left|done|left; split; [by apply terms_bytes_inj|done]|by right; left].
  - right; left. exists x, y. split_and!; try apply Hxy; by right.
Qed.

(** C20. The offer digest binds the whole offer: equal digests mean the same
    cash, token, scripts, program, fee, cutoff and rows (up to four of them,
    in order), unless the two preimages are a SHA-256 collision. The numbers
    are at their widths and no row is all zeros: an absent row is written as
    that one. (The template check refuses rows with a zero expiry, price,
    buyback or minimum.) *)
Theorem offer_digest_binds c1 c2 l1 l2 cl1 cl2 f1 f2 p1 p2 m1 m2 k1 k2 rows1 rows2 :
  in_u64 m1 → in_u64 m2 → in_u32 k1 → in_u32 k2 →
  (length rows1 ≤ 4)%nat → (length rows2 ≤ 4)%nat →
  Forall (λ r, row_wf r ∧ r ≠ zero_row) rows1 → Forall (λ r, row_wf r ∧ r ≠ zero_row) rows2 →
  offer_terms_digest c1 l1 cl1 f1 p1 m1 k1 rows1 = offer_terms_digest c2 l2 cl2 f2 p2 m2 k2 rows2 →
  (c1 = c2 ∧ l1 = l2 ∧ cl1 = cl2 ∧ f1 = f2 ∧ p1 = p2 ∧ m1 = m2 ∧ k1 = k2 ∧ rows1 = rows2) ∨
  collision [offer_terms c1 l1 cl1 f1 p1 m1 k1 rows1] [offer_terms c2 l2 cl2 f2 p2 m2 k2 rows2].
Proof.
  intros Hm1 Hm2 Hk1 Hk2 Hl1 Hl2 Hr1 Hr2 Hd.
  apply (collision_or [offer_terms c1 l1 cl1 f1 p1 m1 k1 rows1]
    [offer_terms c2 l2 cl2 f2 p2 m2 k2 rows2]) in Hd as [Hb|]; [left|by right|left..].
  unfold offer_terms in Hb.
  do 5 (apply app_inj_length in Hb as [?%slice_inj Hb]; [|by rewrite !length_bytesN]).
  apply app_inj_length in Hb as [Hm Hb]; [|by rewrite !length_u64_be].
  apply app_inj_length in Hb as [Hk Hb]; [|by rewrite !length_u32_be].
  apply u64_be_inj in Hm; [|done..]. apply u32_be_inj in Hk; [|done..].
  do 3 (apply app_inj_length in Hb as [?Hrow Hb]; [|by rewrite !length_row_bytes]).
  rewrite list.Forall_lookup in Hr1, Hr2.
  assert (∀ i, row_bytes (rows1 !! i) = row_bytes (rows2 !! i) → rows1 !! i = rows2 !! i) as Hrow3.
  { intros i. apply row_bytes_inj; [exact (Hr1 i)|exact (Hr2 i)]. }
  split_and!; try done. apply list_eq. intros [|[|[|[|i]]]]; auto.
  rewrite !lookup_ge_None_2; [done|lia..].
Qed.

(** C18. An accepted offer escrows what it says: the request's asset and
    amount are the coins' asset and exact total (which fits a [u64]), coin
    [i] is output [i], states its own amount and is locked by the pinned
    offer program with the digest of the claimed terms and that amount as
    remaining cash; the lender is paid at its own token's claim script,
    the position program is the pinned one, and a posted lender token is
    one unit at an output of the wallet's own. *)
Theorem offer_verified cash amounts lender claim_hash fee_script leaf fee_min cutoff rows token_output
    template_b64 asset_id amount policy mine owned c :
  verify_typed_fund
    (Offer cash amounts lender claim_hash fee_script leaf fee_min cutoff rows token_output)
    template_b64 asset_id amount policy mine owned = Ok c →
  ∃ pset, decode_pset template_b64 = Ok pset ∧
    asset_from_str asset_id = Some cash ∧ amount = foldr Z.add 0 amounts ∧ amount < 2 ^ 64 ∧
    (1 ≤ length amounts ≤ 4)%nat ∧ (1 ≤ length rows ≤ 4)%nat ∧
    leaf = SWAPTION_LENDING_V5_LEAF ∧ claim_hash = sha256 (claim_script lender) ∧
    Forall (λ r, row_positive r = true) rows ∧
    (∀ i a, amounts !! i = Some a →
       row_is (pset_outputs pset) i cash a ∧
       ∃ o, pset_outputs pset !! i = Some o ∧
         o.(out_script_pubkey)
           = offer_script (offer_terms_digest cash lender claim_hash fee_script leaf fee_min cutoff rows) a) ∧
    (∀ t, token_output = Some t →
       row_is (pset_outputs pset) (Z.to_nat t) lender 1 ∧ Z.to_nat t ∈ mine).
Proof.
  intros (r & p & m & Hr & Hp & Hm & _)%verify_typed_fund_Ok. exists p. split; [done|].
  pose proof (proj1 (arm_offer _ _ _ _ _ _ _ _ _ _ _ _ _ _ _ _ _ Hm)) as ->. split; [done|].
  simpl in Hm. unfold verify_offer, checked_total in Hm. check_inv. subst.
  match goal with H : try_fold _ amounts 0 = Ok _ |- _ => apply checked_total_Ok in H as [-> Hfit] end.
  repeat match goal with
  | H : try_fold (λ _ _, _) _ _ = Ok _ |- _ => apply try_fold_unit in H
  | H : (_ <=? _)%nat = true |- _ => apply Nat.leb_le in H
  | H : (_ =? _)%nat = false |- _ => apply Nat.eqb_neq in H
  end.
  split_and!; try done; try lia.
  - destruct amounts; [done|simpl; lia].
  - eapply Forall_impl; [eassumption|]. intros ? Hx. by apply ensure_Ok in Hx.
  - intros i a Hi.
    match goal with H : Forall _ (enumerate amounts) |- _ =>
      apply (list.Forall_lookup_1 _ _ i (i, a)) in H; [rename H into Hc|] end.
    + unfold offer_coin in Hc. check_inv. result_inv. bool_inv. subst. split; [done|]. eauto.
    + unfold enumerate. by rewrite list_lookup_imap, Hi.
  - intros t ->. check_inv. subst. by split; [|apply is_mine_true].
Qed.

(** A collection's promise is per row, not in total: each row a claim
    lists is met by some output of the wallet's own, but one output meets
    any number of rows, so listing every row twice (and showing twice the
    coins) is accepted whenever listing it once is. *)
Theorem claim_rows_not_additive lender fee receives template_b64 asset_id amount policy mine owned :
  is_Ok (verify_typed_fund (Claim lender fee (receives ++ receives)) template_b64 asset_id amount
           policy mine owned)
    = is_Ok (verify_typed_fund (Claim lender fee receives) template_b64 asset_id amount
               policy mine owned).
Proof.
  unfold verify_typed_fund. destruct (asset_from_str asset_id) as [r|]; [|done]. simpl.
  destruct (decode_pset template_b64) as [p|]; [|done]. simpl. unfold verify_claim.
  rewrite !is_Ok_bind_Ok. do 4 (apply is_Ok_bind_ext; intros ?).
  rewrite (bool_decide_ext (receives ++ receives = []) (receives = []))
    by (split; [by destruct receives|by intros ->]).
  apply is_Ok_bind_ext; intros ?. apply is_Ok_bind_ext; intros [a0 v0].
  apply is_Ok_bind_ext; intros ?. rewrite !is_Ok_bind_Ok, try_fold_app.
  destruct (try_fold _ receives tt) as [[]|] eqn:E; [|done]. simpl. by rewrite E.
Qed.
End properties.
