(* ===== verification/LendingText.v ===== *)
(** The textual side of typed claims: how a memo is classified and what its
    numbers may be, the payload of an OP_RETURN script, and that an amount
    shown to the user is the amount. *)

From S2P Require Import Prelude Crates Pset LendingData FieldsLib.

(** * Decimal text *)

(** Read what [fmt8] writes: whole units and up to eight decimals. *)
Definition parse8 (s : string) : option Z :=
  match split_on "." s with
  | [w] => v ← dec_value 0 w; Some (v * 100000000)
  | [w; f] =>
      if (String.length f <=? 8)%nat then
        v ← dec_value 0 w; d ← dec_value 0 f;
        Some (v * 100000000 + d * 10 ^ (8 - Z.of_nat (String.length f)))
      else None
  | _ => None
  end.

(** Trimming zeros only removes zeros. *)
Fixpoint zeros_text (k : nat) : string :=
  match k with O => "" | S k => String "0" (zeros_text k) end.
Lemma trim_end_zeros s : ∃ k, s = trim_end_matches "0" s +:+ zeros_text k.
Proof.
  induction s as [|a s [k IH]]; [by exists O|]. simpl.
  destruct (trim_end_matches "0" s) as [|b t] eqn:E.
  - case_bool_decide as Ha; [subst a; exists (S k)|exists k]; exact (f_equal (String _) IH).
  - exists k. exact (f_equal (String _) IH).
Qed.
Lemma trim_end_app s t :
  trim_end_matches "0" t ≠ "" → trim_end_matches "0" (s +:+ t) = s +:+ trim_end_matches "0" t.
Proof.
  intros Ht. induction s as [|a s IH]; [done|].
  change (String a s +:+ t) with (String a (s +:+ t)).
  change (String a s +:+ trim_end_matches "0" t) with (String a (s +:+ trim_end_matches "0" t)).
  cbn [trim_end_matches]. rewrite IH.
  destruct (s +:+ trim_end_matches "0" t) eqn:E; [|done].
  destruct s; [by destruct Ht|done].
Qed.
Lemma zeros_text_value k v : dec_value v (zeros_text k) = Some (v * 10 ^ Z.of_nat k).
Proof.
  revert v; induction k as [|k IH]; intros v; simpl; [f_equal; lia|].
  rewrite IH. f_equal. rewrite Nat2Z.inj_succ, Z.pow_succ_r by lia. change (ascii_Z "0" - 48) with 0. lia.
Qed.
Lemma zeros_text_length k : String.length (zeros_text k) = k.
Proof. induction k; simpl; by rewrite ?IHk. Qed.

(** Digits hold no decimal point. *)
Lemma split_on_digits s : all_digits s → split_on "." s = [s].
Proof.
  unfold all_digits. induction s as [|a s IH]; [done|]. simpl. intros [Ha Hs]%andb_true_iff.
  rewrite (IH Hs). rewrite bool_decide_false; [done|]. by intros ->.
Qed.
Lemma split_on_point s t : all_digits s → all_digits t → split_on "." (s +:+ String "." t) = [s; t].
Proof.
  unfold all_digits. intros Hs Ht. induction s as [|a s IH]; simpl.
  - by rewrite split_on_digits.
  - simpl in Hs. apply andb_true_iff in Hs as [Ha Hs]. rewrite (IH Hs).
    rewrite bool_decide_false; [done|]. by intros ->.
Qed.
Lemma all_digits_app s t : all_digits (s +:+ t) → all_digits s ∧ all_digits t.
Proof.
  unfold all_digits. induction s as [|a s IH]; simpl; [done|].
  intros [-> [? ?]%IH]%andb_true_iff. done.
Qed.

(** * Scripts, memos, amounts *)

Definition kind_of (f : TypedFund) : string :=
  match f with
  | Fill _ _ _ _ _ _ _ => "sw/lend/fill/v1"
  | FillV2 _ _ _ _ _ _ _ _ => "sw/lend/fill/v2"
  | FillV3 _ _ _ _ _ _ _ _ => "sw/lend/fill/v3"
  | FillV4 _ _ _ _ _ _ _ _ _ _ => "sw/lend/fill/v4"
  | FillV5 _ _ _ _ _ _ _ _ _ _ => "sw/lend/fill/v5"
  | FillV6 _ _ _ _ _ _ _ _ _ _ _ => "sw/lend/fill/v6"
  | Offer _ _ _ _ _ _ _ _ _ _ => "sw/lend/offer/v1"
  | OfferCancel _ _ _ _ => "sw/lend/offer-cancel/v1"
  | Claim _ _ _ => "sw/lend/claim/v1"
  | SellRight _ _ _ => "sw/lend/sellright/v1"
  | Exercise _ _ _ _ _ => "sw/lend/exercise/v1"
  end.

Definition row_in_range (r : OfferRowClaim) : Prop :=
  in_u32 r.(row_expiry) ∧ in_u64 r.(row_price_out) ∧ in_u64 r.(row_buyback) ∧
  in_u64 r.(row_fee_per_unit) ∧ in_u64 r.(row_min_size).
Definition fill_in_range (size sale buyback expiry fee : Z) : Prop :=
  in_u64 size ∧ in_u64 sale ∧ in_u64 buyback ∧ in_u32 expiry ∧ in_u64 fee.
(** Every number of a claim is within the width the program gives it. *)
Definition claim_in_range (f : TypedFund) : Prop :=
  match f with
  | Fill size sale buyback expiry _ _ fee | FillV2 size sale buyback expiry _ _ fee _
  | FillV3 size sale buyback expiry _ _ fee _ => fill_in_range size sale buyback expiry fee
  | FillV4 size sale buyback expiry _ _ fee _ _ h | FillV5 size sale buyback expiry _ _ fee _ _ h
  | FillV6 size sale buyback expiry _ _ fee _ _ h _ =>
      fill_in_range size sale buyback expiry fee ∧ in_u32 h
  | Offer _ amounts _ _ _ _ fee_min cutoff rows token_output =>
      Forall in_u64 amounts ∧ in_u64 fee_min ∧ in_u32 cutoff ∧ Forall row_in_range rows ∧
      (∀ t, token_output = Some t → in_u32 t)
  | OfferCancel _ amount fee _ => in_u64 amount ∧ in_u64 fee
  | Claim _ fee receives => in_u64 fee ∧ Forall (λ r, in_u64 r.2) receives
  | SellRight price _ fee => in_u64 price ∧ in_u64 fee
  | Exercise amount released remaining _ _ => in_u64 amount ∧ in_u64 released ∧ in_u64 remaining
  end.

(** C40. What the screen shows is the amount: the eight-decimal form of any
    [u64] number of satoshis reads back as exactly that number, so no two
    amounts are shown alike. *)
Theorem fmt8_roundtrip sats : in_u64 sats → parse8 (fmt8 sats) = Some sats.
Proof.
  intros Hs. assert (in_u64 (sats / 100000000)) as Hw.
  { unfold in_u64 in *. split; [apply Z.div_pos; lia|]. apply Z.div_lt_upper_bound; lia. }
  assert (0 ≤ sats / 100000000) as Hw0 by (unfold in_u64 in Hw; lia).
  pose proof (Z.div_mod sats 100000000 ltac:(lia)) as Hdm.
  pose proof (Z.mod_pos_bound sats 100000000 ltac:(lia)) as Hmod.
  assert (all_digits (dec_string (sats / 100000000))) as Hwd by (by apply dec_digits_digits).
  unfold fmt8, parse8. destruct (Z.eqb_spec (sats mod 100000000) 0) as [Hz|Hz].
  { rewrite split_on_digits, dec_string_value by done. simpl. f_equal. lia. }
  set (frac := sats mod 100000000) in *. set (ft := fixed_digits 8 frac "").
  destruct (trim_end_zeros ft) as [k Hk].
  assert (dec_value 0 ft = Some frac) as Hv.
  { unfold ft. rewrite fixed_digits_value by lia. simpl. f_equal. rewrite Z.mod_small; lia. }
  assert (trim_end_matches "0" ft ≠ "") as Hne.
  { intros E. rewrite E in Hk. change ("" +:+ zeros_text k) with (zeros_text k) in Hk. rewrite Hk, zeros_text_value in Hv. injection Hv. lia. }
  rewrite trim_end_app.
  2:{ change ("." +:+ ft) with (String "." ft). cbn [trim_end_matches]. by destruct (trim_end_matches "0" ft). }
  assert (trim_end_matches "0" ("." +:+ ft) = String "." (trim_end_matches "0" ft)) as ->
    by (change ("." +:+ ft) with (String "." ft); cbn [trim_end_matches];
        by destruct (trim_end_matches "0" ft)).
  assert (all_digits ft) as Hfd by (by apply fixed_digits_digits; [lia|]).
  rewrite Hk in Hfd. apply all_digits_app in Hfd as [Hfd _].
  rewrite split_on_point by done.
  assert (String.length ft = 8%nat) as Hlen by (unfold ft; by rewrite fixed_digits_length).
  clearbody ft.
  rewrite Hk, string_length_app, zeros_text_length in Hlen.
  rewrite (proj2 (Nat.leb_le _ _)) by lia. rewrite dec_string_value by done. simpl.
  rewrite Hk, dec_value_app in Hv. destruct (dec_value 0 (trim_end_matches "0" ft)) as [d|]; [|done].
  simpl in Hv |- *. rewrite zeros_text_value in Hv. injection Hv as Hv.
  f_equal. replace (8 - Z.of_nat (String.length (trim_end_matches "0" ft))) with (Z.of_nat k) by lia. lia.
Qed.

Lemma lookup_2_drop {A} (a b : A) l : (a :: b :: l) !! 2%nat = head l.
Proof. by destruct l. Qed.

(** [op_return_payload] reads exactly the two push forms: a script is an
    OP_RETURN with payload [p] if and only if it is the opcode, one length
    byte (or the one-byte pushdata opcode and the length) and then [p],
    nothing missing and nothing after. *)
Theorem op_return_payload_iff script p :
  op_return_payload script = Some p ↔
  ((1 ≤ length p ≤ 75)%nat ∧ script = x6a :: Z_byte (Z.of_nat (length p)) :: p) ∨
  ((length p ≤ 255)%nat ∧ script = x6a :: x4c :: Z_byte (Z.of_nat (length p)) :: p).
Proof.
  split.
  - destruct script as [|b0 [|b1 rest]]; simpl; [done|by case_bool_decide|].
    case_bool_decide as Hb0; [subst b0|done]. pose proof (byte_Z_bound b1) as Hb1.
    destruct ((1 <=? byte_Z b1) && (byte_Z b1 <=? 75)) eqn:Hr.
    + bool_inv. case_bool_decide as Hl; [|done]. intros [= <-]. left. rewrite drop_0.
      assert (Z.of_nat (length rest) = byte_Z b1) as -> by lia. rewrite Z_byte_of. split; [lia|done].
    + destruct (Z.eqb_spec (byte_Z b1) 76) as [H76|]; [|done].
      assert (b1 = x4c) as -> by (apply (inj byte_Z); by rewrite H76).
      destruct rest as [|b2 rest]; [done|]. simpl. case_bool_decide as Hl; [|done]. intros [= <-]. right. rewrite drop_0.
      pose proof (byte_Z_bound b2).
      assert (Z.of_nat (length rest) = byte_Z b2) as -> by lia. rewrite Z_byte_of. split; [lia|done].
  - intros [[Hl ->]|[Hl ->]]; simpl.
    + rewrite byte_Z_of, Z.mod_small by lia.
      rewrite (proj2 (andb_true_iff _ _)) by (split; apply Z.leb_le; lia).
      by rewrite bool_decide_true by lia.
    + change (byte_Z x4c) with 76. simpl. rewrite byte_Z_of, Z.mod_small by lia.
      by rewrite bool_decide_true by lia.
Qed.

Section memo.
Context `{!HexApi, !JsonApi, !ElementsApi}.

Context `{!JsonLaws}.

Lemma parse_row_range row r : parse_row row = Ok r → row_in_range r.
Proof.
  unfold parse_row. intros. result_inv. unfold row_in_range. simpl.
  split_and!; eauto with ranges.
Qed.
Lemma parse_receive_range v r : parse_receive v = Ok r → in_u64 r.2.
Proof.
  unfold parse_receive. intros. result_inv. simpl.
  repeat match goal with
  | H : mbind _ ?o = Some _ |- _ => destruct o eqn:?; [simpl in H|done]
  end; by eapply parse_u64_range.
Qed.
Lemma try_collect_Forall {A B} (f : A → result string B) (P : B → Prop) l ys :
  (∀ x y, f x = Ok y → P y) → try_collect f l = Ok ys → Forall P ys.
Proof.
  intros Hf Hc%try_collect_Forall2. induction Hc; constructor; eauto.
Qed.

Lemma fill_fields_Ok (value : Value) (k : Z → Z → Z → Z → AssetId → option AssetId → Z → result string TypedFund) f :
  fill_fields value k = Ok f →
  ∃ size sale buyback expiry cash collateral fee,
    fill_in_range size sale buyback expiry fee ∧ k size sale buyback expiry cash collateral fee = Ok f.
Proof.
  unfold fill_fields. intros Hk.
  repeat match type of Hk with _ ≫= _ = Ok _ => apply bind_Ok in Hk as (? & ? & Hk) end.
  eexists _, _, _, _, _, _, _. split; [|exact Hk].
  unfold fill_in_range. split_and!; eauto with ranges.
Qed.

Lemma parse_fields_sound kind value f :
  parse_fields kind value = Ok f → kind_of f = kind ∧ claim_in_range f.
Proof.
  unfold parse_fields. repeat case_bool_decide; subst; [..|done];
    unfold parse_fill_v1, parse_fill_v2, parse_fill_v3, parse_fill_v4, parse_fill_v5, parse_fill_v6,
      parse_offer, parse_offer_cancel, parse_claim, parse_sell_right, parse_exercise;
    intros Hp;
    repeat match goal with
    | H : fill_fields _ _ = Ok _ |- _ => apply fill_fields_Ok in H as (? & ? & ? & ? & ? & ? & ? & ? & ?)
    | H : (_ ≫= _) = Ok _ |- _ => apply bind_Ok in H as (? & ? & H)
    end; result_inv; (split; [done|]); simpl;
    split_and?; try done; eauto with ranges.
  - eapply try_collect_Forall; [|eassumption]. intros v y Hy. apply ok_or_Ok in Hy.
    destruct (json_as_str v); [|discriminate]. by eapply parse_u64_range.
  - eapply try_collect_Forall; [|eassumption]. apply parse_row_range.
  - intros t ->. case_match; [|done]. case_match; [done|]. result_inv.
    eapply (and_then_u32_range (Some _)). eassumption.
  - eapply try_collect_Forall; [|eassumption]. apply parse_receive_range.
Qed.

(** A typed memo is never read as plain text: when the memo is JSON
    whose [kind] starts with [sw/], the result is a claim of exactly that
    kind with every number in its width, or a refusal — and when it is not,
    the memo is plain text. *)
Theorem typed_memo_classified memo :
  match value ← json_from_str (str_trim memo); k ← json_get value "kind"; kind ← json_as_str k;
        Some (value, kind) with
  | Some (value, kind) =>
      if String.prefix "sw/" kind
      then (∃ f, parse_typed_fund memo = Some (Ok f) ∧ kind_of f = kind ∧ claim_in_range f) ∨
           (∃ e, parse_typed_fund memo = Some (Err e))
      else parse_typed_fund memo = None
  | None => parse_typed_fund memo = None
  end.
Proof.
  unfold parse_typed_fund. destruct (json_from_str _) as [value|]; [|done]. simpl.
  destruct (json_get value "kind") as [k|]; [|done]. simpl.
  destruct (json_as_str k) as [kind|]; [|done]. simpl.
  destruct (String.prefix "sw/" kind); [|done].
  destruct (parse_fields kind value) as [f|e] eqn:E; [left|right; eauto].
  exists f. apply parse_fields_sound in E as [? ?]. done.
Qed.
End memo.
