(* ===== verification/Venue.v ===== *)
(** The venue money key and its typed claims ([lc-wallet-core/src/venue.rs]). *)

From S2P Require Import Prelude Http Crates Key Pset Approval LendingData.

Definition ORDER_TAG : string := "rf/order/v2".
Definition ORDER_TAG_V1 : string := "rf/order/v1".
Definition WITHDRAW_TAG : string := "rf/withdraw/v1".
Definition LOGIN_TAG : string := "rf/login/v1".
Definition DELEGATE_TAG : string := "rf/delegate/v1".
Definition PRODUCT : string := "RF-BTC-USDT".
Definition SERVICE_LOGIN_TAG : string := "lc/service-login/v1".
Definition VENUE_KEY_PURPOSE : Z := 19523. (* 0x4C43 *)

Record FeeCaps := { max_bps : Z; max_chain : Z }.
Inductive OrderSide := Buy | Sell.

Inductive TypedRequest :=
| ROrder (product : string) (side : OrderSide) (price qty expiry nonce : Z) (caps : option FeeCaps)
| RWithdraw (amt : Z) (dest : string) (root : bytes32)
| RLogin (challenge : string)
| RDelegate (venue : string) (owner trade_pk : bytes32).

(** [secp256k1] and [elements] as only this module uses them: BIP32 from a
    seed along hardened indices, the tweak of a keypair, a transaction
    extracted from a pset, its taproot key-spend sighash, and a signature's
    bytes. *)
Class VenueApi `{SchnorrApi, PsetTypes} := {
  bip32_derive_hardened : list byte → list Z → option bytes32;
  add_xonly_tweak : Keypair → bytes32 → Keypair;
  Transaction : Type;
  extract_tx : Pset → option Transaction;
  taproot_key_spend_sighash : Transaction → nat → list TxOut → bytes32 → bytes32;
  signature_bytes : Signature → list byte;
}.

Section digests.
Context `{!HashesApi}.

Definition sha (m : list byte) : bytes32 := sha256 m.

Definition side_byte (side : OrderSide) : list byte := [match side with Buy => x00 | Sell => x01 end].
Definition order_preimage (pk : bytes32) (side : OrderSide) (price qty expiry nonce : Z)
    (caps : option FeeCaps) : list byte :=
  as_bytes (match caps with Some _ => ORDER_TAG | None => ORDER_TAG_V1 end)
    ++ slice pk ++ as_bytes PRODUCT ++ side_byte side
    ++ u64_be price ++ u64_be qty ++ u32_be expiry ++ u64_be nonce
    ++ (match caps with
        | Some c => u64_be c.(max_bps) ++ u64_be c.(max_chain)
        | None => []
        end).
Definition order_digest (pk : bytes32) (side : OrderSide) (price qty expiry nonce : Z)
    (caps : option FeeCaps) : bytes32 := sha (order_preimage pk side price qty expiry nonce caps).

Definition withdraw_preimage (pk : bytes32) (amt : Z) (dest_spk_hash root : bytes32) : list byte :=
  as_bytes WITHDRAW_TAG ++ slice pk ++ u64_be amt ++ slice dest_spk_hash ++ slice root.
Definition withdraw_digest (pk : bytes32) (amt : Z) (dest_spk_hash root : bytes32) : bytes32 :=
  sha (withdraw_preimage pk amt dest_spk_hash root).

Definition delegate_preimage (owner trade : bytes32) (domain : string) : list byte :=
  as_bytes DELEGATE_TAG ++ slice owner ++ slice trade ++ as_bytes domain.
Definition delegate_digest (owner trade : bytes32) (domain : string) : bytes32 :=
  sha (delegate_preimage owner trade domain).

Definition login_preimage (pk : bytes32) (challenge : string) : list byte :=
  as_bytes LOGIN_TAG ++ slice pk ++ as_bytes challenge.
Definition login_digest (pk : bytes32) (challenge : string) : bytes32 :=
  sha (login_preimage pk challenge).

Definition service_login_preimage (pk : bytes32) (domain challenge : string) : list byte :=
  as_bytes SERVICE_LOGIN_TAG ++ slice pk ++ as_bytes domain ++ [x00] ++ as_bytes challenge.
Definition service_login_digest (pk : bytes32) (domain challenge : string) : bytes32 :=
  sha (service_login_preimage pk domain challenge).

Definition p2tr_spk_hash (pk : bytes32) : bytes32 := sha ([x51; x20] ++ slice pk).
End digests.

(** Byte order of a displayed block hash is reversed in memory. *)
Definition genesis_block_hash (network : Network) : option bytes32 :=
  match network with
  | Liquid => to_array 32 (reverse (hex_lit "1466275836220db2944ca059a3a10ef6fd2ea684b0688d2c379296888a206003"))
  | LiquidTestnet => to_array 32 (reverse (hex_lit "a771da8e52ee6ad581ed1e9a99825e5b3b7992225534eaa2ae23244fe26ab1c1"))
  | Regtest => None
  end.

Section typed.
Context `{!HashesApi, !HexApi, !JsonApi, !ElementsApi}.

Definition parse_order (kind : string) (value : Value) : result string TypedRequest :=
  product ← str_field value "product";
  side_str ← str_field value "side";
  side ← (if bool_decide (side_str = "buy") then Ok Buy
          else if bool_decide (side_str = "sell") then Ok Sell
          else Err ("unknown side: " +:+ side_str));
  price ← u64_field value "price";
  qty ← u64_field value "qty";
  expiry ← u32_field value "expiry";
  nonce ← u64_field value "nonce";
  caps ←
    (if bool_decide (kind = "rf/order/v2") then
       bps ← u64_field value "maxBps";
       chain ← u64_field value "maxChain";
       Ok (Some {| max_bps := bps; max_chain := chain |})
     else if bool_decide (is_Some (json_get value "maxBps")) || bool_decide (is_Some (json_get value "maxChain"))
     then Err "rf/order/v1 carries no fee caps"
     else Ok None);
  Ok (ROrder product side price qty expiry nonce caps).

Definition parse_withdraw (value : Value) : result string TypedRequest :=
  root ← hex32_field value "root";
  amt ← u64_field value "amt";
  dest ← str_field value "dest";
  Ok (RWithdraw amt dest root).

Definition parse_delegate (value : Value) : result string TypedRequest :=
  owner ← hex32_field value "owner";
  trade_pk ← hex32_field value "tradePk";
  venue ← str_field value "venue";
  Ok (RDelegate venue owner trade_pk).

Definition parse_typed_fields (kind : string) (value : Value) : result string TypedRequest :=
  if bool_decide (kind = "rf/order/v1") || bool_decide (kind = "rf/order/v2") then parse_order kind value
  else if bool_decide (kind = "rf/withdraw/v1") then parse_withdraw value
  else if bool_decide (kind = "rf/login/v1") then
    challenge ← str_field value "challenge"; Ok (RLogin challenge)
  else if bool_decide (kind = "rf/delegate/v1") then parse_delegate value
  else Err ("unknown typed request kind: " +:+ kind).

Definition parse_typed_description (description : string) : option (result string TypedRequest) :=
  value ← json_from_str (str_trim description);
  kind ← (k ← json_get value "kind"; json_as_str k);
  if String.prefix "rf/" kind then Some (parse_typed_fields kind value) else None.

Definition typed_request_digest (request : TypedRequest) (pk : bytes32) : result string bytes32 :=
  match request with
  | ROrder product side price qty expiry nonce caps =>
      if bool_decide (as_bytes product = as_bytes PRODUCT)
      then Ok (order_digest pk side price qty expiry nonce caps)
      else Err ("unknown product: " +:+ product)
  | RWithdraw amt dest root =>
      spk ← ok_or (address_script_pubkey dest) "withdraw dest is not a valid address";
      Ok (withdraw_digest pk amt (sha spk) root)
  | RLogin challenge => Ok (login_digest pk challenge)
  | RDelegate venue owner trade_pk =>
      if negb (bool_decide (owner = pk))
      then Err "delegation names another account's owner key — refusing"
      else if bool_decide (trade_pk = owner)
      then Err "delegation trade key equals the owner key — refusing"
      else Ok (delegate_digest owner trade_pk venue)
  end.
End typed.

Section key.
Context `{!HashesApi, !HexApi, !SchnorrApi, !ElementsApi, !PsetTypes, !PsetApi, !VenueApi}.

Record VenueKey := { vk_keypair : Keypair }.

Definition venue_network_index (network : Network) : Z :=
  match network with Liquid => 0 | LiquidTestnet => 1 | Regtest => 2 end.
Definition VenueKey_from_seed (seed : list byte) (network : Network) : result string VenueKey :=
  secret ← ok_or (bip32_derive_hardened seed [VENUE_KEY_PURPOSE; venue_network_index network; 0])
             "bip32";
  keypair ← ok_or (keypair_from_seckey secret) "a bip32 child key is a valid secp key";
  Ok {| vk_keypair := keypair |}.

Definition vk_public_key (k : VenueKey) : bytes32 := x_only_public_key (vk_keypair k).
Definition sign_digest (k : VenueKey) (digest : bytes32) : Signature :=
  sign_schnorr_no_aux_rand digest (vk_keypair k).
Definition sign_typed (k : VenueKey) (request : TypedRequest) : result string (bytes32 * Signature) :=
  digest ← typed_request_digest request (vk_public_key k);
  Ok (digest, sign_digest k digest).

Definition p2tr_script_pubkey (k : VenueKey) : Script := [x51; x20] ++ slice (vk_public_key k).
Definition tweaked_keypair (k : VenueKey) : Keypair :=
  add_xonly_tweak (vk_keypair k) (tap_tweak_hash (vk_public_key k) None).
Definition p2tr_tweaked_script_pubkey (k : VenueKey) : Script :=
  [x51; x20] ++ slice (x_only_public_key (tweaked_keypair k)).

Definition sign_keyspend_with (keypair : Keypair) (tx : Transaction) (index : nat)
    (prevouts : list TxOut) (genesis : bytes32) : Signature :=
  sign_schnorr_no_aux_rand (taproot_key_spend_sighash tx index prevouts genesis) keypair.
Definition sign_p2tr_keyspend (k : VenueKey) := sign_keyspend_with (vk_keypair k).

Definition with_witness (input : PsetInput) (w : list (list byte)) : PsetInput :=
  {| in_previous_txid := input.(in_previous_txid);
     in_previous_output_index := input.(in_previous_output_index);
     in_witness_utxo := input.(in_witness_utxo); in_asset := input.(in_asset);
     in_amount := input.(in_amount); in_blind_asset_proof := input.(in_blind_asset_proof);
     in_blind_value_proof := input.(in_blind_value_proof);
     in_issuance_value_amount := input.(in_issuance_value_amount);
     in_blinded_issuance := input.(in_blinded_issuance);
     in_issuance_inflation_keys := input.(in_issuance_inflation_keys);
     in_issuance_blinding_nonce := input.(in_issuance_blinding_nonce);
     in_issuance_asset_entropy := input.(in_issuance_asset_entropy);
     in_final_script_witness := Some w |}.

(** Whether an input is this key's, and with which keypair it is signed. *)
Definition keyspend_input (k : VenueKey) (ii : nat * PsetInput) : option (nat * bool) :=
  match in_final_script_witness ii.2 with
  | Some _ => None
  | None =>
      utxo ← in_witness_utxo ii.2;
      if bool_decide (txo_script_pubkey utxo = p2tr_script_pubkey k) then Some (ii.1, false)
      else if bool_decide (txo_script_pubkey utxo = p2tr_tweaked_script_pubkey k) then Some (ii.1, true)
      else None
  end.

Definition sign_pset_keyspend_inputs (k : VenueKey) (pset : Pset) (genesis : bytes32)
    : result string (Pset * nat) :=
  let mine := omap (keyspend_input k) (enumerate (pset_inputs pset)) in
  if bool_decide (mine = []) then Ok (pset, O)
  else
    prevouts ← try_collect (λ inp, ok_or (in_witness_utxo inp)
                 "input carries no witness_utxo — required to sign a venue-key input") (pset_inputs pset);
    tx ← ok_or (extract_tx pset) "extract_tx";
    let tweaked := tweaked_keypair k in
    let sign inputs '(i, needs_tweak) :=
      let keypair := if (needs_tweak : bool) then tweaked else vk_keypair k in
      let sig := sign_keyspend_with keypair tx i prevouts genesis in
      alter (λ input, with_witness input [signature_bytes sig]) i inputs in
    Ok ({| pset_inputs := foldl sign (pset_inputs pset) mine; pset_outputs := pset_outputs pset |},
        length mine).

(** ** The free signing functions *)

Definition sign_login (k : VenueKey) (challenge : string) : bytes32 * Signature :=
  let d := login_digest (vk_public_key k) challenge in (d, sign_digest k d).
Definition sign_order (k : VenueKey) (side : OrderSide) (price qty expiry nonce : Z)
    (caps : option FeeCaps) : bytes32 * Signature :=
  let d := order_digest (vk_public_key k) side price qty expiry nonce caps in (d, sign_digest k d).
Definition sign_withdraw (k : VenueKey) (amt : Z) (root : bytes32) : bytes32 * Signature :=
  let pk := vk_public_key k in
  let d := withdraw_digest pk amt (p2tr_spk_hash pk) root in (d, sign_digest k d).
Definition sign_service_login (k : VenueKey) (domain challenge : string) : string * string :=
  let pk := vk_public_key k in
  (hex_encode (slice pk), signature_to_string (sign_digest k (service_login_digest pk domain challenge))).
Definition verify_service_login (service_key domain challenge signature : string) : result string bytes32 :=
  pk ← ok_or (hex_decode_to_slice 32 service_key) "service key must be 32 bytes of hex";
  let digest := service_login_digest pk domain challenge in
  xonly ← ok_or (xonly_from_slice pk) "service key is not a valid x-only public key";
  sig ← ok_or (signature_parse signature) "service signature is not valid hex";
  _ ← ensure (verify_schnorr sig digest xonly) "service signature does not match the challenge";
  Ok pk.
End key.

(** * The SDK login over HTTP *)

(** [%{b:02X}] *)
Definition hex_upper (d : Z) : Ascii.ascii :=
  Ascii.ascii_of_N (Z.to_N (if d <? 10 then 48 + d else 55 + d)).
Definition is_unreserved (c : Ascii.ascii) : bool :=
  is_ascii_alphanumeric c || bool_decide (c = "-"%char) || bool_decide (c = "_"%char)
  || bool_decide (c = "."%char) || bool_decide (c = "~"%char).
Fixpoint percent_encode (s : string) : string :=
  match s with
  | EmptyString => EmptyString
  | String c s =>
      if is_unreserved c then String c (percent_encode s)
      else String "%" (String (hex_upper (ascii_Z c / 16)) (String (hex_upper (ascii_Z c mod 16))
             (percent_encode s)))
  end.
Definition form_body (pairs : list (string * string)) : string :=
  join_strings "&" ((λ '(k, v), k +:+ "=" +:+ percent_encode v) <$> pairs).

Section sdk_login.
Context `{!HashesApi, !HexApi, !JsonApi, !SchnorrApi}.

Definition host_ok (venue_host : string) : bool :=
  negb (bool_decide (venue_host = ""))
  && string_all (λ b, is_ascii_alphanumeric b || bool_decide (b = "."%char) || bool_decide (b = "-"%char))
       venue_host.

Definition login_pairs (key : VenueKey) (challenge : string) (identity_pk_hex link_code : option string)
    : list (string * string) :=
  let '(_, sig) := sign_login key challenge in
  [("pk", hex_encode (slice (vk_public_key key))); ("sig", signature_to_string sig);
   ("challenge", challenge)]
    ++ (match identity_pk_hex with Some id => [("identity", id)] | None => [] end)
    ++ (match link_code with Some code => [("link", code)] | None => [] end).

Definition sdk_login (venue_host : string) (key : VenueKey) (identity_pk_hex link_code : option string)
    : client string Value Value :=
  if negb (host_ok venue_host) then Done (Err "venue must be a bare domain name")
  else
    let base := "https://" +:+ venue_host in
    Post (base +:+ "/api/sdk/challenge") [] "" (λ reply,
      match reply with
      | HttpOk v =>
          match (c ← json_get v "challenge"; json_as_str c) with
          | None => Done (Err "no challenge in the venue's reply")
          | Some challenge =>
              Post (base +:+ "/api/sdk/login") [("content-type", "application/x-www-form-urlencoded")]
                (form_body (login_pairs key challenge identity_pk_hex link_code)) (λ reply,
                match reply with
                | HttpOk v =>
                    match (e ← json_get v "error"; json_as_str e) with
                    | Some err => Done (Err ("venue refused the login: " +:+ err))
                    | None => Done (Ok v)
                    end
                | HttpStatus code text =>
                    Done (Err ("venue refused the login (" +:+ dec_string code +:+ "): " +:+ text))
                | HttpUnread err => Done (Err err)
                | HttpError err => Done (Err ("could not reach the venue: " +:+ err))
                end)
          end
      | HttpStatus _ text => Done (Err text)
      | HttpUnread err | HttpError err => Done (Err err)
      end).
End sdk_login.
