(* ===== verification/VenueSpec.v ===== *)
(** What the venue key signs: one statement type for the five typed claims,
    the digest as a commitment to it, the request a memo becomes, and the
    pset inputs the key completes. *)

From S2P Require Import Prelude Crates Key Pset Approval LendingData FieldsLib Venue.

(** * The statements the venue key signs *)

Inductive statement :=
| SOrder (pk : bytes32) (side : OrderSide) (price qty expiry nonce : Z) (caps : option FeeCaps)
| SWithdraw (pk : bytes32) (amt : Z) (dest_spk_hash root : bytes32)
| SDelegate (owner trade : bytes32) (domain : string)
| SLogin (pk : bytes32) (challenge : string)
| SServiceLogin (pk : bytes32) (domain challenge : string).

Definition caps_in_range (caps : option FeeCaps) : Prop :=
  match caps with Some c => in_u64 c.(max_bps) ∧ in_u64 c.(max_chain) | None => True end.
(** Integers in their width; the domain of a service login has no NUL. *)
Definition statement_wf (s : statement) : Prop :=
  match s with
  | SOrder _ _ price qty expiry nonce caps =>
      in_u64 price ∧ in_u64 qty ∧ in_u32 expiry ∧ in_u64 nonce ∧ caps_in_range caps
  | SWithdraw _ amt _ _ => in_u64 amt
  | SServiceLogin _ domain _ => string_contains Ascii.zero domain = false
  | _ => True
  end.
(** The account whose key the statement is under. *)
Definition statement_key (s : statement) : bytes32 :=
  match s with
  | SOrder pk _ _ _ _ _ _ | SWithdraw pk _ _ _ | SDelegate pk _ _ | SLogin pk _ | SServiceLogin pk _ _ => pk
  end.

Definition statement_preimage (s : statement) : list byte :=
  match s with
  | SOrder pk side price qty expiry nonce caps => order_preimage pk side price qty expiry nonce caps
  | SWithdraw pk amt dest root => withdraw_preimage pk amt dest root
  | SDelegate owner trade domain => delegate_preimage owner trade domain
  | SLogin pk challenge => login_preimage pk challenge
  | SServiceLogin pk domain challenge => service_login_preimage pk domain challenge
  end.

(** Texts without NUL, each followed by one, are equal text by text. *)
Lemma nul_terminated_inj s t (l k : list byte) :
  string_contains Ascii.zero s = false → string_contains Ascii.zero t = false →
  as_bytes s ++ x00 :: l = as_bytes t ++ x00 :: k → s = t ∧ l = k.
Proof.
  assert (∀ c, byte_of_ascii c = x00 → c = Ascii.zero) as Hz.
  { intros c Hc. rewrite <-(ascii_of_byte_of_ascii c), Hc. done. }
  revert t; induction s as [|c s IH]; intros [|d t]; simpl; intros Hs Ht E.
  - by injection E as ->.
  - injection E as Ed _. symmetry in Ed. apply Hz in Ed as ->.
    by rewrite bool_decide_true in Ht.
  - injection E as Ec _. apply Hz in Ec as ->. by rewrite bool_decide_true in Hs.
  - apply orb_false_iff in Hs as [_ Hs], Ht as [_ Ht]. injection E as Ecd E.
    destruct (IH t Hs Ht E) as [-> ->]. split; [|done]. f_equal.
    rewrite <-(ascii_of_byte_of_ascii c), Ecd. apply ascii_of_byte_of_ascii.
Qed.

#[local] Opaque u64_be u32_be.

Lemma order_preimage_inj pk1 sd1 p1 q1 e1 n1 c1 pk2 sd2 p2 q2 e2 n2 c2 :
  statement_wf (SOrder pk1 sd1 p1 q1 e1 n1 c1) → statement_wf (SOrder pk2 sd2 p2 q2 e2 n2 c2) →
  order_preimage pk1 sd1 p1 q1 e1 n1 c1 = order_preimage pk2 sd2 p2 q2 e2 n2 c2 →
  SOrder pk1 sd1 p1 q1 e1 n1 c1 = SOrder pk2 sd2 p2 q2 e2 n2 c2.
Proof.
  simpl. unfold order_preimage. intros (?&?&?&?&Hc1) (?&?&?&?&Hc2) E.
  destruct c1 as [[b1 h1]|], c2 as [[b2 h2]|]; 
    [|apply app_inj_length in E as [E _]; [discriminate E|done]..|];
    (apply app_inj_length in E as [_ E]; [|done]);
    field_inv; (apply app_inj_length in E as [_ E]; [|done]);
    (apply app_inj_length in E as [Es E]; [|done]); field_inv;
    (assert (sd1 = sd2) as -> by (destruct sd1, sd2; first [done|discriminate Es])); try done.
  simpl in *. destruct Hc1, Hc2. field_inv. done.
Qed.

(** Tags keep the five kinds apart; within a kind every field is readable. *)
Lemma statement_preimage_inj s t :
  statement_wf s → statement_wf t → statement_preimage s = statement_preimage t → s = t.
Proof.
  intros Hs Ht E.
  destruct s, t; try (by apply order_preimage_inj);
    try (exfalso; clear -E; unfold statement_preimage, order_preimage in E;
         repeat match type of E with context [match ?c with Some _ => _ | None => _ end] => destruct c end;
         discriminate E);
    unfold statement_preimage, withdraw_preimage, delegate_preimage, login_preimage,
      service_login_preimage in E;
    (apply app_inj_length in E as [_ E]; [|done]); simpl in Hs, Ht; field_inv; try done.
  - by apply as_bytes_inj in E as ->.
  - by apply as_bytes_inj in E as ->.
  - destruct (nul_terminated_inj domain domain0 (as_bytes challenge) (as_bytes challenge0))
      as [-> Ec%as_bytes_inj]; [done..|]. by subst.
Qed.

Section digest.
Context `{!HashesApi}.

Definition statement_digest (s : statement) : bytes32 := sha256 (statement_preimage s).

(** C21. A digest is under one statement: whatever the five kinds, two
    well-formed statements with the same digest are the same statement
    (kind, account and every field), or their preimages are a SHA-256
    collision. A signature for one is never a signature for another. *)
Theorem venue_digest_binds s t :
  statement_wf s → statement_wf t → statement_digest s = statement_digest t →
  s = t ∨ collision [statement_preimage s] [statement_preimage t].
Proof.
  intros Hs Ht E.
  destruct (collision_or [statement_preimage s] [statement_preimage t] _ _
              ltac:(left) ltac:(left) E) as [?|?]; [left|by right].
  by apply statement_preimage_inj.
Qed.
End digest.

(** * Requests *)

Section request.
Context `{!HashesApi, !HexApi, !JsonApi, !ElementsApi, !SchnorrApi, !PsetTypes, !PsetApi, !VenueApi}.

(** The statement a request makes under the account [pk]. *)
Inductive makes (pk : bytes32) : TypedRequest → statement → Prop :=
| makes_order side price qty expiry nonce caps :
    makes pk (ROrder PRODUCT side price qty expiry nonce caps) (SOrder pk side price qty expiry nonce caps)
| makes_withdraw amt dest root spk :
    address_script_pubkey dest = Some spk →
    makes pk (RWithdraw amt dest root) (SWithdraw pk amt (sha256 spk) root)
| makes_login challenge : makes pk (RLogin challenge) (SLogin pk challenge)
| makes_delegate venue trade_pk :
    trade_pk ≠ pk → makes pk (RDelegate venue pk trade_pk) (SDelegate pk trade_pk venue).

Lemma typed_request_digest_iff r pk d :
  typed_request_digest r pk = Ok d ↔ ∃ s, makes pk r s ∧ d = statement_digest s.
Proof.
  split.
  - destruct r as [p| | |venue owner trade_pk]; simpl.
    + case_bool_decide as Hp; [|done]. apply as_bytes_inj in Hp as ->.
      intros [= <-]. eexists. split; [constructor|done].
    + intros. result_inv. eexists. split; [by constructor|done].
    + intros [= <-]. eexists. split; [constructor|done].
    + case_bool_decide as Ho; [subst|done]. simpl. case_bool_decide; [done|].
      intros [= <-]. eexists. split; [by constructor|done].
  - intros (s & Hm & ->). destruct Hm as [| ? ? ? ? Hspk | |]; simpl.
    + done.
    + by rewrite Hspk.
    + done.
    + rewrite bool_decide_true by done. simpl. by rewrite bool_decide_false.
Qed.

(** C23. [sign_typed] signs exactly the statement the request makes under
    the wallet's own account and refuses everything else: no order for
    another product, no withdrawal to an unreadable address, no delegation
    of another account or to the account itself — and never a service
    login, nor bytes of the caller's choice. *)
Theorem sign_typed_iff k r d sig :
  sign_typed k r = Ok (d, sig) ↔
  ∃ s, makes (vk_public_key k) r s ∧ d = statement_digest s ∧
       sig = sign_schnorr_no_aux_rand d (vk_keypair k).
Proof.
  unfold sign_typed. rewrite bind_Ok. setoid_rewrite typed_request_digest_iff.
  unfold sign_digest. split.
  - intros (d' & (s & Hm & ->) & [= <- <-]). eauto.
  - intros (s & Hm & -> & ->). eauto 6.
Qed.

(** The dedicated signing functions are [sign_typed] on the request a
    host would show for them: an order on the product, a login, and — for
    [sign_withdraw] — a withdrawal to any address whose script is the
    account's own raw-key script. *)
Theorem sign_functions_typed k :
  (∀ side price qty expiry nonce caps,
    sign_typed k (ROrder PRODUCT side price qty expiry nonce caps)
      = Ok (sign_order k side price qty expiry nonce caps)) ∧
  (∀ challenge, sign_typed k (RLogin challenge) = Ok (sign_login k challenge)) ∧
  (∀ amt dest root, address_script_pubkey dest = Some (p2tr_script_pubkey k) →
    sign_typed k (RWithdraw amt dest root) = Ok (sign_withdraw k amt root)).
Proof.
  split_and!; intros; try done.
  unfold sign_typed. simpl. by match goal with H : _ = Some _ |- _ => rewrite H end.
Qed.
End request.

(** * Memos *)

Section memo.
Context `{!HashesApi, !HexApi, !JsonApi, !ElementsApi, !JsonLaws}.

Definition request_in_range (r : TypedRequest) : Prop :=
  match r with
  | ROrder _ _ price qty expiry nonce caps =>
      in_u64 price ∧ in_u64 qty ∧ in_u32 expiry ∧ in_u64 nonce ∧ caps_in_range caps
  | RWithdraw amt _ _ => in_u64 amt
  | _ => True
  end.
(** The kinds a request is parsed from: an order's says whether it has caps. *)
Definition request_kind (r : TypedRequest) : string :=
  match r with
  | ROrder _ _ _ _ _ _ (Some _) => "rf/order/v2"
  | ROrder _ _ _ _ _ _ None => "rf/order/v1"
  | RWithdraw _ _ _ => "rf/withdraw/v1"
  | RLogin _ => "rf/login/v1"
  | RDelegate _ _ _ => "rf/delegate/v1"
  end.

Lemma parse_order_sound kind value r :
  kind = "rf/order/v1" ∨ kind = "rf/order/v2" →
  parse_order kind value = Ok r → request_kind r = kind ∧ request_in_range r.
Proof.
  intros Hk. unfold parse_order. intros Hp. result_inv.
  case_bool_decide as Hv; [subst|destruct Hk as [->|]; [|done]; case_match; [done|]];
    result_inv; simpl; (split; [done|]); split_and!; eauto with ranges.
Qed.

Lemma parse_typed_fields_sound kind value r :
  parse_typed_fields kind value = Ok r → request_kind r = kind ∧ request_in_range r.
Proof.
  unfold parse_typed_fields, parse_withdraw, parse_delegate.
  destruct (bool_decide (kind = "rf/order/v1") || _) eqn:Ho.
  { apply parse_order_sound. apply orb_true_iff in Ho as [?|?]; bool_inv; auto. }
  repeat case_bool_decide; subst; intros Hp; result_inv; simpl; eauto with ranges.
Qed.

(** What a dialog shows of two requests is the same; a withdrawal may spell
    its address in two ways, for one script. *)
Definition same_request (r1 r2 : TypedRequest) : Prop :=
  match r1, r2 with
  | RWithdraw a1 d1 t1, RWithdraw a2 d2 t2 =>
      a1 = a2 ∧ t1 = t2 ∧ address_script_pubkey d1 = address_script_pubkey d2
  | _, _ => r1 = r2
  end.
Definition request_scripts (r : TypedRequest) : list (list byte) :=
  match r with RWithdraw _ dest _ => option_list (address_script_pubkey dest) | _ => [] end.

Lemma makes_wf pk r s : makes pk r s → request_in_range r → statement_wf s.
Proof. by destruct 1. Qed.

(** C22. What is displayed is what is signed: two memos that parse, whose
    requests make statements with one digest, are for the same account and
    show the same request, unless the two statements or the two withdrawal
    scripts are a SHA-256 collision. *)
Theorem memo_signature_binds m1 m2 r1 r2 pk1 pk2 s1 s2 :
  parse_typed_description m1 = Some (Ok r1) → parse_typed_description m2 = Some (Ok r2) →
  makes pk1 r1 s1 → makes pk2 r2 s2 → statement_digest s1 = statement_digest s2 →
  (pk1 = pk2 ∧ same_request r1 r2) ∨
  collision [statement_preimage s1] [statement_preimage s2] ∨
  collision (request_scripts r1) (request_scripts r2).
Proof.
  assert (∀ m r, parse_typed_description m = Some (Ok r) → request_in_range r) as Hr.
  { intros m r. unfold parse_typed_description.
    destruct (json_from_str _) as [v|]; [|done]. simpl.
    destruct (json_get v "kind" ≫= json_as_str) as [kind|]; [|done]. simpl.
    case_match; [|done]. intros [= Hp]. by apply parse_typed_fields_sound in Hp as [_ ?]. }
  intros Hr1%Hr Hr2%Hr Hm1 Hm2 E.
  destruct (collision_or [statement_preimage s1] [statement_preimage s2] _ _
              ltac:(left) ltac:(left) E) as [Ep|?]; [|tauto].
  apply statement_preimage_inj in Ep; [|by eapply makes_wf..]. subst s2.
  destruct Hm1 as [|amt dest root spk Hspk| |]; inversion Hm2; subst; simpl; try tauto.
  match goal with Hs : sha256 _ = sha256 _, H2 : address_script_pubkey _ = _ |- _ =>
    rewrite Hspk, H2; simpl;
    destruct (collision_or [spk] [spk0] _ _ ltac:(left) ltac:(left) (eq_sym Hs)) as [->|?] end; tauto.
Qed.

(** Every memo is sorted once: JSON whose [kind] starts with [rf/] is a
    request of exactly that kind with its numbers in their widths (an
    order has fee caps exactly when its kind is v2), or a refusal, and
    anything else is plain text. *)
Theorem venue_memo_classified memo :
  match value ← json_from_str (str_trim memo); k ← json_get value "kind"; kind ← json_as_str k;
        Some (value, kind) with
  | Some (value, kind) =>
      if String.prefix "rf/" kind
      then (∃ r, parse_typed_description memo = Some (Ok r) ∧ request_kind r = kind ∧ request_in_range r) ∨
           (∃ e, parse_typed_description memo = Some (Err e))
      else parse_typed_description memo = None
  | None => parse_typed_description memo = None
  end.
Proof.
  unfold parse_typed_description. destruct (json_from_str _) as [value|]; [|done]. simpl.
  destruct (json_get value "kind") as [k|]; [|done]. simpl.
  destruct (json_as_str k) as [kind|]; [|done]. simpl.
  destruct (String.prefix "rf/" kind); [|done].
  destruct (parse_typed_fields kind value) as [r|e] eqn:E; [left|right; eauto].
  exists r. apply parse_typed_fields_sound in E as [? ?]. done.
Qed.
End memo.

(** * Service login and key spends *)

Section key.
Context `{!HashesApi, !HexApi, !SchnorrApi, !ElementsApi, !PsetTypes, !PsetApi, !VenueApi}.

(** BIP340: a keypair's signature verifies under its x-only key. *)
Context (schnorr_verifies : ∀ kp d, verify_schnorr (sign_schnorr_no_aux_rand d kp) d (x_only_public_key kp) = true).

Section service_login.
Context (hex_roundtrip : ∀ a : bytes32, hex_decode_to_slice 32 (hex_encode (slice a)) = Some a).
Context (signature_roundtrip : ∀ s, signature_parse (signature_to_string s) = Some s).
Context (xonly_roundtrip : ∀ kp, xonly_from_slice (x_only_public_key kp) = Some (x_only_public_key kp)).

(** C24. A service login the wallet makes is accepted for its domain and
    challenge and yields the wallet's key; and whatever is accepted, for
    any text offered as key and signature, is a signature of the
    statement over that domain and challenge under the key returned. *)
Theorem service_login_verifies k domain challenge :
  (let '(key, sig) := sign_service_login k domain challenge in
   verify_service_login key domain challenge sig = Ok (vk_public_key k)) ∧
  ∀ key sig pk, verify_service_login key domain challenge sig = Ok pk →
    hex_decode_to_slice 32 key = Some pk ∧
    ∃ s xonly, signature_parse sig = Some s ∧ xonly_from_slice pk = Some xonly ∧
      verify_schnorr s (statement_digest (SServiceLogin pk domain challenge)) xonly = true.
Proof.
  split.
  - unfold sign_service_login, verify_service_login. rewrite hex_roundtrip. simpl.
    unfold sign_digest, vk_public_key. rewrite xonly_roundtrip. simpl.
    rewrite signature_roundtrip. simpl. by rewrite schnorr_verifies.
  - unfold verify_service_login. intros key sig pk Hv. result_inv. eauto 6.
Qed.
End service_login.

(** [foldl] of updates at the positions selected, as one pass. *)
Lemma foldl_alter_imap {A B} (h : nat * A → option (nat * B)) (g : nat → B → A → A) (l : list A) :
  (∀ i x j b, h (i, x) = Some (j, b) → j = i) →
  foldl (λ l '(i, b), alter (g i b) i l) l (omap h (enumerate l))
    = imap (λ i x, match h (i, x) with Some (_, b) => g i b x | None => x end) l.
Proof.
  intros Hh.
  assert (∀ n pre, length pre = n →
    foldl (λ l '(i, b), alter (g i b) i l) (pre ++ l) (omap h (imap (λ i x, ((n + i)%nat, x)) l))
      = pre ++ imap (λ i x, match h ((n + i)%nat, x) with Some (_, b) => g (n + i)%nat b x | None => x end) l)
    as Hgen; [|by apply (Hgen O [])].
  induction l as [|x l IH]; intros n pre Hn; [done|]. simpl. rewrite Nat.add_0_r.
  assert (∀ y, foldl (λ l '(i, b), alter (g i b) i l) (pre ++ y :: l)
                 (omap h (imap (λ i x, ((n + S i)%nat, x)) l))
      = pre ++ y :: imap (λ i x, match h ((n + S i)%nat, x) with
                            | Some (_, b) => g (n + S i)%nat b x | None => x end) l) as Hy.
  { intros y. specialize (IH (S n) (pre ++ [y])). rewrite <-!app_assoc in IH. simpl in IH.
    rewrite (imap_ext _ (λ i x, ((S (n + i))%nat, x))) by (intros; f_equal; lia).
    rewrite IH by (rewrite length_app; simpl; lia). do 2 f_equal.
    apply imap_ext. intros. replace (n + S i)%nat with (S (n + i)) by lia. done. }
  destruct (h (n, x)) as [[j b]|] eqn:E; simpl.
  - apply Hh in E as ->. rewrite <-Hy. f_equal.
    rewrite (alter_app_r_alt _ _ _ n) by lia. by rewrite Hn, Nat.sub_diag.
  - exact (Hy x).
Qed.

(** An open input under one of the key's two scripts. *)
Definition own_input (k : VenueKey) (input : PsetInput) : bool :=
  match in_final_script_witness input, in_witness_utxo input with
  | None, Some utxo =>
      bool_decide (txo_script_pubkey utxo = p2tr_script_pubkey k)
      || bool_decide (txo_script_pubkey utxo = p2tr_tweaked_script_pubkey k)
  | _, _ => false
  end.
(** [input'] is [input] with a valid key-path witness: a signature of the
    input's sighash under the output key its script names. *)
Definition key_spent (tx : Transaction) (prevouts : list TxOut) (genesis : bytes32) (i : nat)
    (input input' : PsetInput) : Prop :=
  ∃ utxo pk sig, in_witness_utxo input = Some utxo ∧ txo_script_pubkey utxo = [x51; x20] ++ slice pk ∧
    verify_schnorr sig (taproot_key_spend_sighash tx i prevouts genesis) pk = true ∧
    input' = with_witness input [signature_bytes sig].

Lemma keyspend_input_Some k i x j b :
  keyspend_input k (i, x) = Some (j, b) →
  j = i ∧ own_input k x = true ∧ ∃ utxo, in_witness_utxo x = Some utxo ∧
    txo_script_pubkey utxo = [x51; x20] ++ slice (x_only_public_key (if b then tweaked_keypair k else vk_keypair k)).
Proof.
  unfold keyspend_input, own_input. simpl. destruct (in_final_script_witness x); [done|].
  destruct (in_witness_utxo x) as [utxo|]; [|done]. simpl.
  repeat case_bool_decide; intros [= <- <-]; (split_and!; [done..|eauto]).
Qed.
Lemma keyspend_input_None k i x : keyspend_input k (i, x) = None ↔ own_input k x = false.
Proof.
  unfold keyspend_input, own_input. simpl. destruct (in_final_script_witness x); [done|].
  destruct (in_witness_utxo x) as [utxo|]; [|done]. simpl. by repeat case_bool_decide.
Qed.
Lemma length_keyspend_inputs k l :
  length (omap (keyspend_input k) (enumerate l)) = length (list_filter (λ x, Is_true (own_input k x)) _ l).
Proof.
  assert (∀ n, length (omap (keyspend_input k) (imap (λ i x, ((n + i)%nat, x)) l))
               = length (list_filter (λ x, Is_true (own_input k x)) _ l)) as Hn; [|apply (Hn O)].
  induction l as [|x l IH]; intros n; [done|]. specialize (IH (S n)). simpl in *.
  rewrite (imap_ext _ (λ i x, (S (n + i), x))) by (intros; simpl; f_equal; lia).
  destruct (keyspend_input k _) as [[j b]|] eqn:E; simpl.
  - apply keyspend_input_Some in E as (_ & -> & _). exact (f_equal S IH).
  - apply keyspend_input_None in E as ->. simpl. apply IH.
Qed.
Lemma keyspend_inputs_nil k l :
  omap (keyspend_input k) (enumerate l) = [] ↔ Forall (λ x, own_input k x = false) l.
Proof.
  rewrite <-length_zero_iff_nil, length_keyspend_inputs.
  induction l as [|x l IH]; simpl; [split; auto|].
  rewrite Forall_cons, <-IH. destruct (own_input k x); simpl; naive_solver.
Qed.
Lemma sign_pset_nothing k pset genesis :
  Forall (λ x, own_input k x = false) (pset_inputs pset) →
  sign_pset_keyspend_inputs k pset genesis = Ok (pset, O).
Proof. intros Hno%keyspend_inputs_nil. unfold sign_pset_keyspend_inputs. by rewrite bool_decide_true. Qed.

(** C9. Signing a pset completes the open inputs under the key's own
    scripts, each with a signature that verifies under the output key in
    the script it spends, over every input's previous output and the
    genesis hash — and touches nothing else: the other inputs and all
    outputs stay. The count returned is theirs, and a second pass finds
    nothing left to sign. *)
Theorem sign_pset_completes k pset genesis pset' n :
  sign_pset_keyspend_inputs k pset genesis = Ok (pset', n) →
  pset_outputs pset' = pset_outputs pset ∧
  n = length (list_filter (λ x, Is_true (own_input k x)) _ (pset_inputs pset)) ∧
  length (pset_inputs pset') = length (pset_inputs pset) ∧
  (∀ i input, pset_inputs pset !! i = Some input →
    ∃ input', pset_inputs pset' !! i = Some input' ∧
      if own_input k input
      then ∃ tx prevouts, extract_tx pset = Some tx ∧
             in_witness_utxo <$> pset_inputs pset = Some <$> prevouts ∧
             key_spent tx prevouts genesis i input input'
      else input' = input) ∧
  sign_pset_keyspend_inputs k pset' genesis = Ok (pset', O).
Proof.
  unfold sign_pset_keyspend_inputs at 1. rewrite length_keyspend_inputs. case_bool_decide as Hm.
  - apply keyspend_inputs_nil in Hm. intros [= <- <-].
    split_and!; [done| |done| |by apply sign_pset_nothing].
    + rewrite <-length_keyspend_inputs. by apply keyspend_inputs_nil in Hm as ->.
    + intros i x Hx. exists x. by rewrite (Forall_lookup_1 _ _ _ _ Hm Hx).
  - intros Hs. apply bind_Ok in Hs as (prevouts & Hp%try_collect_Forall2 & Hs).
    apply bind_Ok in Hs as (tx & Htx%ok_or_Ok & [= <- <-]). simpl.
    rewrite (foldl_alter_imap (keyspend_input k)
      (λ i (b : bool) x, with_witness x [signature_bytes (sign_keyspend_with
        (if b then tweaked_keypair k else vk_keypair k) tx i prevouts genesis)]))
      by (by intros ????[-> _]%keyspend_input_Some).
    split_and!; [done|done|by rewrite length_imap| |].
    + intros i x Hx. rewrite list_lookup_imap, Hx. eexists. split; [done|].
      destruct (keyspend_input k (i, x)) as [[j b]|] eqn:E.
      * apply keyspend_input_Some in E as (-> & -> & utxo & Hu & Hspk).
        exists tx, prevouts. split_and!; [done| |].
        { clear -Hp. induction Hp as [|y o l k Ho]; [done|]. apply ok_or_Ok in Ho. exact (f_equal2 cons Ho IHHp). }
        eexists utxo, _, _. split_and!; [done..|apply schnorr_verifies|done].
      * by apply keyspend_input_None in E as ->.
    + apply sign_pset_nothing. apply Forall_lookup_2. intros i y. simpl.
      rewrite list_lookup_imap. intros (x & Hx & ->)%fmap_Some.
      destruct (keyspend_input k (i, x)) as [[j b]|] eqn:E; [done|by apply keyspend_input_None in E].
Qed.
End key.
