(* ===== verification/VenueLogin.v ===== *)
(** The venue login over HTTP: the form body read back field by field, and
    the two requests [sdk_login] makes. *)

From S2P Require Import Prelude Http Crates Key Pset LendingData Venue.

(** * Form bodies *)

Definition hex_upper_val (c : Ascii.ascii) : option Z :=
  let n := ascii_Z c in
  if (48 <=? n) && (n <=? 57) then Some (n - 48)
  else if (65 <=? n) && (n <=? 70) then Some (n - 55) else None.
Fixpoint percent_decode (s : string) : option string :=
  match s with
  | EmptyString => Some EmptyString
  | String "%" (String a (String b s)) =>
      x ← hex_upper_val a; y ← hex_upper_val b;
      String (Ascii.ascii_of_N (Z.to_N (16 * x + y))) <$> percent_decode s
  | String "%" _ => None
  | String c s => String c <$> percent_decode s
  end.
(** How a server reads [application/x-www-form-urlencoded] text. *)
Definition form_parse (body : string) : option (list (string * string)) :=
  mapM (λ field, '(k, v) ← split_once "=" field; v ← percent_decode v; Some (k, v)) (split_on "&" body).

Lemma hex_upper_val_upper d : 0 ≤ d < 16 → hex_upper_val (hex_upper d) = Some d.
Proof.
  intros Hd. assert (∃ n, (n < 16)%nat ∧ d = Z.of_nat n) as (n & Hn & ->).
  { exists (Z.to_nat d). lia. }
  do 16 (destruct n as [|n]; [done|]). lia.
Qed.
Lemma hex_nibbles c : 0 ≤ ascii_Z c / 16 < 16 ∧ 0 ≤ ascii_Z c mod 16 < 16.
Proof.
  unfold ascii_Z. pose proof (Ascii.N_ascii_bounded c). split; [|by apply Z.mod_pos_bound].
  split; [apply Z.div_pos|apply Z.div_lt_upper_bound]; lia.
Qed.
Lemma percent_decode_encode s : percent_decode (percent_encode s) = Some s.
Proof.
  induction s as [|c s IH]; [done|]. simpl. destruct (is_unreserved c) eqn:E.
  - destruct (decide (c = "%"%char)) as [->|Hc]; [done|].
    assert (percent_decode (String c (percent_encode s)) = String c <$> percent_decode (percent_encode s)) as ->;
      [|by rewrite IH].
    clear -Hc. destruct c as [[] [] [] [] [] [] [] []]; first [done|by destruct Hc].
  - destruct (hex_nibbles c). cbn [percent_decode].
    rewrite !hex_upper_val_upper by done.
    simpl. rewrite IH. simpl. rewrite <-Z.div_mod by lia. unfold ascii_Z. rewrite N2Z.id.
    by rewrite Ascii.ascii_N_embedding.
Qed.

(** The characters of an encoded value. *)
Definition is_encoded (c : Ascii.ascii) : bool := is_unreserved c || bool_decide (c = "%"%char).
Lemma hex_upper_unreserved d : 0 ≤ d < 16 → is_encoded (hex_upper d) = true.
Proof.
  intros Hd. assert (∃ n, (n < 16)%nat ∧ d = Z.of_nat n) as (n & Hn & ->).
  { exists (Z.to_nat d). lia. }
  do 16 (destruct n as [|n]; [done|]). lia.
Qed.
Lemma percent_encode_chars s : string_all is_encoded (percent_encode s) = true.
Proof.
  induction s as [|c s IH]; [done|]. simpl. destruct (is_unreserved c) eqn:E; simpl.
  - unfold is_encoded at 1. by rewrite E, IH.
  - destruct (hex_nibbles c).
    rewrite !hex_upper_unreserved by done.
    done.
Qed.

Lemma split_on_join_strings (c : Ascii.ascii) ws :
  ws ≠ [] → Forall (λ w, string_contains c w = false) ws →
  split_on c (join_strings (String c "") ws) = ws.
Proof.
  intros Hne Hws. induction Hws as [|w ws Hw Hws IH]; [done|]. destruct ws as [|w' ws].
  - by apply split_on_none.
  - change (join_strings _ _) with (w +:+ String c (join_strings (String c "") (w' :: ws))).
    rewrite split_on_app by done. by rewrite IH.
Qed.

Definition plain_key (k : string) : Prop := string_contains "&" k = false ∧ string_contains "=" k = false.

(** A form body carries its pairs and nothing else: whatever characters
    the values have, a server reading the body gets back the same keys and
    values in order. No value opens another field. *)
Lemma form_roundtrip pairs :
  pairs ≠ [] → Forall (λ kv, plain_key kv.1) pairs → form_parse (form_body pairs) = Some pairs.
Proof.
  intros Hne Hk. unfold form_parse, form_body. rewrite split_on_join_strings.
  - clear Hne. induction Hk as [|[k v] pairs [Ha He] Hk IH]; [done|]. cbn [fmap list_fmap mapM].
    change (k +:+ "=" +:+ percent_encode v) with (k +:+ String "=" (percent_encode v)).
    simpl in He. rewrite split_once_app by done. simpl. rewrite percent_decode_encode. simpl. by rewrite IH.
  - by destruct pairs.
  - apply Forall_fmap. eapply Forall_impl; [exact Hk|]. intros [k v] [Ha He]. simpl in *.
    rewrite !string_contains_app, Ha. simpl.
    by apply (string_all_contains _ _ _ (percent_encode_chars v)).
Qed.

(** * The two requests *)

(** The authority of an [https] URL: what precedes the path. *)
Definition https_authority (url : string) : option string :=
  match url with
  | String "h" (String "t" (String "t" (String "p" (String "s" (String ":" (String "/" (String "/" rest))))))) =>
      fst <$> split_once "/" rest
  | _ => None
  end.

Section sdk_login.
Context `{!HashesApi, !HexApi, !JsonApi, !SchnorrApi}.

Definition reply_str (v : Value) (name : string) : option string := c ← json_get v name; json_as_str c.
(** The fields of the login request for the challenge received. *)
Definition login_fields (key : VenueKey) (challenge : string) (identity link : option string)
    : list (string * string) :=
  [("pk", hex_encode (slice (vk_public_key key)));
   ("sig", signature_to_string (sign_schnorr_no_aux_rand
      (login_digest (vk_public_key key) challenge) (vk_keypair key)));
   ("challenge", challenge)]
    ++ ((λ id, ("identity", id)) <$> option_list identity) ++ ((λ c, ("link", c)) <$> option_list link).

Lemma login_pairs_fields key challenge identity link :
  login_pairs key challenge identity link = login_fields key challenge identity link.
Proof. by destruct identity, link. Qed.
Lemma login_fields_plain key challenge identity link :
  Forall (λ kv, plain_key kv.1) (login_fields key challenge identity link).
Proof. by destruct identity, link; repeat constructor. Qed.
Lemma host_ok_authority host path :
  host_ok host = true → https_authority ("https://" +:+ host +:+ String "/" path) = Some host.
Proof.
  intros [_ Hh]%andb_true_iff. simpl.
  change ("" +:+ ?s) with s. rewrite split_once_app; [done|].
  by apply (string_all_contains _ _ _ Hh).
Qed.

(** C29. The login asks the named host and no other, and signs nothing but
    that host's login challenge: whatever comes back, at most two requests
    are made, both to [https://<host>] where the host has no port, user or
    path; the second carries exactly the account key, the signature of
    [rf/login/v1] over the challenge received, the challenge and the
    optional identity and link code; and a success is that second reply,
    an answer without an [error] text. A malformed host is never asked. A
    request is what the login asks of [ureq]; redirects that [ureq] follows
    inside one are not part of the model. *)
Theorem sdk_login_requests host key identity link replies :
  let '(requests, outcome) := run_http (sdk_login host key identity link) replies in
  Forall (λ rq, host_ok host = true ∧ https_authority (rq_url rq) = Some host) requests ∧
  (length requests ≤ 2)%nat ∧
  (∀ second, requests !! 1%nat = Some second →
    ∃ v challenge, head replies = Some (HttpOk v) ∧ reply_str v "challenge" = Some challenge ∧
      form_parse (rq_body second) = Some (login_fields key challenge identity link)) ∧
  (∀ v, outcome = Some (Ok v) → length requests = 2%nat ∧
    replies !! 1%nat = Some (HttpOk v) ∧ reply_str v "error" = None) ∧
  (host_ok host = false → outcome = Some (Err "venue must be a bare domain name")).
Proof.
  unfold sdk_login. destruct (host_ok host) eqn:Hh; simpl; [|split_and!; try done; lia].
  destruct replies as [|reply replies]; simpl.
  { split_and!; try done; [|lia]. repeat constructor. by apply host_ok_authority. }
  destruct reply as [v| | |]; simpl; [|split_and!; try done; try lia;
    repeat constructor; by apply host_ok_authority..].
  fold (reply_str v "challenge"). destruct (reply_str v "challenge") as [challenge|] eqn:Hc; simpl;
    [|split_and!; try done; try lia; repeat constructor; by apply host_ok_authority].
  assert (form_parse (form_body (login_pairs key challenge identity link))
            = Some (login_fields key challenge identity link)) as Hform.
  { rewrite login_pairs_fields. apply form_roundtrip; [done|apply login_fields_plain]. }
  assert (Forall (λ rq, true = true ∧ https_authority (rq_url rq) = Some host)
      [{| rq_url := ("https://" +:+ host) +:+ "/api/sdk/challenge"; rq_headers := []; rq_body := "" |};
       {| rq_url := ("https://" +:+ host) +:+ "/api/sdk/login";
          rq_headers := [("content-type", "application/x-www-form-urlencoded")];
          rq_body := form_body (login_pairs key challenge identity link) |}]) as Hurl.
  { repeat constructor; by apply host_ok_authority. }
  destruct replies as [|[w| | |] replies]; simpl;
    [|fold (reply_str w "error"); destruct (reply_str w "error") eqn:He; simpl| | |];
    (split_and!; [exact Hurl|lia|intros ? [= <-]; eauto|by intros ? [= <-]|done]).
Qed.
End sdk_login.
