(* ===== verification/VenueDrill.v ===== *)
(** A client of the venue that signs with venue keys: the drill of
    [lc-wallet-core/examples/rf-venue-e2e.rs]. Two wallets log in, trade a
    resting order against an immediate one, and one withdraws. *)

From S2P Require Import Prelude Http Crates Key Pset LendingData Venue.

(** What is asked: a page, or a form posted ([send_form]). *)
Inductive body := Get | Form (fields : list (string * string)).

(** [serde_json::Value == json!(b)] for a boolean. *)
Class JsonEqBool `{!JsonApi} := { json_eq_bool : Value → bool → bool }.

Section value.
Context `{!JsonApi}.
(** [v[a][b]...]: a member that is missing is [Null]. *)
Fixpoint json_at (v : Value) (path : list string) : option Value :=
  match path with
  | [] => Some v
  | name :: path => member ← json_get v name; json_at member path
  end.
Definition str_at (v : Value) (path : list string) : option string := m ← json_at v path; json_as_str m.
Definition u64_at (v : Value) (path : list string) : option Z := m ← json_at v path; json_as_u64 m.
Definition null_at (v : Value) (path : list string) : bool :=
  match json_at v path with Some m => json_is_null m | None => true end.
End value.

(** Base units as the decimal text of the form: [{}.{:08}]. *)
Definition dec (raw : Z) : string :=
  dec_string (raw / 100000000) +:+ "." +:+ fixed_digits 8 (raw mod 100000000) "".

Section drill.
Context `{!HashesApi, !HexApi, !JsonApi, !JsonEqBool, !SchnorrApi, !ElementsApi, !PsetTypes, !VenueApi}.
(** [Venue { base }]; a page is its text. *)
Context (base : string).
Abbreviation venue := (client body string).

Definition page (text : string) : result string Value := ok_or (json_from_str text) "json".
Definition post (path : string) (fields : list (string * string)) : venue Value :=
  Post (base +:+ path) [] (Form fields) (λ reply, Done
    match reply with
    | HttpOk text => page text
    | HttpStatus code text => Err (path +:+ " -> " +:+ dec_string code +:+ ": " +:+ text)
    | HttpUnread e => Err e
    | HttpError e => Err (path +:+ ": " +:+ e)
    end).
Definition state (token : string) : venue Value :=
  Post (base +:+ "/api/state?token=" +:+ token) [] Get (λ reply, Done
    match reply with
    | HttpOk text => page text
    | HttpUnread e | HttpStatus _ e | HttpError e => Err e
    end).

(** [if let Some(e) = r["error"].as_str() { bail!(..) }] *)
Definition no_error (what : string) (r : Value) : venue () :=
  local match str_at r ["error"] with Some e => Err (what +:+ e) | None => Ok tt end.
(** [.expect(what)]: the program ends there too. *)
Definition expect {A} (o : option A) (what : string) : venue A := local (ok_or o what).
Definition demand (b : bool) (what : string) : venue () := local (ensure b what).

Definition login (key : VenueKey) (label : string) : venue (string * Z) :=
  ch ← post "/api/sdk/challenge" [];
  challenge ← expect (str_at ch ["challenge"]) "challenge";
  let '(_, sig) := sign_login key challenge in
  r ← post "/api/sdk/login"
        [("pk", hex_encode (slice (vk_public_key key))); ("challenge", challenge); ("sig", signature_to_string sig)];
  _ ← no_error ("login " +:+ label +:+ ": ") r;
  token ← expect (str_at r ["token"]) "token";
  account ← expect (u64_at r ["account"]) "account";
  mret (token, account).

Definition side_text (side : OrderSide) : string := match side with Buy => "buy" | Sell => "sell" end.
Definition order_fields (token : string) (side : OrderSide) (price qty expiry nonce : Z) (sig : string) (ioc : bool)
    : list (string * string) :=
  [("token", token); ("side", side_text side); ("price", dec price); ("qty", dec qty);
   ("expiry", dec_string expiry); ("nonce", dec_string nonce); ("sig", sig)]
    ++ (if ioc then [("ioc", "1")] else []).
(** [session as u32] keeps the low 32 bits; adding a day of sessions to it
    is checked. *)
Definition signed_order (key : VenueKey) (token : string) (side : OrderSide) (price_raw qty_raw : Z) (ioc : bool)
    : venue Value :=
  st ← state token;
  session ← expect (u64_at st ["session"]) "session";
  nonce ← expect (u64_at st ["me"; "nextNonce"]) "nextNonce";
  expiry ← expect (u32_try_from (session mod 2 ^ 32 + 24)) "attempt to add with overflow";
  let '(_, sig) := sign_order key side price_raw qty_raw expiry nonce None in
  r ← post "/api/order" (order_fields token side price_raw qty_raw expiry nonce (signature_to_string sig) ioc);
  _ ← no_error "order refused: " r;
  mret r.

Definition withdraw_fields (token : string) (amt : Z) (sig : string) : list (string * string) :=
  [("token", token); ("amount", dec amt); ("sig", sig)].
Definition moved_under (e : string) : bool := str_contains "prepare and sign again" e.
(** The attempts that are left; [missed] is what follows the loop. *)
Fixpoint withdraw_attempts (missed : string) (key : VenueKey) (token : string) (amt_raw : Z) (tries : nat) : venue () :=
  match tries with
  | O => local (Err missed)
  | S tries =>
      p ← post "/api/withdraw/prepare" [("token", token); ("amount", dec amt_raw)];
      _ ← no_error "withdraw prepare: " p;
      root_text ← expect (str_at p ["root"]) "root";
      root ← expect (hex_decode_to_slice 32 root_text) "root len";
      let '(digest, sig) := sign_withdraw key amt_raw root in
      let pk := vk_public_key key in
      _ ← demand (bool_decide (hex_encode (slice digest) = default "" (str_at p ["digest"])))
            "venue digest does not match a local rebuild";
      _ ← demand (bool_decide (digest = withdraw_digest pk amt_raw (p2tr_spk_hash pk) root)) "assertion failed";
      r ← post "/api/withdraw" (withdraw_fields token amt_raw (signature_to_string sig));
      match str_at r ["error"] with
      | None => mret tt
      | Some e =>
          if moved_under e && negb (bool_decide (tries = O)) then withdraw_attempts missed key token amt_raw tries
          else local (Err ("withdraw refused: " +:+ e))
      end
  end.
Definition signed_withdraw (key : VenueKey) (token : string) (amt_raw : Z) : venue () :=
  withdraw_attempts "withdraw kept missing the moving root after 3 attempts" key token amt_raw 3.

(** The session's open, rounded to the tick of one whole unit. *)
Definition TICK : Z := 100000000.
Definition drill_price (open : Z) : option Z :=
  sum ← u64_checked_add open (TICK / 2); Some (Z.max (sum / TICK * TICK) TICK).

Definition drill_with (key_a key_b : VenueKey) : venue () :=
  '(tok_a, _) ← login key_a "wallet A";
  '(tok_b, _) ← login key_b "wallet B";
  st ← state tok_a;
  open ← expect (u64_at st ["sessionOpenRaw"]) "sessionOpenRaw";
  price ← expect (drill_price open) "attempt to add with overflow";
  let qty := 1000 in
  ra ← signed_order key_a tok_a Sell price qty false;
  _ ← demand (negb (null_at ra ["restId"])) "A's limit should rest";
  rb ← signed_order key_b tok_b Buy price qty true;
  _ ← demand (match json_at rb ["iocCancelled"] with Some v => json_eq_bool v false | None => false end)
        "B's ioc should fill completely";
  mb ← state tok_b;
  _ ← demand (0 <? default 0 (u64_at mb ["me"; "marginRaw"])) "B should be margined after the fill";
  signed_withdraw key_b tok_b qty.

Definition seed32 (hex_s : string) : result string bytes32 :=
  ok_or (hex_decode_to_slice 32 hex_s) "seed must be 32 bytes of hex".
Definition drill (seed_a seed_b : string) : venue () :=
  seed_a ← local (seed32 seed_a);
  seed_b ← local (seed32 seed_b);
  key_a ← local (VenueKey_from_seed (slice seed_a) LiquidTestnet);
  key_b ← local (VenueKey_from_seed (slice seed_b) LiquidTestnet);
  drill_with key_a key_b.
End drill.
