(* ===== verification/VenueDrillSpec.v ===== *)
(** What the venue drill signs: each form it posts carries a signature over
    exactly what the form says and the venue has just reported, within a
    bounded number of requests. *)

From S2P Require Import Prelude Http HttpLogic Crates Key Pset LendingData FieldsLib LendingText Venue VenueDrill.

(** * Decimal text *)

Lemma dec_reads raw : in_u64 raw → parse8 (dec raw) = Some raw.
Proof.
  intros Hr. pose proof (Z.div_mod raw 100000000 ltac:(lia)) as Hdm.
  pose proof (Z.mod_pos_bound raw 100000000 ltac:(lia)) as Hmod.
  assert (in_u64 (raw / 100000000)) as Hw.
  { unfold in_u64 in *. split; [apply Z.div_pos; lia|]. apply Z.div_lt_upper_bound; lia. }
  assert (0 ≤ raw / 100000000) as Hw0 by (unfold in_u64 in Hw; lia).
  set (frac := raw mod 100000000) in *.
  assert (all_digits (dec_string (raw / 100000000))) as Hwd by (by apply dec_digits_digits).
  assert (all_digits (fixed_digits 8 frac "")) as Hfd by (by apply fixed_digits_digits; [lia|]).
  assert (dec_value 0 (fixed_digits 8 frac "") = Some frac) as Hv.
  { rewrite fixed_digits_value by lia. simpl. f_equal. rewrite Z.mod_small; lia. }
  assert (String.length (fixed_digits 8 frac "") = 8%nat) as Hlen by (by rewrite fixed_digits_length).
  unfold dec, parse8. fold frac. generalize dependent (fixed_digits 8 frac ""). intros ft Hfd Hv Hlen.
  change ("." +:+ ft) with (String "." ft). rewrite split_on_point, Hlen by done. simpl.
  rewrite dec_string_value by done. simpl. rewrite Hv. simpl. f_equal. lia.
Qed.

(** * Forms, as the venue reads them *)

Definition form_field (fields : list (string * string)) (name : string) : option string :=
  snd <$> List.find (λ kv, bool_decide (kv.1 = name)) fields.
Definition read_side (text : string) : option OrderSide :=
  if bool_decide (text = "buy") then Some Buy else if bool_decide (text = "sell") then Some Sell else None.
Record order_form := {
  of_side : OrderSide; of_price : Z; of_qty : Z; of_expiry : Z; of_nonce : Z; of_ioc : bool; of_sig : string;
}.
Definition read_order (fields : list (string * string)) : option order_form :=
  side ← form_field fields "side" ≫= read_side;
  price ← form_field fields "price" ≫= parse8;
  qty ← form_field fields "qty" ≫= parse8;
  expiry ← form_field fields "expiry" ≫= parse_uint (2 ^ 32 - 1);
  nonce ← form_field fields "nonce" ≫= parse_uint U64_MAX;
  sig ← form_field fields "sig";
  Some {| of_side := side; of_price := price; of_qty := qty; of_expiry := expiry; of_nonce := nonce;
          of_ioc := bool_decide (form_field fields "ioc" = Some "1"); of_sig := sig |}.
Definition read_withdraw (fields : list (string * string)) : option (Z * string) :=
  amt ← form_field fields "amount" ≫= parse8; sig ← form_field fields "sig"; Some (amt, sig).

Lemma dec_digits_nonempty fuel z s : s ≠ "" → dec_digits fuel z s ≠ "".
Proof. revert z s. induction fuel as [|fuel IH]; intros z s Hs; simpl; [done|]. destruct (z <? 10); [done|by apply IH]. Qed.
Lemma dec_string_nonempty z : dec_string z ≠ "".
Proof.
  assert (∀ fuel, dec_digits (S fuel) z "" ≠ "") as Hd; [|apply Hd].
  intros fuel. simpl. destruct (z <? 10); [done|by apply dec_digits_nonempty].
Qed.
Lemma parse_uint_dec max z : in_u64 z → z ≤ max → parse_uint max (dec_string z) = Some z.
Proof.
  intros Hz Hm. pose proof (dec_string_value z Hz) as Hv. pose proof (dec_digits_digits 20 z "") as Hd.
  fold (dec_string z) in Hd. unfold parse_uint. assert (match dec_string z with String "+" s => s | _ => dec_string z end
    = dec_string z) as ->.
  { destruct (dec_string z) as [|c t]; [done|]. specialize (Hd ltac:(unfold in_u64 in Hz; lia) eq_refl).
    unfold all_digits in Hd. simpl in Hd. by destruct c as [[] [] [] [] [] [] [] []]. }
  rewrite bool_decide_false.
  - rewrite Hv. simpl. by rewrite (proj2 (Z.leb_le _ _)).
  - apply dec_string_nonempty.
Qed.

(** * What is asked *)

Section asked.
Context `{!HashesApi, !HexApi, !JsonApi, !JsonEqBool, !SchnorrApi, !ElementsApi, !PsetTypes, !VenueApi, !JsonLaws}.
Context (base : string).
Abbreviation log := (list (exchange body string)).
Implicit Types (l : log) (rq : request body).

Definition page_rq (url : string) (b : body) : request body :=
  {| rq_url := base +:+ url; rq_headers := []; rq_body := b |}.
(** The last thing exchanged: that page of the venue, with that value. *)
Definition reported l (rq : request body) (v : Value) : Prop :=
  ∃ l' text, l = l' ++ [(rq, HttpOk text)] ∧ json_from_str text = Some v.

(** Requests that sign nothing. *)
Inductive unsigned rq : Prop :=
| uns_challenge : rq = page_rq "/api/sdk/challenge" (Form []) → unsigned rq
| uns_state token : rq = page_rq ("/api/state?token=" +:+ token) Get → unsigned rq
| uns_prepare token amt :
    rq = page_rq "/api/withdraw/prepare" (Form [("token", token); ("amount", dec amt)]) → unsigned rq.

(** A login: the key's signature of the login statement over the challenge
    just received. *)
Definition login_rq key l rq : Prop :=
  ∃ ch challenge, reported l (page_rq "/api/sdk/challenge" (Form [])) ch ∧ str_at ch ["challenge"] = Some challenge ∧
    rq = page_rq "/api/sdk/login"
      (Form [("pk", hex_encode (slice (vk_public_key key))); ("challenge", challenge);
             ("sig", signature_to_string (sign_digest key (login_digest (vk_public_key key) challenge)))]).

(** An order: what the form says, read back, is what the key signed; it
    bears the nonce the venue has just reported and expires twenty-four
    sessions after the one reported. *)
Definition order_rq key token (side : OrderSide) (price qty : Z) (ioc : bool) l rq : Prop :=
  ∃ st session nonce fields o,
    reported l (page_rq ("/api/state?token=" +:+ token) Get) st ∧
    u64_at st ["session"] = Some session ∧ u64_at st ["me"; "nextNonce"] = Some nonce ∧
    rq = page_rq "/api/order" (Form fields) ∧ form_field fields "token" = Some token ∧ read_order fields = Some o ∧
    o.(of_side) = side ∧ o.(of_price) = price ∧ o.(of_qty) = qty ∧ o.(of_ioc) = ioc ∧
    o.(of_expiry) = session mod 2 ^ 32 + 24 ∧ in_u32 o.(of_expiry) ∧ o.(of_nonce) = nonce ∧
    o.(of_sig) = signature_to_string (sign_digest key
      (order_digest (vk_public_key key) o.(of_side) o.(of_price) o.(of_qty) o.(of_expiry) o.(of_nonce) None)).

(** A withdrawal: the amount of the form, to the key's own script, under the
    root the venue has just prepared - whose digest it named is the one
    signed. *)
Definition withdraw_rq key token (amt : Z) l rq : Prop :=
  ∃ p root_text root fields sig,
    let d := withdraw_digest (vk_public_key key) amt (p2tr_spk_hash (vk_public_key key)) root in
    reported l (page_rq "/api/withdraw/prepare" (Form [("token", token); ("amount", dec amt)])) p ∧
    str_at p ["error"] = None ∧ str_at p ["root"] = Some root_text ∧ hex_decode_to_slice 32 root_text = Some root ∧
    hex_encode (slice d) = default "" (str_at p ["digest"]) ∧
    rq = page_rq "/api/withdraw" (Form fields) ∧ form_field fields "token" = Some token ∧
    read_withdraw fields = Some (amt, sig) ∧ sig = signature_to_string (sign_digest key d).

Lemma u64_at_range v path n : u64_at v path = Some n → in_u64 n.
Proof. unfold u64_at. destruct (json_at v path); [apply as_u64_range|done]. Qed.
Lemma reported_snoc l rq text v : json_from_str text = Some v → reported (l ++ [(rq, HttpOk text)]) rq v.
Proof. intros. by exists l, text. Qed.

Lemma order_fields_read token side price qty expiry nonce sig ioc :
  in_u64 price → in_u64 qty → in_u32 expiry → in_u64 nonce →
  read_order (order_fields token side price qty expiry nonce sig ioc)
  = Some {| of_side := side; of_price := price; of_qty := qty; of_expiry := expiry; of_nonce := nonce;
            of_ioc := ioc; of_sig := sig |}.
Proof.
  intros Hp Hq He Hn. unfold read_order, form_field. simpl.
  rewrite (dec_reads price), (dec_reads qty) by done. simpl.
  rewrite !parse_uint_dec by (unfold in_u32, in_u64, U64_MAX in *; lia). simpl.
  by destruct side, ioc.
Qed.
Lemma withdraw_fields_read token amt sig :
  in_u64 amt → read_withdraw (withdraw_fields token amt sig) = Some (amt, sig).
Proof. intros Ha. unfold read_withdraw, form_field. simpl. by rewrite dec_reads. Qed.

(** * The operations *)

Section operations.
Context {A : Type} (G : log → request body → Prop) (Q : log → result string A → Prop).
Hypothesis (Hunsigned : ∀ l rq, unsigned rq → G l rq) (Herr : ∀ l e, Q l (Err e)).

(** After a page was asked: it was answered with a value, or all ends. *)
Lemma ask_wp l rq k (f : Value → client body string A) :
  G l rq →
  (∀ reply, match reply with HttpOk text => k reply = Done (page text) | _ => ∃ e, k reply = Done (Err e) end) →
  (∀ v text, json_from_str text = Some v → http_wp G Q (l ++ [(rq, HttpOk text)]) (f v)) →
  http_wp G Q l ((Post (rq_url rq) (rq_headers rq) (rq_body rq) k : client body string Value) ≫= f).
Proof.
  intros HG Hk Hf. apply http_wp_bind. destruct rq as [url hs b]. split; [done|].
  intros reply. specialize (Hk reply). destruct reply as [text| | |]; [rewrite Hk|destruct Hk as [e ->]; by apply Herr..].
  simpl. unfold page, ok_or. destruct (json_from_str text) as [v|] eqn:E; [|by apply Herr].
  by apply Hf.
Qed.
Lemma post_wp l path fields (f : Value → client body string A) :
  G l (page_rq path (Form fields)) →
  (∀ v text, json_from_str text = Some v → http_wp G Q (l ++ [(page_rq path (Form fields), HttpOk text)]) (f v)) →
  http_wp G Q l (post base path fields ≫= f).
Proof. intros HG Hf. apply (ask_wp l (page_rq path (Form fields)) _ f HG); [intros []; simpl; eauto|exact Hf]. Qed.
Lemma state_wp l token (f : Value → client body string A) :
  (∀ v text, json_from_str text = Some v →
     http_wp G Q (l ++ [(page_rq ("/api/state?token=" +:+ token) Get, HttpOk text)]) (f v)) →
  http_wp G Q l (state base token ≫= f).
Proof.
  intros Hf. apply (ask_wp l (page_rq ("/api/state?token=" +:+ token) Get) _ f); [|intros []; simpl; eauto|exact Hf].
  apply Hunsigned. by eapply uns_state.
Qed.
Lemma expect_wp {X} l (o : option X) what (f : X → client body string A) :
  (∀ x, o = Some x → http_wp G Q l (f x)) → http_wp G Q l (expect o what ≫= f).
Proof. intros Hf. apply http_wp_local; [|by intros; apply Herr]. intros x Hx%ok_or_Ok. by apply Hf. Qed.
Lemma demand_wp l b what (f : () → client body string A) :
  (b = true → http_wp G Q l (f ())) → http_wp G Q l (demand b what ≫= f).
Proof. intros Hf. apply http_wp_local; [|by intros; apply Herr]. intros [] Hx%ensure_Ok. by apply Hf. Qed.
Lemma no_error_wp l what r (f : () → client body string A) :
  (str_at r ["error"] = None → http_wp G Q l (f ())) → http_wp G Q l (no_error what r ≫= f).
Proof.
  intros Hf. apply http_wp_local; [|by intros; apply Herr]. destruct (str_at r ["error"]); [done|]. intros [] _. by apply Hf.
Qed.
Lemma ret_wp {X} l (x : X) (f : X → client body string A) : http_wp G Q l (f x) → http_wp G Q l ((mret x : client body string X) ≫= f).
Proof. done. Qed.
End operations.

Section flows.
Context {A : Type} (G : log → request body → Prop) (Q : log → result string A → Prop).
Hypothesis (Hunsigned : ∀ l rq, unsigned rq → G l rq) (Herr : ∀ l e, Q l (Err e)).

Lemma login_wp l key label (f : string * Z → client body string A) :
  (∀ l' rq, login_rq key l' rq → G l' rq) →
  (∀ x l', l `prefix_of` l' → http_wp G Q l' (f x)) →
  http_wp G Q l (login base key label ≫= f).
Proof.
  intros HG Hf. apply http_wp_bind. unfold login.
  apply post_wp; [done|apply Hunsigned; by constructor|]. intros ch t1 E1.
  apply expect_wp; [done|]. intros challenge Hc. cbn [sign_login].
  apply post_wp; [done|apply HG; exists ch, challenge; split; [by apply reported_snoc|done]|]. intros r t2 E2.
  apply no_error_wp; [done|]. intros _. apply expect_wp; [done|]. intros token _.
  apply expect_wp; [done|]. intros account _. apply Hf. rewrite <-app_assoc. by apply prefix_app_r.
Qed.

Lemma order_wp l key token side price qty ioc (f : Value → client body string A) :
  in_u64 price → in_u64 qty →
  (∀ l' rq, l `prefix_of` l' → order_rq key token side price qty ioc l' rq → G l' rq) →
  (∀ x l', l `prefix_of` l' → http_wp G Q l' (f x)) →
  http_wp G Q l (signed_order base key token side price qty ioc ≫= f).
Proof.
  intros Hp Hq HG Hf. apply http_wp_bind. unfold signed_order.
  apply state_wp; [done..|]. intros st t1 E1.
  apply expect_wp; [done|]. intros session Hs. apply expect_wp; [done|]. intros nonce Hn.
  apply expect_wp; [done|]. intros expiry [-> He]%u32_try_from_Some. cbn [sign_order].
  pose proof (u64_at_range _ _ _ Hn) as Hnr.
  assert (in_u32 (session mod 2 ^ 32 + 24)) as Hex.
  { pose proof (Z.mod_pos_bound session (2 ^ 32) ltac:(lia)). unfold in_u32. lia. }
  apply post_wp; [done| |].
  - apply HG; [by apply prefix_app_r|]. eexists st, session, nonce, _, _.
    split_and!; first [done|by apply reported_snoc|by apply order_fields_read].
  - intros r t2 E2. apply no_error_wp; [done|]. intros _. apply Hf.
    rewrite <-app_assoc. by apply prefix_app_r.
Qed.
End flows.

(** A withdrawal succeeded: it is the last thing exchanged and its answer
    names no error. *)
Definition withdrawn key token amt l : Prop :=
  ∃ l' rq text r, l = l' ++ [(rq, HttpOk text)] ∧ withdraw_rq key token amt l' rq ∧
    json_from_str text = Some r ∧ str_at r ["error"] = None.
Lemma withdraw_wp (G : log → request body → Prop) (Q : log → result string () → Prop) l missed key token amt tries :
  (∀ l rq, unsigned rq → G l rq) → (∀ l e, Q l (Err e)) → in_u64 amt →
  (∀ l' rq, withdraw_rq key token amt l' rq → G l' rq) →
  (∀ l', withdrawn key token amt l' → Q l' (Ok tt)) →
  http_wp G Q l (withdraw_attempts base missed key token amt tries).
Proof.
  intros Hunsigned Herr Ha HG Hf. revert l. induction tries as [|tries IH]; intros l; [by apply Herr|].
  simpl withdraw_attempts. apply post_wp; [done|apply Hunsigned; by eapply uns_prepare|]. intros p t1 E1.
  apply no_error_wp; [done|]. intros Hne. apply expect_wp; [done|]. intros root_text Hrt.
  apply expect_wp; [done|]. intros root Hr. cbn [sign_withdraw].
  apply demand_wp; [done|]. intros Hd. apply demand_wp; [done|]. intros _. bool_inv.
  assert (∀ sig, sig = signature_to_string (sign_digest key
      (withdraw_digest (vk_public_key key) amt (p2tr_spk_hash (vk_public_key key)) root)) →
    withdraw_rq key token amt (l ++ [(page_rq "/api/withdraw/prepare" (Form [("token", token); ("amount", dec amt)]), HttpOk t1)])
      (page_rq "/api/withdraw" (Form (withdraw_fields token amt sig)))) as Hw.
  { intros sig Hsig. eexists p, root_text, root, _, _.
    split_and!; first [done|by apply reported_snoc|by apply withdraw_fields_read]. }
  apply post_wp; [done|by apply HG, Hw|]. intros r t2 E2.
  destruct (str_at r ["error"]) as [e|] eqn:E.
  - destruct (_ && _); [apply IH|apply Herr].
  - apply Hf. eexists _, _, t2, r. split_and!; [done|by apply Hw|done..].
Qed.

(** * The drill *)

Definition drill_price_spec (open price : Z) : Prop :=
  (TICK | price) ∧ TICK ≤ price ∧ in_u64 price ∧ (TICK <= 2 * open → 2 * Z.abs (price - open) ≤ TICK).
Lemma drill_price_rounds open price : 0 ≤ open → drill_price open = Some price → drill_price_spec open price.
Proof.
  intros Ho. unfold drill_price, u64_checked_add. destruct (Z.ltb_spec (open + TICK / 2) (2 ^ 64)) as [Hlt|]; [|done].
  change (TICK / 2) with 50000000 in *. simpl. intros [= <-]. unfold drill_price_spec, TICK, in_u64 in *.
  set (s := open + 50000000) in *. pose proof (Z.div_mod s 100000000 ltac:(lia)).
  pose proof (Z.mod_pos_bound s 100000000 ltac:(lia)). split_and!; try lia.
  - destruct (Z.max_spec (s / 100000000 * 100000000) 100000000) as [[_ ->]|[_ ->]]; [done|apply Z.divide_factor_r].
Qed.

(** What the drill may ask, after [l]: pages that sign nothing; the two
    logins; the resting sell of A and the immediate buy of B, both at the
    rounded open that the venue reported; the withdrawal of B. *)
Inductive drill_asks (key_a key_b : VenueKey) l rq : Prop :=
| da_unsigned : unsigned rq → drill_asks key_a key_b l rq
| da_login_a : login_rq key_a l rq → drill_asks key_a key_b l rq
| da_login_b : login_rq key_b l rq → drill_asks key_a key_b l rq
| da_order token st text open price :
    (page_rq ("/api/state?token=" +:+ token) Get, HttpOk text) ∈ l → json_from_str text = Some st →
    u64_at st ["sessionOpenRaw"] = Some open → drill_price open = Some price → drill_price_spec open price →
    (∃ token, order_rq key_a token Sell price 1000 false l rq) ∨ (∃ token, order_rq key_b token Buy price 1000 true l rq) →
    drill_asks key_a key_b l rq
| da_withdraw token : withdraw_rq key_b token 1000 l rq → drill_asks key_a key_b l rq.

Lemma drill_wp key_a key_b :
  http_wp (drill_asks key_a key_b) (λ l r, r = Ok tt → ∃ token, withdrawn key_b token 1000 l) []
    (drill_with base key_a key_b).
Proof.
  assert (∀ l rq, unsigned rq → drill_asks key_a key_b l rq) as Hu by (by constructor).
  unfold drill_with. apply login_wp; [done..|by apply da_login_a|]. intros [tok_a acc_a] l1 _.
  apply login_wp; [done..|by apply da_login_b|]. intros [tok_b acc_b] l2 _.
  apply state_wp; [done..|]. intros st text Est. apply expect_wp; [done|]. intros open Hopen.
  apply expect_wp; [done|]. intros price Hprice.
  pose proof (drill_price_rounds open price (proj1 (u64_at_range _ _ _ Hopen)) Hprice) as Hspec.
  destruct (Hspec) as (_ & _ & Hp & _). assert (in_u64 1000) as Hq by (unfold in_u64; lia).
  assert (∀ l' rq, (l2 ++ [(page_rq ("/api/state?token=" +:+ tok_a) Get, HttpOk text)]) `prefix_of` l' →
    (∃ token, order_rq key_a token Sell price 1000 false l' rq) ∨ (∃ token, order_rq key_b token Buy price 1000 true l' rq) →
    drill_asks key_a key_b l' rq) as Horder.
  { intros l' rq [more ->] Ho. eapply da_order; [|done..]. apply elem_of_app. left. apply elem_of_app. right. by left. }
  apply order_wp; [done..| |]; [intros; apply Horder; eauto|]. intros ra l3 Hl3.
  apply demand_wp; [done|]. intros _. apply order_wp; [done..| |].
  { intros. apply Horder; [by etrans|]. eauto. }
  intros rb l4 Hl4. apply demand_wp; [done|]. intros _. apply state_wp; [done..|]. intros mb t5 E5.
  apply demand_wp; [done|]. intros _. apply withdraw_wp; [done..|intros; by eapply da_withdraw|]. eauto.
Qed.

(** ** The number of requests *)

Lemma ends_post {A} path fields (f : Value → client body string A) n :
  (∀ v, ends (f v) n) → ends (post base path fields ≫= f) (S n).
Proof. intros Hf. apply (ends_then _ f 1 n); [|done]. intros reply. by destruct reply. Qed.
Lemma ends_state {A} token (f : Value → client body string A) n :
  (∀ v, ends (f v) n) → ends (state base token ≫= f) (S n).
Proof. intros Hf. apply (ends_then _ f 1 n); [|done]. intros reply. by destruct reply. Qed.
Lemma ends_local {A X} (r : result string X) (f : X → client body string A) n :
  (∀ x, ends (f x) n) → ends (local r ≫= f) n.
Proof. intros Hf. by apply (ends_then _ f 0 n). Qed.
Ltac ends_steps :=
  repeat first [ apply ends_post; intros ? | apply ends_state; intros ? | apply ends_local; intros ? ].
Lemma withdraw_ends missed key token amt tries :
  ends (withdraw_attempts base missed key token amt tries) (2 * tries).
Proof.
  induction tries as [|tries IH]; [done|]. cbn [withdraw_attempts]. replace (2 * S tries)%nat with (S (S (2 * tries))) by lia.
  ends_steps.
  destruct (str_at _ _); [|by destruct (2 * tries)%nat]. destruct (_ && _); [apply IH|by destruct (2 * tries)%nat].
Qed.
Lemma login_ends {A} key label (f : string * Z → client body string A) n :
  (∀ x, ends (f x) n) → ends (login base key label ≫= f) (S (S n)).
Proof.
  intros Hf. apply (ends_then _ f 2 n); [|done]. unfold login. by ends_steps.
Qed.
Lemma order_ends {A} key token side price qty ioc (f : Value → client body string A) n :
  (∀ x, ends (f x) n) → ends (signed_order base key token side price qty ioc ≫= f) (S (S n)).
Proof.
  intros Hf. apply (ends_then _ f 2 n); [|done]. unfold signed_order. by ends_steps.
Qed.
Lemma drill_ends key_a key_b : ends (drill_with base key_a key_b) 16.
Proof.
  unfold drill_with. do 2 (apply login_ends; intros []). apply ends_state; intros ?.
  do 2 (apply ends_local; intros ?). cbv zeta. apply order_ends; intros ?. apply ends_local; intros ?.
  apply order_ends; intros ?. apply ends_local; intros ?. apply ends_state; intros ?. apply ends_local; intros ?.
  unfold signed_withdraw. change 6%nat with (2 * 3)%nat. apply withdraw_ends.
Qed.

(** C25. The venue drill signs what it posts, and only what the venue has
    just told it. Whatever is answered: each request either signs nothing, or
    is a login of one of the two keys over the challenge just received, or an
    order whose form - read back by the venue - states the very side, price,
    quantity, expiry and nonce that were signed, at the reported open rounded
    to the tick, with the nonce of the state just read and an expiry
    twenty-four sessions later; or a withdrawal whose digest the venue named
    together with the root, rebuilt from the amount, the key's own script and
    that root before signing. It makes at most sixteen requests (calls of [ureq];
    redirects inside one are not modelled) and ends, and
    it reports success only when the last answer accepted such a withdrawal. *)
Theorem drill_signs_what_it_posts key_a key_b replies :
  let '(requests, outcome) := run_http (drill_with base key_a key_b) replies in
  (∀ n rq, requests !! n = Some rq → drill_asks key_a key_b (zip (take n requests) replies) rq) ∧
  (length requests ≤ 16)%nat ∧ ((16 ≤ length replies)%nat → is_Some outcome) ∧
  (outcome = Some (Ok tt) → ∃ token, withdrawn key_b token 1000 (zip requests replies)).
Proof.
  pose proof (http_wp_run _ _ _ _ replies (drill_wp key_a key_b)) as [Hg Hq].
  pose proof (ends_requests _ 16 replies (drill_ends key_a key_b)) as Hlen.
  pose proof (run_ends _ 16 replies (drill_ends key_a key_b)) as Hend.
  destruct (run_http _ replies) as [requests outcome]. simpl in *. split_and!; [exact Hg|done..|].
  intros ->. by apply (Hq (Ok tt)).
Qed.

(** The text for a loop that ran out is never shown: a third miss is
    reported as a refusal. *)
Lemma withdraw_never_misses m m' key token amt tries replies :
  run_http (withdraw_attempts base m key token amt (S tries)) replies
  = run_http (withdraw_attempts base m' key token amt (S tries)) replies.
Proof.
  revert replies. induction tries as [|tries IH]; intros replies; cbn [withdraw_attempts];
    repeat (apply run_ext; intros ? ?); cbn [sign_withdraw];
    repeat (apply run_ext; intros ? ?); destruct (str_at _ _); try done.
  - by rewrite andb_false_r.
  - destruct (_ && _); [apply IH|done].
Qed.
End asked.
