(* ===== verification/Host.v ===== *)
(** A host on the library: the headless wallet of
    [lc-wallet-core/examples/approve-all-wallet.rs], which answers what the
    actor shows it - it checks and signs typed venue requests with the venue
    key, lets the identity key sign opaque ones, completes the venue inputs
    of a pset, and refuses payments. *)

From S2P Require Import Prelude Crates Wire Key Link SessionData Session Transport Pset Approval LendingData Venue System.

Section approve_all.
Context `{!HashesApi, !HexApi, !JsonApi, !SchnorrApi, !ElementsApi, !PsetTypes, !PsetApi, !VenueApi, !UrlApi}.
(** [base64] of [encode::serialize]. *)
Context (pset_to_base64 : Pset → string).
(** The venue key of the seed, and [LC_EXPECTED_WITHDRAW_DEST]. *)
Context (venue_key : VenueKey) (expected_dest : option string).

Definition stop_stale (sessions : list Session) : list input :=
  omap (λ session, if session.(ses_is_local) then None else Some (stop_session session.(ses_session_id))) sessions.

Definition on_sign_request (req : SignRequest) : list input :=
  match decode_pset req.(sr_pset) with
  | Err _ => [reject_sign req.(sr_request_id)]
  | Ok pset =>
      match genesis_block_hash LiquidTestnet with
      | None => []
      | Some genesis =>
          match sign_pset_keyspend_inputs venue_key pset genesis with
          | Ok (_, O) => [reject_sign req.(sr_request_id)]
          | Ok (signed, _) => [accept_sign req.(sr_request_id) (pset_to_base64 signed)]
          | Err _ => [reject_sign req.(sr_request_id)]
          end
      end
  end.

(** Comparing with hexadecimal text, ASCII lower case is all of
    [to_lowercase] that matters. *)
Definition digest_shown (typed : TypedRequest) (req : SignMessageRequest) : bool :=
  let rebuilt := match typed_request_digest typed (vk_public_key venue_key) with Ok d => d | Err _ => zeros 32 end in
  bool_decide (hex_encode (slice rebuilt) = to_ascii_lowercase req.(smr_digest)).
Definition dest_expected (typed : TypedRequest) : bool :=
  match typed, expected_dest with
  | RWithdraw _ dest _, Some expected => bool_decide (expected = dest)
  | _, _ => true
  end.
Definition typed_of (req : SignMessageRequest) : option (result string TypedRequest) :=
  description ← req.(smr_description); parse_typed_description description.
Definition on_sign_message_request (req : SignMessageRequest) : list input :=
  match typed_of req with
  | Some (Ok typed) =>
      if negb (digest_shown typed req) then [reject_sign_message req.(smr_request_id)]
      else if negb (dest_expected typed) then [reject_sign_message req.(smr_request_id)]
      else match sign_typed venue_key typed with
           | Ok (_, signature) =>
               [accept_sign_message_signed req.(smr_request_id) (signature_to_string signature)]
           | Err _ => [reject_sign_message req.(smr_request_id)]
           end
  | Some (Err _) => [reject_sign_message req.(smr_request_id)]
  | None => [accept_sign_message req.(smr_request_id)]
  end.

(** The body of the event loop: the calls it makes on the handle. *)
Definition on_event (event : wallet_event) : list input :=
  match event with
  | WalletEvent.Sessions sessions => stop_stale sessions
  | WalletEvent.LoginRequested req => [accept_login req.(lr_request_id)]
  | WalletEvent.SignRequested req => on_sign_request req
  | WalletEvent.SignMessageRequested req => on_sign_message_request req
  | WalletEvent.PayRequested req => [reject_pay req.(pr_request_id)]
  | _ => []
  end.

(** The wallet as a host: the loop keeps nothing, the thread that watches the
    file of links keeps how many lines it has opened. *)
Definition approve_all : host nat := {|
  react seen event := (seen, on_event event);
  reads := open_new_links;
|}.
End approve_all.

