(* ===== verification/HostSpec.v ===== *)
(** The approve-all wallet around the library, as a whole: whatever the
    server sends and however the channels interleave, what leaves is what
    the wallet's rules allow for requests it was shown; and what approval by
    id does not protect against. *)

From S2P Require Import Prelude Crates Wire Key Link SessionData Session SessionLib SessionMirror SessionActions.
From S2P Require Import SessionRuns Transport TransportRuns Pset Approval LendingData Venue VenueSpec System SystemSpec Host.

(** * The approve-all wallet *)

Section approve_all.
Context `{!HashesApi, !HexApi, !JsonApi, !SchnorrApi, !SerdeWire, !ElementsApi, !PsetTypes, !PsetApi, !VenueApi, !UrlApi}.
Context (pset_to_base64 : Pset → string) (venue_key : VenueKey) (expected_dest : option string).
Context (iid : InstallId) (desc : string) (key : WalletKey).
Let wallet := approve_all pset_to_base64 venue_key expected_dest.
Let answers := on_event pset_to_base64 venue_key expected_dest.

(** A signature of the venue key: on the statement of the typed request
    that the description displays, whose digest the service asked for, and
    no withdrawal to an unexpected address. *)
Definition typed_signature (r : SignMessageRequest) (signature : string) : Prop :=
  ∃ typed s, typed_of r = Some (Ok typed) ∧ makes (vk_public_key venue_key) typed s ∧
    hex_encode (slice (statement_digest s)) = to_ascii_lowercase r.(smr_digest) ∧
    dest_expected expected_dest typed = true ∧
    signature = signature_to_string (sign_digest venue_key (statement_digest s)).
(** A signature of the identity key, on the digest of a request under the
    id of one that displays no typed request. *)
Definition opaque_signature (shown : list wallet_event) (r : SignMessageRequest) (signature : string) : Prop :=
  typed_of r = None ∧ ∃ r' digest,
    WalletEvent.SignMessageRequested r' ∈ shown ∧ r'.(smr_request_id) = r.(smr_request_id) ∧
    hex_decode_to_slice 32 r'.(smr_digest) = Some digest ∧
    signature = signature_to_string (wk_sign_digest key digest).
Definition completed_pset (r : SignRequest) (pset_b64 : string) : Prop :=
  ∃ pset genesis signed n, decode_pset r.(sr_pset) = Ok pset ∧
    sign_pset_keyspend_inputs venue_key pset genesis = Ok (signed, n) ∧ (0 < n)%nat ∧
    pset_b64 = pset_to_base64 signed.

(** What the wallet may do, given what it was shown and the links it read. *)
Definition allowed (shown : list wallet_event) (texts : list string) (a : user_action) : Prop :=
  match a with
  | UserAction.LinkLoginRequest id =>
      ∃ l, link_line texts (Input.AppLink l) ∧ l.(al_link_type) = LinkLogin ∧ l.(al_request_id) = id
  | UserAction.AcceptLoginRequest id d k s =>
      (∃ r, WalletEvent.LoginRequested r ∈ shown ∧ r.(lr_request_id) = id) ∧ d = desc ∧ k = None ∧ s = None
  | UserAction.AcceptSignRequest id p =>
      ∃ r, WalletEvent.SignRequested r ∈ shown ∧ r.(sr_request_id) = id ∧ completed_pset r p
  | UserAction.AcceptSignMessageRequest id signature =>
      ∃ r, WalletEvent.SignMessageRequested r ∈ shown ∧ r.(smr_request_id) = id ∧
        (typed_signature r signature ∨ opaque_signature shown r signature)
  | UserAction.AcceptReceiveAddressRequest _ _ | UserAction.AcceptAssetBalanceRequest _ _
  | UserAction.AcceptPayRequest _ _ | UserAction.AcceptFundRequest _ _ => False
  | _ => True
  end.
(** The wallet's rules: what it may answer to an event. *)
Inductive reaction : wallet_event → input → Prop :=
| re_stop sessions id : reaction (WalletEvent.Sessions sessions) (Input.StopSession id)
| re_login r : reaction (WalletEvent.LoginRequested r) (Input.LoginAccepted r.(lr_request_id) None)
| re_sign r p : completed_pset r p → reaction (WalletEvent.SignRequested r) (Input.SignAccepted r.(sr_request_id) p)
| re_sign_reject r : reaction (WalletEvent.SignRequested r) (Input.SignRejected r.(sr_request_id))
| re_typed r signature :
    typed_signature r signature →
    reaction (WalletEvent.SignMessageRequested r) (Input.SignMessageSigned r.(smr_request_id) signature)
| re_opaque r :
    typed_of r = None → reaction (WalletEvent.SignMessageRequested r) (Input.SignMessageAccepted r.(smr_request_id))
| re_message_reject r : reaction (WalletEvent.SignMessageRequested r) (Input.SignMessageRejected r.(smr_request_id))
| re_pay_reject r : reaction (WalletEvent.PayRequested r) (Input.PayRejected r.(pr_request_id)).

Lemma on_sign_request_reaction r i :
  i ∈ on_sign_request pset_to_base64 venue_key r → reaction (WalletEvent.SignRequested r) i.
Proof.
  unfold on_sign_request. destruct (decode_pset _) as [pset|] eqn:Ed; [|intros ->%list_elem_of_singleton; constructor].
  destruct (genesis_block_hash _) as [genesis|]; [|by intros ?%not_elem_of_nil].
  destruct (sign_pset_keyspend_inputs _ _ _) as [[signed [|n]]|] eqn:Es; intros ->%list_elem_of_singleton;
    try constructor.
  exists pset, genesis, signed, (S n). split_and!; [done..|lia|done].
Qed.
Lemma on_sign_message_reaction r i :
  i ∈ on_sign_message_request venue_key expected_dest r → reaction (WalletEvent.SignMessageRequested r) i.
Proof.
  unfold on_sign_message_request. destruct (typed_of r) as [[typed|]|] eqn:Et;
    [|intros ->%list_elem_of_singleton; by constructor..].
  destruct (digest_shown venue_key typed r) eqn:Ed; [|intros ->%list_elem_of_singleton; constructor].
  destruct (dest_expected expected_dest typed) eqn:Ex; [|intros ->%list_elem_of_singleton; constructor].
  destruct (sign_typed venue_key typed) as [[d signature]|] eqn:Es; intros ->%list_elem_of_singleton; [|constructor].
  constructor. unfold sign_typed in Es. result_inv.
  match goal with H : typed_request_digest _ _ = Ok _ |- _ => rename H into Hd end.
  unfold digest_shown in Ed. rewrite Hd in Ed. bool_inv.
  apply typed_request_digest_iff in Hd as (s & Hm & ->). by exists typed, s.
Qed.
Lemma on_event_reaction e i : i ∈ answers e → reaction e i.
Proof.
  destruct e; simpl; try (by intros ?%not_elem_of_nil).
  - intros ->%list_elem_of_singleton. constructor.
  - apply on_sign_request_reaction.
  - apply on_sign_message_reaction.
  - intros ->%list_elem_of_singleton. constructor.
  - intros (x & _ & Hx)%list_elem_of_omap. destruct (ses_is_local x); [done|]. injection Hx as <-. constructor.
Qed.

Lemma caused_reaction shown texts i :
  caused wallet shown texts i → (∃ e, e ∈ shown ∧ reaction e i) ∨ link_line texts i.
Proof.
  intros [(e & k & He & Hie%on_event_reaction)|(text & k & Ht & Hl%open_new_links_line)]; [left; eauto|right].
  by eapply link_line_of.
Qed.

(** An action that an input of the wallet issues is allowed. *)
Lemma issued_allowed shown texts s i a :
  s.(descriptor) = desc → s.(wallet_key) = key → caused wallet shown texts i → issued s i a →
  requests_shown shown s → allowed shown texts a.
Proof.
  intros Hdesc Hkey Hr%caused_reaction Hi Hreq. destruct Hi; simpl; try done; destruct Hr as [(e & He & Hr)|Hl];
    try (by destruct (link_line_input _ _ Hl)); try (by eexists; split_and!; [exact Hl|..]); inversion Hr; subst; eauto 8.
  match goal with H : sign_message_requests s !! _ = Some ?r', Hn : typed_of ?r = None |- _ =>
    apply (proj1 Hreq) in H as [??]; exists r; split_and!; [done..|]; right; split; [done|]; exists r', digest end.
  by rewrite <-Hkey.
Qed.

(** C6. The wallet's rules hold for the whole system: in every state it can
    reach, whatever the server sends, however the network behaves and the
    channels interleave, each frame that was sent is a challenge, a login
    under the identity key, or an action its rules allow for a request it
    was shown - the venue key signs only the statement a typed description
    displays and whose digest was asked for, with the expected destination;
    the identity key signs only on a request that displays no typed one, and
    a digest shown under its id; a pset goes out only with inputs of the venue key completed; a login
    binds no service key; no payment, funding, address or balance leaves. *)
Theorem approve_all_frames st :
  reachable wallet 0%nat iid desc key st →
  Forall (policy_frame iid key (allowed st.(sys_shown) st.(sys_texts))) st.(sys_sent).
Proof.
  apply (policy_frames _ _ _ _ _ allowed); [|by eauto using issued_allowed].
  intros shown texts token [(e & _ & Hr)|[l Hl]%link_line_input]%caused_reaction; [inversion Hr|done].
Qed.

(** Each request for a login, a signature or a payment is answered once, and
    the answer names it. *)
Theorem approve_all_answers e :
  match e with
  | WalletEvent.LoginRequested r => answers e = [accept_login r.(lr_request_id)]
  | WalletEvent.SignRequested r =>
      answers e = [reject_sign r.(sr_request_id)] ∨ ∃ p, answers e = [accept_sign r.(sr_request_id) p]
  | WalletEvent.SignMessageRequested r =>
      answers e = [reject_sign_message r.(smr_request_id)] ∨ answers e = [accept_sign_message r.(smr_request_id)] ∨
      ∃ signature, answers e = [accept_sign_message_signed r.(smr_request_id) signature]
  | WalletEvent.PayRequested r => answers e = [reject_pay r.(pr_request_id)]
  | _ => True
  end.
Proof.
  destruct e; simpl; try done.
  - unfold on_sign_request. destruct (decode_pset _); simpl; [|by left].
    destruct (sign_pset_keyspend_inputs _ _ _) as [[? []]|]; eauto.
  - unfold on_sign_message_request. repeat case_match; eauto.
Qed.
End approve_all.

(** * Approval by id *)

Section by_id.
Context `{!HashesApi, !HexApi, !SchnorrApi, !SerdeWire}.

(** An approval names its request by id only. When the service creates a
    second request under the id of the one on display, before the approval
    is handled, the identity key signs the digest of the second: the host's
    consent to one text authorises another. *)
Theorem approval_by_id_swapped s t1 t2 r1 r2 digest :
  s.(connected) = true → r1.(smr_request_id) = r2.(smr_request_id) →
  wire_from_str t1 = Some (From.Notif (Notif.SignMessageRequestCreated r1)) →
  wire_from_str t2 = Some (From.Notif (Notif.SignMessageRequestCreated r2)) →
  hex_decode_to_slice 32 r2.(smr_digest) = Some digest →
  Effect.AddSignMessageRequest r1
    ∈ (run_inputs [Input.Transport (Recv t1)] s).2 ∧
  send s.(next_action_id)
    (Req.UserAction (UserAction.AcceptSignMessageRequest r1.(smr_request_id)
       (signature_to_string (wk_sign_digest s.(wallet_key) digest))))
    ∈ (run_inputs [Input.Transport (Recv t1); Input.Transport (Recv t2);
                   Input.SignMessageAccepted r1.(smr_request_id)] s).2.
Proof.
  intros Hc Hid Ht1 Ht2 Hd. split.
  - rewrite run_inputs_one. simpl. rewrite Ht1. left.
  - set (s2 := (run_inputs [Input.Transport (Recv t1); Input.Transport (Recv t2)] s).1).
    assert (s2 = upd_sign_message_requests <[r2.(smr_request_id) := r2]>
                   (upd_sign_message_requests <[r1.(smr_request_id) := r1]> s)) as Es2.
    { unfold s2. change [?a; ?b] with ([a] ++ [b]). rewrite run_inputs_app, !run_inputs_one. simpl. by rewrite Ht1, Ht2. }
    change [?a; ?b; ?c] with ([a; b] ++ [c]). rewrite run_inputs_app, run_inputs_one. cbn [snd]. fold s2.
    apply elem_of_app. right. unfold handle. rewrite seq_snd. apply elem_of_app. left.
    unfold gets, sign_message_digest. rewrite Es2. simpl. rewrite Hid, lookup_insert_eq. simpl. rewrite Hd. simpl.
    rewrite add_user_action_effects. simpl. rewrite Hc. left.
Qed.
End by_id.

(** * The approve-all wallet quiesces *)

Section quiesce.
Context `{!HashesApi, !HexApi, !JsonApi, !SchnorrApi, !SerdeWire, !ElementsApi, !PsetTypes, !PsetApi, !VenueApi, !UrlApi}.
Context (pset_to_base64 : Pset → string) (venue_key : VenueKey) (expected_dest : option string).

(** It makes at most one call for a request, one for each stale session of a
    list, and none for anything else. *)
Definition approve_all_calls (e : wallet_event) : nat :=
  match e with
  | WalletEvent.Sessions sessions => length sessions
  | WalletEvent.LoginRequested _ | WalletEvent.SignRequested _
  | WalletEvent.SignMessageRequested _ | WalletEvent.PayRequested _ => 1
  | _ => 0
  end.
#[export] Instance approve_all_measured :
  Measured (approve_all pset_to_base64 venue_key expected_dest) approve_all_calls.
Proof.
  split.
  - intros k e i Hi%on_event_reaction. by destruct Hi.
  - intros k text i [l ->]%open_new_links_line%link_line_input. done.
  - intros k e. pose proof (approve_all_answers pset_to_base64 venue_key expected_dest e) as Ha.
    change ((react _ k e).2) with (on_event pset_to_base64 venue_key expected_dest e). destruct e; simpl; try lia.
    + destruct Ha as [Ha|[p Ha]]; simpl in Ha; rewrite Ha; simpl; lia.
    + destruct Ha as [Ha|[Ha|[p Ha]]]; simpl in Ha; rewrite Ha; simpl; lia.
    + unfold stop_stale, omap. induction sessions as [|x l IH]; simpl; [lia|]. case_match; simpl; lia.
  - by intros [].
Qed.
End quiesce.
