(* ===== verification/BenchHosts.v ===== *)
(** Two more hosts on the library: the wallet of the trading bench
    ([lc-wallet-core/examples/taker-bench-wallet.rs]), which accepts every
    login and completes the psets its own coins take part in, and the
    headless wallet driven from a terminal
    ([lc-wallet-core/examples/headless-wallet.rs]). *)

From S2P Require Import Prelude Crates Wire Key Link SessionData Session Transport Pset System Host.

(** * The wallet of the trading bench *)

(** What the wallet uses of the lwk crates and of [elements]: a pset in its
    text form, the chain scans of the Esplora client, the wallet that
    applies them, the software signer. *)
Class LwkApi `{!PsetTypes} := {
  Wollet : Type;
  Update : Type;
  pset_from_str : string → result string Pset;
  pset_to_string : Pset → string;
  apply_update : Wollet → Update → Wollet * result string unit;
  add_details : Wollet → Pset → result string Pset;
  sw_sign : Pset → result string (Pset * Z);
  finalize : Wollet → Pset → result string Pset;
}.

Section bench.
Context `{!PsetTypes, !LwkApi, !UrlApi}.

(** The wallet; what [full_scan] will answer, call by call; the lines of the
    links file that were opened. *)
Record bench := Bench {
  bw_wollet : Wollet;
  bw_scans : list (result string (option Update));
  bw_seen : nat;
}.

Definition full_scan (b : bench) : bench * result string (option Update) :=
  match b.(bw_scans) with
  | scan :: scans => (Bench b.(bw_wollet) scans b.(bw_seen), scan)
  | [] => (b, Err "no answer")
  end.
Definition sync (b : bench) : bench * result string unit :=
  let '(b, scan) := full_scan b in
  match scan with
  | Err e => (b, Err e)
  | Ok None => (b, Ok tt)
  | Ok (Some update) =>
      let '(w, applied) := apply_update b.(bw_wollet) update in
      (Bench w b.(bw_scans) b.(bw_seen), applied)
  end.

(** The pset completed, and how many of its inputs were signed. *)
Definition bench_sign (b : bench) (pset : Pset) : bench * result string (Pset * Z) :=
  let '(b, synced) := sync b in
  (b, _ ← synced;
      detailed ← add_details b.(bw_wollet) pset;
      '(signed, n) ← sw_sign detailed;
      final ← finalize b.(bw_wollet) signed;
      Ok (final, n)).
Definition bench_sign_request (b : bench) (req : SignRequest) : bench * list input :=
  match pset_from_str req.(sr_pset) with
  | Err _ => (b, [reject_sign req.(sr_request_id)])
  | Ok pset =>
      let '(b, res) := bench_sign b pset in
      (b, [match res with
           | Ok (final, n) =>
               if n =? 0 then reject_sign req.(sr_request_id)
               else accept_sign req.(sr_request_id) (pset_to_string final)
           | Err _ => reject_sign req.(sr_request_id)
           end])
  end.

Definition bench_on_event (b : bench) (event : wallet_event) : bench * list input :=
  match event with
  | WalletEvent.Sessions sessions => (b, stop_stale sessions)
  | WalletEvent.LoginRequested req => (b, [accept_login req.(lr_request_id)])
  | WalletEvent.SignRequested req => bench_sign_request b req
  | WalletEvent.SignMessageRequested req => (b, [reject_sign_message req.(smr_request_id)])
  | _ => (b, [])
  end.
Definition bench_reads (b : bench) (text : string) : bench * list input :=
  let '(seen, inputs) := open_new_links b.(bw_seen) text in
  (Bench b.(bw_wollet) b.(bw_scans) seen, inputs).
Definition bench_wallet : host bench := {| react := bench_on_event; reads := bench_reads |}.
End bench.

(** The start: the Connect key from the blinding master key, the
    installation id the first sixteen bytes of the seed. *)
Section bench_start.
Context `{!HashesApi, !SchnorrApi, !PsetTypes, !LwkApi}.
Definition bench_start (descriptor : string) (mbk seed : list byte) (b : bench) : option (system (K := bench)) :=
  match sync b with
  | (b, Ok _) =>
      match WalletKey_new mbk LiquidTestnet, to_array 16 (take 16 seed) with
      | Some key, Some install => Some (sys_new {| install_bytes := install |} descriptor key b)
      | _, _ => None
      end
  | (_, Err _) => None
  end.
End bench_start.

(** * The headless wallet *)

Section headless.
Context `{!UrlApi}.
Definition link_target (target : string) : string :=
  if str_contains "://" target then target else "liquidconnect://login/?request_id=" +:+ target.
(** The calls of one line of the terminal; [None] leaves the loop. *)
Definition on_command (line : string) : option (list input) :=
  match split_whitespace line with
  | "link" :: target :: _ =>
      Some (match open_link (link_target target) with Ok i => [i] | Err _ => [] end)
  | "accept" :: id :: _ => Some [accept_login id]
  | "reject" :: id :: _ => Some [reject_login id]
  | "quit" :: _ => None
  | _ => Some []
  end.
(** Whether the loop is still running. *)
Definition headless_reads (running : bool) (line : string) : bool * list input :=
  if running then
    match on_command line with
    | Some inputs => (true, inputs)
    | None => (false, [])
    end
  else (false, []).
Definition headless_wallet : host bool := {|
  react running event := (running, []);
  reads := headless_reads;
|}.
Definition headless_start `{!HashesApi, !SchnorrApi} (seed : bytes32) (install_id : InstallId) : option (system (K := bool)) :=
  match WalletKey_ephemeral seed with Some key => Some (sys_new install_id "" key true) | None => None end.
End headless.
