(* ===== verification/BenchSpec.v ===== *)
(** What the trading bench's wallet and the headless wallet can send,
    whatever the server and the channels do: the first gives up no signature
    but those the software signer made in a pset it was shown, the second
    does only what was typed. *)

From S2P Require Import Prelude Crates Wire Key Link SessionData Session SessionLib SessionMirror SessionActions.
From S2P Require Import SessionRuns Transport TransportRuns Pset System SystemSpec Host HostSpec BenchHosts.

(** * The wallet of the trading bench *)

Section bench.
Context `{!HashesApi, !HexApi, !SchnorrApi, !SerdeWire, !PsetTypes, !LwkApi, !UrlApi}.
Context (b0 : bench) (iid : InstallId) (desc : string) (key : WalletKey).

(** A pset completed from a request: the text read, the wallet's details
    added, at least one input signed, the wallet's inputs finalised, in that
    order and with one state of the wallet. *)
Definition completed (req : SignRequest) (pset_text : string) : Prop :=
  ∃ (w : Wollet) pset detailed signed n final,
    pset_from_str req.(sr_pset) = Ok pset ∧ add_details w pset = Ok detailed ∧
    sw_sign detailed = Ok (signed, n) ∧ n ≠ 0 ∧ finalize w signed = Ok final ∧
    pset_text = pset_to_string final.

Inductive bench_reaction : wallet_event → input → Prop :=
| be_stop sessions s :
    s ∈ sessions → s.(ses_is_local) = false →
    bench_reaction (WalletEvent.Sessions sessions) (Input.StopSession s.(ses_session_id))
| be_login r : bench_reaction (WalletEvent.LoginRequested r) (Input.LoginAccepted r.(lr_request_id) None)
| be_sign r p :
    completed r p → bench_reaction (WalletEvent.SignRequested r) (Input.SignAccepted r.(sr_request_id) p)
| be_sign_reject r : bench_reaction (WalletEvent.SignRequested r) (Input.SignRejected r.(sr_request_id))
| be_message_reject r :
    bench_reaction (WalletEvent.SignMessageRequested r) (Input.SignMessageRejected r.(smr_request_id)).

Lemma bench_sign_completes b pset b' final n :
  bench_sign b pset = (b', Ok (final, n)) →
  ∃ detailed signed, add_details b'.(bw_wollet) pset = Ok detailed ∧ sw_sign detailed = Ok (signed, n) ∧
    finalize b'.(bw_wollet) signed = Ok final.
Proof.
  unfold bench_sign. destruct (sync b) as [b1 synced]. intros [= -> Hr]. result_inv.
  destruct_or?; destruct_and?. repeat case_match; result_inv. simplify_eq. eauto.
Qed.
Lemma bench_sign_request_reaction b r i :
  i ∈ (bench_sign_request b r).2 → bench_reaction (WalletEvent.SignRequested r) i.
Proof.
  unfold bench_sign_request. destruct (pset_from_str (sr_pset r)) as [pset|] eqn:Ep;
    [|intros ->%list_elem_of_singleton; constructor].
  destruct (bench_sign b pset) as [b' [[final n]|e]] eqn:Es; intros ->%list_elem_of_singleton; [|constructor].
  destruct (Z.eqb_spec n 0) as [_|Hn]; [constructor|]. constructor.
  apply bench_sign_completes in Es as (detailed & signed & ? & ? & ?).
  by exists (bw_wollet b'), pset, detailed, signed, n, final.
Qed.
Lemma stop_stale_elem sessions i :
  i ∈ stop_stale sessions → ∃ s, s ∈ sessions ∧ s.(ses_is_local) = false ∧ i = Input.StopSession s.(ses_session_id).
Proof.
  intros (s & Hs & Hi)%list_elem_of_omap. exists s. destruct (ses_is_local s) eqn:E; [done|]. by injection Hi as <-.
Qed.
Lemma bench_on_event_reaction b e i : i ∈ (bench_on_event b e).2 → bench_reaction e i.
Proof.
  destruct e; simpl; try (by intros ?%not_elem_of_nil).
  - intros ->%list_elem_of_singleton. constructor.
  - apply bench_sign_request_reaction.
  - intros ->%list_elem_of_singleton. constructor.
  - intros (s & ? & ? & ->)%stop_stale_elem. by constructor.
Qed.
Lemma bench_caused shown texts i :
  caused bench_wallet shown texts i → (∃ e, e ∈ shown ∧ bench_reaction e i) ∨ link_line texts i.
Proof.
  intros [(e & k & He & Hi%bench_on_event_reaction)|(text & k & Ht & Hl)]; [left; eauto|right].
  eapply link_line_of; [exact Ht|]. by apply (open_new_links_line (bw_seen k)).
Qed.

(** What the wallet may do, given what it was shown and the links it read. *)
Definition bench_allowed (shown : list wallet_event) (texts : list string) (a : user_action) : Prop :=
  match a with
  | UserAction.LinkLoginRequest id =>
      ∃ l, link_line texts (Input.AppLink l) ∧ l.(al_link_type) = LinkLogin ∧ l.(al_request_id) = id
  | UserAction.AcceptLoginRequest id d k s =>
      (∃ r, WalletEvent.LoginRequested r ∈ shown ∧ r.(lr_request_id) = id) ∧ d = desc ∧ k = None ∧ s = None
  | UserAction.AcceptSignRequest id p =>
      ∃ r, WalletEvent.SignRequested r ∈ shown ∧ r.(sr_request_id) = id ∧ completed r p
  | UserAction.CancelSignRequest id =>
      ∃ r, WalletEvent.SignRequested r ∈ shown ∧ r.(sr_request_id) = id
  | UserAction.CancelSignMessageRequest id =>
      ∃ r, WalletEvent.SignMessageRequested r ∈ shown ∧ r.(smr_request_id) = id
  | UserAction.StopSession id =>
      ∃ l s, WalletEvent.Sessions l ∈ shown ∧ s ∈ l ∧ s.(ses_is_local) = false ∧ s.(ses_session_id) = id
  | _ => False
  end.

(** The bench wallet never signs blind and never answers out of turn: in
    every state its system reaches, each frame sent is a challenge, a login
    under the Connect key, or an action on a request it was shown - a login
    accepted without a service key; a pset sent back only if the software
    signer signed at least one input of the text shown and the wallet
    finalised it; a sign-message request only refused; a session stopped only
    if the service listed it as not its own - or the link of a line of the
    file; payments, fundings, addresses and balances get no answer at all. *)
Theorem bench_frames st :
  reachable bench_wallet b0 iid desc key st →
  Forall (policy_frame iid key (bench_allowed st.(sys_shown) st.(sys_texts))) st.(sys_sent).
Proof.
  apply (policy_frames _ _ _ _ _ bench_allowed).
  - intros shown texts token [(e & _ & Hr)|[l Hl]%link_line_input]%bench_caused; [inversion Hr|done].
  - intros shown texts s i a Hdesc Hkey Hr%bench_caused Hi _. destruct Hi; simpl; try done;
      destruct Hr as [(e & He & Hr)|Hl]; try (by destruct (link_line_input _ _ Hl));
      try (by eexists; split_and!; [exact Hl|..]); inversion Hr; subst; eauto 8.
Qed.

(** Each request for a login or a signature is answered once, and the
    answer names it; the others are not answered. *)
Theorem bench_answers b e :
  match e with
  | WalletEvent.LoginRequested r => (bench_on_event b e).2 = [accept_login r.(lr_request_id)]
  | WalletEvent.SignRequested r =>
      (bench_on_event b e).2 = [reject_sign r.(sr_request_id)] ∨
      ∃ p, (bench_on_event b e).2 = [accept_sign r.(sr_request_id) p]
  | WalletEvent.SignMessageRequested r => (bench_on_event b e).2 = [reject_sign_message r.(smr_request_id)]
  | WalletEvent.Sessions l => (length (bench_on_event b e).2 ≤ length l)%nat
  | _ => (bench_on_event b e).2 = []
  end.
Proof.
  destruct e; simpl; try done.
  - unfold bench_sign_request. destruct (pset_from_str _); simpl; [|by left].
    destruct (bench_sign b _) as [b' [[final n]|]]; simpl; [|by left]. case_match; eauto.
  - unfold stop_stale, omap. induction sessions as [|x l IH]; simpl; [lia|]. case_match; simpl; lia.
Qed.
#[export] Instance bench_measured : Measured bench_wallet approve_all_calls.
Proof.
  split.
  - intros k e i Hi%bench_on_event_reaction. by destruct Hi.
  - intros k text i Hi. assert (link_line [text] i) as [l ->]%link_line_input; [|done].
    by apply (open_new_links_line (bw_seen k)).
  - intros k e. pose proof (bench_answers k e) as Ha. change (react bench_wallet k e) with (bench_on_event k e).
    destruct e; try (rewrite Ha; simpl; lia); try exact Ha.
    destruct Ha as [->|[p ->]]; simpl; lia.
  - by intros [].
Qed.
End bench.

(** * The headless wallet *)

Section headless.
Context `{!HashesApi, !HexApi, !SchnorrApi, !SerdeWire, !UrlApi}.
Context (iid : InstallId) (key : WalletKey).

(** [verb id] was typed. *)
Definition typed (texts : list string) (verb id : string) : Prop :=
  ∃ line more, line ∈ texts ∧ split_whitespace line = verb :: id :: more.
Inductive command (texts : list string) : input → Prop :=
| cmd_link target l :
    typed texts "link" target → open_link (link_target target) = Ok (Input.AppLink l) →
    command texts (Input.AppLink l)
| cmd_accept id : typed texts "accept" id → command texts (Input.LoginAccepted id None)
| cmd_reject id : typed texts "reject" id → command texts (Input.LoginRejected id).

Lemma on_command_typed texts line l i : line ∈ texts → on_command line = Some l → i ∈ l → command texts i.
Proof.
  intros Hl. unfold on_command. repeat case_match; intros [= <-] Hi; simpl in Hi; try (by apply not_elem_of_nil in Hi);
    apply list_elem_of_singleton in Hi as ->; subst; try (constructor; by eexists _, _).
  match goal with H : open_link _ = Ok _ |- _ => destruct (open_link_input _ _ H) as [? ->]; econstructor; [|exact H] end.
  by eexists _, _.
Qed.
Lemma headless_caused shown texts i : caused headless_wallet shown texts i → command texts i.
Proof.
  intros [(e & k & _ & []%not_elem_of_nil)|(text & [] & Ht & Hi)]; simpl in Hi; [|by apply not_elem_of_nil in Hi].
  destruct (on_command text) as [l|] eqn:E; [by eapply on_command_typed|by apply not_elem_of_nil in Hi].
Qed.

Definition headless_allowed (shown : list wallet_event) (texts : list string) (a : user_action) : Prop :=
  match a with
  | UserAction.LinkLoginRequest id =>
      ∃ target l, typed texts "link" target ∧ open_link (link_target target) = Ok (Input.AppLink l) ∧
        l.(al_link_type) = LinkLogin ∧ l.(al_request_id) = id
  | UserAction.AcceptLoginRequest id d k s => typed texts "accept" id ∧ d = "" ∧ k = None ∧ s = None
  | UserAction.CancelLoginRequest id => typed texts "reject" id
  | _ => False
  end.

(** The headless wallet does only what was typed: it links, accepts and
    rejects logins, gives no descriptor and signs nothing but its login
    challenge. *)
Theorem headless_frames st :
  reachable headless_wallet true iid "" key st →
  Forall (policy_frame iid key (headless_allowed st.(sys_shown) st.(sys_texts))) st.(sys_sent).
Proof.
  apply (policy_frames _ _ _ _ _ headless_allowed).
  - intros shown texts token Hc%headless_caused. inversion Hc.
  - intros shown texts s i a Hdesc Hkey Hr%headless_caused Hi _.
    destruct Hi; simpl; inversion Hr; subst; eauto 8.
Qed.

(** The calls of a dialogue: a line that is typed after [quit] does nothing. *)
Definition typing (st : bool * list input) (line : string) : bool * list input :=
  let '(running, acc) := st in
  let '(running, inputs) := headless_reads running line in (running, acc ++ inputs).
Definition dialogue (lines : list string) : bool * list input := foldl typing (true, []) lines.
Lemma typing_stopped acc lines : foldl typing (false, acc) lines = (false, acc).
Proof. induction lines as [|x l IH]; [done|]. simpl. by rewrite app_nil_r. Qed.
Lemma typing_running acc lines :
  Forall (λ l, is_Some (on_command l)) lines → ∃ acc', foldl typing (true, acc) lines = (true, acc').
Proof.
  intros Hl. revert acc. induction Hl as [|x l [inputs Hx] _ IH]; intros acc; [by eexists|]. simpl. by rewrite Hx.
Qed.
Theorem headless_quit lines line more :
  Forall (λ l, is_Some (on_command l)) lines → on_command line = None →
  dialogue (lines ++ line :: more) = dialogue (lines ++ [line]) ∧ (dialogue (lines ++ line :: more)).1 = false.
Proof.
  intros Hl Hq. unfold dialogue. rewrite !foldl_app. destruct (typing_running [] lines Hl) as [acc ->].
  simpl. by rewrite Hq, typing_stopped.
Qed.
#[export] Instance headless_measured : Measured headless_wallet (λ _, 0%nat).
Proof.
  split; try done.
  - intros k e i Hi. by apply not_elem_of_nil in Hi.
  - intros k text i Hi. assert (command [text] i) as Hc; [|by destruct Hc].
    apply (headless_caused []). right. exists text, k. split; [by left|done].
Qed.
End headless.
