(* ===== verification/Rp.v ===== *)
(** A relying party on the server's websocket, as the two relay drills play
    it ([Rp] in [lc-wallet-core/examples/sign-message-e2e.rs] and
    [pay-request-e2e.rs]): numbered requests, each waiting for its response,
    and waiters for notifications. The loops read an inbox, whose messages
    may be anything in any order; where it runs out the party still waits. *)

From S2P Require Import Prelude Crates Json Wire WireCodec Link SessionData Session Transport.

(** What the socket yields; [Elapsed] is the end of a time limit. *)
Inductive ws_item := WsMessage (text : string) | WsSkipped | WsFailed (e : string) | WsClosed | Elapsed.

Inductive outcome {A : Type} := Got (a : A) | Failed (e : string) | Waiting.
Arguments outcome : clear implicits.

(** The party: its next id, what it will still read, how many more messages
    the socket takes, what it sent, and what it told its own wallet. *)
Record rp := Rp {
  next_id : Z;
  inbox : list ws_item;
  accepts : option nat;
  sent : list json;
  told : list input;
}.

Definition rp_connect (items : list ws_item) (accepts : option nat) : rp :=
  {| next_id := 1; inbox := items; accepts := accepts; sent := []; told := [] |}.

(** A program of the party: [?] leaves it on a failure. *)
Definition rp_prog (A : Type) : Type := rp → rp * outcome A.
#[export] Instance rp_ret : MRet rp_prog := λ A a s, (s, Got a).
#[export] Instance rp_bind : MBind rp_prog := λ A C f p s,
  match p s with
  | (s, Got a) => f a s
  | (s, Failed e) => (s, Failed e)
  | (s, Waiting) => (s, Waiting)
  end.
Definition of_result {A} (r : result string A) : rp_prog A :=
  λ s, (s, match r with Ok a => Got a | Err e => Failed e end).
(** What the program makes of a failure itself. *)
Definition attempt {A} (p : rp_prog A) : rp_prog (result string A) := λ s,
  match p s with
  | (s, Got a) => (s, Got (Ok a))
  | (s, Failed e) => (s, Got (Err e))
  | (s, Waiting) => (s, Waiting)
  end.

(** * Values *)

(** [Value::get]: of duplicate members the last one counts. *)
Definition jget (name : string) (v : json) : option json :=
  match v with JObj members => last (members_at name members) | _ => None end.
Fixpoint pointer (names : list string) (v : json) : option json :=
  match names with [] => Some v | name :: names => jget name v ≫= pointer names end.
(** [v[a][b]...] *)
Definition index (names : list string) (v : json) : json := default JNull (pointer names v).
Definition as_str (v : json) : option string := match v with JStr s => Some s | _ => None end.
Definition as_i64 (v : json) : option Z :=
  match v with JNum z => if (- 2 ^ 63 <=? z) && (z <=? 2 ^ 63 - 1) then Some z else None | _ => None end.

(** * The party's operations *)

Section rp.
Context `{!JsonText}.

(** Read on until [pick] makes something of a message. [timed]: a time limit
    is set on the loop. *)
Fixpoint until {A} (timed : bool) (pick : json → option (outcome A)) (items : list ws_item) : list ws_item * outcome A :=
  match items with
  | [] => ([], Waiting)
  | WsMessage text :: items =>
      match json_of_text text with
      | None => (items, Failed "invalid JSON")
      | Some v => match pick v with Some o => (items, o) | None => until timed pick items end
      end
  | WsSkipped :: items => until timed pick items
  | WsFailed e :: items => (items, Failed ("rp socket error: " +:+ e))
  | WsClosed :: items => (items, Failed "rp socket closed")
  | Elapsed :: items => if timed then (items, Failed "deadline has elapsed") else until timed pick items
  end.
Definition reading {A} (timed : bool) (pick : json → option (outcome A)) : rp_prog A := λ s,
  let '(items, o) := until timed pick s.(inbox) in (Rp s.(next_id) items s.(accepts) s.(sent) s.(told), o).

Definition recv : rp_prog json := reading false (λ v, Some (Got v)).

Definition req_frame (id : Z) (req : json) : json := JObj [("Req", JObj [("id", JNum id); ("req", req)])].
Definition fresh_id : rp_prog Z := λ s,
  (Rp (s.(next_id) + 1) s.(inbox) s.(accepts) s.(sent) s.(told), Got s.(next_id)).
Definition send_frame (frame : json) : rp_prog () := λ s,
  match s.(accepts) with
  | Some O => (s, Failed "send")
  | _ => (Rp s.(next_id) s.(inbox) (pred <$> s.(accepts)) (s.(sent) ++ [frame]) s.(told), Got tt)
  end.
(** What [request] makes of a message while it waits. *)
Definition response_pick (id : Z) (msg : json) : option (outcome json) :=
  match pointer ["Resp"] msg with
  | Some resp =>
      Some (if bool_decide (jget "id" resp ≫= as_i64 = Some id) then Got (default JNull (jget "resp" resp))
            else Failed ("response id mismatch: " +:+ json_to_text resp))
  | None =>
      match pointer ["Error"] msg with
      | Some err => Some (Failed ("rp request failed: " +:+ json_to_text err))
      | None => None
      end
  end.
Definition request (req : json) : rp_prog json :=
  id ← fresh_id;
  _ ← send_frame (req_frame id req);
  reading false (response_pick id).

Definition notif_pick (kind : string) (msg : json) : option (outcome json) :=
  Got <$> pointer ["Notif"; "notif"; kind] msg.
Definition wait_notif (timed : bool) (kind : string) : rp_prog json := reading timed (notif_pick kind).

(** The two loops around [wait_notif]: the request of that id has left
    [Active]. *)
Definition left_active (request_id : string) (request : json) : bool :=
  bool_decide (as_str (index ["request_id"] request) = Some request_id)
  && negb (bool_decide (as_str (index ["status"] request) = Some "Active")).
Definition terminal_pick {A} (kind member request_id : string) (take : json → A) (msg : json) : option (outcome A) :=
  notif ← pointer ["Notif"; "notif"; kind] msg;
  let request := index [member] notif in
  if left_active request_id request then Some (Got (take request)) else None.
Definition wait_sign_message_terminal (request_id : string) : rp_prog json :=
  reading true (terminal_pick "SignMessageRequestUpdated" "sign_message_request" request_id (index ["status"])).
Definition wait_pay_terminal (request_id : string) : rp_prog json :=
  reading true (terminal_pick "PayRequestUpdated" "pay_request" request_id id).

Definition need {A} (o : option A) (what : string) : rp_prog A := of_result (ok_or o what).
Definition insist (b : bool) (what : string) : rp_prog () := of_result (ensure b what).

(** [wallet.open_link(..)?] *)
Definition tell_wallet `{!UrlApi} (url : string) : rp_prog () := λ s,
  match open_link url with
  | Ok i => (Rp s.(next_id) s.(inbox) s.(accepts) s.(sent) (s.(told) ++ [i]), Got tt)
  | Err e => (s, Failed e)
  end.
End rp.
