(* ===== verification/RelayDrills.v ===== *)
(** The relay drills: one program plays both a relying party and its wallet
    against a connect server, and reports what came through the relay -
    signatures in [lc-wallet-core/examples/sign-message-e2e.rs], a payment in
    [pay-request-e2e.rs]. *)

From S2P Require Import Prelude Crates Json Wire WireCodec Key Link SessionData Session Transport Pset Approval.
From S2P Require Import LendingData Venue System Host Rp.

(** The wallet's task; a panic ends it. The drill itself opens the link it
    hands over. *)
Definition task_host `{!UrlApi} (on : wallet_event → option (list input)) : host bool := {|
  react (alive : bool) event :=
    if alive then match on event with Some inputs => (true, inputs) | None => (false, []) end else (false, []);
  reads (alive : bool) url := (alive, match open_link url with Ok i => [i] | Err _ => [] end);
|}.

(** The steps both drills start with: log in, ask for a login, hand its link
    to the wallet, and wait for the session of the wallet's key. *)
Section start.
Context `{!JsonText, !UrlApi}.
Definition str_of (path : list string) (v : json) : option string := as_str (index path v).
Definition start_session (identity_pk : string) : rp_prog string :=
  _ ← request (JObj [("Login", JObj [("domain", JStr "paper.swaption.io")])]);
  start_login ← request (JObj [("StartLogin", JObj [("client_data", JNull)])]);
  request_id ← need (str_of ["StartLogin"; "login_request"; "request_id"] start_login)
                 ("no request_id in " +:+ json_to_text start_login);
  _ ← tell_wallet ("liquidconnect://login/?request_id=" +:+ request_id);
  session ← wait_notif true "SessionCreated";
  session_id ← need (str_of ["session"; "session_id"] session) ("no session_id in " +:+ json_to_text session);
  let wallet_id := default "" (str_of ["session"; "wallet_id"] session) in
  _ ← insist (bool_decide (wallet_id = identity_pk)) "session bound to the wrong key";
  mret session_id.
End start.

(** * Signatures *)

Section sign_drill.
Context `{!HashesApi, !HexApi, !XonlyText, !JsonApi, !JsonText, !SchnorrApi, !ElementsApi, !PsetTypes, !PsetApi, !VenueApi, !UrlApi}.

Definition verify (signature_hex : string) (digest : bytes32) (pk_hex : string) : result string () :=
  signature ← ok_or (signature_parse signature_hex) "signature";
  pk_bytes ← ok_or (hex_decode_to_slice 32 pk_hex) "key";
  pk ← ok_or (xonly_from_slice pk_bytes) "key";
  ensure (verify_schnorr signature digest pk) "incorrect signature".

(** The wallet's side. The digest of a typed request is unwrapped. *)
Definition relay_sign_message (venue_key : VenueKey) (req : SignMessageRequest) : option (list input) :=
  match typed_of req with
  | Some (Ok typed) =>
      match typed_request_digest typed (vk_public_key venue_key) with
      | Err _ => None
      | Ok rebuilt =>
          if negb (bool_decide (hex_encode (slice rebuilt) = to_ascii_lowercase req.(smr_digest)))
          then Some [reject_sign_message req.(smr_request_id)]
          else match sign_typed venue_key typed with
               | Ok (_, signature) =>
                   Some [accept_sign_message_signed req.(smr_request_id) (signature_to_string signature)]
               | Err _ => Some [reject_sign_message req.(smr_request_id)]
               end
      end
  | Some (Err _) => Some [reject_sign_message req.(smr_request_id)]
  | None => Some [accept_sign_message req.(smr_request_id)]
  end.
Definition relay_on_event (venue_key : VenueKey) (event : wallet_event) : option (list input) :=
  match event with
  | WalletEvent.LoginRequested req => Some [accept_login req.(lr_request_id)]
  | WalletEvent.SignMessageRequested req => relay_sign_message venue_key req
  | _ => Some []
  end.
Definition relay_wallet (venue_key : VenueKey) : host bool := task_host (relay_on_event venue_key).

(** The relying party's side. *)
Definition drill_order_digest (venue_pk : bytes32) : bytes32 :=
  order_digest venue_pk Sell 7700000000 1000 50 1 None.
Definition drill_description : string :=
  jtext ("{'kind':'rf/order/v1','product':'RF-BTC-USDT','side':'sell','price':'" +:+ dec_string 7700000000
    +:+ "','qty':'" +:+ dec_string 1000 +:+ "','expiry':" +:+ dec_string 50
    +:+ ",'nonce':'" +:+ dec_string 1 +:+ "'}").
Definition opaque_digest : bytes32 := hex_array 32 "4242424242424242424242424242424242424242424242424242424242424242".
Definition start_sign_message (session_id : string) (digest : bytes32) (description : string) : json :=
  JObj [("StartSignMessage", JObj [("session_id", JStr session_id); ("digest", JStr (hex_encode (slice digest)));
    ("description", JStr description); ("client_data", JNull); ("ttl", JNum 60000)])].
(** One request, to the signature that came back for it. *)
Definition ask_signature (session_id : string) (digest : bytes32) (description what : string) : rp_prog string :=
  resp ← request (start_sign_message session_id digest description);
  request_id ← need (str_of ["StartSignMessage"; "sign_message_request"; "request_id"] resp)
                 ("no sign request id in " +:+ json_to_text resp);
  status ← wait_sign_message_terminal request_id;
  need (str_of ["Succeed"; "signature"] status) (what +:+ " request did not succeed: " +:+ json_to_text status).
Definition sign_drill (identity_pk : string) (venue_pk : bytes32) : rp_prog () :=
  session_id ← start_session identity_pk;
  let digest := drill_order_digest venue_pk in
  signature ← ask_signature session_id digest drill_description "typed";
  _ ← of_result (verify signature digest (hex_encode (slice venue_pk)));
  signature ← ask_signature session_id opaque_digest "Test opaque approval" "opaque";
  of_result (verify signature opaque_digest identity_pk).

(** Both sides have their keys from one seed. *)
Definition DRILL_SEED : bytes32 := hex_array 32 "5c5c5c5c5c5c5c5c5c5c5c5c5c5c5c5c5c5c5c5c5c5c5c5c5c5c5c5c5c5c5c5c".
Definition sign_drill_main : rp_prog () :=
  key ← need (WalletKey_new (slice DRILL_SEED) LiquidTestnet) "key";
  venue_key ← of_result (VenueKey_from_seed (slice DRILL_SEED) LiquidTestnet);
  sign_drill (xonly_to_string (wk_public_key key)) (vk_public_key venue_key).
End sign_drill.

(** * A payment *)

Section pay_drill.
Context `{!XonlyText, !JsonText, !UrlApi}.
(** The recipient's address text. *)
Context (recipient : string).

Fixpoint repeat_text (n : nat) (s : string) : string :=
  match n with O => "" | S n => s +:+ repeat_text n s end.
Definition pay_asset : string := repeat_text 32 "22".
Definition pay_amount : Z := 100000.
Definition pay_memo : string := "RF deposit".
Definition pay_client_data : string := jtext "{'venueAccount':7,'nonce':'abc123'}".
Definition host_txid : string := repeat_text 32 "cd".

Definition pay_intact (req : PayRequest) : bool :=
  bool_decide (req.(pr_recipient) = recipient) && bool_decide (req.(pr_asset_id) = pay_asset)
  && (req.(pr_amount) =? 100000) && bool_decide (req.(pr_memo) = Some "RF deposit").
Definition pay_on_event (event : wallet_event) : option (list input) :=
  match event with
  | WalletEvent.LoginRequested req => Some [accept_login req.(lr_request_id)]
  | WalletEvent.PayRequested req =>
      Some [if pay_intact req then accept_pay req.(pr_request_id) host_txid else reject_pay req.(pr_request_id)]
  | _ => Some []
  end.
Definition pay_wallet : host bool := task_host pay_on_event.

Definition start_pay (session_id recipient : string) : json :=
  JObj [("StartPay", JObj [("session_id", JStr session_id); ("recipient", JStr recipient);
    ("asset_id", JStr pay_asset); ("amount", JNum pay_amount); ("memo", JStr pay_memo);
    ("client_data", JStr pay_client_data); ("ttl", JNum 60000)])].
Definition pay_drill (identity_pk : string) : rp_prog () :=
  session_id ← start_session identity_pk;
  bad ← attempt (request (start_pay session_id "not-an-address"));
  _ ← insist (negb (is_Ok bad)) "malformed recipient must be refused";
  resp ← request (start_pay session_id recipient);
  pay_request_id ← need (str_of ["StartPay"; "pay_request"; "request_id"] resp)
                     ("no pay request id in " +:+ json_to_text resp);
  terminal ← wait_pay_terminal pay_request_id;
  txid ← need (str_of ["status"; "Succeed"; "txid"] terminal)
           ("pay request did not succeed: " +:+ json_to_text terminal);
  _ ← insist (bool_decide (txid = host_txid)) ("txid did not round-trip: " +:+ txid);
  insist (bool_decide (str_of ["client_data"] terminal = Some pay_client_data))
    ("client_data was not echoed: " +:+ json_to_text terminal).
End pay_drill.
