(* ===== verification/RelaySpec.v ===== *)
(** The relay drills: a drill that passes has seen what it claims - each
    signature it accepts verifies, under the right key, for the request it
    made; and the wallet it plays answers with such signatures only. *)

From S2P Require Import Prelude Crates Json Wire WireCodec Key Link SessionData Session SessionLib SessionActions SessionRuns.
From S2P Require Import Transport TransportRuns Pset Approval LendingData Venue VenueSpec System SystemSpec Host Rp RelayDrills.

(** * Programs of a relying party *)

Lemma rp_bind_Got {A B} (p : rp_prog A) (f : A → rp_prog B) s s' b :
  (p ≫= f) s = (s', Got b) ↔ ∃ s1 a, p s = (s1, Got a) ∧ f a s1 = (s', Got b).
Proof.
  unfold mbind, rp_bind. split.
  - destruct (p s) as [s1 [a|e|]] eqn:E; [|done..]. eauto.
  - by intros (s1 & a & -> & ?).
Qed.
Lemma of_result_Got {A} (r : result string A) s s' a : of_result r s = (s', Got a) ↔ r = Ok a ∧ s' = s.
Proof. unfold of_result. destruct r; naive_solver. Qed.
Lemma need_Got {A} (o : option A) what s s' a : need o what s = (s', Got a) ↔ o = Some a ∧ s' = s.
Proof. unfold need. rewrite of_result_Got. destruct o; naive_solver. Qed.
Lemma insist_Got b what s s' a : insist b what s = (s', Got a) ↔ b = true ∧ s' = s.
Proof. unfold insist. rewrite of_result_Got. destruct b, a; naive_solver. Qed.
Ltac rp_inv :=
  repeat match goal with
  | H : (_ ≫= _) _ = (_, Got _) |- _ => apply rp_bind_Got in H as (? & ? & ? & H)
  | H : need _ _ _ = (_, Got _) |- _ => apply need_Got in H as [? ->]
  | H : insist _ _ _ = (_, Got _) |- _ => apply insist_Got in H as [? ->]
  | H : of_result _ _ = (_, Got _) |- _ => apply of_result_Got in H as [? ->]
  | H : mret _ _ = (_, Got _) |- _ => injection H as ? ?; subst
  end.

Section rp.
Context `{!JsonText}.
Implicit Types (s : rp) (v : json).

(** Between two states the party read up to a message with that value. *)
Definition heard s s' v : Prop :=
  ∃ skipped text, s.(inbox) = skipped ++ WsMessage text :: s'.(inbox) ∧ json_of_text text = Some v.
(** It sent nothing and told its wallet nothing meanwhile. *)
Definition silent s s' : Prop :=
  s'.(next_id) = s.(next_id) ∧ s'.(sent) = s.(sent) ∧ s'.(told) = s.(told) ∧ s'.(accepts) = s.(accepts).

Lemma until_Got {A} timed (pick : json → option (outcome A)) items items' a :
  until timed pick items = (items', Got a) →
  ∃ skipped text v, items = skipped ++ WsMessage text :: items' ∧ json_of_text text = Some v ∧ pick v = Some (Got a) ∧
    Forall (λ item, ∀ t w, item = WsMessage t → json_of_text t = Some w → pick w = None) skipped.
Proof.
  induction items as [|item items IH]; [done|].
  assert (until timed pick items = (items', Got a) →
    (∀ t w, item = WsMessage t → json_of_text t = Some w → pick w = None) →
    ∃ skipped text v, item :: items = skipped ++ WsMessage text :: items' ∧ json_of_text text = Some v ∧ pick v = Some (Got a) ∧
      Forall (λ item, ∀ t w, item = WsMessage t → json_of_text t = Some w → pick w = None) skipped) as Hskip.
  { intros (sk & t & v & -> & Ht & Hp & Hf)%IH Hi. exists (item :: sk), t, v. split_and!; [done..|by constructor]. }
  destruct item as [text| | | |]; simpl; [|by intros ?; apply Hskip|done|done|destruct timed; [done|by intros ?; apply Hskip]].
  destruct (json_of_text text) as [v|] eqn:Et; [|done]. destruct (pick v) as [o|] eqn:Ep.
  - intros [= -> ->]. by exists [], text, v.
  - intros Hu. apply Hskip; [done|]. intros t w [= <-]. by rewrite Et; intros [= <-].
Qed.
Lemma reading_Got {A} timed (pick : json → option (outcome A)) s s' a :
  reading timed pick s = (s', Got a) → silent s s' ∧ ∃ v, heard s s' v ∧ pick v = Some (Got a).
Proof.
  unfold reading. destruct (until timed pick (inbox s)) as [items o] eqn:E. intros [= <- ->].
  apply until_Got in E as (sk & t & v & Hi & Ht & Hp & _). split; [done|]. exists v. split; [by exists sk, t|done].
Qed.

(** A request: it goes out under the party's next id, and what it
    returns is the body of the first response that comes in - messages before
    it that are neither responses nor errors are passed over, and that
    response bears the request's id. *)
Theorem request_answered req s s' v :
  request req s = (s', Got v) →
  s'.(sent) = s.(sent) ++ [req_frame s.(next_id) req] ∧ s'.(next_id) = s.(next_id) + 1 ∧ s'.(told) = s.(told) ∧
  ∃ skipped text msg resp, s.(inbox) = skipped ++ WsMessage text :: s'.(inbox) ∧ json_of_text text = Some msg ∧
    pointer ["Resp"] msg = Some resp ∧ jget "id" resp ≫= as_i64 = Some s.(next_id) ∧
    v = default JNull (jget "resp" resp) ∧
    Forall (λ item, ∀ t w, item = WsMessage t → json_of_text t = Some w →
      pointer ["Resp"] w = None ∧ pointer ["Error"] w = None) skipped.
Proof.
  intros (s0 & i & Hf & (s1 & [] & Hs & Hq)%rp_bind_Got)%rp_bind_Got. injection Hf as <- <-.
  assert (sent s1 = sent s ++ [req_frame (next_id s) req] ∧ next_id s1 = next_id s + 1 ∧ told s1 = told s ∧ inbox s1 = inbox s)
    as (<- & Hn & <- & <-).
  { unfold send_frame in Hs. simpl in Hs. destruct (accepts s) as [[|n]|]; [done|..]; by injection Hs as <-. }
  rewrite <-Hn. unfold reading in Hq. destruct (until false _ (inbox s1)) as [items o] eqn:E. injection Hq as <- ->.
  split_and!; [done..|]. apply until_Got in E as (sk & t & msg & Hi & Ht & Hp & Hsk).
  unfold response_pick in Hp. destruct (pointer ["Resp"] msg) as [resp|] eqn:Er; [|by destruct (pointer ["Error"] msg)].
  case_bool_decide as Hid; [|done]. injection Hp as <-. exists sk, t, msg, resp. split_and!; try done.
  eapply Forall_impl; [exact Hsk|]. intros item Hitem t' w Hw Htw. specialize (Hitem t' w Hw Htw).
  unfold response_pick in Hitem. destruct (pointer ["Resp"] w); [done|]. by destruct (pointer ["Error"] w).
Qed.

(** ** What a stretch of a program sent and read *)

(** Messages read, in order, among others. *)
Fixpoint hears (vs : list json) (items items' : list ws_item) : Prop :=
  match vs with
  | [] => ∃ skipped, items = skipped ++ items'
  | v :: vs =>
      ∃ skipped text rest, items = skipped ++ WsMessage text :: rest ∧ json_of_text text = Some v ∧ hears vs rest items'
  end.
Definition framed (id : Z) (reqs : list json) : list json := imap (λ n req, req_frame (id + Z.of_nat n) req) reqs.
(** Requests made under consecutive ids, messages read, calls of the wallet's handle. *)
Record stretch s s' (reqs vs : list json) (inputs : list input) : Prop := {
  st_sent : s'.(sent) = s.(sent) ++ framed s.(next_id) reqs;
  st_next : s'.(next_id) = s.(next_id) + Z.of_nat (length reqs);
  st_told : s'.(told) = s.(told) ++ inputs;
  st_heard : hears vs s.(inbox) s'.(inbox);
}.

Lemma hears_drop vs skipped items items' : hears vs items items' → hears vs (skipped ++ items) items'.
Proof.
  destruct vs as [|v vs]; [intros [sk ->]; exists (skipped ++ sk)|intros (sk & t & r & -> & ?); exists (skipped ++ sk), t, r];
    by rewrite <-app_assoc.
Qed.
Lemma hears_app vs ws a b c : hears vs a b → hears ws b c → hears (vs ++ ws) a c.
Proof.
  revert a. induction vs as [|v vs IH]; intros a; simpl.
  - intros [sk ->]. apply hears_drop.
  - intros (sk & t & r & -> & Ht & Hr) Hw. exists sk, t, r. split_and!; [done..|by apply IH].
Qed.
Lemma framed_app id r1 r2 : framed id (r1 ++ r2) = framed id r1 ++ framed (id + Z.of_nat (length r1)) r2.
Proof.
  unfold framed. rewrite imap_app. f_equal. apply imap_ext. intros n x _. simpl. f_equal. lia.
Qed.
Lemma stretch_then s s1 s2 r1 r2 m1 m2 i1 i2 :
  stretch s s1 r1 m1 i1 → stretch s1 s2 r2 m2 i2 → stretch s s2 (r1 ++ r2) (m1 ++ m2) (i1 ++ i2).
Proof.
  intros [S1 N1 T1 Q1] [S2 N2 T2 Q2]. split.
  - by rewrite S2, S1, N1, framed_app, app_assoc.
  - rewrite length_app. lia.
  - by rewrite T2, T1, app_assoc.
  - by eapply hears_app.
Qed.

Lemma request_stretch req s s' v :
  request req s = (s', Got v) → ∃ msg, stretch s s' [req] [msg] [] ∧ v = index ["Resp"; "resp"] msg.
Proof.
  intros (Hs & Hn & Ht & sk & t & msg & resp & Hi & Htx & Hr & _ & -> & _)%request_answered. exists msg. split.
  - split; simpl; [rewrite Hs; unfold framed; simpl; by rewrite Z.add_0_r|lia|by rewrite Ht, app_nil_r|].
    exists sk, t, (inbox s'). split_and!; [done..|by exists []].
  - unfold index, pointer in *. destruct (jget "Resp" msg) as [x|]; [|done]. simpl in *. injection Hr as ->.
    by destruct (jget "resp" resp).
Qed.
Lemma reading_stretch {A} timed (pick : json → option (outcome A)) s s' a :
  reading timed pick s = (s', Got a) → ∃ msg, stretch s s' [] [msg] [] ∧ pick msg = Some (Got a).
Proof.
  intros ((Hn & Hs & Ht & _) & v & (sk & t & Hi & Htx) & Hp)%reading_Got. exists v. split; [|done].
  split; simpl; [by rewrite Hs, app_nil_r|lia|by rewrite Ht, app_nil_r|].
  exists sk, t, (inbox s'). split_and!; [done..|by exists []].
Qed.

Lemma until_rest {A} timed (pick : json → option (outcome A)) items :
  ∃ consumed, items = consumed ++ (until timed pick items).1.
Proof.
  induction items as [|item items [c IH]]; [by exists []|].
  assert (∃ consumed, item :: items = consumed ++ (until timed pick items).1) as Hskip.
  { exists (item :: c). by rewrite IH at 1. }
  destruct item as [text| | | |]; simpl; try done; try (by exists [item]); try (by eexists [_]).
  - destruct (json_of_text text) as [v|]; [|by exists [WsMessage text]].
    destruct (pick v) as [o|]; [by exists [WsMessage text]|done].
  - destruct timed; [by exists [Elapsed]|done].
Qed.
(** A request that fails was sent all the same, or the socket is gone. *)
Lemma request_refused req s s' e :
  attempt (request req) s = (s', Got (Err e)) → s'.(accepts) = Some O ∨ stretch s s' [req] [] [].
Proof.
  unfold attempt, request, mbind, rp_bind, fresh_id, send_frame, reading. simpl.
  pose proof (until_rest false (response_pick (next_id s)) (inbox s)) as [c Hc].
  destruct (accepts s) as [[|n]|]; [by intros [= <- _]; left|..];
    destruct (until _ _ _) as [items [a|e'|]]; intros [= <- _]; right;
    (split; simpl; [unfold framed; simpl; by rewrite Z.add_0_r|lia|by rewrite app_nil_r|by exists c]).
Qed.
Lemma request_needs_socket req s s' v : request req s = (s', Got v) → s.(accepts) ≠ Some O.
Proof. unfold request, mbind, rp_bind, fresh_id, send_frame. simpl. by intros Hr E; rewrite E in Hr. Qed.

Lemma pointer_app p q v : pointer (p ++ q) v = pointer p v ≫= pointer q.
Proof. revert v. induction p as [|n p IH]; intros v; [done|]. simpl. destruct (jget n v); [apply IH|done]. Qed.
Lemma str_of_index p q v : str_of q (index p v) = str_of (p ++ q) v.
Proof.
  unfold str_of, index. rewrite pointer_app. destruct (pointer p v) as [w|]; [done|]. simpl. by destruct q.
Qed.

(** ** The drills *)

Context `{!UrlApi}.
Lemma start_session_passes pk s s' session_id :
  start_session pk s = (s', Got session_id) →
  ∃ request_id i m_login m_start m_session,
    stretch s s' [JObj [("Login", JObj [("domain", JStr "paper.swaption.io")])];
                  JObj [("StartLogin", JObj [("client_data", JNull)])]] [m_login; m_start; m_session] [i] ∧
    str_of ["Resp"; "resp"; "StartLogin"; "login_request"; "request_id"] m_start = Some request_id ∧
    open_link ("liquidconnect://login/?request_id=" +:+ request_id) = Ok i ∧
    str_of ["Notif"; "notif"; "SessionCreated"; "session"; "session_id"] m_session = Some session_id ∧
    default "" (str_of ["Notif"; "notif"; "SessionCreated"; "session"; "wallet_id"] m_session) = pk.
Proof.
  unfold start_session.
  intros (s1 & r1 & (m1 & S1 & ->)%request_stretch & Hr)%rp_bind_Got.
  apply rp_bind_Got in Hr as (s2 & r2 & (m2 & S2 & ->)%request_stretch & Hr).
  apply rp_bind_Got in Hr as (? & rid & [Hrid ->]%need_Got & Hr).
  apply rp_bind_Got in Hr as (s3 & [] & Ht & Hr).
  apply rp_bind_Got in Hr as (s4 & notif & (m3 & S4 & Hp)%reading_stretch & Hr).
  apply rp_bind_Got in Hr as (? & sid & [Hsid ->]%need_Got & Hr).
  apply rp_bind_Got in Hr as (? & [] & [Hw ->]%insist_Got & Hr). injection Hr as <- ->. bool_inv.
  unfold tell_wallet in Ht. destruct (open_link _) as [i|] eqn:Hl; [|done]. injection Ht as <-.
  assert (stretch s2 (Rp (next_id s2) (inbox s2) (accepts s2) (sent s2) (told s2 ++ [i])) [] [] [i]) as S3.
  { split; simpl; [by rewrite app_nil_r|lia|done|by exists []]. }
  pose proof (stretch_then _ _ _ _ _ _ _ _ _ S1 (stretch_then _ _ _ _ _ _ _ _ _ S2 (stretch_then _ _ _ _ _ _ _ _ _ S3 S4))) as S.
  unfold notif_pick in Hp. destruct (pointer ["Notif"; "notif"; "SessionCreated"] m3) as [n|] eqn:En; [|done].
  injection Hp as <-. assert (n = index ["Notif"; "notif"; "SessionCreated"] m3) as ->. { unfold index. by rewrite En. }
  rewrite !str_of_index in *. exists rid, i, m1, m2, m3. split_and!; done.
Qed.
End rp.

(** * A wallet task *)

Lemma task_caused `{!UrlApi} (on : wallet_event → option (list input)) shown texts i :
  caused (task_host on) shown texts i →
  (∃ e inputs, e ∈ shown ∧ on e = Some inputs ∧ i ∈ inputs) ∨ (∃ url, url ∈ texts ∧ open_link url = Ok i).
Proof.
  intros [(e & [] & He & Hi)|(url & k & Hu & Hi)]; simpl in Hi.
  - destruct (on e) as [inputs|] eqn:E; [left; eauto|by apply not_elem_of_nil in Hi].
  - by apply not_elem_of_nil in Hi.
  - right. exists url. destruct (open_link url) as [j|]; [|by apply not_elem_of_nil in Hi].
    apply list_elem_of_singleton in Hi as ->. done.
Qed.

(** * What a passing drill has seen *)

Section sign_drill.
Context `{!HashesApi, !HexApi, !XonlyText, !JsonApi, !JsonText, !SchnorrApi, !ElementsApi, !PsetTypes, !PsetApi, !VenueApi, !UrlApi}.

(** The update of a sign-message request that is no longer active. *)
Definition updated (member : string) (path : list string) (m : json) : option string :=
  str_of (["Notif"; "notif"; "SignMessageRequestUpdated"; "sign_message_request"; member] ++ path) m.
Lemma ask_signature_passes session_id digest description what s s' signature :
  ask_signature session_id digest description what s = (s', Got signature) →
  ∃ m_resp m_done, stretch s s' [start_sign_message session_id digest description] [m_resp; m_done] [] ∧
    ∃ request_id, str_of ["Resp"; "resp"; "StartSignMessage"; "sign_message_request"; "request_id"] m_resp = Some request_id ∧
      updated "request_id" [] m_done = Some request_id ∧ updated "status" ["Succeed"; "signature"] m_done = Some signature.
Proof.
  unfold ask_signature.
  intros (s1 & r1 & (m1 & S1 & ->)%request_stretch & Hr)%rp_bind_Got.
  apply rp_bind_Got in Hr as (? & rid & [Hrid ->]%need_Got & Hr).
  apply rp_bind_Got in Hr as (s2 & status & (m2 & S2 & Hp)%reading_stretch & [Hsig ->]%need_Got).
  exists m1, m2. split; [exact (stretch_then _ _ _ _ _ _ _ _ _ S1 S2)|]. exists rid. rewrite str_of_index in Hrid.
  split; [done|]. unfold terminal_pick in Hp.
  destruct (pointer ["Notif"; "notif"; "SignMessageRequestUpdated"] m2) as [n|] eqn:En; [|done]. simpl in Hp.
  destruct (left_active _ _) eqn:Hl; [|done]. injection Hp as <-.
  unfold left_active in Hl. apply andb_true_iff in Hl as [Hid _]. bool_inv.
  assert (n = index ["Notif"; "notif"; "SignMessageRequestUpdated"] m2) as -> by (unfold index; by rewrite En).
  change (as_str (index ["request_id"] ?v)) with (str_of ["request_id"] v) in Hid. rewrite !str_of_index in *. done.
Qed.

(** C27. The signature drill passes only when the relay worked: it then sent
    exactly its four requests under consecutive ids and handed its wallet the
    login's link; and among the messages it read are, in order, a session
    bound to the wallet's Connect key, the completion of the typed request
    the server opened for it with a signature of the order's digest that
    verifies under the venue key, and the completion of the opaque one with a
    signature that verifies under the Connect key. *)
Theorem sign_drill_passes identity_pk venue_pk s s' :
  sign_drill identity_pk venue_pk s = (s', Got tt) →
  ∃ session_id request_id link m_login m_start m_session m_typed m_typed_done m_opaque m_opaque_done sig_typed sig_opaque,
    stretch s s'
      [JObj [("Login", JObj [("domain", JStr "paper.swaption.io")])]; JObj [("StartLogin", JObj [("client_data", JNull)])];
       start_sign_message session_id (drill_order_digest venue_pk) drill_description;
       start_sign_message session_id opaque_digest "Test opaque approval"]
      [m_login; m_start; m_session; m_typed; m_typed_done; m_opaque; m_opaque_done] [link] ∧
    str_of ["Resp"; "resp"; "StartLogin"; "login_request"; "request_id"] m_start = Some request_id ∧
    open_link ("liquidconnect://login/?request_id=" +:+ request_id) = Ok link ∧
    str_of ["Notif"; "notif"; "SessionCreated"; "session"; "session_id"] m_session = Some session_id ∧
    default "" (str_of ["Notif"; "notif"; "SessionCreated"; "session"; "wallet_id"] m_session) = identity_pk ∧
    updated "request_id" [] m_typed_done
      = str_of ["Resp"; "resp"; "StartSignMessage"; "sign_message_request"; "request_id"] m_typed ∧
    updated "status" ["Succeed"; "signature"] m_typed_done = Some sig_typed ∧
    verify sig_typed (drill_order_digest venue_pk) (hex_encode (slice venue_pk)) = Ok tt ∧
    updated "request_id" [] m_opaque_done
      = str_of ["Resp"; "resp"; "StartSignMessage"; "sign_message_request"; "request_id"] m_opaque ∧
    updated "status" ["Succeed"; "signature"] m_opaque_done = Some sig_opaque ∧
    verify sig_opaque opaque_digest identity_pk = Ok tt.
Proof.
  unfold sign_drill.
  intros (s1 & sid & (rid & link & m1 & m2 & m3 & S1 & Hrid & Hlink & Hsid & Hwid)%start_session_passes & Hr)%rp_bind_Got.
  apply rp_bind_Got in Hr as (s2 & sig1 & (m4 & m5 & S2 & tid & Ht & Hti & Hts)%ask_signature_passes & Hr).
  apply rp_bind_Got in Hr as (? & [] & [Hv1 ->]%of_result_Got & Hr).
  apply rp_bind_Got in Hr as (s3 & sig2 & (m6 & m7 & S3 & oid & Ho & Hoi & Hos)%ask_signature_passes & [Hv2 ->]%of_result_Got).
  exists sid, rid, link, m1, m2, m3, m4, m5, m6, m7, sig1, sig2.
  pose proof (stretch_then _ _ _ _ _ _ _ _ _ S1 (stretch_then _ _ _ _ _ _ _ _ _ S2 S3)) as S.
  split_and!; try done; congruence.
Qed.

(** * What its wallet answers *)

(** BIP340 and the text forms of keys, digests and signatures. *)
Hypothesis schnorr_verifies : ∀ kp d, verify_schnorr (sign_schnorr_no_aux_rand d kp) d (x_only_public_key kp) = true.
Hypothesis schnorr_verifies_aux : ∀ kp d, verify_schnorr (sign_schnorr d kp) d (x_only_public_key kp) = true.
Hypothesis signature_roundtrip : ∀ sig, signature_parse (signature_to_string sig) = Some sig.
Hypothesis hex_roundtrip : ∀ a : bytes32, hex_decode_to_slice 32 (hex_encode (slice a)) = Some a.
Hypothesis xonly_hex : ∀ kp, hex_decode_to_slice 32 (xonly_to_string (x_only_public_key kp)) = Some (x_only_public_key kp).
Hypothesis xonly_roundtrip : ∀ kp, xonly_from_slice (x_only_public_key kp) = Some (x_only_public_key kp).

Lemma verify_venue (k : VenueKey) d :
  verify (signature_to_string (sign_digest k d)) d (hex_encode (slice (vk_public_key k))) = Ok tt.
Proof.
  unfold verify, sign_digest, vk_public_key. rewrite signature_roundtrip. simpl. rewrite hex_roundtrip. simpl.
  rewrite xonly_roundtrip. simpl. by rewrite schnorr_verifies.
Qed.
Lemma verify_identity (k : WalletKey) d :
  verify (signature_to_string (wk_sign_digest k d)) d (xonly_to_string (wk_public_key k)) = Ok tt.
Proof.
  unfold verify, wk_public_key. rewrite signature_roundtrip. simpl. rewrite xonly_hex. simpl.
  rewrite xonly_roundtrip. simpl. unfold wk_sign_digest. by rewrite schnorr_verifies_aux.
Qed.

Context `{!SerdeWire} (venue_key : VenueKey) (iid : InstallId) (desc : string) (key : WalletKey).

(** An answer of the wallet to a sign-message request it was shown: either
    the request displays a typed one and the signature verifies under the
    venue key for the digest of what is displayed, which was asked for; or it
    displays none, and the signature verifies under the Connect key for the
    digest of a request shown under that id. *)
Definition answered_well (shown : list wallet_event) (request_id signature : string) : Prop :=
  ∃ r d, WalletEvent.SignMessageRequested r ∈ shown ∧ r.(smr_request_id) = request_id ∧
    ((∃ typed, typed_of r = Some (Ok typed) ∧ typed_request_digest typed (vk_public_key venue_key) = Ok d ∧
        hex_encode (slice d) = to_ascii_lowercase r.(smr_digest) ∧
        verify signature d (hex_encode (slice (vk_public_key venue_key))) = Ok tt) ∨
     (typed_of r = None ∧ ∃ r', WalletEvent.SignMessageRequested r' ∈ shown ∧ r'.(smr_request_id) = request_id ∧
        hex_decode_to_slice 32 r'.(smr_digest) = Some d ∧
        verify signature d (xonly_to_string (wk_public_key key)) = Ok tt)).
Definition relay_allowed (shown : list wallet_event) (texts : list string) (a : user_action) : Prop :=
  match a with
  | UserAction.LinkLoginRequest id =>
      ∃ url l, url ∈ texts ∧ open_link url = Ok (Input.AppLink l) ∧ l.(al_link_type) = LinkLogin ∧ l.(al_request_id) = id
  | UserAction.AcceptLoginRequest id d k s =>
      (∃ r, WalletEvent.LoginRequested r ∈ shown ∧ r.(lr_request_id) = id) ∧ d = desc ∧ k = None ∧ s = None
  | UserAction.AcceptSignMessageRequest id signature => answered_well shown id signature
  | UserAction.CancelSignMessageRequest id => ∃ r, WalletEvent.SignMessageRequested r ∈ shown ∧ r.(smr_request_id) = id
  | _ => False
  end.

Inductive relay_reaction : wallet_event → input → Prop :=
| rr_login r : relay_reaction (WalletEvent.LoginRequested r) (Input.LoginAccepted r.(lr_request_id) None)
| rr_typed r typed d :
    typed_of r = Some (Ok typed) → typed_request_digest typed (vk_public_key venue_key) = Ok d →
    hex_encode (slice d) = to_ascii_lowercase r.(smr_digest) →
    relay_reaction (WalletEvent.SignMessageRequested r)
      (Input.SignMessageSigned r.(smr_request_id) (signature_to_string (sign_digest venue_key d)))
| rr_opaque r :
    typed_of r = None → relay_reaction (WalletEvent.SignMessageRequested r) (Input.SignMessageAccepted r.(smr_request_id))
| rr_reject r : relay_reaction (WalletEvent.SignMessageRequested r) (Input.SignMessageRejected r.(smr_request_id)).
Lemma relay_on_event_reaction e inputs i : relay_on_event venue_key e = Some inputs → i ∈ inputs → relay_reaction e i.
Proof.
  destruct e; simpl; try (by intros [= <-] ?%not_elem_of_nil).
  - intros [= <-] ->%list_elem_of_singleton. constructor.
  - unfold relay_sign_message. destruct (typed_of request) as [[typed|e]|] eqn:Et;
      [|intros [= <-] ->%list_elem_of_singleton; by constructor..].
    destruct (typed_request_digest typed _) as [d|] eqn:Ed; [|done]. case_bool_decide as Hd; simpl;
      [|intros [= <-] ->%list_elem_of_singleton; constructor].
    unfold sign_typed. rewrite Ed. simpl. intros [= <-] ->%list_elem_of_singleton. by econstructor.
Qed.
Lemma relay_caused shown texts i :
  caused (relay_wallet venue_key) shown texts i →
  (∃ e, e ∈ shown ∧ relay_reaction e i) ∨ (∃ url l, url ∈ texts ∧ open_link url = Ok (Input.AppLink l) ∧ i = Input.AppLink l).
Proof.
  intros [(e & inputs & He & Ho & Hi)|(url & Hu & Ho)]%task_caused.
  - left. exists e. split; [done|by eapply relay_on_event_reaction].
  - right. destruct (open_link_input _ _ Ho) as [l ->]. by exists url, l.
Qed.

(** C26. The wallet the drill plays answers with signatures that the relying
    party's check accepts, and with nothing else: in every state its system
    reaches, an answer to a sign-message request names one it was shown, and
    its signature verifies - under the venue key for the digest of what the
    description displays, which is the digest asked for, or, where it
    displays no typed request, under the Connect key for the digest of a
    request shown under that id; the other frames are the challenge, the
    login, logins accepted for requests shown, refusals of requests shown and
    the links handed over. *)
Theorem relay_frames st :
  reachable (relay_wallet venue_key) true iid desc key st →
  Forall (policy_frame iid key (relay_allowed st.(sys_shown) st.(sys_texts))) st.(sys_sent).
Proof.
  apply (policy_frames _ _ _ _ _ relay_allowed).
  - intros shown texts token [(e & _ & Hr)|(url & l & _ & _ & ?)]%relay_caused; [inversion Hr|done].
  - intros shown texts s i a Hdesc Hkey Hr%relay_caused Hi Hreq.
    destruct Hi; simpl; try done; destruct Hr as [(e & He & Hr)|(url & l & Hu & Ho & [=])];
      subst; try (by eexists url, _); inversion Hr; subst; eauto 8.
    + match goal with Hs : sign_message_requests s !! _ = Some ?r', Ht : typed_of ?r0 = None |- _ =>
        destruct (proj1 Hreq _ _ Hs) as [? ?]; exists r0, digest; split_and!; [done..|]; right; split; [done|]; exists r' end.
      split_and!; [done..|]. rewrite Hkey. apply verify_identity.
    + eexists _, d. split_and!; [done..|]. left. exists typed. split_and!; [done..|apply verify_venue].
Qed.

(** The branch that would reject a typed request without a digest is never
    reached: such a request - the product of an order, or the owner of a
    delegation, is not the wallet's - ends the wallet's task instead. *)
Lemma relay_panics r typed e :
  typed_of r = Some (Ok typed) → typed_request_digest typed (vk_public_key venue_key) = Err e →
  ∀ h', react (relay_wallet venue_key) true (WalletEvent.SignMessageRequested r) = (false, []) ∧
        react (relay_wallet venue_key) false h' = (false, []).
Proof. intros Ht Hd h'. simpl. unfold relay_sign_message. by rewrite Ht, Hd. Qed.
End sign_drill.

(** * The payment drill *)

Section pay_drill.
Context `{!HashesApi, !HexApi, !XonlyText, !SchnorrApi, !JsonText, !SerdeWire, !UrlApi}.
Context (recipient : string) (iid : InstallId) (desc : string) (key : WalletKey).

Definition pay_allowed (shown : list wallet_event) (texts : list string) (a : user_action) : Prop :=
  match a with
  | UserAction.LinkLoginRequest id =>
      ∃ url l, url ∈ texts ∧ open_link url = Ok (Input.AppLink l) ∧ l.(al_link_type) = LinkLogin ∧ l.(al_request_id) = id
  | UserAction.AcceptLoginRequest id d k s =>
      (∃ r, WalletEvent.LoginRequested r ∈ shown ∧ r.(lr_request_id) = id) ∧ d = desc ∧ k = None ∧ s = None
  | UserAction.AcceptPayRequest id txid =>
      ∃ r, WalletEvent.PayRequested r ∈ shown ∧ r.(pr_request_id) = id ∧ txid = host_txid ∧
        r.(pr_recipient) = recipient ∧ r.(pr_asset_id) = pay_asset ∧ r.(pr_amount) = pay_amount ∧ r.(pr_memo) = Some pay_memo
  | UserAction.CancelPayRequest id => ∃ r, WalletEvent.PayRequested r ∈ shown ∧ r.(pr_request_id) = id
  | _ => False
  end.
Lemma pay_caused shown texts i :
  caused (pay_wallet recipient) shown texts i →
  (∃ e, e ∈ shown ∧ ∃ inputs, pay_on_event recipient e = Some inputs ∧ i ∈ inputs) ∨
  (∃ url l, url ∈ texts ∧ open_link url = Ok (Input.AppLink l) ∧ i = Input.AppLink l).
Proof.
  intros [(e & inputs & He & Ho & Hi)|(url & Hu & Ho)]%task_caused; [left; eauto|right].
  destruct (open_link_input _ _ Ho) as [l ->]. by exists url, l.
Qed.
Lemma pay_on_event_input e inputs i :
  pay_on_event recipient e = Some inputs → i ∈ inputs →
  (∃ r, e = WalletEvent.LoginRequested r ∧ i = Input.LoginAccepted r.(lr_request_id) None) ∨
  (∃ r, e = WalletEvent.PayRequested r ∧
     (pay_intact recipient r = true ∧ i = Input.PayBuilt r.(pr_request_id) host_txid ∨ i = Input.PayRejected r.(pr_request_id))).
Proof.
  destruct e; simpl; try (by intros [= <-] ?%not_elem_of_nil); intros [= <-] ->%list_elem_of_singleton; [by left; eauto|].
  right. eexists. split; [done|]. destruct (pay_intact recipient request); auto.
Qed.

(** The payment drill passes only when the relay worked: its malformed
    intent was sent and failed, and for the real one - with a recipient of its
    own, under the next id - it read the completion the server opened for it,
    with the host's transaction id and the client data it had sent. *)
Theorem pay_drill_passes identity_pk s s' :
  pay_drill recipient identity_pk s = (s', Got tt) →
  ∃ session_id link m_login m_start m_session m_resp m_done,
    stretch s s'
      [JObj [("Login", JObj [("domain", JStr "paper.swaption.io")])]; JObj [("StartLogin", JObj [("client_data", JNull)])];
       start_pay session_id "not-an-address"; start_pay session_id recipient]
      [m_login; m_start; m_session; m_resp; m_done] [link] ∧
    default "" (str_of ["Notif"; "notif"; "SessionCreated"; "session"; "wallet_id"] m_session) = identity_pk ∧
    let done path := str_of (["Notif"; "notif"; "PayRequestUpdated"; "pay_request"] ++ path) m_done in
    done ["request_id"] = str_of ["Resp"; "resp"; "StartPay"; "pay_request"; "request_id"] m_resp ∧
    done ["status"; "Succeed"; "txid"] = Some host_txid ∧ done ["client_data"] = Some pay_client_data.
Proof.
  unfold pay_drill.
  intros (s1 & sid & (rid & link & m1 & m2 & m3 & S1 & _ & _ & _ & Hwid)%start_session_passes & Hr)%rp_bind_Got.
  apply rp_bind_Got in Hr as (s2 & bad & Hbad & Hr). apply rp_bind_Got in Hr as (? & [] & [Hb ->]%insist_Got & Hr).
  destruct bad as [|e]; [done|]. apply request_refused in Hbad.
  apply rp_bind_Got in Hr as (s3 & resp & Hq & Hr). destruct Hbad as [Hgone|S2]; [by apply request_needs_socket in Hq|].
  apply request_stretch in Hq as (m4 & S3 & ->).
  apply rp_bind_Got in Hr as (? & pid & [Hpid ->]%need_Got & Hr).
  apply rp_bind_Got in Hr as (s4 & terminal & (m5 & S4 & Hp)%reading_stretch & Hr).
  apply rp_bind_Got in Hr as (? & txid & [Htx ->]%need_Got & Hr).
  apply rp_bind_Got in Hr as (? & [] & [He ->]%insist_Got & [Hcd ->]%insist_Got). bool_inv. subst txid.
  unfold terminal_pick in Hp. destruct (pointer ["Notif"; "notif"; "PayRequestUpdated"] m5) as [n|] eqn:En; [|done].
  simpl in Hp. destruct (left_active _ _) eqn:Hl; [|done]. injection Hp as <-.
  unfold left_active in Hl. apply andb_true_iff in Hl as [Hid _]. bool_inv.
  assert (n = index ["Notif"; "notif"; "PayRequestUpdated"] m5) as -> by (unfold index; by rewrite En).
  change (as_str (index ["request_id"] ?v)) with (str_of ["request_id"] v) in Hid. unfold id in *. rewrite !str_of_index in *.
  exists sid, link, m1, m2, m3, m4, m5.
  pose proof (stretch_then _ _ _ _ _ _ _ _ _ S1 (stretch_then _ _ _ _ _ _ _ _ _ S2
    (stretch_then _ _ _ _ _ _ _ _ _ S3 S4))) as S.
  split_and!; try done. simpl in *. by rewrite Hid, Hpid.
Qed.

(** The wallet pays for exactly the intent it expects. *)
Theorem pay_frames st :
  reachable (pay_wallet recipient) true iid desc key st →
  Forall (policy_frame iid key (pay_allowed st.(sys_shown) st.(sys_texts))) st.(sys_sent).
Proof.
  apply (policy_frames _ _ _ _ _ pay_allowed).
  - intros shown texts token [(e & _ & inputs & Ho & Hi)|(url & l & _ & _ & ?)]%pay_caused; [|done].
    destruct (pay_on_event_input _ _ _ Ho Hi) as [(r & _ & ?)|(r & _ & [[_ ?]|?])]; done.
  - intros shown texts s i a Hdesc Hkey Hr%pay_caused Hi _.
    destruct Hr as [(e & He & inputs & Ho & Hin)|(url & l & Hu & Hl & ->)].
    + destruct (pay_on_event_input _ _ _ Ho Hin) as [(r & -> & ->)|(r & -> & [[Hp ->]| ->])]; inversion Hi; subst; simpl; eauto 8.
      unfold pay_intact in Hp. bool_inv. exists r. split_and!; try done.
    + inversion Hi; subst. simpl. by eexists url, _.
Qed.
End pay_drill.
