(* ===== verification/Payjoin.v ===== *)
(** The payjoin client ([lc-wallet-core/src/payjoin.rs]): the fee estimate on
    binary64 floats and the three calls to SideSwap's service. *)

From S2P Require Import Prelude Http Crates Pset.
From Stdlib Require Import Floats.SpecFloat.

Definition BASE_URL_PROD : string := "https://api.sideswap.io".
Definition BASE_URL_TESTNET : string := "https://api-testnet.sideswap.io".

(** * [f64] *)

Abbreviation f64 := spec_float.
(** [n as f64]: to the nearest, ties to even. *)
Definition u64_as_f64 (n : Z) : f64 := binary_normalize 53 1024 n 0 false.
Definition f64_mul : f64 → f64 → f64 := SFmul 53 1024.
(** [x as u64]: toward zero, saturating, zero for NaN. *)
Definition f64_as_u64 (x : f64) : Z :=
  match x with
  | S754_zero _ | S754_nan => 0
  | S754_infinity s => if s then 0 else 2 ^ 64 - 1
  | S754_finite s m e => if s then 0 else Z.min (2 ^ 64 - 1) (Z.shiftl (Zpos m) e)
  end.

(** [None] is the overflow of the sum (a panic under overflow checks). *)
Definition estimate_service_fee (network_fee_sats : Z) (price : f64) (fixed_fee : Z) : option Z :=
  u64_checked_add (f64_as_u64 (f64_mul (u64_as_f64 network_fee_sats) price)) fixed_fee.

(** * The protocol *)

(** The types of [elements] a server input carries. *)
Class PayjoinTypes := {
  AssetBlindingFactor : Type;
  ValueBlindingFactor : Type;
  Generator : Type;
  PedersenCommitment : Type;
  Address : Type;
  address_is_blinded : Address → bool;
}.

Section protocol.
Context `{!PsetTypes, !PayjoinTypes}.

Record AcceptedAsset := { aa_asset_id : AssetId }.
Record AcceptedAssetsResponse := { aar_accepted_asset : list AcceptedAsset }.
Record Utxo := {
  ux_txid : Txid;
  ux_vout : Z;
  ux_script_pub_key : Script;
  ux_asset_id : AssetId;
  ux_value : Z;
  ux_asset_bf : AssetBlindingFactor;
  ux_value_bf : ValueBlindingFactor;
  ux_asset_commitment : Generator;
  ux_value_commitment : PedersenCommitment;
}.
Record StartRequest := { srq_asset_id : AssetId; srq_user_agent : string; srq_api_key : option string }.
Record StartResponse := {
  srs_order_id : string;
  srs_expires_at : Z;
  srs_price : f64;
  srs_fixed_fee : Z;
  srs_fee_address : Address;
  srs_change_address : Address;
  srs_utxos : list Utxo;
}.
Record PayjoinSignRequest := { psr_order_id : string; psr_pset : string }.
Record SignResponse := { psp_pset : string }.

Inductive Request :=
| RAcceptedAssets
| RStart (r : StartRequest)
| RSign (r : PayjoinSignRequest).
Inductive Response :=
| PAcceptedAssets (r : AcceptedAssetsResponse)
| PStart (r : StartResponse)
| PSign (r : SignResponse).
End protocol.

(** The readings serde derives: a [Response], the text of a [ServerError]. *)
Class PayjoinWire `{!PsetTypes, !PayjoinTypes} := {
  response_from_str : string → option Response;
  server_error_from_str : string → option string;
}.

Section client.
Context `{!PsetTypes, !PayjoinTypes, !PayjoinWire}.

Definition call (base_url : string) (req : Request) : client Request string Response :=
  Post (base_url +:+ "/payjoin") [] req (λ reply, Done
    match reply with
    | HttpOk text => ok_or (response_from_str text) "unreadable response body"
    | HttpStatus code text =>
        let detail := default "unreadable error body" (server_error_from_str text) in
        Err ("payjoin server refused (" +:+ dec_string code +:+ "): " +:+ detail)
    | HttpUnread err | HttpError err => Err err
    end).

(** Each call: the request, then the match on the answer. *)
Definition accepted_assets_of (reply : Response) : result string (list AssetId) :=
  match reply with
  | PAcceptedAssets resp =>
      _ ← ensure (negb (bool_decide (length resp.(aar_accepted_asset) = 0%nat))) "empty payjoin asset list";
      Ok (aa_asset_id <$> resp.(aar_accepted_asset))
  | _ => Err "unexpected response"
  end.
Definition accepted_assets (base_url : string) : client Request string (list AssetId) :=
  reply ← call base_url RAcceptedAssets; local (accepted_assets_of reply).

Definition start_of (reply : Response) : result string StartResponse :=
  match reply with
  | PStart resp =>
      _ ← ensure (address_is_blinded resp.(srs_fee_address)) "fee address not blinded";
      _ ← ensure (address_is_blinded resp.(srs_change_address)) "change address not blinded";
      _ ← ensure (negb (bool_decide (length resp.(srs_utxos) = 0%nat))) "server contributed no inputs";
      Ok resp
  | _ => Err "unexpected response"
  end.
Definition start (base_url : string) (asset_id : AssetId) (user_agent : string) (api_key : option string)
    : client Request string StartResponse :=
  reply ← call base_url (RStart {| srq_asset_id := asset_id; srq_user_agent := user_agent; srq_api_key := api_key |});
  local (start_of reply).

Definition sign_of (reply : Response) : result string string :=
  match reply with
  | PSign resp => Ok resp.(psp_pset)
  | _ => Err "unexpected response"
  end.
Definition sign (base_url order_id pset_b64 : string) : client Request string string :=
  reply ← call base_url (RSign {| psr_order_id := order_id; psr_pset := pset_b64 |});
  local (sign_of reply).
End client.
