(* ===== verification/PayjoinSpec.v ===== *)
(** The payjoin client's promises: the fee estimate against exact arithmetic,
    and what an accepted reply has been checked for. *)

From S2P Require Import Prelude Http Crates Pset Payjoin.
From Stdlib Require Import Floats.SpecFloat.

(** * Exact products of binary64 floats *)

Lemma digits2_log2 p : Zpos (digits2_pos p) = Z.log2 (Zpos p) + 1.
Proof.
  induction p as [p IH|p IH|]; [| |done]; simpl digits2_pos; rewrite Pos2Z.inj_succ, IH.
  - rewrite Pos2Z.inj_xI, Z.log2_succ_double by lia. lia.
  - rewrite Pos2Z.inj_xO, Z.log2_double by lia. lia.
Qed.
Lemma digits2_lt p n : Zpos p < 2 ^ n → Zpos (digits2_pos p) ≤ n.
Proof. intros Hp. rewrite digits2_log2. apply Z.log2_lt_pow2 in Hp; lia. Qed.
Lemma iter_pos_nat {A} (f : A → A) n x : iter_pos f n x = Nat.iter (Pos.to_nat n) f x.
Proof.
  revert x; induction n as [n IH|n IH|]; intros x; cbn [iter_pos]; [| |done].
  - rewrite !IH, <-Nat.iter_add, <-Nat.iter_succ_r, Pos2Nat.inj_xI. f_equal. lia.
  - rewrite !IH, <-Nat.iter_add, Pos2Nat.inj_xO. f_equal. lia.
Qed.
Lemma shr_1_even m : 0 < m → shr_1 (Build_shr_record (2 * m) false false) = Build_shr_record m false false.
Proof. by destruct m. Qed.
Lemma shr_exact m n e :
  0 < m → shr (Build_shr_record (m * 2 ^ Zpos n) false false) e (Zpos n) = (Build_shr_record m false false, e + Zpos n).
Proof.
  intros Hm. unfold shr. f_equal. rewrite iter_pos_nat. rewrite <-(positive_nat_Z n).
  revert m Hm; induction (Pos.to_nat n) as [|k IH]; intros m Hm.
  - simpl. f_equal. lia.
  - rewrite Nat.iter_succ_r, Nat2Z.inj_succ, Z.pow_succ_r by lia.
    replace (m * (2 * 2 ^ Z.of_nat k)) with (2 * (m * 2 ^ Z.of_nat k)) by ring.
    rewrite shr_1_even by nia. by apply IH.
Qed.

Abbreviation fexp64 := (fexp 53 1024).
Lemma fexp64_eq e : fexp64 e = Z.max (e - 53) (-1074).
Proof. unfold fexp, emin. lia. Qed.

(** Rounding a mantissa that already fits changes nothing. *)
Lemma round_fits m e :
  fexp64 (Zpos (digits2_pos m) + e) ≤ e ≤ 971 →
  binary_round_aux 53 1024 false (Zpos m) e loc_Exact = S754_finite false m e.
Proof.
  intros [Hf He]. unfold binary_round_aux, shr_fexp. simpl Zdigits2.
  assert (∀ mrs, shr mrs e (fexp64 (Zpos (digits2_pos m) + e) - e) = (mrs, e)) as Hshr.
  { intros mrs. unfold shr. destruct (_ - e) eqn:E; [done|lia|done]. }
  rewrite Hshr. simpl. rewrite Hshr. simpl. by rewrite (proj2 (Z.leb_le e (1024 - 53))).
Qed.

(** Rounding [q * 2 ^ s] keeps its value when [q] has at most 53 bits. *)
Lemma round_exact m e q s :
  Zpos m = q * 2 ^ s → 0 ≤ s → 0 < q < 2 ^ 53 → -1074 ≤ e + s ≤ 971 →
  ∃ m' j, binary_round_aux 53 1024 false (Zpos m) e loc_Exact = S754_finite false m' (e + j) ∧
    0 ≤ j ∧ Zpos m = Zpos m' * 2 ^ j.
Proof.
  intros Hm Hs Hq He.
  assert (Zpos (digits2_pos m) ≤ 53 + s) as Hd.
  { apply digits2_lt. rewrite Hm, Z.pow_add_r by lia. nia. }
  assert (fexp64 (Zpos (digits2_pos m) + e) ≤ e →
    ∃ m' j, binary_round_aux 53 1024 false (Zpos m) e loc_Exact = S754_finite false m' (e + j) ∧
      0 ≤ j ∧ Zpos m = Zpos m' * 2 ^ j) as Hfits.
  { intros Hf. exists m, 0. rewrite Z.add_0_r. split_and!; [apply round_fits|..]; lia. }
  destruct (fexp64 (Zpos (digits2_pos m) + e) - e) as [|n|n] eqn:En; [apply Hfits; lia| |apply Hfits; lia].
  pose proof En as En'. rewrite fexp64_eq in En'.
  assert (∃ m', Zpos m = Zpos m' * 2 ^ Zpos n) as [m' Hm'].
  { assert (0 < q * 2 ^ (s - Zpos n)) by (apply Z.mul_pos_pos; [lia|apply Z.pow_pos_nonneg; lia]).
    exists (Z.to_pos (q * 2 ^ (s - Zpos n))). rewrite Z2Pos.id by done.
    rewrite <-Z.mul_assoc, <-Z.pow_add_r by lia. by replace (s - Zpos n + Zpos n) with s by lia. }
  assert (Zpos (digits2_pos m) = Zpos (digits2_pos m') + Zpos n) as Hdig.
  { rewrite !digits2_log2, Hm', Z.log2_mul_pow2 by lia. lia. }
  exists m', (Zpos n). split_and!; [|lia|done].
  unfold binary_round_aux, shr_fexp. simpl Zdigits2. rewrite En. simpl shr_record_of_loc.
  rewrite Hm', shr_exact by lia. simpl shr_m. simpl loc_of_shr_record. simpl round_nearest_even.
  simpl Zdigits2. simpl shr_record_of_loc.
  assert (fexp64 (Zpos (digits2_pos m') + (e + Zpos n)) - (e + Zpos n) = 0) as ->.
  { replace (Zpos (digits2_pos m') + (e + Zpos n)) with (Zpos (digits2_pos m) + e) by lia.
    rewrite fexp64_eq. lia. }
  simpl. by rewrite (proj2 (Z.leb_le _ (1024 - 53))) by lia.
Qed.

Lemma iter_xO m d : Zpos (Pos.iter xO m d) = Zpos m * 2 ^ Zpos d.
Proof.
  induction d as [|d IH] using Pos.peano_ind; [simpl; lia|].
  rewrite Pos.iter_succ, Pos2Z.inj_xO, IH, Pos2Z.inj_succ, Z.pow_succ_r by lia. ring.
Qed.

(** An integer below [2 ^ 53] is a float as it is. *)
Lemma u64_as_f64_exact n :
  0 < n < 2 ^ 53 →
  ∃ m d, u64_as_f64 n = S754_finite false m (- d) ∧ 0 ≤ d ≤ 53 ∧ Zpos m = n * 2 ^ d.
Proof.
  intros Hn. destruct n as [|p|]; [lia| |lia].
  unfold u64_as_f64, binary_normalize, binary_round.
  assert (Zpos (digits2_pos p) ≤ 53) as Hd by (apply digits2_lt; lia).
  unfold shl_align. rewrite Z.add_0_r, fexp64_eq.
  rewrite Z.max_l, Z.sub_0_r by lia.
  destruct (Zpos (digits2_pos p) - 53) as [|k|k] eqn:E; [|lia|].
  - exists p, 0. rewrite round_fits; [split_and!; [done|lia..]|]. rewrite fexp64_eq. lia.
  - exists (Pos.iter xO p k), (Zpos k). rewrite round_fits; [split_and!; [done|lia..|apply iter_xO]|].
    assert (Zpos (digits2_pos (Pos.iter xO p k)) = Zpos (digits2_pos p) + Zpos k) as ->.
    { rewrite !digits2_log2, iter_xO, Z.log2_mul_pow2 by lia. lia. }
    rewrite fexp64_eq. lia.
Qed.

(** Shifts by a sum of exponents. *)
Lemma shiftl_pow m j e : 0 ≤ j → Z.shiftl (m * 2 ^ j) e = Z.shiftl m (j + e).
Proof. intros Hj. rewrite <-Z.shiftl_mul_pow2 by done. by apply Z.shiftl_shiftl. Qed.

(** The product of an integer and a float, when it has at most 53 bits,
    converted back: the exact product rounded down. *)
Lemma mul_exact n mp ep a t :
  0 < n → Zpos mp = a * 2 ^ t → 0 ≤ t → 0 < a → n * a < 2 ^ 53 → -1074 ≤ ep + t ≤ 971 →
  f64_as_u64 (f64_mul (u64_as_f64 n) (S754_finite false mp ep))
  = Z.min (2 ^ 64 - 1) (Z.shiftl (n * a) (ep + t)).
Proof.
  intros Hn Hmp Ht Ha Hna Hep.
  destruct (u64_as_f64_exact n) as (m & d & -> & Hd & Hm); [nia|].
  unfold f64_mul, SFmul. simpl xorb.
  destruct (round_exact (m * mp) (- d + ep) (n * a) (d + t)) as (m' & j & -> & Hj & Hm');
    [rewrite Pos2Z.inj_mul, Hm, Hmp, Z.pow_add_r by lia; ring|lia|nia|lia|].
  unfold f64_as_u64. f_equal.
  replace (- d + ep + j) with (j + (- d + ep)) by lia.
  rewrite <-shiftl_pow, <-Hm', Pos2Z.inj_mul, Hm, Hmp by done.
  replace (n * 2 ^ d * (a * 2 ^ t)) with (n * a * 2 ^ (d + t)) by (rewrite Z.pow_add_r by lia; ring).
  rewrite shiftl_pow by lia. f_equal. lia.
Qed.

(** The fee the module documents: [ceil(network_fee * price) + fixed_fee],
    for a price of [a / 2 ^ k]. *)
Definition documented_fee (network_fee a k fixed_fee : Z) : Z :=
  - (- (network_fee * a) / 2 ^ k) + fixed_fee.

(** The service fee is the exact product rounded down, not up: for a
    price of [a / 2 ^ k] whose product with the network fee is a float
    exactly, the estimate is [network_fee * price] truncated plus the fixed
    fee, unless the sum overflows. It is the documented fee when the product
    is whole, and one unit below the documented minimum otherwise. *)
Theorem service_fee_truncates network_fee mantissa exponent a t k fixed_fee :
  0 ≤ network_fee → 0 < a → 0 ≤ t → 0 ≤ k ≤ 1074 → network_fee * a < 2 ^ 53 →
  Zpos mantissa = a * 2 ^ t → exponent + t = - k →
  estimate_service_fee network_fee (S754_finite false mantissa exponent) fixed_fee
  = u64_checked_add (network_fee * a / 2 ^ k) fixed_fee ∧
  documented_fee network_fee a k fixed_fee
  = network_fee * a / 2 ^ k + fixed_fee + (if network_fee * a mod 2 ^ k =? 0 then 0 else 1).
Proof.
  intros Hn Ha Ht Hk Hna Hm He.
  assert (0 < 2 ^ k) as Hpk by (apply Z.pow_pos_nonneg; lia). split.
  - unfold estimate_service_fee. f_equal. destruct (decide (network_fee = 0)) as [->|].
    { by rewrite Z.mul_0_l, Z.div_0_l by lia. }
    rewrite (mul_exact network_fee mantissa exponent a t) by lia.
    rewrite He, Z.shiftl_div_pow2, Z.opp_involutive by lia. apply Z.min_r.
    transitivity (network_fee * a); [|lia]. apply Z.div_le_upper_bound; nia.
  - unfold documented_fee. destruct (Z.eqb_spec (network_fee * a mod 2 ^ k) 0) as [Hz|Hz].
    + rewrite Z_div_zero_opp_full by done. lia.
    + rewrite Z_div_nz_opp_full by lia. lia.
Qed.

(** * Replies *)

Section replies.
Context `{!PsetTypes, !PayjoinTypes, !PayjoinWire}.
Implicit Types (base : string) (replies : list (http_reply string)).

(** The request of a call, and what its answer says. *)
Definition payjoin_request base (req : Request) : request Request :=
  {| rq_url := base +:+ "/payjoin"; rq_headers := []; rq_body := req |}.
Definition answered replies (resp : Response) : Prop :=
  ∃ text, head replies = Some (HttpOk text) ∧ response_from_str text = Some resp.

Lemma run_payjoin_call {A} base req (f : Response → result string A) replies r :
  (run_http (reply ← call base req; local (f reply)) replies).1 = [payjoin_request base req] ∧
  ((run_http (reply ← call base req; local (f reply)) replies).2 = Some (Ok r) ↔
   ∃ resp, answered replies resp ∧ f resp = Ok r).
Proof.
  destruct replies as [|reply replies].
  { split; [done|]. split; [done|]. by intros (? & (? & ? & ?) & ?). }
  destruct reply as [text|err|code text|err]; simpl; [destruct (response_from_str text) as [resp|] eqn:E; simpl|..];
    (split; [done|]; split; [|intros (resp' & (t & [= <-] & Ht) & Hr)]; try done).
  - intros [= Hr]. exists resp. split; [by exists text|done].
  - rewrite E in Ht. injection Ht as <-. by rewrite Hr.
  - by rewrite E in Ht.
Qed.

Lemma nonempty_test {A} (l : list A) : negb (bool_decide (length l = 0%nat)) = true ↔ l ≠ [].
Proof. by destruct l. Qed.
Lemma accepted_assets_of_Ok reply assets :
  accepted_assets_of reply = Ok assets ↔
  ∃ l, reply = PAcceptedAssets l ∧ assets = aa_asset_id <$> l.(aar_accepted_asset) ∧ assets ≠ [].
Proof.
  split.
  - destruct reply as [l|?|?]; [|done..]. simpl. intros E. result_inv.
    exists l. split_and!; [done..|]. by destruct l as [[|]].
  - intros (l & -> & -> & Hne). simpl. by destruct l as [[|]].
Qed.
Lemma start_of_Ok reply resp :
  start_of reply = Ok resp ↔
  reply = PStart resp ∧ address_is_blinded resp.(srs_fee_address) = true ∧
  address_is_blinded resp.(srs_change_address) = true ∧ resp.(srs_utxos) ≠ [].
Proof.
  split.
  - destruct reply as [?|r|?]; [done| |done]. simpl. intros E. result_inv. split_and!; [done..|]. by apply nonempty_test.
  - intros (-> & Hf & Hc & Hu%nonempty_test). simpl. by rewrite Hf, Hc, Hu.
Qed.
Lemma sign_of_Ok reply signed : sign_of reply = Ok signed ↔ reply = PSign {| psp_pset := signed |}.
Proof. split; [destruct reply as [?|?|[?]]; [done..|by intros [= ->]]|by intros ->]. Qed.

(** C31. Each payjoin call posts its one request (one call of [ureq]; redirects
    it follows inside are not modelled) to [<base>/payjoin] and
    succeeds exactly on an answer of its own kind that passes the checks: a
    list of fee assets that is not empty; an order whose fee and change
    addresses are blinded and which brings at least one server input; a
    signed pset. Everything else - another kind of answer, a refusal, an
    unreadable body - is an error. *)
Theorem payjoin_replies_checked base replies asset agent key order pset assets resp signed :
  let asked := run_http (accepted_assets base) replies in
  let started := run_http (start base asset agent key) replies in
  let signing := run_http (sign base order pset) replies in
  asked.1 = [payjoin_request base RAcceptedAssets] ∧
  (asked.2 = Some (Ok assets) ↔
   ∃ l, answered replies (PAcceptedAssets l) ∧ assets = aa_asset_id <$> l.(aar_accepted_asset) ∧ assets ≠ []) ∧
  started.1 = [payjoin_request base
    (RStart {| srq_asset_id := asset; srq_user_agent := agent; srq_api_key := key |})] ∧
  (started.2 = Some (Ok resp) ↔
   answered replies (PStart resp) ∧ address_is_blinded resp.(srs_fee_address) = true ∧
   address_is_blinded resp.(srs_change_address) = true ∧ resp.(srs_utxos) ≠ []) ∧
  signing.1 = [payjoin_request base (RSign {| psr_order_id := order; psr_pset := pset |})] ∧
  (signing.2 = Some (Ok signed) ↔ answered replies (PSign {| psp_pset := signed |})).
Proof.
  cbv zeta. unfold accepted_assets, start, sign.
  split_and!; [by apply (run_payjoin_call _ _ _ _ assets)| |by apply (run_payjoin_call _ _ _ _ resp)|
    |by apply (run_payjoin_call _ _ _ _ signed)|]; rewrite (proj2 (run_payjoin_call _ _ _ _ _)).
  - setoid_rewrite accepted_assets_of_Ok. naive_solver.
  - setoid_rewrite start_of_Ok. naive_solver.
  - setoid_rewrite sign_of_Ok. naive_solver.
Qed.
End replies.
