(* ===== verification/PayjoinCodec.v ===== *)
(** The payjoin messages as JSON documents: the codecs serde derives for the
    types of [lc-wallet-core/src/payjoin.rs], over the codecs of the
    third-party types they carry, and the reading of a reply they give. *)

From S2P Require Import Prelude Crates Json WireCodec Pset Payjoin.

(** [Serialize] and [Deserialize] of the types of [elements] and of [f64]. *)
Class PayjoinScalars `{!PsetTypes, !PayjoinTypes} := {
  txid_c : codec Txid;
  script_c : codec Script;
  asset_bf_c : codec AssetBlindingFactor;
  value_bf_c : codec ValueBlindingFactor;
  generator_c : codec Generator;
  commitment_c : codec PedersenCommitment;
  address_c : codec Address;
  f64_c : codec f64;
}.

Section codecs.
Context `{!ElementsApi, !PsetTypes, !PayjoinTypes, !PayjoinScalars}.

(** [AssetId] is written as its display form. *)
Definition asset_id_c : codec AssetId := text_c asset_to_string asset_from_str.
Definition accepted_asset_c : codec AcceptedAsset :=
  struct (field "asset_id" asset_id_c) aa_asset_id Build_AcceptedAsset.
Definition accepted_assets_response_c : codec AcceptedAssetsResponse :=
  struct (field "accepted_asset" (list_c accepted_asset_c)) aar_accepted_asset Build_AcceptedAssetsResponse.
Definition utxo_c : codec Utxo :=
  struct (field "txid" txid_c ⊗ field "vout" (int_c 0 (2 ^ 32 - 1)) ⊗ field "script_pub_key" script_c
          ⊗ field "asset_id" asset_id_c ⊗ field "value" u64_c ⊗ field "asset_bf" asset_bf_c
          ⊗ field "value_bf" value_bf_c ⊗ field "asset_commitment" generator_c
          ⊗ field "value_commitment" commitment_c)
    (λ u, (ux_txid u, ux_vout u, ux_script_pub_key u, ux_asset_id u, ux_value u, ux_asset_bf u, ux_value_bf u,
           ux_asset_commitment u, ux_value_commitment u))
    (λ '(t, n, s, a, v, ab, vb, ac, vc),
       {| ux_txid := t; ux_vout := n; ux_script_pub_key := s; ux_asset_id := a; ux_value := v; ux_asset_bf := ab;
          ux_value_bf := vb; ux_asset_commitment := ac; ux_value_commitment := vc |}).
Definition start_request_c : codec StartRequest :=
  struct (field "asset_id" asset_id_c ⊗ field "user_agent" string_c ⊗ opt_field "api_key" string_c)
    (λ r, (srq_asset_id r, srq_user_agent r, srq_api_key r))
    (λ '(a, u, k), {| srq_asset_id := a; srq_user_agent := u; srq_api_key := k |}).
Definition start_response_c : codec StartResponse :=
  struct (field "order_id" string_c ⊗ field "expires_at" u64_c ⊗ field "price" f64_c ⊗ field "fixed_fee" u64_c
          ⊗ field "fee_address" address_c ⊗ field "change_address" address_c ⊗ field "utxos" (list_c utxo_c))
    (λ r, (srs_order_id r, srs_expires_at r, srs_price r, srs_fixed_fee r, srs_fee_address r, srs_change_address r,
           srs_utxos r))
    (λ '(o, e, p, f, fa, ca, us),
       {| srs_order_id := o; srs_expires_at := e; srs_price := p; srs_fixed_fee := f; srs_fee_address := fa;
          srs_change_address := ca; srs_utxos := us |}).
Definition payjoin_sign_request_c : codec PayjoinSignRequest :=
  struct (field "order_id" string_c ⊗ field "pset" string_c) (λ r, (psr_order_id r, psr_pset r))
    (λ '(o, p), {| psr_order_id := o; psr_pset := p |}).
Definition sign_response_c : codec SignResponse :=
  struct (field "pset" string_c) psp_pset Build_SignResponse.

(** [#[serde(rename_all = "snake_case")]] *)
Definition request_c : codec Request :=
  enum (λ r, match r with
    | RAcceptedAssets => ("accepted_assets", Some (enc empty_c ()))
    | RStart r => ("start", Some (enc start_request_c r))
    | RSign r => ("sign", Some (enc payjoin_sign_request_c r))
    end)
    [("accepted_assets", content empty_c (λ _, RAcceptedAssets));
     ("start", content start_request_c RStart);
     ("sign", content payjoin_sign_request_c RSign)] None.
Definition response_c : codec Response :=
  enum (λ r, match r with
    | PAcceptedAssets r => ("accepted_assets", Some (enc accepted_assets_response_c r))
    | PStart r => ("start", Some (enc start_response_c r))
    | PSign r => ("sign", Some (enc sign_response_c r))
    end)
    [("accepted_assets", content accepted_assets_response_c PAcceptedAssets);
     ("start", content start_response_c PStart);
     ("sign", content sign_response_c PSign)] None.
(** [ServerError], whose one member [call] takes. *)
Definition server_error_c : codec string := member_c "error" string_c.

Context `{!JsonText}.
(** The body [send_json] posts. *)
Definition request_body (r : Request) : string := json_to_text (enc request_c r).
Definition payjoin_serde : PayjoinWire :=
  {| response_from_str := λ text, j ← json_of_text text; dec response_c j;
     server_error_from_str := λ text, j ← json_of_text text; dec server_error_c j |}.
End codecs.
