(* ===== verification/PayjoinCodecSpec.v ===== *)
(** The payjoin wire: the service reads every request as the client meant it,
    the client every answer as the service meant it, and a whole call hands
    over what the service answered. *)

From S2P Require Import Prelude Http Crates Json Wire WireCodec WireCodecSpec Pset Payjoin PayjoinSpec PayjoinCodec.

(** The documented text forms of the third-party types: what is written is
    read back, and is never [null]. *)
Class PayjoinScalarsOk `{!ElementsApi, !PsetTypes, !PayjoinTypes, !PayjoinScalars} : Prop := {
  asset_text_ok a : asset_from_str (asset_to_string a) = Some a;
  txid_ok : codec_ok_at real_text txid_c (λ _, True);
  script_ok : codec_ok_at real_text script_c (λ _, True);
  asset_bf_ok : codec_ok_at real_text asset_bf_c (λ _, True);
  value_bf_ok : codec_ok_at real_text value_bf_c (λ _, True);
  generator_ok : codec_ok_at real_text generator_c (λ _, True);
  commitment_ok : codec_ok_at real_text commitment_c (λ _, True);
  address_ok : codec_ok_at real_text address_c (λ _, True);
}.

Section spec.
Context `{!ElementsApi, !PsetTypes, !PayjoinTypes, !PayjoinScalars, !PayjoinScalarsOk}.

(** Integers at their widths; a price that is a number and that [serde_json]
    reads back from the text it writes for it. (Its default reader of floats
    may miss by a unit in the last place, so that is asked for.) *)
Definition price_fits (x : f64) : Prop :=
  json_fits real_text (enc f64_c x) = true ∧ dec f64_c (enc f64_c x) = Some x.
Definition utxo_fits (u : Utxo) : Prop := 0 ≤ ux_vout u ≤ 2 ^ 32 - 1 ∧ u64_fits (ux_value u).
Definition start_fits (r : StartResponse) : Prop :=
  u64_fits (srs_expires_at r) ∧ price_fits (srs_price r) ∧ u64_fits (srs_fixed_fee r) ∧ Forall utxo_fits (srs_utxos r).
Definition response_fits (r : Response) : Prop := match r with PStart r => start_fits r | _ => True end.

Lemma asset_id_ok : codec_ok_at real_text asset_id_c (λ _, True).
Proof. apply text_ok. intros a _. apply asset_text_ok. Qed.
Lemma f64_ok : codec_ok_at real_text f64_c price_fits.
Proof. split; by intros x []. Qed.
#[local] Hint Resolve asset_id_ok f64_ok txid_ok script_ok asset_bf_ok value_bf_ok generator_ok commitment_ok
  address_ok : codecs.

Ltac payjoin_tac :=
  eapply codec_ok_impl;
    [ eapply struct_ok; [apply (bool_decide_unpack _); vm_compute; exact I | fields_tac | by intros []]
    | unfold utxo_fits, start_fits, u64_fits; intros a Ha; simpl in *; destruct_and?; split_and?; try done; try lia;
      by apply Forall_true ].
Lemma accepted_asset_ok : codec_ok_at real_text accepted_asset_c (λ _, True).
Proof. payjoin_tac. Qed.
#[local] Hint Resolve accepted_asset_ok : codecs.
Lemma accepted_assets_response_ok : codec_ok_at real_text accepted_assets_response_c (λ _, True).
Proof. payjoin_tac. Qed.
Lemma utxo_ok : codec_ok_at real_text utxo_c utxo_fits.
Proof. payjoin_tac. Qed.
#[local] Hint Resolve utxo_ok : codecs.
Lemma start_request_ok : codec_ok_at real_text start_request_c (λ _, True).
Proof. payjoin_tac. Qed.
Lemma start_response_ok : codec_ok_at real_text start_response_c start_fits.
Proof. payjoin_tac. Qed.
Lemma payjoin_sign_request_ok : codec_ok_at real_text payjoin_sign_request_c (λ _, True).
Proof. payjoin_tac. Qed.
Lemma sign_response_ok : codec_ok_at real_text sign_response_c (λ _, True).
Proof. payjoin_tac. Qed.
#[local] Hint Resolve accepted_assets_response_ok start_request_ok start_response_ok payjoin_sign_request_ok
  sign_response_ok : codecs.

Lemma request_ok : codec_ok_at real_text request_c (λ _, True).
Proof. apply enum_ok. intros r _. destruct r; simpl variant_of; cbn iota beta; variant_tac; exact I. Qed.
Lemma response_ok : codec_ok_at real_text response_c response_fits.
Proof.
  apply enum_ok. intros r Hr. destruct r; simpl variant_of; cbn iota beta; variant_tac; try exact I; exact Hr.
Qed.

(** * A service on the other side *)

Context `{!JsonText}.
(** [serde_json] gives back the documents it printed: integers it holds, and
    other numbers as the text they are. *)
Context (text_roundtrip : ∀ j, json_fits real_text j = true → json_of_text (json_to_text j) = Some j).
#[local] Existing Instance payjoin_serde.

Definition payjoin_read (body : string) : option Request := j ← json_of_text body; dec request_c j.
Definition payjoin_write (resp : Response) : string := json_to_text (enc response_c resp).
(** What a service decides on a request it has read: an answer, or a refusal
    with its code and error text. *)
Abbreviation service := (Request → Response + Z * string).
Definition served (serve : service) (body : string) : http_reply string :=
  match payjoin_read body with
  | Some r =>
      match serve r with
      | inl resp => HttpOk (payjoin_write resp)
      | inr (code, err) => HttpStatus code (json_to_text (enc server_error_c err))
      end
  | None => HttpStatus 400 ""
  end.
(** The result of a call that such a service means. *)
Definition meant {A} (serve : service) (r : Request) (f : Response → result string A) : result string A :=
  match serve r with
  | inl resp => f resp
  | inr (code, err) => Err ("payjoin server refused (" +:+ dec_string code +:+ "): " +:+ err)
  end.

Lemma payjoin_read_body r : payjoin_read (request_body r) = Some r.
Proof.
  unfold payjoin_read, request_body. rewrite text_roundtrip by by apply request_ok. by apply (co_dec request_ok).
Qed.
Lemma response_read resp : response_fits resp → response_from_str (payjoin_write resp) = Some resp.
Proof.
  intros Hr. unfold payjoin_write. simpl. rewrite text_roundtrip by by apply response_ok.
  by apply (co_dec response_ok).
Qed.
Lemma server_error_ok : codec_ok_at real_text server_error_c (λ _, True).
Proof. by apply (member_ok "error" string_c). Qed.
Lemma error_read err : server_error_from_str (json_to_text (enc server_error_c err)) = Some err.
Proof. simpl. rewrite text_roundtrip by by apply server_error_ok. by apply (co_dec server_error_ok). Qed.

Lemma call_served {A} serve base r (f : Response → result string A) :
  (∀ r resp, serve r = inl resp → response_fits resp) →
  (run_http (reply ← call base r; local (f reply)) [served serve (request_body r)]).2 = Some (meant serve r f).
Proof.
  intros Hfit. unfold served, meant. rewrite payjoin_read_body. destruct (serve r) as [resp|[code err]] eqn:E; simpl.
  - fold (payjoin_write resp). pose proof (response_read resp (Hfit _ _ E)) as Hr. simpl in Hr.
    change (json_to_text _) with (payjoin_write resp). rewrite Hr. by simpl.
  - pose proof (error_read err) as He. simpl in He. by rewrite He.
Qed.

(** C28. Client and service understand each other: for every service - whatever
    it decides on the requests it reads, as long as its integers fit their
    types and its price (any number, with a fraction or without) is one
    [serde_json] reads back from its own text - each payjoin call, its body
    read as the text it is, ends in what the service decided on exactly that request, checked as
    the client checks it; a refusal arrives as its code and its text. And no
    two requests share a body. *)
Theorem payjoin_served serve base asset agent key order pset :
  (∀ r resp, serve r = inl resp → response_fits resp) →
  let ask r := [served serve (request_body r)] in
  let order_request := RStart {| srq_asset_id := asset; srq_user_agent := agent; srq_api_key := key |} in
  let sign_request := RSign {| psr_order_id := order; psr_pset := pset |} in
  (run_http (accepted_assets base) (ask RAcceptedAssets)).2 = Some (meant serve RAcceptedAssets accepted_assets_of) ∧
  (run_http (start base asset agent key) (ask order_request)).2 = Some (meant serve order_request start_of) ∧
  (run_http (sign base order pset) (ask sign_request)).2 = Some (meant serve sign_request sign_of) ∧
  (∀ r r', request_body r = request_body r' → r = r').
Proof.
  intros Hfit. cbv zeta. split_and!; [by apply call_served..|].
  intros r r' E. pose proof (payjoin_read_body r) as Hr. rewrite E, payjoin_read_body in Hr. congruence.
Qed.
End spec.
