(* ===== verification/Clients.v ===== *)
(** The three HTTP clients together: the venue login, the identity calls and
    the payjoin calls all end. *)

From S2P Require Import Prelude Http Crates Key Pset LendingData Venue VenueLogin.
From S2P Require Import ShortId Identity IdentitySpec Payjoin.

Section ends.
Context `{!HashesApi, !HexApi, !SchnorrApi, !JsonApi, !JsonBuild, !IdentityReplies, !XonlyText}.
Context `{!PsetTypes, !PayjoinTypes, !PayjoinWire}.

Lemma sdk_login_ends host key identity link : ends (sdk_login host key identity link) 2.
Proof.
  unfold sdk_login. destruct (negb (host_ok host)); [done|]. intros [v| | |]; [|done..].
  destruct (c ← json_get v "challenge"; json_as_str c); [|done].
  intros [w| | |]; [|done..]. by destruct (e ← json_get w "error"; json_as_str e).
Qed.
Lemma payjoin_call_ends {A} base req (f : Response → result string A) :
  ends (reply ← call base req; local (f reply)) 1.
Proof. by apply (ends_then _ _ 1 0). Qed.

(** No server keeps a client waiting for ever: whatever comes back, the
    venue login and every identity call end after at most two requests and
    the payjoin calls after one; so that many answers, of any kind, give a
    result. *)
Theorem clients_end host venue_key identity link c key call base asset agent api_key order pset :
  let two_rounds {B J A} (p : client B J A) :=
    ends p 2 ∧ ∀ replies, (2 ≤ length replies)%nat → is_Some (run_http p replies).2 in
  let one_round {B J A} (p : client B J A) :=
    ends p 1 ∧ ∀ replies, (1 ≤ length replies)%nat → is_Some (run_http p replies).2 in
  two_rounds (sdk_login host venue_key identity link) ∧
  two_rounds (invoke c key call) ∧
  one_round (accepted_assets base) ∧ one_round (start base asset agent api_key) ∧
  one_round (sign base order pset).
Proof.
  assert (∀ B J A (p : client B J A) n, ends p n →
    ends p n ∧ ∀ replies, (n ≤ length replies)%nat → is_Some (run_http p replies).2) as Hends.
  { intros B J A p n Hp. split; [done|]. intros replies. by apply run_ends. }
  cbv zeta. split_and!; apply Hends;
    auto using sdk_login_ends, identity_call_ends; apply payjoin_call_ends.
Qed.
End ends.
