(* ===== verification/Probes.v ===== *)
(** The command-line probes and signers of [lc-wallet-core/examples]: each
    is a short program over the library's operations ([email-e2e.rs],
    [identity-probe.rs], [payjoin-probe.rs], [venue-sdk-login.rs],
    [sign-withdraw-claim.rs], [rf-vectors.rs]). *)

From S2P Require Import Prelude Http Crates Key Pset LendingData Venue ShortId Identity Payjoin.

(** * Command-line text *)

(** [u8::from_str_radix(pair, 16)]: an optional sign is allowed. *)
Definition radix16_digit (c : Ascii.ascii) : option Z :=
  let n := ascii_Z c in
  if (48 <=? n) && (n <=? 57) then Some (n - 48)
  else if (97 <=? n) && (n <=? 102) then Some (n - 87)
  else if (65 <=? n) && (n <=? 70) then Some (n - 55) else None.
Definition radix16_byte (a b : Ascii.ascii) : option Z :=
  if bool_decide (a = "+"%char) then radix16_digit b
  else x ← radix16_digit a; y ← radix16_digit b; Some (16 * x + y).
Fixpoint hex_pairs (s : string) : option (list byte) :=
  match s with
  | EmptyString => Some []
  | String a (String b s) => v ← radix16_byte a b; l ← hex_pairs s; Some (Z_byte v :: l)
  | String _ EmptyString => None
  end.
Definition hex_decode (s : string) : result string (list byte) :=
  _ ← ensure (Nat.even (String.length s)) "odd-length hex"; ok_or (hex_pairs s) "invalid digit found in string".

(** * [email-e2e.rs] *)

Section email.
Context `{!HashesApi, !SchnorrApi, !JsonApi, !JsonBuild, !IdentityReplies, !XonlyText}.
Abbreviation api := (client Value string).
Implicit Types (c : IdentityClient) (key : WalletKey).

Definition probe_key (seed_hex : string) : result string WalletKey :=
  seed ← hex_decode seed_hex;
  _ ← ensure (bool_decide (length seed = 32%nat)) "seed must be 32 bytes of hex";
  ok_or (WalletKey_new seed LiquidTestnet) "key".
Definition email_start_run c key (email : string) : api () :=
  before ← Identity.status c key;
  _ ← (if bool_decide (before.(ids_identity_id) = None) then set_discoverability c key true false else mret tt);
  email_start c key email.
Definition email_confirm_run c key (email code : string) : api () :=
  outcome ← email_confirm c key email code;
  after ← Identity.status c key;
  local (ensure after.(ids_email) "listener does not show the email as verified").
Definition email_run (c : IdentityClient) (seed_hex verb email : string) (code : option string) : api () :=
  key ← local (probe_key seed_hex);
  if bool_decide (verb = "start") then email_start_run c key email
  else if bool_decide (verb = "confirm") then
    code ← local (ok_or code "code is the fourth argument"); email_confirm_run c key email code
  else local (Err ("unknown verb " +:+ verb +:+ "; use start or confirm")).
End email.

(** * [identity-probe.rs] *)

Section identity_probe.
Context `{!HashesApi, !SchnorrApi, !JsonApi, !JsonBuild, !IdentityReplies, !XonlyText}.
Abbreviation api := (client Value string).

(** What a call gave, an error too. *)
Definition tried {A} (p : api A) : api (result string A) := http_map Ok p.

Section replay.
(** The hand-rolled calls: the address as it was given, and a bearer header
    in any case. *)
Context (base : string) (bearer : option string).
Definition bare_headers : list (string * string) := [("Authorization", "Bearer " +:+ default "" bearer)].
Definition bare_challenge (pubkey : string) : api Value :=
  Post (base +:+ "/challenge") bare_headers (json_of_object {[ "public_key" := json_of_string pubkey ]}) (λ reply, Done
    match reply with
    | HttpOk text => ok_or (json_from_str text) "json"
    | HttpUnread e | HttpStatus _ e | HttpError e => Err e
    end).
(** The outcome of the call is printed and no more. *)
Definition bare_status (pubkey nonce sig : string) : api () :=
  Post (base +:+ "/status") bare_headers (str_object [("public_key", pubkey); ("challenge", nonce); ("signature", sig)])
    (λ reply, Done (Ok tt)).
End replay.

Definition identity_probe (base : string) (bearer : option string) (key : WalletKey) : api () :=
  let c := IdentityClient_new base bearer in
  status ← Identity.status c key;
  _ ← local (ensure (bool_decide (status.(ids_identity_id) = None)) "fresh key must be unknown");
  _ ← set_discoverability c key true false;
  status ← Identity.status c key;
  _ ← local (ensure (negb (bool_decide (status.(ids_identity_id) = None))) "opt-in must register");
  _ ← contacts_save c key "email" "someone@example.com";
  contacts ← contacts_list c key;
  _ ← local (ensure (bool_decide (contacts = [])) "assertion failed: contacts.is_empty()");
  address ← tried (contact_address c key "id-nonexistent");
  _ ← local (ensure (negb (is_Ok address)) "a non-mutual address resolved; that is a hole");
  _ ← tried (email_start c key "probe@example.com");
  let pubkey := xonly_to_string (wk_public_key key) in
  challenge ← bare_challenge base bearer pubkey;
  nonce ← local (ok_or (str_member challenge "challenge") "no challenge");
  let sig := signature_to_string (wk_sign_identity key nonce "status" "") in
  _ ← bare_status base bearer pubkey nonce sig;
  bare_status base bearer pubkey nonce sig.
End identity_probe.

(** * [payjoin-probe.rs] *)

Section payjoin_probe.
Context `{!PsetTypes, !PayjoinTypes, !PayjoinWire}.
Definition probe_base (arg : option string) : string :=
  if bool_decide (arg = Some "prod") then BASE_URL_PROD else BASE_URL_TESTNET.
(** The quote, and the service fee shown for it. Indexing an empty list of
    assets would end the program. *)
Definition payjoin_probe (arg : option string) : client Request string (StartResponse * option Z) :=
  let base := probe_base arg in
  assets ← accepted_assets base;
  first ← local (ok_or (head assets) "index out of bounds");
  quote ← start base first "lc-wallet-core payjoin-probe" None;
  mret (quote, estimate_service_fee 1000 quote.(srs_price) quote.(srs_fixed_fee)).
End payjoin_probe.

(** * [venue-sdk-login.rs] *)

Section venue_login.
Context `{!HashesApi, !HexApi, !JsonApi, !SchnorrApi, !ElementsApi, !PsetTypes, !VenueApi}.
(** [form_encode] is the library's own encoder, copied. *)
Definition form_encode : list (string * string) → string := form_body.
Definition venue_sdk_login (base : string) (key : VenueKey) (identity link : option string) : client string Value Value :=
  let base := trim_end_matches "/" base in
  Post (base +:+ "/api/sdk/challenge") [] "" (λ reply,
    match reply with
    | HttpOk v =>
        match (c ← json_get v "challenge"; json_as_str c) with
        | None => Done (Err "no challenge in reply")
        | Some challenge =>
            let '(_, sig) := sign_login key challenge in
            let pairs := [("pk", hex_encode (slice (vk_public_key key))); ("sig", signature_to_string sig); ("challenge", challenge)]
              ++ (match identity with Some id => [("identity", id)] | None => [] end)
              ++ (match link with Some code => [("link", code)] | None => [] end) in
            Post (base +:+ "/api/sdk/login") [("content-type", "application/x-www-form-urlencoded")] (form_encode pairs)
              (λ reply, Done
                match reply with
                | HttpOk v => Ok v
                | HttpStatus code text => Err ("sdk login refused (" +:+ dec_string code +:+ "): " +:+ text)
                | HttpUnread err => Err err
                | HttpError err => Err ("sdk login transport error: " +:+ err)
                end)
        end
    | HttpUnread e | HttpStatus _ e | HttpError e => Done (Err e)
    end).
Definition venue_sdk_login_run (base seed_hex : string) (identity link : option string) : client string Value Value :=
  seed ← local (ok_or (hex_decode_to_slice 32 seed_hex) "hex");
  key ← local (VenueKey_from_seed (slice seed) LiquidTestnet);
  venue_sdk_login base key identity link.

(** * [sign-withdraw-claim.rs] *)

Definition sign_withdraw_claim (seed_hex amt_text dest root_hex : string) : result string (bytes32 * bytes32 * Signature) :=
  amt ← ok_or (parse_u64 amt_text) "amt";
  seed ← ok_or (hex_decode_to_slice 32 seed_hex) "seed";
  root ← ok_or (hex_decode_to_slice 32 root_hex) "root";
  key ← VenueKey_from_seed (slice seed) LiquidTestnet;
  '(digest, signature) ← sign_typed key (RWithdraw amt dest root);
  Ok (vk_public_key key, digest, signature).

(** * [rf-vectors.rs] *)

Definition VECTORS_SEED : bytes32 := hex_array 32 "0707070707070707070707070707070707070707070707070707070707070707".
Definition VECTORS_ROOT : bytes32 := hex_array 32 "aaaaaaaaaaaaaaaaaaaaaaaaaaaaaaaaaaaaaaaaaaaaaaaaaaaaaaaaaaaaaaaa".
(** The vectors printed: a label, a digest, a signature. *)
Definition rf_vectors : result string (VenueKey * list (string * bytes32 * Signature)) :=
  key ← VenueKey_from_seed (slice VECTORS_SEED) LiquidTestnet;
  let row label '(d, s) := (label, d, s) in
  Ok (key,
    [row "login" (sign_login key "c1");
     row "order#1 sell" (sign_order key Sell 7700000000 1000 50 1 None);
     row "order#2 buy " (sign_order key Buy 11500000000000 10000000 100 7 None);
     row "withdraw" (sign_withdraw key 5000 VECTORS_ROOT)]).
End venue_login.
