(* ===== verification/ProbesSpec.v ===== *)
(** What the probes and signers promise: the login example asks what the
    library's login asks, a recovery claim signs the fields it names, the
    vectors verify, and the HTTP probes end. *)

From S2P Require Import Prelude Http HttpLogic Crates Key Pset LendingData FieldsLib Venue VenueSpec VenueLogin.
From S2P Require Import ShortId Identity IdentitySpec Payjoin Clients Probes.

(** * The login example and the library *)

Lemma trim_end_keep c s t : t ≠ "" → string_contains c t = false → trim_end_matches c (s +:+ t) = s +:+ t.
Proof.
  intros Hne Ht. assert (trim_end_matches c t = t) as Htt.
  { clear Hne. induction t as [|a t IH]; [done|]. simpl in *. apply orb_false_iff in Ht as [Ha Ht].
    rewrite (IH Ht). destruct t; [by rewrite Ha|done]. }
  induction s as [|a s IH]; [done|]. change (String a s +:+ t) with (String a (s +:+ t)). cbn [trim_end_matches].
  rewrite IH. destruct (s +:+ t) eqn:E; [|done]. destruct s; [by destruct Hne|done].
Qed.

Section venue_login.
Context `{!HashesApi, !HexApi, !JsonApi, !SchnorrApi, !ElementsApi, !PsetTypes, !VenueApi}.

Lemma host_base_trimmed host : host_ok host = true → trim_end_matches "/" ("https://" +:+ host) = "https://" +:+ host.
Proof.
  intros [Hne Hh]%andb_true_iff. apply negb_true_iff in Hne. apply trim_end_keep.
  - intros ->. discriminate Hne.
  - apply (string_all_contains _ _ _ Hh). done.
Qed.

(** The login example and the library's login are one protocol: for a
    bare host, whatever comes back, they make the same requests - the same
    two pages with the same form - and they agree on success, but for one
    case: an answer that carries an [error] text is a refusal to the library
    and a login to the example. *)
Theorem login_example_agrees host key identity link replies v :
  host_ok host = true →
  let example := run_http (venue_sdk_login ("https://" +:+ host) key identity link) replies in
  let library := run_http (sdk_login host key identity link) replies in
  example.1 = library.1 ∧
  (library.2 = Some (Ok v) ↔ example.2 = Some (Ok v) ∧ reply_str v "error" = None) ∧
  (∀ e, example.2 = Some (Ok v) → reply_str v "error" = Some e →
     library.2 = Some (Err ("venue refused the login: " +:+ e))).
Proof.
  intros Hh. unfold venue_sdk_login, sdk_login. rewrite host_base_trimmed, Hh by done. simpl.
  destruct replies as [|[w|e|code text|e] replies]; simpl; try naive_solver.
  destruct (c ← json_get w "challenge"; json_as_str c) as [challenge|]; simpl; [|naive_solver].
  change (form_encode ?l) with (form_body l).
  destruct replies as [|[u|e|code text|e] replies]; simpl; try (split; [done|naive_solver]).
  change (e ← json_get u "error"; json_as_str e) with (reply_str u "error").
  destruct (reply_str u "error") as [e|] eqn:E; simpl; split; [done|naive_solver congruence|done|naive_solver congruence].
Qed.
End venue_login.

(** * Signers *)

Section signers.
Context `{!HashesApi, !HexApi, !JsonApi, !SchnorrApi, !ElementsApi, !PsetTypes, !VenueApi}.
Hypothesis schnorr_verifies : ∀ kp d, verify_schnorr (sign_schnorr_no_aux_rand d kp) d (x_only_public_key kp) = true.

(** A recovery claim is signed for the fields it names and no other
    digest: what the signer prints is the venue key of the seed, and a
    signature, valid under it, of the withdrawal of exactly that amount - a
    [u64] - to the script of exactly that address under that root; it prints
    nothing when a field does not read. *)
Theorem sign_withdraw_claim_sound seed_hex amt_text dest root_hex pk digest signature :
  sign_withdraw_claim seed_hex amt_text dest root_hex = Ok (pk, digest, signature) →
  ∃ amt seed root spk key,
    parse_u64 amt_text = Some amt ∧ in_u64 amt ∧ hex_decode_to_slice 32 seed_hex = Some seed ∧
    hex_decode_to_slice 32 root_hex = Some root ∧ address_script_pubkey dest = Some spk ∧
    VenueKey_from_seed (slice seed) LiquidTestnet = Ok key ∧ pk = vk_public_key key ∧
    digest = withdraw_digest pk amt (sha spk) root ∧ signature = sign_digest key digest ∧
    verify_schnorr signature digest pk = true.
Proof.
  unfold sign_withdraw_claim. intros Hs. result_inv.
  match goal with H : parse_u64 _ = Some ?a, Hs : hex_decode_to_slice 32 seed_hex = Some ?sd,
    Hr : hex_decode_to_slice 32 root_hex = Some ?r, Hk : VenueKey_from_seed _ _ = Ok ?k |- _ =>
    rename a into amt; rename sd into seed; rename r into root; rename k into key end.
  match goal with H : (let '(_, _) := ?p in _) = Ok _ |- _ => destruct p as [d sig]; injection H as <- <- <- end.
  match goal with H : sign_typed _ _ = Ok _ |- _ => unfold sign_typed, typed_request_digest in H end.
  result_inv. match goal with H : address_script_pubkey _ = Some ?a |- _ => rename a into spk end. simplify_eq.
  exists amt, seed, root, spk, key. split_and!; try done; [by eapply parse_u64_range|].
  apply schnorr_verifies.
Qed.

(** The vectors are valid: every one verifies under the key printed, for the
    digest the library computes from the fields printed. *)
Theorem rf_vectors_verify key rows :
  rf_vectors = Ok (key, rows) →
  let pk := vk_public_key key in
  rows.*1.*2 = [login_digest pk "c1"; order_digest pk Sell 7700000000 1000 50 1 None;
                order_digest pk Buy 11500000000000 10000000 100 7 None;
                withdraw_digest pk 5000 (p2tr_spk_hash pk) VECTORS_ROOT] ∧
  Forall (λ row, verify_schnorr row.2 row.1.2 pk = true) rows.
Proof.
  unfold rf_vectors. intros Hv. result_inv. simplify_eq. split; [done|]. repeat constructor; apply schnorr_verifies.
Qed.
End signers.

(** * HTTP probes *)

Section probes.
Context `{!HashesApi, !HexApi, !SchnorrApi, !JsonApi, !JsonBuild, !IdentityReplies, !XonlyText}.
Implicit Types (c : IdentityClient) (key : WalletKey).

Lemma ends_map {B J A C} (f : A → C) (p : http_prog B J A) n : ends p n → ends (http_map f p) n.
Proof.
  revert n. induction p as [r|url hs body k IH]; intros n Hp; [by destruct n|].
  destruct n as [|n]; [done|]. intros reply. by apply IH.
Qed.
(** Every identity operation takes at most two requests. *)
Lemma ends_call {B} c key op (f : call_result op → client Value string B) n :
  (∀ a, ends (f a) n) → ends (invoke c key op ≫= f) (S (S n)).
Proof. intros Hf. apply (ends_then _ f 2 n); [apply identity_call_ends|done]. Qed.
Lemma ends_tried {B} c key op (f : result string (call_result op) → client Value string B) n :
  (∀ a, ends (f a) n) → ends (tried (invoke c key op) ≫= f) (S (S n)).
Proof. intros Hf. apply (ends_then _ f 2 n); [apply ends_map, identity_call_ends|done]. Qed.
Lemma ends_check {B A} (r : result string A) (f : A → client Value string B) n :
  (∀ a, ends (f a) n) → ends (local r ≫= f) n.
Proof. intros Hf. by apply (ends_then _ f 0 n). Qed.

Lemma email_start_ends c key email : ends (email_start_run c key email) 6.
Proof.
  unfold email_start_run. apply (ends_call c key CStatus). intros before.
  apply (ends_then _ _ 2 2).
  - case_bool_decide; [apply (identity_call_ends c key (CDiscoverability true false))|done].
  - intros []. apply (identity_call_ends c key (CEmailStart email)).
Qed.
Lemma email_confirm_ends c key email code : ends (email_confirm_run c key email code) 4.
Proof.
  unfold email_confirm_run. apply (ends_call c key (CEmailConfirm email code)). intros outcome.
  by apply (ends_call c key CStatus _ 0).
Qed.
Lemma identity_probe_ends base bearer key : ends (identity_probe base bearer key) 17.
Proof.
  unfold identity_probe. set (c := IdentityClient_new base bearer).
  apply (ends_call c key CStatus); intros st. apply ends_check; intros [].
  apply (ends_call c key (CDiscoverability true false)); intros [].
  apply (ends_call c key CStatus); intros st'. apply ends_check; intros [].
  apply (ends_call c key (CSave _ _)); intros []. apply (ends_call c key CList); intros contacts.
  apply ends_check; intros []. apply (ends_tried c key (CAddress _)); intros address. apply ends_check; intros [].
  apply (ends_tried c key (CEmailStart _)); intros sent.
  apply (ends_then _ _ 1 2); [by intros []|]. intros challenge. apply ends_check; intros nonce.
  apply (ends_then _ _ 1 1); [by intros []|]. intros []. by intros [].
Qed.

(** A run of the email drill that ends well read, last, a status with the
    address verified; and it opts in to discovery only while the key is
    unknown. *)
Theorem email_confirm_shown c key email code replies :
  (run_http (email_confirm_run c key email code) replies).2 = Some (Ok tt) →
  ∃ n st, (run_http (Identity.status c key) (drop n replies)).2 = Some (Ok st) ∧ st.(ids_email) = true.
Proof.
  unfold email_confirm_run. rewrite run_then. destruct (run_http (email_confirm _ _ _ _) replies) as [rqs [[o|]|]]; [|done..].
  rewrite run_then. destruct (run_http (Identity.status c key) _) as [rqs' [[st|]|]] eqn:E; [|done..].
  simpl. intros Hr. exists (length rqs), st. split; [exact (f_equal snd E)|]. by destruct (ids_email st).
Qed.

(** The probe's replay is not checked: whatever the service says to the
    second use of a challenge, accepted or refused, the probe completes. *)
Theorem replay_unchecked base bearer pubkey nonce sig first second :
  (run_http (_ ← bare_status base bearer pubkey nonce sig; bare_status base bearer pubkey nonce sig) [first; second]).2
  = Some (Ok tt).
Proof. done. Qed.
End probes.

(** * The payjoin probe *)

Section payjoin.
Context `{!PsetTypes, !PayjoinTypes, !PayjoinWire}.

Lemma accepted_assets_some reply l : accepted_assets_of reply = Ok l → ∃ a l', l = a :: l'.
Proof.
  unfold accepted_assets_of. destruct reply as [resp| |]; [|done..]. intros Hr. result_inv. bool_inv.
  destruct (aar_accepted_asset resp) as [|a l']; [done|]. by eexists _, _.
Qed.
(** The probe asks the chosen service at most twice - which assets it
    accepts, then for a quote in the first of them, which there is to index -
    and signs nothing; what it shows on success is the service's quote and the
    fee the library estimates from it for a thousand satoshis. *)
Theorem payjoin_probe_asks arg replies :
  let '(requests, outcome) := run_http (payjoin_probe arg) replies in
  let asks req := {| rq_url := probe_base arg +:+ "/payjoin"; rq_headers := []; rq_body := req |} in
  (requests = [asks RAcceptedAssets] ∨
   ∃ text resp a l, head replies = Some (HttpOk text) ∧ response_from_str text = Some resp ∧
     accepted_assets_of resp = Ok (a :: l) ∧
     requests = [asks RAcceptedAssets;
                 asks (RStart {| srq_asset_id := a; srq_user_agent := "lc-wallet-core payjoin-probe"; srq_api_key := None |})]) ∧
  ∀ quote fee, outcome = Some (Ok (quote, fee)) →
    fee = estimate_service_fee 1000 quote.(srs_price) quote.(srs_fixed_fee) ∧
    ∃ text resp, replies !! 1%nat = Some (HttpOk text) ∧ response_from_str text = Some resp ∧ start_of resp = Ok quote.
Proof.
  unfold payjoin_probe. destruct replies as [|[text|e|code text|e] replies]; simpl;
    [by split; [left|]|..|by split; [left|]|by split; [left|]|by split; [left|]].
  destruct (response_from_str text) as [resp|] eqn:Er; simpl; [|by split; [left|]].
  destruct (accepted_assets_of resp) as [l|] eqn:Ea; simpl; [|by split; [left|]].
  destruct (accepted_assets_some _ _ Ea) as (a & l' & ->). simpl.
  assert (∃ text0 resp0 a0 l0, Some (HttpOk text) = Some (HttpOk text0) ∧ response_from_str text0 = Some resp0 ∧
    accepted_assets_of resp0 = Ok (a0 :: l0) ∧ a0 = a) as (t0 & p0 & a0 & l0 & Ht & Hp & Hl & ->) by eauto 10.
  destruct replies as [|[text'|e|code text'|e] replies]; simpl;
    try (split; [right; exists t0, p0, a, l0; done|done]).
  destruct (response_from_str text') as [resp'|] eqn:Er'; simpl; [|split; [right; exists t0, p0, a, l0; done|done]].
  destruct (start_of resp') as [q|] eqn:Eq; simpl; (split; [right; exists t0, p0, a, l0; done|]); [|done].
  intros quote fee [= <- <-]. split; [done|]. by exists text', resp'.
Qed.
End payjoin.
