(* ===== verification/Ffi.v ===== *)
(** The surface for Kotlin and Swift hosts ([lc-wallet-ffi/src/lib.rs]): the
    records and events that cross the boundary, their translation, the
    wallet object, the approval summaries and the identity service. The
    scaffolding uniffi generates around it is not code of this repository. *)

From S2P Require Import Prelude Http Crates Wire Key Link SessionData Session Transport.
From S2P Require Import ShortId Identity Pset Approval.

Inductive LcError := Failure (message : string).
(** [From<anyhow::Error>], applied by [?]. *)
Definition lc {A} (r : result string A) : result LcError A :=
  match r with Ok a => Ok a | Err e => Err (Failure e) end.

Module FfiNetwork.
Inductive network := Liquid | LiquidTestnet | Regtest.
End FfiNetwork.
Definition network_into (n : FfiNetwork.network) : Network :=
  match n with
  | FfiNetwork.Liquid => Liquid
  | FfiNetwork.LiquidTestnet => LiquidTestnet
  | FfiNetwork.Regtest => Regtest
  end.

(** [x as u32] *)
Definition as_u32 (z : Z) : Z := z mod 2 ^ 32.

(** * Records *)

Record LoginRequestInfo := { lri_request_id : string; lri_domain : string; lri_ttl_ms : Z }.
Record SignRequestInfo := {
  sri_request_id : string; sri_domain : string; sri_pset : string; sri_ttl_ms : Z }.
Record SignMessageRequestInfo := {
  smri_request_id : string;
  smri_domain : string;
  smri_digest : string;
  smri_description : option string;
  smri_ttl_ms : Z;
}.
Record PayRequestInfo := {
  pri_request_id : string;
  pri_domain : string;
  pri_recipient : string;
  pri_asset_id : string;
  pri_amount : Z;
  pri_memo : option string;
  pri_ttl_ms : Z;
}.
Record FundRequestInfo := {
  fri_request_id : string;
  fri_domain : string;
  fri_template : string;
  fri_asset_id : string;
  fri_amount : Z;
  fri_memo : option string;
  fri_ttl_ms : Z;
}.
Record SessionInfo := { si_session_id : string; si_domain : string; si_is_local : bool }.
Record ReceiveAddressRequestInfo := {
  rari_request_id : string; rari_domain : string; rari_description : option string; rari_ttl_ms : Z }.
Record AssetBalanceRequestInfo := {
  abri_request_id : string;
  abri_domain : string;
  abri_description : option string;
  abri_asset_id : string;
  abri_ttl_ms : Z;
}.
Record HoldingInfo := {
  hi_label : string;
  hi_kind : string;
  hi_asset_id : option string;
  hi_unit : string;
  hi_amount : Z;
  hi_precision : Z;
}.
Record HoldingsReportInfo := { hri_domain : string; hri_holdings : list HoldingInfo; hri_as_of_ms : Z }.

Module FfiEvent.
Inductive event :=
| Connected
| LoggedIn
| Disconnected
| LoginRequested (request : LoginRequestInfo)
| LoginRequestRemoved (request_id : string)
| SignRequested (request : SignRequestInfo)
| SignRequestRemoved (request_id : string)
| SignMessageRequested (request : SignMessageRequestInfo)
| SignMessageRequestRemoved (request_id : string)
| ReceiveAddressRequested (request : ReceiveAddressRequestInfo)
| ReceiveAddressRequestRemoved (request_id : string)
| AssetBalanceRequested (request : AssetBalanceRequestInfo)
| AssetBalanceRequestRemoved (request_id : string)
| HoldingsUpdated (report : HoldingsReportInfo)
| HoldingsRemoved (domain : string)
| PayRequested (request : PayRequestInfo)
| PayRequestRemoved (request_id : string)
| FundRequested (request : FundRequestInfo)
| FundRequestRemoved (request_id : string)
| Sessions (sessions : list SessionInfo)
| SessionCreated (session : SessionInfo)
| SessionRemoved (session_id : string)
| ActionFailed (action subject_id message : string)
| MinimizeMobileApp.
End FfiEvent.
Abbreviation ffi_event := FfiEvent.event.

(** * Translation *)

Definition action_parts (action : user_action) : string * string :=
  match action with
  | UserAction.LinkLoginRequest request_id => ("link_login_request", request_id)
  | UserAction.AcceptLoginRequest request_id _ _ _ => ("accept_login_request", request_id)
  | UserAction.CancelLoginRequest request_id => ("cancel_login_request", request_id)
  | UserAction.AcceptSignRequest request_id _ => ("accept_sign_request", request_id)
  | UserAction.CancelSignRequest request_id => ("cancel_sign_request", request_id)
  | UserAction.AcceptSignMessageRequest request_id _ => ("accept_sign_message_request", request_id)
  | UserAction.CancelSignMessageRequest request_id => ("cancel_sign_message_request", request_id)
  | UserAction.AcceptPayRequest request_id _ => ("accept_pay_request", request_id)
  | UserAction.CancelPayRequest request_id => ("cancel_pay_request", request_id)
  | UserAction.AcceptFundRequest request_id _ => ("accept_fund_request", request_id)
  | UserAction.CancelFundRequest request_id => ("cancel_fund_request", request_id)
  | UserAction.AcceptReceiveAddressRequest request_id _ => ("accept_receive_address_request", request_id)
  | UserAction.CancelReceiveAddressRequest request_id => ("cancel_receive_address_request", request_id)
  | UserAction.AcceptAssetBalanceRequest request_id _ => ("accept_asset_balance_request", request_id)
  | UserAction.CancelAssetBalanceRequest request_id => ("cancel_asset_balance_request", request_id)
  | UserAction.StopSession session_id => ("stop_session", session_id)
  end.

Definition holding_info (h : Holding) : HoldingInfo :=
  {| hi_label := hold_label h; hi_kind := hold_kind h; hi_asset_id := hold_asset_id h;
     hi_unit := hold_unit h; hi_amount := hold_amount h; hi_precision := hold_precision h |}.
Definition holdings_info (r : HoldingsReport) : HoldingsReportInfo :=
  {| hri_domain := hr_domain r; hri_holdings := holding_info <$> hr_holdings r; hri_as_of_ms := hr_as_of r |}.
Definition session_info (s : Wire.Session) : SessionInfo :=
  {| si_session_id := ses_session_id s; si_domain := ses_domain s; si_is_local := ses_is_local s |}.

(** The records [map_event] builds in its arms. *)
Definition login_info (r : LoginRequest) : LoginRequestInfo :=
  {| lri_request_id := lr_request_id r; lri_domain := lr_domain r; lri_ttl_ms := as_millis (lr_ttl r) |}.
Definition sign_info (r : SignRequest) : SignRequestInfo :=
  {| sri_request_id := sr_request_id r; sri_domain := sr_domain r; sri_pset := sr_pset r;
     sri_ttl_ms := as_millis (sr_ttl r) |}.
Definition sign_message_info (r : SignMessageRequest) : SignMessageRequestInfo :=
  {| smri_request_id := smr_request_id r; smri_domain := smr_domain r; smri_digest := smr_digest r;
     smri_description := smr_description r; smri_ttl_ms := as_millis (smr_ttl r) |}.
Definition pay_info (r : PayRequest) : PayRequestInfo :=
  {| pri_request_id := pr_request_id r; pri_domain := pr_domain r; pri_recipient := pr_recipient r;
     pri_asset_id := pr_asset_id r; pri_amount := pr_amount r; pri_memo := pr_memo r;
     pri_ttl_ms := as_millis (pr_ttl r) |}.
Definition fund_info (r : FundRequest) : FundRequestInfo :=
  {| fri_request_id := fr_request_id r; fri_domain := fr_domain r; fri_template := fr_template r;
     fri_asset_id := fr_asset_id r; fri_amount := fr_amount r; fri_memo := fr_memo r;
     fri_ttl_ms := as_millis (fr_ttl r) |}.
Definition receive_address_info (r : ReceiveAddressRequest) : ReceiveAddressRequestInfo :=
  {| rari_request_id := rar_request_id r; rari_domain := rar_domain r;
     rari_description := rar_description r; rari_ttl_ms := as_millis (rar_ttl r) |}.
Definition asset_balance_info (r : AssetBalanceRequest) : AssetBalanceRequestInfo :=
  {| abri_request_id := abr_request_id r; abri_domain := abr_domain r;
     abri_description := abr_description r; abri_asset_id := abr_asset_id r;
     abri_ttl_ms := as_millis (abr_ttl r) |}.

Definition map_event (event : wallet_event) : ffi_event :=
  match event with
  | WalletEvent.Connected => FfiEvent.Connected
  | WalletEvent.LoggedIn => FfiEvent.LoggedIn
  | WalletEvent.Disconnected => FfiEvent.Disconnected
  | WalletEvent.LoginRequested r => FfiEvent.LoginRequested (login_info r)
  | WalletEvent.LoginRequestRemoved request_id => FfiEvent.LoginRequestRemoved request_id
  | WalletEvent.SignRequested r => FfiEvent.SignRequested (sign_info r)
  | WalletEvent.SignRequestRemoved request_id => FfiEvent.SignRequestRemoved request_id
  | WalletEvent.SignMessageRequested r => FfiEvent.SignMessageRequested (sign_message_info r)
  | WalletEvent.SignMessageRequestRemoved request_id => FfiEvent.SignMessageRequestRemoved request_id
  | WalletEvent.PayRequested r => FfiEvent.PayRequested (pay_info r)
  | WalletEvent.PayRequestRemoved request_id => FfiEvent.PayRequestRemoved request_id
  | WalletEvent.FundRequested r => FfiEvent.FundRequested (fund_info r)
  | WalletEvent.FundRequestRemoved request_id => FfiEvent.FundRequestRemoved request_id
  | WalletEvent.Sessions s => FfiEvent.Sessions (session_info <$> s)
  | WalletEvent.SessionCreated s => FfiEvent.SessionCreated (session_info s)
  | WalletEvent.SessionRemoved session_id => FfiEvent.SessionRemoved session_id
  | WalletEvent.ReceiveAddressRequested r => FfiEvent.ReceiveAddressRequested (receive_address_info r)
  | WalletEvent.ReceiveAddressRequestRemoved request_id => FfiEvent.ReceiveAddressRequestRemoved request_id
  | WalletEvent.AssetBalanceRequested r => FfiEvent.AssetBalanceRequested (asset_balance_info r)
  | WalletEvent.AssetBalanceRequestRemoved request_id => FfiEvent.AssetBalanceRequestRemoved request_id
  | WalletEvent.HoldingsUpdated r => FfiEvent.HoldingsUpdated (holdings_info r)
  | WalletEvent.HoldingsRemoved domain => FfiEvent.HoldingsRemoved domain
  | WalletEvent.ActionFailed action message =>
      let '(action, subject_id) := action_parts action in FfiEvent.ActionFailed action subject_id message
  | WalletEvent.MinimizeMobileApp => FfiEvent.MinimizeMobileApp
  end.

(** * The wallet object *)

Module FfiWallet.
Section wallet.
Context `{!HashesApi, !HexApi, !SchnorrApi, !UrlApi}.

(** [new]: the actor it spawns, with its channels. [runtime] is the outcome of
    building the tokio runtime, the events go through [map_event] to the
    listener. *)
Definition new (url descriptor : string) (master_blinding_key : list byte) (network : FfiNetwork.network)
    (install_id_hex : string) (runtime : result string unit)
    : result LcError (actor * list input * list wallet_event) :=
  install ← ok_or (hex_decode_to_slice 16 install_id_hex) (Failure "install_id_hex: invalid hex");
  key ← ok_or (WalletKey_new master_blinding_key (network_into network)) (Failure "must not fail");
  _ ← match runtime with Ok u => Ok u | Err e => Err (Failure ("runtime: " +:+ e)) end;
  Ok (spawn {| cfg_url := url; cfg_descriptor := descriptor; cfg_key := key;
               cfg_install_id := {| install_bytes := install |} |}).

(** Each method sends one input to the actor. *)
Definition open_link (url : string) : result LcError input := lc (Transport.open_link url).
Definition accept_login (request_id : string) : input := Transport.accept_login request_id.
Definition reject_login (request_id : string) : input := Transport.reject_login request_id.
Definition accept_sign (request_id signed_pset : string) : input := Transport.accept_sign request_id signed_pset.
Definition accept_sign_message (request_id : string) : input := Transport.accept_sign_message request_id.
Definition accept_sign_message_signed (request_id signature : string) : input :=
  Transport.accept_sign_message_signed request_id signature.
Definition reject_sign_message (request_id : string) : input := Transport.reject_sign_message request_id.
Definition provide_receive_address (request_id address : string) : input :=
  Transport.provide_receive_address request_id address.
Definition reject_receive_address (request_id : string) : input := Transport.reject_receive_address request_id.
Definition provide_asset_balance (request_id : string) (amount : Z) : input :=
  Transport.provide_asset_balance request_id amount.
Definition reject_asset_balance (request_id : string) : input := Transport.reject_asset_balance request_id.
Definition accept_pay (request_id txid : string) : input := Transport.accept_pay request_id txid.
Definition reject_pay (request_id : string) : input := Transport.reject_pay request_id.
Definition accept_fund (request_id pset : string) : input := Transport.accept_fund request_id pset.
Definition reject_fund (request_id : string) : input := Transport.reject_fund request_id.
Definition reject_sign (request_id : string) : input := Transport.reject_sign request_id.
Definition stop_session (session_id : string) : input := Transport.stop_session session_id.
Definition register_fcm_token (token : string) : input := Transport.register_fcm_token token.

(** [random_install_id_hex], the random bytes as an argument. *)
Definition random_install_id_hex (random : bytesN 16) : string := hex_encode (slice random).
End wallet.
End FfiWallet.

(** * Approval summaries *)

Record FfiOutputSummary := {
  fos_address : option string;
  fos_script_hex : string;
  fos_asset : option string;
  fos_amount : option Z;
  fos_is_fee : bool;
  fos_is_payjoin_service_fee : bool;
  fos_confidential : bool;
}.
Definition output_info (o : OutputSummary) : FfiOutputSummary :=
  {| fos_address := o.(os_address); fos_script_hex := o.(os_script_hex); fos_asset := o.(os_asset);
     fos_amount := o.(os_amount); fos_is_fee := o.(os_is_fee);
     fos_is_payjoin_service_fee := o.(os_is_payjoin_service_fee);
     fos_confidential := o.(os_confidential) |}.
Record FfiTransactionSummary := {
  fsum_input_count : Z;
  fsum_outputs : list FfiOutputSummary;
  fsum_fee : option Z;
  fsum_fully_explicit : bool;
}.
Record FfiFundTemplateSummary := {
  ffts_input_count : Z;
  ffts_output_count : Z;
  ffts_fee : Z;
  ffts_deficit : Z;
}.

Module FfiApproval.
Section approval.
Context `{!ElementsApi, !PsetTypes, !PsetApi}.

Definition summarize_pset (pset_b64 : string) (network : FfiNetwork.network)
    (payjoin_fee_address : option string) : result LcError FfiTransactionSummary :=
  summary ← lc (Approval.summarize_pset pset_b64 (network_into network));
  summary ← match payjoin_fee_address with
            | Some fee_address =>
                '(summary, marked) ← lc (annotate_payjoin summary {| fee_address := fee_address |});
                if (marked =? 0)%nat
                then Err (Failure "payjoin context matched no output in this transaction")
                else Ok summary
            | None => Ok summary
            end;
  Ok {| fsum_input_count := as_u32 (Z.of_nat summary.(ts_input_count));
        fsum_outputs := output_info <$> summary.(ts_outputs);
        fsum_fee := summary.(ts_fee);
        fsum_fully_explicit := summary.(ts_fully_explicit) |}.

Definition verify_fund_template (template_b64 asset_id : string) (amount : Z)
    : result LcError FfiFundTemplateSummary :=
  summary ← lc (Approval.verify_fund_template template_b64 asset_id amount);
  Ok {| ffts_input_count := as_u32 (Z.of_nat summary.(fts_input_count));
        ffts_output_count := as_u32 (Z.of_nat summary.(fts_output_count));
        ffts_fee := summary.(fts_fee);
        ffts_deficit := summary.(fts_deficit) |}.
End approval.
End FfiApproval.

(** * The identity service *)

Record IdentityStatusInfo := {
  isi_identity_id : option string;
  isi_email : bool;
  isi_phone : bool;
  isi_handle : option string;
  isi_discoverable_by_contact : bool;
  isi_discoverable_by_handle : bool;
}.
Record VerifyOutcomeInfo := { voi_verified : bool; voi_identity_id : option string; voi_txid : option string }.
Record ConnectHintInfo := { chi_request_id : string; chi_link : string }.
Record PhoneQuoteInfo := {
  pqi_order_id : string;
  pqi_price_sats : Z;
  pqi_asset_id : string;
  pqi_connected : bool;
  pqi_connect : option ConnectHintInfo;
}.
Record PhoneStageInfo := { psi_stage : string; psi_txid : option string }.
Record ContactEntry := { ce_channel : string; ce_value : string }.
Record ContactMatchInfo := { cmi_input_index : Z; cmi_identity_id : string }.
Record DiscoverOutcomeInfo := { doi_matched : list ContactMatchInfo; doi_unparsed_input_indexes : list Z }.
Record ContactInfo := { coi_identity_id : string; coi_handle : option string }.

Definition verify_outcome_info (o : VerifyOutcome) : VerifyOutcomeInfo :=
  {| voi_verified := o.(vo_verified); voi_identity_id := o.(vo_identity_id); voi_txid := o.(vo_txid) |}.
Definition identity_status_info (s : IdentityStatus) : IdentityStatusInfo :=
  {| isi_identity_id := s.(ids_identity_id); isi_email := s.(ids_email); isi_phone := s.(ids_phone);
     isi_handle := s.(ids_handle);
     isi_discoverable_by_contact := by_contact_hash s.(ids_discoverability);
     isi_discoverable_by_handle := by_handle s.(ids_discoverability) |}.
Definition phone_quote_info (q : PhoneQuote) : PhoneQuoteInfo :=
  {| pqi_order_id := q.(pq_order_id); pqi_price_sats := q.(pq_price_sats); pqi_asset_id := q.(pq_asset_id);
     pqi_connected := q.(pq_connected);
     pqi_connect := (λ c, {| chi_request_id := c.(ch_request_id); chi_link := c.(ch_link) |}) <$> q.(pq_connect) |}.
Definition phone_stage_info (s : PhoneStage) : PhoneStageInfo :=
  {| psi_stage := s.(ps_stage); psi_txid := s.(ps_txid) |}.
Definition discover_outcome_info (o : DiscoverOutcome) : DiscoverOutcomeInfo :=
  {| doi_matched := (λ m, {| cmi_input_index := as_u32 m.(cm_input_index); cmi_identity_id := m.(cm_identity_id) |})
       <$> o.(do_matched);
     doi_unparsed_input_indexes := as_u32 <$> o.(do_unparsed_input_indexes) |}.
Definition contact_info (c : Contact) : ContactInfo :=
  {| coi_identity_id := c.(ct_identity_id); coi_handle := c.(ct_handle) |}.

Module FfiIdentity.
Section identity.
Context `{!HashesApi, !SchnorrApi, !JsonApi, !JsonBuild, !IdentityReplies}.
Context `{!XonlyText}.

Record IdentityService := { is_client : IdentityClient; is_key : WalletKey }.
Definition new (base_url : string) (gateway_bearer : option string) (master_blinding_key : list byte)
    (network : FfiNetwork.network) : option IdentityService :=
  key ← WalletKey_new master_blinding_key (network_into network);
  Some {| is_client := IdentityClient_new base_url gateway_bearer; is_key := key |}.

(** [Ok(f(self.client.method(..)?))] *)
Definition returning {A C} (f : A → C) (p : client Value string A) : http_prog Value string (result LcError C) :=
  http_map (λ r, lc (f <$> r)) p.
Implicit Types (s : IdentityService).

Definition status s := returning identity_status_info (Identity.status s.(is_client) s.(is_key)).
Definition email_start s (email : string) :=
  returning id (Identity.email_start s.(is_client) s.(is_key) email).
Definition email_confirm s (email code : string) :=
  returning verify_outcome_info (Identity.email_confirm s.(is_client) s.(is_key) email code).
Definition phone_start s (phone : string) :=
  returning phone_quote_info (Identity.phone_start s.(is_client) s.(is_key) phone).
Definition phone_pay s (order_id : string) :=
  returning id (Identity.phone_pay s.(is_client) s.(is_key) order_id).
Definition phone_status s (order_id : string) :=
  returning phone_stage_info (Identity.phone_status s.(is_client) s.(is_key) order_id).
Definition phone_sms s (order_id : string) :=
  returning id (Identity.phone_sms s.(is_client) s.(is_key) order_id).
Definition phone_confirm s (order_id code : string) :=
  returning verify_outcome_info (Identity.phone_confirm s.(is_client) s.(is_key) order_id code).
Definition set_discoverability s (by_contact_hash by_handle : bool) :=
  returning id (Identity.set_discoverability s.(is_client) s.(is_key) by_contact_hash by_handle).
Definition contacts_discover s (contacts : list ContactEntry) :=
  let pairs := (λ c, (c.(ce_channel), c.(ce_value))) <$> contacts in
  returning discover_outcome_info (Identity.contacts_discover s.(is_client) s.(is_key) pairs).
Definition contacts_save s (channel value : string) :=
  returning id (Identity.contacts_save s.(is_client) s.(is_key) channel value).
Definition contacts_list s :=
  returning (fmap contact_info) (Identity.contacts_list s.(is_client) s.(is_key)).
Definition contact_address s (identity_id : string) :=
  returning id (Identity.contact_address s.(is_client) s.(is_key) identity_id).
End identity.
End FfiIdentity.
