(* ===== verification/FfiSpec.v ===== *)
(** What a Kotlin or Swift host is shown: the events after translation
    against the core's stores, refused actions, and approval summaries. *)

From S2P Require Import Prelude Http Crates Wire Key Link SessionData Session SessionLib SessionMirror.
From S2P Require Import SessionActions SessionRuns SessionStores Transport TransportRuns.
From S2P Require Import ShortId Identity Pset Approval ApprovalSpec Ffi.

(** * The host's picture *)

Record ffi_view := FfiView {
  fv_login : gmap string LoginRequestInfo;
  fv_sign : gmap string SignRequestInfo;
  fv_sign_message : gmap string SignMessageRequestInfo;
  fv_receive_address : gmap string ReceiveAddressRequestInfo;
  fv_asset_balance : gmap string AssetBalanceRequestInfo;
  fv_holdings : gmap string HoldingsReportInfo;
  fv_pay : gmap string PayRequestInfo;
  fv_fund : gmap string FundRequestInfo;
}.

(** A listener that files what it is told under the ids it is told. *)
Definition listen (v : ffi_view) (e : ffi_event) : ffi_view :=
  let '(FfiView a b c d e0 f g k) := v in
  match e with
  | FfiEvent.LoginRequested r => FfiView (<[lri_request_id r := r]> a) b c d e0 f g k
  | FfiEvent.LoginRequestRemoved i => FfiView (delete i a) b c d e0 f g k
  | FfiEvent.SignRequested r => FfiView a (<[sri_request_id r := r]> b) c d e0 f g k
  | FfiEvent.SignRequestRemoved i => FfiView a (delete i b) c d e0 f g k
  | FfiEvent.SignMessageRequested r => FfiView a b (<[smri_request_id r := r]> c) d e0 f g k
  | FfiEvent.SignMessageRequestRemoved i => FfiView a b (delete i c) d e0 f g k
  | FfiEvent.ReceiveAddressRequested r => FfiView a b c (<[rari_request_id r := r]> d) e0 f g k
  | FfiEvent.ReceiveAddressRequestRemoved i => FfiView a b c (delete i d) e0 f g k
  | FfiEvent.AssetBalanceRequested r => FfiView a b c d (<[abri_request_id r := r]> e0) f g k
  | FfiEvent.AssetBalanceRequestRemoved i => FfiView a b c d (delete i e0) f g k
  | FfiEvent.HoldingsUpdated r => FfiView a b c d e0 (<[hri_domain r := r]> f) g k
  | FfiEvent.HoldingsRemoved i => FfiView a b c d e0 (delete i f) g k
  | FfiEvent.PayRequested r => FfiView a b c d e0 f (<[pri_request_id r := r]> g) k
  | FfiEvent.PayRequestRemoved i => FfiView a b c d e0 f (delete i g) k
  | FfiEvent.FundRequested r => FfiView a b c d e0 f g (<[fri_request_id r := r]> k)
  | FfiEvent.FundRequestRemoved i => FfiView a b c d e0 f g (delete i k)
  | FfiEvent.Connected | FfiEvent.LoggedIn | FfiEvent.Disconnected | FfiEvent.Sessions _
  | FfiEvent.SessionCreated _ | FfiEvent.SessionRemoved _ | FfiEvent.ActionFailed _ _ _
  | FfiEvent.MinimizeMobileApp => v
  end.
Definition ffi_empty : ffi_view := FfiView ∅ ∅ ∅ ∅ ∅ ∅ ∅ ∅.

(** The picture of the core's stores, each entry as its record. *)
Definition project (h : host_view) : ffi_view :=
  FfiView (login_info <$> hv_login h) (sign_info <$> hv_sign h) (sign_message_info <$> hv_sign_message h)
    (receive_address_info <$> hv_receive_address h) (asset_balance_info <$> hv_asset_balance h)
    (holdings_info <$> hv_holdings h) (pay_info <$> hv_pay h) (fund_info <$> hv_fund h).

Lemma listen_map_event h e : listen (project h) (map_event e) = project (apply_event h e).
Proof.
  destruct h, e; try reflexivity; unfold apply_event, project; simpl; rewrite ?fmap_insert, ?fmap_delete; try done.
  by destruct (action_parts action).
Qed.
Lemma listen_run h es : foldl listen (project h) (map_event <$> es) = project (foldl apply_event h es).
Proof.
  revert h; induction es as [|e es IH]; intros h; [done|]. cbn [fmap list_fmap foldl].
  by rewrite listen_map_event, IH.
Qed.

Section actor.
Context `{!HashesApi, !HexApi, !SchnorrApi, !SerdeWire, !UrlApi}.

(** The picture survives the foreign boundary: for every behaviour of
    the network, the sink and the host, a Kotlin or Swift listener that
    files the records it is given under their ids, and drops the ids it is
    told are gone, holds exactly the core's pending requests and holdings,
    each as its record - whatever the wallet object was created from. *)
Theorem ffi_mirrors_host url descriptor mbk network install_id_hex runtime a0 ins shown evs a outs :
  FfiWallet.new url descriptor mbk network install_id_hex runtime = Ok (a0, ins, shown) →
  actor_run a0 evs = Some (a, outs) →
  foldl listen ffi_empty (map_event <$> out_events outs) = project (view_of a.(a_core)).
Proof.
  unfold FfiWallet.new. intros Hnew Hrun. result_inv.
  change ffi_empty with (project (Build_host_view ∅ ∅ ∅ ∅ ∅ ∅ ∅ ∅)).
  by rewrite listen_run, (actor_run_view _ _ _ _ _ _ Hrun).
Qed.
End actor.

(** * Refused actions *)

(** An action without what the host supplied: its kind and its subject. *)
Definition bare_action (action : user_action) : user_action :=
  match action with
  | UserAction.AcceptLoginRequest i _ _ _ => UserAction.AcceptLoginRequest i "" None None
  | UserAction.AcceptSignRequest i _ => UserAction.AcceptSignRequest i ""
  | UserAction.AcceptSignMessageRequest i _ => UserAction.AcceptSignMessageRequest i ""
  | UserAction.AcceptReceiveAddressRequest i _ => UserAction.AcceptReceiveAddressRequest i ""
  | UserAction.AcceptAssetBalanceRequest i _ => UserAction.AcceptAssetBalanceRequest i 0
  | UserAction.AcceptPayRequest i _ => UserAction.AcceptPayRequest i ""
  | UserAction.AcceptFundRequest i _ => UserAction.AcceptFundRequest i ""
  | action => action
  end.

(** A failure event names the action that failed: the label and the
    subject id a host receives are those of exactly one kind of action on
    exactly one request or session. *)
Theorem action_parts_identify a b : action_parts a = action_parts b ↔ bare_action a = bare_action b.
Proof.
  split; [|intros E; by destruct a, b; simplify_eq/=].
  destruct a, b; cbn [action_parts]; intros E; try discriminate E; by injection E as ->.
Qed.

(** * Logins that ask for a service key *)

Section login.
Context `{!HashesApi, !HexApi, !SchnorrApi, !SerdeWire, !UrlApi}.
Implicit Types (s : core).

(** What the methods of the wallet object send. *)
Inductive ffi_input : input → Prop :=
| ffi_open_link url i : FfiWallet.open_link url = Ok i → ffi_input i
| ffi_accept_login id : ffi_input (FfiWallet.accept_login id)
| ffi_reject_login id : ffi_input (FfiWallet.reject_login id)
| ffi_accept_sign id pset : ffi_input (FfiWallet.accept_sign id pset)
| ffi_accept_sign_message id : ffi_input (FfiWallet.accept_sign_message id)
| ffi_accept_sign_message_signed id sig : ffi_input (FfiWallet.accept_sign_message_signed id sig)
| ffi_reject_sign_message id : ffi_input (FfiWallet.reject_sign_message id)
| ffi_provide_receive_address id address : ffi_input (FfiWallet.provide_receive_address id address)
| ffi_reject_receive_address id : ffi_input (FfiWallet.reject_receive_address id)
| ffi_provide_asset_balance id amount : ffi_input (FfiWallet.provide_asset_balance id amount)
| ffi_reject_asset_balance id : ffi_input (FfiWallet.reject_asset_balance id)
| ffi_accept_pay id txid : ffi_input (FfiWallet.accept_pay id txid)
| ffi_reject_pay id : ffi_input (FfiWallet.reject_pay id)
| ffi_accept_fund id pset : ffi_input (FfiWallet.accept_fund id pset)
| ffi_reject_fund id : ffi_input (FfiWallet.reject_fund id)
| ffi_reject_sign id : ffi_input (FfiWallet.reject_sign id)
| ffi_stop_session id : ffi_input (FfiWallet.stop_session id)
| ffi_register_fcm_token token : ffi_input (FfiWallet.register_fcm_token token).

Lemma ffi_issues_no_bound_login s i request_id descr key sig r :
  ffi_input i → issued s i (UserAction.AcceptLoginRequest request_id descr key sig) →
  s.(login_requests) !! request_id = Some r → r.(lr_service_challenge) = None.
Proof.
  intros Hi Ha Hr. inversion Ha as [| | | | | | | | | | | | | | | |]; subst.
  match goal with H : binding_supplied _ _ ?b |- _ => rename H into Hb; destruct b as [b|] end.
  - inversion Hi as [url ? Ho| | | | | | | | | | | | | | | | |].
    unfold FfiWallet.open_link, lc, open_link in Ho. by destruct (parse_app_link url).
  - destruct (lr_service_challenge r) eqn:E; [|done].
    destruct (Hb r Hr) as [? [=]]. by rewrite E.
Qed.

Lemma ffi_input_no_binding i id b : ffi_input i → i ≠ Input.LoginAccepted id (Some b).
Proof.
  destruct 1 as [url i Ho| | | | | | | | | | | | | | | | |]; try done. intros ->.
  unfold FfiWallet.open_link, lc, open_link in Ho. by destruct (parse_app_link url).
Qed.

(** C32. A login that asks for a service key cannot be accepted through this
    surface: what a host is told of the request is the same with and without
    the challenge, whatever it is; no method of the wallet object sends a
    binding; and while the request is held no method issues its acceptance.
    Accepting it leaves the core as it was and shows the host one failure,
    under the label of a cancellation. *)
Theorem ffi_bound_login_stuck s request_id r :
  s.(login_requests) !! request_id = Some r → is_Some r.(lr_service_challenge) →
  (∀ challenge, map_event (WalletEvent.LoginRequested r)
     = map_event (WalletEvent.LoginRequested
         {| lr_request_id := r.(lr_request_id); lr_domain := r.(lr_domain); lr_ttl := r.(lr_ttl);
            lr_service_challenge := challenge |})) ∧
  (∀ i id binding, ffi_input i → i ≠ Input.LoginAccepted id (Some binding)) ∧
  (∀ i n descr key sig, ffi_input i →
     (handle i s).1.(user_actions) !! n = Some (UserAction.AcceptLoginRequest request_id descr key sig) →
     s.(user_actions) !! n = Some (UserAction.AcceptLoginRequest request_id descr key sig)) ∧
  (handle (FfiWallet.accept_login request_id) s).1 = s ∧
  map_event <$> (apply_effects (handle (FfiWallet.accept_login request_id) s).2).2
  = [FfiEvent.ActionFailed "cancel_login_request" request_id
       "this login needs a service key and none was supplied"].
Proof.
  intros Hr Hc. split_and!; [done|by apply ffi_input_no_binding| |..].
  - intros i n descr key sig Hi Hn.
    destruct (handle_actions_step i s) as [Hu _|a Ha Hu _|k _ Hu _]; rewrite Hu in Hn; [done| |].
    + apply lookup_insert_Some in Hn as [[_ ->]|[_ ?]]; [|done].
      rewrite (ffi_issues_no_bound_login _ _ _ _ _ _ _ Hi Ha Hr) in Hc. by destruct Hc.
    + by apply lookup_delete_Some in Hn as [_ ?].
  - unfold FfiWallet.accept_login, accept_login. by rewrite (login_accept_refused _ _ _ Hr Hc).
  - unfold FfiWallet.accept_login, accept_login. by rewrite (login_accept_refused _ _ _ Hr Hc).
Qed.
End login.

(** * Approval summaries *)

Section approval.
Context `{!ElementsApi, !PsetTypes, !PsetApi}.




End approval.
