(* ===== verification/FfiSystem.v ===== *)
(** A Kotlin or Swift app on the wallet object, in closed loop
    ([lc-wallet-ffi/src/lib.rs], [LiquidConnectWallet]): the object's methods
    as calls, the listener that the constructor's task feeds with translated
    events, and both with the actor as one system. *)

From S2P Require Import Prelude Http Crates Wire Key Link SessionData Session Transport System.
From S2P Require Import ShortId Identity Pset Approval Ffi FfiSpec.

(** The methods of [LiquidConnectWallet]. *)
Inductive ffi_call :=
| COpenLink (url : string)
| CAcceptLogin (request_id : string)
| CRejectLogin (request_id : string)
| CAcceptSign (request_id signed_pset : string)
| CRejectSign (request_id : string)
| CAcceptSignMessage (request_id : string)
| CAcceptSignMessageSigned (request_id signature : string)
| CRejectSignMessage (request_id : string)
| CProvideReceiveAddress (request_id address : string)
| CRejectReceiveAddress (request_id : string)
| CProvideAssetBalance (request_id : string) (amount : Z)
| CRejectAssetBalance (request_id : string)
| CAcceptPay (request_id txid : string)
| CRejectPay (request_id : string)
| CAcceptFund (request_id pset : string)
| CRejectFund (request_id : string)
| CStopSession (session_id : string)
| CRegisterFcmToken (token : string).

(** An app: its turn when the listener is told of an event and when the user
    does something, on the picture it keeps of the wallet's requests and
    whatever else it keeps. *)
Record app (H : Type) := {
  app_on_event : ffi_view → H → ffi_event → H * list ffi_call;
  app_on_user : ffi_view → H → string → H * list ffi_call;
}.
Arguments app_on_event {_} _ _ _ _ : assert.
Arguments app_on_user {_} _ _ _ _ : assert.

Section app.
Context `{!HashesApi, !HexApi, !SchnorrApi, !SerdeWire, !UrlApi}.

(** What a call sends to the actor; a link that does not parse sends nothing. *)
Definition call_input (c : ffi_call) : option input :=
  match c with
  | COpenLink url => match FfiWallet.open_link url with Ok i => Some i | Err _ => None end
  | CAcceptLogin id => Some (FfiWallet.accept_login id)
  | CRejectLogin id => Some (FfiWallet.reject_login id)
  | CAcceptSign id pset => Some (FfiWallet.accept_sign id pset)
  | CRejectSign id => Some (FfiWallet.reject_sign id)
  | CAcceptSignMessage id => Some (FfiWallet.accept_sign_message id)
  | CAcceptSignMessageSigned id signature => Some (FfiWallet.accept_sign_message_signed id signature)
  | CRejectSignMessage id => Some (FfiWallet.reject_sign_message id)
  | CProvideReceiveAddress id address => Some (FfiWallet.provide_receive_address id address)
  | CRejectReceiveAddress id => Some (FfiWallet.reject_receive_address id)
  | CProvideAssetBalance id amount => Some (FfiWallet.provide_asset_balance id amount)
  | CRejectAssetBalance id => Some (FfiWallet.reject_asset_balance id)
  | CAcceptPay id txid => Some (FfiWallet.accept_pay id txid)
  | CRejectPay id => Some (FfiWallet.reject_pay id)
  | CAcceptFund id pset => Some (FfiWallet.accept_fund id pset)
  | CRejectFund id => Some (FfiWallet.reject_fund id)
  | CStopSession id => Some (FfiWallet.stop_session id)
  | CRegisterFcmToken token => Some (FfiWallet.register_fcm_token token)
  end.

(** The listener's task: an event is translated and filed, then the app has
    its turn. *)
Definition app_host {H} (p : app H) : host (ffi_view * H) :=
  {| react := λ '(v, h) e,
       let v := listen v (map_event e) in
       let '(h, calls) := app_on_event p v h (map_event e) in ((v, h), omap call_input calls);
     reads := λ '(v, h) text,
       let '(h, calls) := app_on_user p v h text in ((v, h), omap call_input calls) |}.

(** The constructor, and the app that holds the object. *)
Definition app_start {H} (h : H) (url descriptor : string) (master_blinding_key : list byte)
    (network : FfiNetwork.network) (install_id_hex : string) (runtime : result string unit)
    : result LcError (system (K := ffi_view * H)) :=
  '(a, inputs, events) ← FfiWallet.new url descriptor master_blinding_key network install_id_hex runtime;
  Ok (System a events inputs (ffi_empty, h) events [] []).
End app.
