(* ===== verification/FfiSystemSpec.v ===== *)
(** What an app can cause through the wallet object, and what it can know: in
    every state of the whole system its picture, with the events it has not
    read, is the core's; and what was sent is the connection's own or an
    answer one of its calls gave to a request it was shown. *)

From S2P Require Import Prelude Http Crates Wire Key Link SessionData Session SessionLib SessionMirror SessionActions.
From S2P Require Import SessionRuns Transport TransportRuns System SystemSpec.
From S2P Require Import ShortId Identity Pset Approval Ffi FfiSpec FfiSystem.

Section app.
Context `{!HashesApi, !HexApi, !SchnorrApi, !SerdeWire, !UrlApi}.
Context {A : Type} (p : app A).
Implicit Types (st : system (K := ffi_view * A)).

(** The app's system, from its construction. *)
Definition app_reaches url descriptor mbk network install_id_hex runtime h0 st : Prop :=
  ∃ st0, app_start h0 url descriptor mbk network install_id_hex runtime = Ok st0 ∧
    rtc (sys_step (app_host p)) st0 st.

Lemma app_start_new url descriptor mbk network install_id_hex runtime h0 st0 :
  app_start h0 url descriptor mbk network install_id_hex runtime = Ok st0 →
  ∃ install key, hex_decode_to_slice 16 install_id_hex = Some install ∧
    WalletKey_new mbk (network_into network) = Some key ∧
    st0 = sys_new {| install_bytes := install |} descriptor key (ffi_empty, h0).
Proof.
  unfold app_start, FfiWallet.new. intros Hs. result_inv. naive_solver.
Qed.

(** ** The picture *)

(** The app has filed the events it has read. *)
Definition filing st : Prop :=
  ∃ read, st.(sys_shown) = read ++ st.(sys_events) ∧ st.(sys_kept).1 = foldl listen ffi_empty (map_event <$> read).
Lemma filing_step st st' : filing st → sys_step (app_host p) st st' → filing st'.
Proof.
  intros (read & Hs & Hk) Hstep.
  destruct Hstep as [ev a o _ _|i inputs accepts a o _ _|event events kept inputs Hq Hr|text kept inputs Hr].
  1-2: exists read; split; [simpl; by rewrite Hs, app_assoc|done].
  - exists (read ++ [event]). simpl. rewrite Hs, Hq. split; [by rewrite <-app_assoc|].
    destruct (sys_kept st) as [v h]. simpl in Hr, Hk.
    destruct (app_on_event p _ h _) as [h' calls]. injection Hr as <- _. simpl.
    by rewrite fmap_app, foldl_app, Hk.
  - exists read. split; [done|]. destruct (sys_kept st) as [v h]. simpl in Hr, Hk |- *.
    destruct (app_on_user p v h text) as [h' calls]. by injection Hr as <- _.
Qed.
Lemma reachable_filing iid desc key h0 st :
  reachable (app_host p) (ffi_empty, h0) iid desc key st → filing st.
Proof.
  unfold reachable. intros Hr.
  refine (rtc_ind_r filing _ _ _ _ Hr); [by exists []|]. intros ?? _ ??. by eapply filing_step.
Qed.

Lemma picture_behind url descriptor mbk network install_id_hex runtime h0 st :
  app_reaches url descriptor mbk network install_id_hex runtime h0 st →
  foldl listen st.(sys_kept).1 (map_event <$> st.(sys_events)) = project (view_of st.(sys_actor).(a_core)).
Proof.
  intros (st0 & (install & key & _ & _ & ->)%app_start_new & Hr).
  destruct (reachable_filing _ _ _ _ _ Hr) as (read & Hs & ->).
  destruct (reachable_explained _ _ _ _ _ _ Hr) as (evs & outs & Hex).
  rewrite <-foldl_app, <-fmap_app, <-Hs, (ex_shown _ _ _ _ _ _ _ Hex).
  change ffi_empty with (project (Build_host_view ∅ ∅ ∅ ∅ ∅ ∅ ∅ ∅)).
  by rewrite listen_run, (actor_run_view _ _ _ _ _ _ (ex_run _ _ _ _ _ _ _ Hex)).
Qed.
Lemma picture url descriptor mbk network install_id_hex runtime h0 st :
  app_reaches url descriptor mbk network install_id_hex runtime h0 st →
  st.(sys_events) = [] → st.(sys_kept).1 = project (view_of st.(sys_actor).(a_core)).
Proof. intros Hr He. apply picture_behind in Hr. by rewrite He in Hr. Qed.

(** C11. The app's picture is the wallet's, in every state of the whole system,
    whatever the network, the service, the user and the app do and however
    events and calls interleave: what the app has filed, brought up to date
    with the events it has not read yet, is exactly the core's pending
    requests and holdings, each as its record. Once it has read them all
    there is no difference. *)
Theorem app_picture url descriptor mbk network install_id_hex runtime h0 st :
  app_reaches url descriptor mbk network install_id_hex runtime h0 st →
  foldl listen st.(sys_kept).1 (map_event <$> st.(sys_events)) = project (view_of st.(sys_actor).(a_core)) ∧
  (st.(sys_events) = [] → st.(sys_kept).1 = project (view_of st.(sys_actor).(a_core))).
Proof. split; [by eapply picture_behind|by eapply picture]. Qed.

(** ** What leaves *)

(** A call the app's rules give for an event it was told or an act of the user,
    in some state of its own. The theorems hold for every app: for the calls
    really made, take one that logs them, so that its state tells them. *)
Definition app_called (shown : list wallet_event) (acts : list string) (c : ffi_call) : Prop :=
  (∃ e v h, e ∈ shown ∧ c ∈ (app_on_event p v h (map_event e)).2) ∨
  ∃ act v h, act ∈ acts ∧ c ∈ (app_on_user p v h act).2.

Lemma caused_called shown acts i :
  caused (app_host p) shown acts i → ∃ c, app_called shown acts c ∧ call_input c = Some i.
Proof.
  intros [(e & [v h] & He & Hi)|(act & [v h] & Ha & Hi)]; simpl in Hi.
  - destruct (app_on_event p _ h _) as [h' calls] eqn:E. apply list_elem_of_omap in Hi as (c & Hc & Hi).
    exists c. split; [|done]. left. eexists e, _, h. by rewrite E.
  - destruct (app_on_user p v h act) as [h' calls] eqn:E. apply list_elem_of_omap in Hi as (c & Hc & Hi).
    exists c. split; [|done]. right. exists act, v, h. by rewrite E.
Qed.

(** The one action a call can lead to, on requests that were shown. *)
Section actions.
Context (descriptor : string) (key : WalletKey) (shown : list wallet_event).

Definition was_shown {R} (mk : R → wallet_event) (key_of : R → string) (id : string) (P : R → Prop) : Prop :=
  ∃ r, mk r ∈ shown ∧ key_of r = id ∧ P r.
Definition app_action (c : ffi_call) (a : user_action) : Prop :=
  match c with
  | COpenLink url =>
      ∃ l, parse_app_link url = Ok l ∧ l.(al_link_type) = LinkLogin ∧ a = UserAction.LinkLoginRequest l.(al_request_id)
  | CAcceptLogin id => a = UserAction.AcceptLoginRequest id descriptor None None
  | CRejectLogin id => a = UserAction.CancelLoginRequest id
  | CAcceptSign id pset => a = UserAction.AcceptSignRequest id pset
  | CRejectSign id => a = UserAction.CancelSignRequest id
  | CAcceptSignMessage id =>
      was_shown WalletEvent.SignMessageRequested smr_request_id id (λ r,
        ∃ digest, hex_decode_to_slice 32 r.(smr_digest) = Some digest ∧
          a = UserAction.AcceptSignMessageRequest id (signature_to_string (wk_sign_digest key digest)))
  | CAcceptSignMessageSigned id signature =>
      was_shown WalletEvent.SignMessageRequested smr_request_id id (λ _,
        a = UserAction.AcceptSignMessageRequest id signature)
  | CRejectSignMessage id => a = UserAction.CancelSignMessageRequest id
  | CProvideReceiveAddress id address =>
      was_shown WalletEvent.ReceiveAddressRequested rar_request_id id (λ _,
        a = UserAction.AcceptReceiveAddressRequest id address)
  | CRejectReceiveAddress id => a = UserAction.CancelReceiveAddressRequest id
  | CProvideAssetBalance id amount =>
      was_shown WalletEvent.AssetBalanceRequested abr_request_id id (λ _,
        a = UserAction.AcceptAssetBalanceRequest id amount)
  | CRejectAssetBalance id => a = UserAction.CancelAssetBalanceRequest id
  | CAcceptPay id txid =>
      was_shown WalletEvent.PayRequested pr_request_id id (λ _, a = UserAction.AcceptPayRequest id txid)
  | CRejectPay id => a = UserAction.CancelPayRequest id
  | CAcceptFund id pset =>
      was_shown WalletEvent.FundRequested fr_request_id id (λ _, a = UserAction.AcceptFundRequest id pset)
  | CRejectFund id => a = UserAction.CancelFundRequest id
  | CStopSession id => a = UserAction.StopSession id
  | CRegisterFcmToken _ => False
  end.

Lemma filed_shown {R} (mk : R → wallet_event) key_of store id :
  filed mk key_of shown store → is_Some (store !! id) → ∀ P : Prop, P → was_shown mk key_of id (λ _, P).
Proof. intros Hf [r Hr] P HP. exists r. by destruct (Hf id r Hr). Qed.
Lemma issued_action s c i a :
  s.(SessionData.descriptor) = descriptor → s.(wallet_key) = key → requests_shown shown s →
  call_input c = Some i → issued s i a → app_action c a.
Proof.
  intros Hdesc Hkey (Hm & Hra & Hab & Hp & Hf) Hc Hi.
  destruct c; simpl in Hc;
    [unfold FfiWallet.open_link, lc, open_link in Hc; destruct (parse_app_link url) as [l|] eqn:Hl; [|done]|..];
    injection Hc as <-; inversion Hi; subst; simpl; try done; try (by eapply filed_shown).
  - by eexists.
  - by rewrite <-Hdesc.
  - rewrite <-Hkey. match goal with Hr : sign_message_requests s !! _ = Some ?r |- _ => destruct (Hm _ _ Hr) as [??]; exists r end.
    eauto.
Qed.
End actions.

Inductive app_frame (iid : InstallId) (descriptor : string) (key : WalletKey) (shown : list wallet_event)
    (acts : list string) : string → Prop :=
| app_challenge : app_frame iid descriptor key shown acts (frame 0 Req.Challenge)
| app_login challenge :
    app_frame iid descriptor key shown acts
      (frame 0 (Req.Login {| lreq_public_key := wk_public_key key; lreq_signature := wk_sign_challenge key challenge;
                             lreq_install_id := Some iid |}))
| app_token token :
    app_called shown acts (CRegisterFcmToken token) →
    app_frame iid descriptor key shown acts (frame 0 (Req.RegisterFcm token))
| app_answer id c a :
    app_called shown acts c → app_action descriptor key shown c a →
    app_frame iid descriptor key shown acts (frame id (Req.UserAction a)).

Lemma call_token c token : call_input c = Some (Input.RegisterFcmToken token) → c = CRegisterFcmToken token.
Proof.
  destruct c; simpl; try done; [|by intros [= ->]].
  unfold FfiWallet.open_link, lc, open_link. by destruct (parse_app_link url).
Qed.

(** C12. An app speaks only through its calls. Whatever the app does, in every
    state of the whole system, each frame sent is a challenge, a login under
    the key and the installation it was constructed with, a push token it
    registered, or the answer of one of the calls it made - and that answer
    is fixed by the call: a login takes the app's own descriptor and no
    service key; the wallet key signs only the digest of a message request
    that was shown under the id the app approved; signatures of the app's
    own, addresses, balances, payments and funded templates go out as
    supplied, and only for a request that was shown under their id. *)
Theorem app_frames url descriptor mbk network install_id_hex runtime h0 st :
  app_reaches url descriptor mbk network install_id_hex runtime h0 st →
  ∃ install key, hex_decode_to_slice 16 install_id_hex = Some install ∧
    WalletKey_new mbk (network_into network) = Some key ∧
    Forall (app_frame {| install_bytes := install |} descriptor key st.(sys_shown) st.(sys_texts)) st.(sys_sent).
Proof.
  intros (st0 & (install & key & Hinst & Hkey & ->)%app_start_new & Hr). exists install, key. split_and!; [done..|].
  apply Forall_forall. intros d Hd. destruct (host_frames _ _ _ _ _ _ _ Hr Hd) as (ins & Ha & Hins & Hreq).
  destruct Ha as [|text id challenge|token Ht|id a (pre & i & post & -> & Hi & _)].
  - constructor.
  - constructor.
  - apply Hins in Ht as [[ev ?]|(c & Hc & ->%call_token)%caused_called]; [done|]. by constructor.
  - destruct (Hins i) as [[ev ->]|(c & Hc & Hci)%caused_called]; [apply elem_of_app; right; left|by inversion Hi|].
    destruct (after_fields {| install_bytes := install |} descriptor key pre) as (Hid & _). unfold identity in Hid.
    econstructor; [exact Hc|]. eapply (issued_action _ _ _ _ _ i); [| |by apply (Hreq pre (i :: post))|done|exact Hi]; congruence.
Qed.

(** ** Coming to rest *)

(** An app that makes at most [calls] of them on an event, and none when it is
    told of an echo of its own, is measured. *)
Lemma app_measured calls :
  (∀ e v h, (length (app_on_event p v h (map_event e)).2 ≤ calls e)%nat) → (∀ e, echo e → calls e = 0%nat) →
  Measured (app_host p) calls.
Proof.
  intros Hn He.
  assert (∀ c i, call_input c = Some i → host_input i = true) as Hin.
  { intros c i. destruct c; simpl; try (by intros [= <-]). unfold FfiWallet.open_link, lc, open_link.
    destruct (parse_app_link url); [|done]. by intros [= <-]. }
  assert (∀ l, (length (omap call_input l) ≤ length l)%nat) as Hl.
  { unfold omap. induction l as [|c l IH]; simpl; [lia|]. case_match; simpl; lia. }
  split; try done.
  - intros [v h] e i. simpl. destruct (app_on_event p _ h _) as [h' l]. intros (c & _ & Hc)%list_elem_of_omap. eauto.
  - intros [v h] text i. simpl. destruct (app_on_user p v h text) as [h' l]. intros (c & _ & Hc)%list_elem_of_omap. eauto.
  - intros [v h] e. simpl. specialize (Hn e (listen v (map_event e)) h).
    destruct (app_on_event p _ h _) as [h' l]. simpl in *. specialize (Hl l). lia.
Qed.

(** Left alone, such an app comes to know the wallet as it is: the turns of
    the app and the actor that can follow are bounded, and when none is left
    the picture is the core's. *)
Theorem app_settles calls url descriptor mbk network install_id_hex runtime h0 st :
  Measured (app_host p) calls →
  app_reaches url descriptor mbk network install_id_hex runtime h0 st →
  ∀ es st', Forall internal es → sys_run (app_host p) st es = Some st' →
    (length es ≤ backlog calls st)%nat ∧
    (sys_exec (app_host p) st' SysHost = None → st'.(sys_kept).1 = project (view_of st'.(sys_actor).(a_core))).
Proof.
  intros Hm (st0 & Hst0 & Hr) es st' Hes Hrun.
  pose proof (app_start_new _ _ _ _ _ _ _ _ Hst0) as (install & key & _ & _ & E). split.
  - rewrite E in Hr.
    assert (length es + backlog calls st' ≤ backlog calls st)%nat by by eapply internal_bounded. lia.
  - intros Hn. apply (picture url descriptor mbk network install_id_hex runtime h0).
    + exists st0. split; [done|]. etrans; [exact Hr|by eapply sys_run_steps].
    + unfold sys_exec in Hn. destruct (sys_events st') as [|e es']; [done|].
      by destruct (react (app_host p) (sys_kept st') e).
Qed.
End app.
