(* ===== verification/Sha256.v ===== *)
(** SHA-256, executable: the function behind the concrete hash instance of
    [RefCrates.v]. The program takes it from the [elements] crate; here it
    lets the pinned vectors of the sources' tests be evaluated. *)

From S2P Require Import Prelude.

(** The constants, computed: the fractional parts of the square roots of the
    first eight primes and of the cube roots of the first sixty-four. *)
Fixpoint first_primes (fuel : nat) (n : Z) (count : nat) (acc : list Z) : list Z :=
  match fuel with
  | O => acc
  | S fuel =>
      if (length acc =? count)%nat then acc
      else first_primes fuel (n + 1) count (if forallb (λ p, negb (n mod p =? 0)) acc then acc ++ [n] else acc)
  end.
Fixpoint cbrt_up (bits : nat) (n r : Z) : Z :=
  match bits with
  | O => r
  | S b =>
      let r' := r + 2 ^ Z.of_nat b in
      cbrt_up b n (if r' * r' * r' <=? n then r' else r)
  end.
Definition sha_primes : list Z := Eval vm_compute in first_primes 400 2 64 [].
Definition sha_k : list Z :=
  Eval vm_compute in (λ p, Z.land (cbrt_up 36 (p * 2 ^ 96) 0) 0xffffffff) <$> sha_primes.
Definition sha_h0 : list Z :=
  Eval vm_compute in (λ p, Z.land (Z.sqrt (p * 2 ^ 64)) 0xffffffff) <$> take 8 sha_primes.

Definition w32 (z : Z) : Z := Z.land z 0xffffffff.
Definition rotr (n x : Z) : Z := Z.lor (Z.shiftr x n) (w32 (Z.shiftl x (32 - n))).
Definition ssig0 (x : Z) : Z := Z.lxor (Z.lxor (rotr 7 x) (rotr 18 x)) (Z.shiftr x 3).
Definition ssig1 (x : Z) : Z := Z.lxor (Z.lxor (rotr 17 x) (rotr 19 x)) (Z.shiftr x 10).
Definition bsig0 (x : Z) : Z := Z.lxor (Z.lxor (rotr 2 x) (rotr 13 x)) (rotr 22 x).
Definition bsig1 (x : Z) : Z := Z.lxor (Z.lxor (rotr 6 x) (rotr 11 x)) (rotr 25 x).
Definition sha_ch (x y z : Z) : Z := Z.lxor (Z.land x y) (Z.land (Z.lxor x 0xffffffff) z).
Definition sha_maj (x y z : Z) : Z := Z.lxor (Z.lxor (Z.land x y) (Z.land x z)) (Z.land y z).

(** The message schedule, newest word first. *)
Fixpoint sha_expand (n : nat) (ws : list Z) : list Z :=
  match n with
  | O => ws
  | S n =>
      let w i := default 0 (ws !! (i : nat)) in
      sha_expand n (w32 (ssig1 (w 1%nat) + w 6%nat + ssig0 (w 14%nat) + w 15%nat) :: ws)
  end.
Definition sha_round (h : list Z) (kw : Z * Z) : list Z :=
  match h with
  | [a; b; c; d; e; f; g; h] =>
      let t1 := h + bsig1 e + sha_ch e f g + kw.1 + kw.2 in
      let t2 := bsig0 a + sha_maj a b c in
      [w32 (t1 + t2); a; b; c; w32 (d + t1); e; f; g]
  | _ => h
  end.
Definition sha_block (h : list Z) (ws : list Z) : list Z :=
  zip_with (λ a b, w32 (a + b)) h (foldl sha_round h (zip sha_k (reverse (sha_expand 48 (reverse ws))))).

Fixpoint sha_words (fuel : nat) (l : list byte) : list Z :=
  match fuel with
  | O => []
  | S fuel => match l with [] => [] | _ => be_val (take 4 l) :: sha_words fuel (drop 4 l) end
  end.
Fixpoint sha_blocks (fuel : nat) (h : list Z) (ws : list Z) : list Z :=
  match fuel with
  | O => h
  | S fuel => match ws with [] => h | _ => sha_blocks fuel (sha_block h (take 16 ws)) (drop 16 ws) end
  end.
Definition sha_pad (m : list byte) : list byte :=
  let n := Z.of_nat (length m) in
  m ++ x80 :: replicate (Z.to_nat ((55 - n) mod 64)) x00 ++ be_bytes 8 (8 * n).
(** One word per four bytes and one block per sixteen words: the length of
    the padded message is enough fuel for both loops. *)
Definition sha256_bytes (m : list byte) : list byte :=
  let p := sha_pad m in
  mjoin (be_bytes 4 <$> sha_blocks (length p) sha_h0 (sha_words (length p) p)).
Definition sha256_fun (m : list byte) : bytes32 := default (zeros 32) (to_array 32 (sha256_bytes m)).
(** BIP340's tagged hash, as [sha256t_hash_newtype!] declares it. *)
Definition tagged_sha256 (tag : string) (m : list byte) : bytes32 :=
  let t := sha256_bytes (as_bytes tag) in sha256_fun (t ++ t ++ m).

Example sha256_abc : sha256_bytes (as_bytes "abc")
  = hex_lit "ba7816bf8f01cfea414140de5dae2223b00361a396177a9cb410ff61f20015ad".
Proof. vm_compute. reflexivity. Qed.
Example sha256_two_blocks : sha256_bytes (as_bytes "abcdbcdecdefdefgefghfghighijhijkijkljklmklmnlmnomnopnopq")
  = hex_lit "248d6a61d20638b8e5c026930c3e6039a33ce45964ff2167f6ecedd419db06c1".
Proof. vm_compute. reflexivity. Qed.
