(* ===== verification/Secp256k1.v ===== *)
(** The curve secp256k1 and BIP340 signatures, executable: the functions
    behind the concrete crates of [CurveTests.v]. The program takes them from
    [secp256k1_zkp]; here they let the points and signatures pinned by the
    sources' tests be evaluated. A field element is ten limbs of 28 bits in
    machine integers, reduced below the prime only when it is read; a point is
    Jacobian. *)

From S2P Require Import Prelude Sha256.
From Stdlib Require Import PrimInt63.

Module Secp.

Declare Scope limb_scope.
Delimit Scope limb_scope with limb.
Notation "a + b" := (PrimInt63.add a b) : limb_scope.
Notation "a - b" := (PrimInt63.sub a b) : limb_scope.
Notation "a * b" := (PrimInt63.mul a b) : limb_scope.

(** The field's prime and the group's order. *)
Definition prime : Z := 2 ^ 256 - 2 ^ 32 - 977.
Definition order : Z := 0xfffffffffffffffffffffffffffffffebaaedce6af48a03bbfd25e8cd0364141.

(** * Limbs *)

Abbreviation limb := int.
Abbreviation fe := (list limb).
Definition zero_limb : limb := 0%int63.
Definition one_limb : limb := 1%int63.
Definition limb_mask : limb := 268435455%int63.

Fixpoint limb_pos (p : positive) : limb :=
  match p with
  | xH => one_limb
  | xO p => PrimInt63.lsl (limb_pos p) one_limb
  | xI p => (PrimInt63.lsl (limb_pos p) one_limb + one_limb)%limb
  end.
Definition limb_of_Z (z : Z) : limb := match z with Zpos p => limb_pos p | _ => zero_limb end.
Fixpoint limbs_of_Z (n : nat) (z : Z) : list limb :=
  match n with O => [] | S n => limb_of_Z (Z.land z 268435455) :: limbs_of_Z n (Z.shiftr z 28) end.
Fixpoint limb_Z (n : nat) (x : limb) : Z :=
  match n with
  | O => 0
  | S n => (if PrimInt63.eqb (PrimInt63.land x one_limb) zero_limb then 0 else 1) + 2 * limb_Z n (PrimInt63.lsr x one_limb)
  end.
Fixpoint limbs_Z (a : list limb) : Z :=
  match a with [] => 0 | x :: a => limb_Z 28 x + Z.shiftl (limbs_Z a) 28 end.

Definition fe_of_Z (z : Z) : fe := limbs_of_Z 10 z.

(** Columns into limbs, the last carry as a limb of its own. *)
Fixpoint carry (c : limb) (l : list limb) : list limb :=
  match l with
  | [] => [c]
  | x :: l => let s := (x + c)%limb in PrimInt63.land s limb_mask :: carry (PrimInt63.lsr s 28%int63) l
  end.
Fixpoint add_scaled (a : limb) (b acc : list limb) : list limb :=
  match b, acc with
  | x :: b, c :: acc => (c + a * x)%limb :: add_scaled a b acc
  | _, _ => acc
  end.
(** [acc + a * b], column by column; [acc] is long enough for the product. *)
Fixpoint add_product (a b acc : list limb) : list limb :=
  match a with
  | [] => acc
  | x :: a => match add_scaled x b acc with c :: acc => c :: add_product a b acc | [] => [] end
  end.

(** [2^280] modulo the prime. *)
Definition wrap280 : list limb := [16777216%int63; 61%int63; 1%int63].
Definition zeros20 : list limb := Eval cbv in replicate 20 zero_limb.
Definition pad (n : nat) (l : list limb) : list limb := l ++ take (n - length l) zeros20.
(** The limbs above the tenth, multiplied into the lower ones. *)
Definition wrap (cols : list limb) : list limb :=
  let l := carry zero_limb cols in
  let high := drop 10 l in add_product high wrap280 (pad (2 + length high) (take 10 l)).
(** The same for ten columns, whose one carry is small: the first three limbs
    may exceed 28 bits a little. *)
Definition settle (cols : list limb) : fe :=
  let l := carry zero_limb cols in add_scaled (List.last l zero_limb) wrap280 (take 10 l).
(** A multiple of the prime whose limbs exceed those of any element. *)
Definition bias : list limb :=
  [520092719%int63; 536870833%int63; 536870909%int63; 536870910%int63; 536870910%int63; 536870910%int63; 536870910%int63;
   536870910%int63; 536870910%int63; 268435470%int63].

Definition fmul (a b : fe) : fe := settle (wrap (wrap (add_product a b zeros20))).
Definition fadd (a b : fe) : fe := settle (zip_with PrimInt63.add a b).
Definition fsub (a b : fe) : fe := settle (zip_with PrimInt63.sub (zip_with PrimInt63.add a bias) b).
(** The bits from the 256th on, multiplied into the lower ones. *)
Definition below256 (a : fe) : fe :=
  let l := carry zero_limb a in
  let high := (PrimInt63.lsr (default zero_limb (l !! 9%nat)) 4%int63 + PrimInt63.lsl (List.last l zero_limb) 24%int63)%limb in
  match take 9 l with
  | x :: y :: l' => (x + high * 977%int63)%limb :: (y + PrimInt63.lsl high 4%int63)%limb :: l'
  | l' => l'
  end ++ [PrimInt63.land (default zero_limb (l !! 9%nat)) 15%int63].
(** Below [2^256], every limb of 28 bits. *)
Definition canonical (a : fe) : fe := take 10 (carry zero_limb (below256 (below256 a))).
Definition fe_Z (a : fe) : Z := let z := limbs_Z (canonical a) in if z <? prime then z else z - prime.
Definition prime_limbs : fe := Eval vm_compute in fe_of_Z prime.
Definition limbs_eqb (a b : fe) : bool := forallb id (zip_with PrimInt63.eqb a b).
Definition fzero (a : fe) : bool :=
  let a := canonical a in limbs_eqb a (fe_of_Z 0) || limbs_eqb a prime_limbs.
Fixpoint squares (n : nat) (a : fe) : fe := match n with O => a | S n => squares n (fmul a a) end.

(** [a^(2^22 - 1)] and [a^(2^223 - 1)]; the inverse is [a^(prime - 2)], the
    square root [a^((prime + 1) / 4)]. *)
Definition runs (a : fe) : fe * fe * fe :=
  let a2 := fmul (squares 1 a) a in
  let a3 := fmul (squares 1 a2) a in
  let a6 := fmul (squares 3 a3) a3 in
  let a9 := fmul (squares 3 a6) a3 in
  let a11 := fmul (squares 2 a9) a2 in
  let a22 := fmul (squares 11 a11) a11 in
  let a44 := fmul (squares 22 a22) a22 in
  let a88 := fmul (squares 44 a44) a44 in
  let a176 := fmul (squares 88 a88) a88 in
  let a220 := fmul (squares 44 a176) a44 in
  (a2, a22, fmul (squares 3 a220) a3).
Definition finv (a : fe) : fe :=
  let '(a2, a22, a223) := runs a in
  fmul (squares 2 (fmul (squares 3 (fmul (squares 5 (fmul (squares 23 a223) a22)) a)) a2)) a.
Definition fsqrt (a : fe) : fe :=
  let '(a2, a22, a223) := runs a in
  squares 2 (fmul (squares 6 (fmul (squares 23 a223) a22)) a2).

(** * Points *)

(** [None] is the point at infinity. *)
Definition point : Type := option (fe * fe * fe).
Definition fe_one : fe := Eval vm_compute in fe_of_Z 1.
Definition double (p : point) : point :=
  match p with
  | None => None
  | Some (x, y, z) =>
      let yy := fmul y y in
      let xyy := fmul x yy in
      let s := let t := fadd xyy xyy in fadd t t in
      let xx := fmul x x in
      let m := fadd (fadd xx xx) xx in
      let x' := fsub (fmul m m) (fadd s s) in
      let y4 := let t := fmul yy yy in let t := fadd t t in let t := fadd t t in fadd t t in
      let yz := fmul y z in
      Some (x', fsub (fmul m (fsub s x')) y4, fadd yz yz)
  end.
(** The second point is affine. *)
Definition add_affine (p : point) (q : fe * fe) : point :=
  match p with
  | None => Some (q.1, q.2, fe_one)
  | Some (x1, y1, z1) =>
      let zz := fmul z1 z1 in
      let h := fsub (fmul q.1 zz) x1 in
      let r := fsub (fmul q.2 (fmul z1 zz)) y1 in
      if fzero h then if fzero r then double p else None
      else
        let hh := fmul h h in
        let hhh := fmul h hh in
        let v := fmul x1 hh in
        let x3 := fsub (fsub (fmul r r) hhh) (fadd v v) in
        Some (x3, fsub (fmul r (fsub v x3)) (fmul y1 hhh), fmul z1 h)
  end.
Definition to_affine (p : point) : option (fe * fe) :=
  '(x, y, z) ← p;
  let i := finv z in let ii := fmul i i in Some (fmul x ii, fmul y (fmul i ii)).
Fixpoint mul_pos (k : positive) (q : fe * fe) : point :=
  match k with
  | xH => Some (q.1, q.2, fe_one)
  | xO k => double (mul_pos k q)
  | xI k => add_affine (double (mul_pos k q)) q
  end.
Definition mul (k : Z) (q : fe * fe) : point := match k with Zpos k => mul_pos k q | _ => None end.

Definition generator : fe * fe :=
  (fe_of_Z 0x79be667ef9dcbbac55a06295ce870b07029bfcdb2dce28d959f2815b16f81798,
   fe_of_Z 0x483ada7726a3c4655da4fbfc0e1108a8fd17b448a68554199c47d08ffb10d4b8).
(** The generator's multiples by [j * 16^i], [j] from 1 to 15, a row per [i]. *)
Fixpoint multiples (n : nat) (p : point) (q : fe * fe) : list (fe * fe) :=
  match n with
  | O => []
  | S n => let p := add_affine p q in default q (to_affine p) :: multiples n p q
  end.
Fixpoint generator_rows (n : nat) (q : fe * fe) : list (list (fe * fe)) :=
  match n with
  | O => []
  | S n =>
      let row := multiples 15 None q in
      row :: generator_rows n (default q (to_affine (add_affine (Some (q.1, q.2, fe_one)) (List.last row q))))
  end.
Definition generator_table : list (list (fe * fe)) := Eval vm_compute in generator_rows 64 generator.
Fixpoint mul_rows (k : Z) (rows : list (list (fe * fe))) (acc : point) : point :=
  match rows with
  | [] => acc
  | row :: rows =>
      mul_rows (Z.shiftr k 4) rows
        (match Z.to_nat (Z.land k 15) with
         | O => acc
         | S j => match row !! j with Some q => add_affine acc q | None => acc end
         end)
  end.
Definition mul_generator (k : Z) : point := mul_rows k generator_table None.

(** [lift_x] of BIP340: the point of even ordinate. *)
Definition lift_x (x : Z) : option (fe * fe) :=
  let fx := fe_of_Z x in
  let yy := fadd (fmul fx (fmul fx fx)) (fe_of_Z 7) in
  let y := fsqrt yy in
  if (x <? prime) && fzero (fsub (fmul y y) yy)
  then Some (fx, if Z.even (fe_Z y) then y else fsub (fe_of_Z 0) y)
  else None.

(** * Keys and signatures *)

Definition bytes_of_Z (z : Z) : bytes32 := default (zeros 32) (to_array 32 (be_bytes 32 z)).
Definition bytes_Z (b : bytes32) : Z := be_val (slice b).

(** A pair whose public point has an even ordinate: the secret, the x-only key. *)
Definition pair_of_scalar (d : Z) : option (Z * bytes32) :=
  if (0 <? d) && (d <? order)
  then '(x, y) ← to_affine (mul_generator d);
       Some (if Z.even (fe_Z y) then d else order - d, bytes_of_Z (fe_Z x))
  else None.
(** [XOnlyPublicKey::add_tweak] and [Keypair::add_xonly_tweak]. *)
Definition xonly_tweak (key tweak : bytes32) : option bytes32 :=
  q ← lift_x (bytes_Z key);
  '(x, _) ← to_affine (add_affine (mul_generator (bytes_Z tweak mod order)) q);
  Some (bytes_of_Z (fe_Z x)).
Definition pair_tweak (pair : Z * bytes32) (tweak : bytes32) : option (Z * bytes32) :=
  pair_of_scalar ((pair.1 + bytes_Z tweak) mod order).

Definition xor_bytes (a b : list byte) : list byte := zip_with (λ x y, Z_byte (Z.lxor (byte_Z x) (byte_Z y))) a b.
Definition challenge (r key m : list byte) : Z :=
  bytes_Z (tagged_sha256 "BIP0340/challenge" (r ++ key ++ m)) mod order.
(** With auxiliary randomness of zeros, as no auxiliary randomness means. *)
Definition sign (pair : Z * bytes32) (m : bytes32) : option (bytes32 * bytes32) :=
  let key := slice pair.2 in
  let masked := xor_bytes (be_bytes 32 pair.1) (slice (tagged_sha256 "BIP0340/aux" (replicate 32 x00))) in
  let k := bytes_Z (tagged_sha256 "BIP0340/nonce" (masked ++ key ++ slice m)) mod order in
  '(k, r) ← pair_of_scalar k;
  Some (r, bytes_of_Z ((k + challenge (slice r) key (slice m) * pair.1) mod order)).
Definition verify (sig : bytes32 * bytes32) (m key : bytes32) : bool :=
  let '(r, s) := sig in
  match lift_x (bytes_Z key) with
  | Some p =>
      let e := challenge (slice r) (slice key) (slice m) in
      match to_affine (mul ((order - e) mod order) p) with
      | Some q =>
          match to_affine (add_affine (mul_generator (bytes_Z s)) q) with
          | Some (x, y) => (bytes_Z s <? order) && Z.even (fe_Z y) && (fe_Z x =? bytes_Z r)
          | None => false
          end
      | None => false
      end
  | None => false
  end.

(** BIP340's vector 0: the secret key 3, a message of zeros. *)
Definition vector_pair : Z * bytes32 := default (0, zeros 32) (pair_of_scalar 3).
Definition vector_signature : bytes32 * bytes32 := default (zeros 32, zeros 32) (sign vector_pair (zeros 32)).
Example bip340_vector :
  (slice vector_pair.2, slice vector_signature.1 ++ slice vector_signature.2,
   verify vector_signature (zeros 32) vector_pair.2)
  = (hex_lit "f9308a019258c31049344f85f89d5229b531c845836f99b08601f113bce036f9",
     hex_lit "e907831f80848d1069a5371b402410364bdf1c5f8307b0084c55f1ce2dca821525f66a4a85ea8b71e482a74f382d2ce5ebeee8fdb2172f477df4900d310536c0",
     true).
Proof. vm_compute. reflexivity. Qed.
(** BIP341's wallet vector: an internal key and its key-path tweak. *)
Example bip341_vector :
  (λ b, slice b) <$> xonly_tweak (hex_array 32 "d6889cb081036e0faefa3a35157ad71086b123b2b144b649798b494c300a961d")
    (hex_array 32 "b86e7be8f39bab32a6f2c0443abbc210f0edac0e2c53d501b36b64437d9c6c70")
  = Some (hex_lit "53a1f6e454df1aa2776a2814a721372d6258050de330b3c6d10ee8f4e0dda343").
Proof. vm_compute. reflexivity. Qed.

End Secp.
