(* ===== verification/Bip32.v ===== *)
(** HMAC-SHA512 and the hardened derivation of BIP32, executable: the
    function behind the concrete venue crate of [CurveTests.v]. The program
    takes it from the [bitcoin] crate. *)

From S2P Require Import Prelude Sha256 Secp256k1.

Module Bip32.

(** * SHA-512 *)

Fixpoint primes_to (fuel : nat) (n : Z) (count : nat) (acc : list Z) : list Z :=
  match fuel with
  | O => acc
  | S fuel =>
      if (length acc =? count)%nat then acc
      else primes_to fuel (n + 1) count (if forallb (λ p, negb (n mod p =? 0)) acc then acc ++ [n] else acc)
  end.
Definition primes80 : list Z := Eval vm_compute in primes_to 500 2 80 [].
Definition mask64 : Z := 0xffffffffffffffff.
Definition k512 : list Z :=
  Eval vm_compute in (λ p, Z.land (cbrt_up 68 (p * 2 ^ 192) 0) mask64) <$> primes80.
Definition h512 : list Z :=
  Eval vm_compute in (λ p, Z.land (Z.sqrt (p * 2 ^ 128)) mask64) <$> take 8 primes80.

Definition w64 (z : Z) : Z := Z.land z mask64.
Definition rotr64 (n x : Z) : Z := Z.lor (Z.shiftr x n) (w64 (Z.shiftl x (64 - n))).
Definition small0 (x : Z) : Z := Z.lxor (Z.lxor (rotr64 1 x) (rotr64 8 x)) (Z.shiftr x 7).
Definition small1 (x : Z) : Z := Z.lxor (Z.lxor (rotr64 19 x) (rotr64 61 x)) (Z.shiftr x 6).
Definition big0 (x : Z) : Z := Z.lxor (Z.lxor (rotr64 28 x) (rotr64 34 x)) (rotr64 39 x).
Definition big1 (x : Z) : Z := Z.lxor (Z.lxor (rotr64 14 x) (rotr64 18 x)) (rotr64 41 x).
Definition choose (x y z : Z) : Z := Z.lxor (Z.land x y) (Z.land (Z.lxor x mask64) z).

(** The message schedule, newest word first. *)
Fixpoint expand (n : nat) (ws : list Z) : list Z :=
  match n with
  | O => ws
  | S n =>
      let w i := default 0 (ws !! (i : nat)) in
      expand n (w64 (small1 (w 1%nat) + w 6%nat + small0 (w 14%nat) + w 15%nat) :: ws)
  end.
Definition round (h : list Z) (kw : Z * Z) : list Z :=
  match h with
  | [a; b; c; d; e; f; g; h] =>
      let t1 := h + big1 e + choose e f g + kw.1 + kw.2 in
      let t2 := big0 a + sha_maj a b c in
      [w64 (t1 + t2); a; b; c; w64 (d + t1); e; f; g]
  | _ => h
  end.
Definition block (h ws : list Z) : list Z :=
  zip_with (λ a b, w64 (a + b)) h (foldl round h (zip k512 (reverse (expand 64 (reverse ws))))).
Fixpoint words (fuel : nat) (l : list byte) : list Z :=
  match fuel with
  | O => []
  | S fuel => match l with [] => [] | _ => be_val (take 8 l) :: words fuel (drop 8 l) end
  end.
Fixpoint blocks (fuel : nat) (h ws : list Z) : list Z :=
  match fuel with
  | O => h
  | S fuel => match ws with [] => h | _ => blocks fuel (block h (take 16 ws)) (drop 16 ws) end
  end.
Definition padded (m : list byte) : list byte :=
  let n := Z.of_nat (length m) in
  m ++ x80 :: replicate (Z.to_nat ((111 - n) mod 128)) x00 ++ be_bytes 16 (8 * n).
(** The length of the padded message is enough fuel for both loops. *)
Definition sha512 (m : list byte) : list byte :=
  let p := padded m in mjoin (be_bytes 8 <$> blocks (length p) h512 (words (length p) p)).
Example sha512_abc : sha512 (as_bytes "abc")
  = hex_lit "ddaf35a193617abacc417349ae20413112e6fa4e89a97ea20a9eeee64b55d39a2192992a274fc1a836ba3c23a3feebbd454d4423643ce80e2a9ac94fa54ca49f".
Proof. vm_compute. reflexivity. Qed.

(** * HMAC-SHA512, for keys of at most a block *)

Definition hmac_sha512 (key m : list byte) : list byte :=
  let key := key ++ replicate (128 - length key) x00 in
  let xor_key c := (λ b, Z_byte (Z.lxor (byte_Z b) c)) <$> key in
  sha512 (xor_key 0x5c ++ sha512 (xor_key 0x36 ++ m)).

(** * Extended private keys: the secret and the chain code *)

Definition split_key (i : list byte) : Z * list byte := (be_val (take 32 i), drop 32 i).
Definition valid_secret (k : Z) : bool := (0 <? k) && (k <? Secp.order).
Definition master (seed : list byte) : option (Z * list byte) :=
  let '(k, c) := split_key (hmac_sha512 (as_bytes "Bitcoin seed") seed) in
  if valid_secret k then Some (k, c) else None.
(** A child of a hardened index. *)
Definition hardened_child (parent : Z * list byte) (index : Z) : option (Z * list byte) :=
  let '(i, c) := split_key (hmac_sha512 parent.2 (x00 :: be_bytes 32 parent.1 ++ be_bytes 4 (2 ^ 31 + index))) in
  let k := (i + parent.1) mod Secp.order in
  if (i <? Secp.order) && valid_secret k then Some (k, c) else None.
Fixpoint derive (parent : Z * list byte) (path : list Z) : option (Z * list byte) :=
  match path with
  | [] => Some parent
  | index :: path => child ← hardened_child parent index; derive child path
  end.
Definition derive_hardened (seed : list byte) (path : list Z) : option bytes32 :=
  m ← master seed; k ← derive m path; Some (Secp.bytes_of_Z k.1).

End Bip32.
