(* ===== verification/RefJson.v ===== *)
(** JSON text: a printer in [serde_json]'s compact form and a reader, and the
    proof that a document whose integers are those of [i64] or [u64] is read
    back from its text, numbers with a fraction or an exponent as the text
    they are. It is the concrete [JsonText] of the witnesses;
    the reader is also [RefCrates.v]'s [serde_json::Value] reader. *)

From S2P Require Import Prelude Json.

(** * Printing *)

Definition quote : Ascii.ascii := Ascii.ascii_of_N 34.
Definition hex_lower (d : Z) : Ascii.ascii :=
  Ascii.ascii_of_N (Z.to_N (if d <? 10 then 48 + d else 87 + d)).
Definition hex_val (c : Ascii.ascii) : option Z :=
  let n := ascii_Z c in
  if (48 <=? n) && (n <=? 57) then Some (n - 48)
  else if (97 <=? n) && (n <=? 102) then Some (n - 87)
  else if (65 <=? n) && (n <=? 70) then Some (n - 55) else None.

(** One character inside a string; [s] is what follows. *)
Definition escaped (c : Ascii.ascii) (s : string) : string :=
  let n := ascii_Z c in
  let letter d := String "\" (String d s) in
  if n =? 34 then letter quote
  else if n =? 92 then letter "\"%char
  else if n =? 8 then letter "b"%char
  else if n =? 9 then letter "t"%char
  else if n =? 10 then letter "n"%char
  else if n =? 12 then letter "f"%char
  else if n =? 13 then letter "r"%char
  else if n <? 32 then
    String "\" (String "u" (String "0" (String "0" (String (hex_lower (n / 16)) (String (hex_lower (n mod 16)) s)))))
  else String c s.
Fixpoint escape (s : string) (rest : string) : string :=
  match s with EmptyString => String quote rest | String c s => escaped c (escape s rest) end.
Definition int_text (z : Z) : string := if z <? 0 then String "-" (dec_string (- z)) else dec_string z.

Fixpoint json_print (j : json) : string :=
  match j with
  | JNull => "null"
  | JBool b => if b then "true" else "false"
  | JNum z => int_text z
  | JReal text => text
  | JStr s => String quote (escape s "")
  | JArr items => String "[" (join_on "," (map json_print items) +:+ "]")
  | JObj members =>
      String "{" (join_on "," (map (λ m, String quote (escape m.1 (String ":" (json_print m.2)))) members) +:+ "}")
  end.

(** * Reading *)

Definition unescape (c : Ascii.ascii) : option Ascii.ascii :=
  let n := ascii_Z c in
  if (n =? 34) || (n =? 92) || (n =? 47) then Some c
  else if n =? 98 then Some (Ascii.ascii_of_N 8)
  else if n =? 116 then Some (Ascii.ascii_of_N 9)
  else if n =? 110 then Some (Ascii.ascii_of_N 10)
  else if n =? 102 then Some (Ascii.ascii_of_N 12)
  else if n =? 114 then Some (Ascii.ascii_of_N 13)
  else None.
(** The string up to its closing quote, and what follows; an escape of four
    digits is read below [0x100] only. *)
Fixpoint json_string (s : string) : option (string * string) :=
  match s with
  | EmptyString => None
  | String c s =>
      if ascii_Z c =? 34 then Some (EmptyString, s)
      else if ascii_Z c =? 92 then
        match s with
        | String "u" (String "0" (String "0" (String h (String l s)))) =>
            x ← hex_val h; y ← hex_val l;
            '(t, rest) ← json_string s; Some (String (Ascii.ascii_of_N (Z.to_N (16 * x + y))) t, rest)
        | String e s => d ← unescape e; '(t, rest) ← json_string s; Some (String d t, rest)
        | EmptyString => None
        end
      else '(t, rest) ← json_string s; Some (String c t, rest)
  end.
(** The longest number a text starts with. *)
Fixpoint num_span (st : num_state) (s : string) : num_state * string * string :=
  match s with
  | String c s' =>
      match num_step st c with
      | Some st => let '(st, t, rest) := num_span st s' in (st, String c t, rest)
      | None => (st, EmptyString, s)
      end
  | EmptyString => (st, EmptyString, EmptyString)
  end.
Definition int_value (text : string) : option Z :=
  match text with String "-" t => Z.opp <$> dec_value 0 t | _ => dec_value 0 text end.
Definition json_number (s : string) : option (json * string) :=
  match num_span NumStart s with
  | ((NumZero | NumInt), t, rest) => z ← int_value t; Some (JNum z, rest)
  | ((NumFraction | NumExponent), t, rest) => Some (JReal t, rest)
  | _ => None
  end.
Definition starts_number (s : string) : bool :=
  match s with String c _ => is_ascii_digit c || bool_decide (c = "-"%char) | EmptyString => false end.
(** What follows a number cannot continue it. *)
Definition ends_number (s : string) : bool :=
  match s with
  | String c _ => negb (is_ascii_digit c) && negb (bool_decide (c ∈ ["+"; "-"; "."; "e"; "E"]%char))
  | EmptyString => true
  end.
Fixpoint skip_space (s : string) : string :=
  match s with
  | String c s' => if bool_decide (c = " "%char) then skip_space s' else s
  | EmptyString => s
  end.
Definition closes (c : Ascii.ascii) (s : string) : option string :=
  match skip_space s with String d s => if bool_decide (d = c) then Some s else None | EmptyString => None end.
(** Each call consumes a character or ends, so twice the length of the text
    is enough fuel. *)
Fixpoint json_value (fuel : nat) (s : string) : option (json * string) :=
  match fuel with
  | O => None
  | S fuel =>
      let s := skip_space s in
      if starts_number s then json_number s
      else match s with
      | String "n" (String "u" (String "l" (String "l" s))) => Some (JNull, s)
      | String "t" (String "r" (String "u" (String "e" s))) => Some (JBool true, s)
      | String "f" (String "a" (String "l" (String "s" (String "e" s)))) => Some (JBool false, s)
      | String "{" s =>
          match closes "}" s with
          | Some s => Some (JObj [], s)
          | None => '(kvs, s) ← json_members fuel s; Some (JObj kvs, s)
          end
      | String "[" s =>
          match closes "]" s with
          | Some s => Some (JArr [], s)
          | None => '(vs, s) ← json_elements fuel s; Some (JArr vs, s)
          end
      | String c s => if ascii_Z c =? 34 then '(t, s) ← json_string s; Some (JStr t, s) else None
      | EmptyString => None
      end
  end
with json_members (fuel : nat) (s : string) : option (list (string * json) * string) :=
  match fuel with
  | O => None
  | S fuel =>
      match skip_space s with
      | String c s =>
          if ascii_Z c =? 34 then
            '(k, s) ← json_string s;
            match skip_space s with
            | String ":" s =>
                '(v, s) ← json_value fuel s;
                match skip_space s with
                | String "," s => '(kvs, s) ← json_members fuel s; Some ((k, v) :: kvs, s)
                | String "}" s => Some ([(k, v)], s)
                | _ => None
                end
            | _ => None
            end
          else None
      | EmptyString => None
      end
  end
with json_elements (fuel : nat) (s : string) : option (list json * string) :=
  match fuel with
  | O => None
  | S fuel =>
      '(v, s) ← json_value fuel s;
      match skip_space s with
      | String "," s => '(vs, s) ← json_elements fuel s; Some (v :: vs, s)
      | String "]" s => Some ([v], s)
      | _ => None
      end
  end.
Definition json_read (s : string) : option json :=
  '(v, rest) ← json_value (2 * String.length s) s;
  if bool_decide (skip_space rest = EmptyString) then Some v else None.

(** * What is printed is read back *)

Lemma hex_val_lower d : 0 ≤ d < 16 → hex_val (hex_lower d) = Some d.
Proof.
  intros Hd. assert (∃ n, (n < 16)%nat ∧ d = Z.of_nat n) as (n & Hn & ->).
  { exists (Z.to_nat d). lia. }
  do 16 (destruct n as [|n]; [done|]). lia.
Qed.

Lemma json_string_escaped c s :
  json_string (escaped c s) = '(t, rest) ← json_string s; Some (String c t, rest).
Proof. destruct c as [[] [] [] [] [] [] [] []]; reflexivity. Qed.
Lemma json_string_escape s rest : json_string (escape s rest) = Some (s, rest).
Proof. induction s as [|c s IH]; [done|]. simpl escape. rewrite json_string_escaped, IH. done. Qed.

Lemma num_step_ends st c s : ends_number (String c s) = true → num_step st c = None.
Proof.
  simpl. rewrite andb_true_iff, !negb_true_iff. intros [Hd Hc%bool_decide_eq_false].
  rewrite !not_elem_of_cons in Hc. destruct Hc as (? & ? & ? & ? & ? & _).
  assert (c ≠ "0"%char) by (intros ->; discriminate Hd).
  destruct st; simpl; rewrite ?Hd, ?bool_decide_false by done; done.
Qed.
Lemma num_span_run st s st' rest :
  num_run st s = Some st' → ends_number rest = true → num_span st (s +:+ rest) = (st', s, rest).
Proof.
  intros Hr He. revert st Hr; induction s as [|c s IH]; simpl; intros st Hr.
  - injection Hr as <-. destruct rest as [|c rest]; [done|]. simpl. by rewrite (num_step_ends _ _ rest).
  - destruct (num_step st c) as [st1|]; [|done]. simpl in Hr. by rewrite (IH st1).
Qed.
Lemma num_run_starts s st : num_run NumStart s = Some st → st ≠ NumStart → starts_number s = true.
Proof.
  destruct s as [|c s]; simpl; [by intros [= <-]|]. unfold num_step. rewrite orb_comm.
  case_bool_decide; [done|]. simpl. case_bool_decide; [by subst|]. by destruct (is_ascii_digit c).
Qed.

(** What [dec_string] writes is an integer of the grammar. *)
Lemma dec_digits_run fuel z s :
  0 < z < 10 ^ Z.of_nat fuel → num_run NumStart (dec_digits fuel z s) = num_run NumInt s ∧
  num_run NumSign (dec_digits fuel z s) = num_run NumInt s.
Proof.
  revert z s; induction fuel as [|fuel IH]; intros z s Hz; [simpl in Hz; lia|]. simpl dec_digits.
  assert (∀ d, 0 ≤ d < 10 → num_step NumInt (digit_char d) = Some NumInt ∧
    (d ≠ 0 → num_step NumStart (digit_char d) = Some NumInt ∧ num_step NumSign (digit_char d) = Some NumInt)) as Hd.
  { intros d ?. assert (∃ n, (n < 10)%nat ∧ d = Z.of_nat n) as (n & Hn & ->) by (exists (Z.to_nat d); lia).
    do 10 (destruct n as [|n]; [split; [done|by intros ?]|]). lia. }
  destruct (Z.ltb_spec z 10).
  - rewrite Z.mod_small by lia. destruct (Hd z) as (_ & [H1 H2]); [lia..|]. cbn [num_run]. by rewrite H1, H2.
  - rewrite Nat2Z.inj_succ, Z.pow_succ_r in Hz by lia.
    destruct (IH (z / 10) (String (digit_char (z mod 10)) s)) as [-> ->].
    { split; [apply Z.div_str_pos; lia|apply Z.div_lt_upper_bound; lia]. }
    cbn [num_run]. by rewrite (proj1 (Hd (z mod 10) (Z.mod_pos_bound z 10 ltac:(lia)))).
Qed.
Lemma int_text_run z : - 2 ^ 63 ≤ z ≤ 2 ^ 64 - 1 →
  ∃ st, num_run NumStart (int_text z) = Some st ∧ (st = NumZero ∨ st = NumInt).
Proof.
  intros Hz. unfold int_text. destruct (Z.ltb_spec z 0).
  - exists NumInt. split; [|by right]. simpl. unfold dec_string. by rewrite (proj2 (dec_digits_run 20 (- z) "" ltac:(lia))).
  - destruct (decide (z = 0)) as [->|]; [by exists NumZero; split; [|left]|]. exists NumInt. split; [|by right].
    unfold dec_string. by rewrite (proj1 (dec_digits_run 20 z "" ltac:(lia))).
Qed.
Lemma int_text_value z : - 2 ^ 63 ≤ z ≤ 2 ^ 64 - 1 → int_value (int_text z) = Some z.
Proof.
  intros Hz. unfold int_text. destruct (Z.ltb_spec z 0).
  - simpl. rewrite dec_string_value by (unfold in_u64; lia). simpl. f_equal. lia.
  - pose proof (dec_string_value z ltac:(unfold in_u64; lia)) as Hv. rewrite <-Hv.
    unfold int_value. destruct (dec_string z) as [|c s]; [done|].
    by destruct c as [[] [] [] [] [] [] [] []].
Qed.

Lemma number_no_space s : starts_number s = true → skip_space s = s.
Proof. destruct s as [|c s]; [done|]. simpl. intros Hc. by rewrite bool_decide_false by (by intros ->). Qed.
Lemma starts_number_app s t : starts_number s = true → starts_number (s +:+ t) = true.
Proof. by destruct s. Qed.
Lemma json_value_number fuel s st rest :
  num_run NumStart s = Some st → st ≠ NumStart → ends_number rest = true →
  json_value (S fuel) (s +:+ rest) =
  match st with
  | NumZero | NumInt => z ← int_value s; Some (JNum z, rest)
  | NumFraction | NumExponent => Some (JReal s, rest)
  | _ => None
  end.
Proof.
  intros Hr Hst He. pose proof (starts_number_app s rest (num_run_starts s st Hr Hst)) as Hs. simpl.
  rewrite number_no_space, Hs by done. unfold json_number. rewrite (num_span_run _ _ st) by done.
  by destruct st.
Qed.

(** Induction over the documents inside a document. *)
Lemma json_rec (P : json → Prop) :
  P JNull → (∀ b, P (JBool b)) → (∀ z, P (JNum z)) → (∀ t, P (JReal t)) → (∀ s, P (JStr s)) →
  (∀ items, Forall P items → P (JArr items)) →
  (∀ members, Forall (λ m, P m.2) members → P (JObj members)) → ∀ j, P j.
Proof.
  intros H1 H2 H3 H4 H5 Ha Ho. fix rec 1. intros [|b|z|t|s|items|members];
    [exact H1|exact (H2 b)|exact (H3 z)|exact (H4 t)|exact (H5 s)|apply Ha|apply Ho].
  - induction items as [|j items IH]; constructor; [exact (rec j)|exact IH].
  - induction members as [|[k j] members IH]; constructor; [exact (rec j)|exact IH].
Qed.

Definition reads (j : json) : Prop := ∀ fuel rest,
  (2 * String.length (json_print j) ≤ fuel)%nat → ends_number rest = true →
  json_value fuel (json_print j +:+ rest) = Some (j, rest).
Definition member_text (m : string * json) : string := String quote (escape m.1 (String ":" (json_print m.2))).

Lemma escape_app s a b : escape s a +:+ b = escape s (a +:+ b).
Proof.
  induction s as [|c s IH]; [done|]. simpl. rewrite <-IH. generalize (escape s a). intros t.
  by destruct c as [[] [] [] [] [] [] [] []].
Qed.
Lemma length_escape s a : (String.length a < String.length (escape s a))%nat.
Proof.
  induction s as [|c s IH]; simpl; [lia|]. enough (String.length (escape s a) < String.length (escaped c (escape s a)))%nat by lia.
  generalize (escape s a). intros t. destruct c as [[] [] [] [] [] [] [] []]; simpl; lia.
Qed.

Lemma reads_elements items : Forall reads items → items ≠ [] → ∀ fuel rest,
  (2 * String.length (join_on "," (map json_print items)) < fuel)%nat →
  json_elements fuel (join_on "," (map json_print items) +:+ String "]" rest) = Some (items, rest).
Proof.
  induction 1 as [|j items Hj Hi IH]; intros Hne fuel rest Hf; [done|]. destruct fuel as [|fuel]; [lia|].
  destruct items as [|j' items].
  - simpl in *. rewrite Hj by (done || lia). done.
  - change (join_on "," (map json_print (j :: j' :: items)))
      with (json_print j +:+ String "," (join_on "," (map json_print (j' :: items)))) in *.
    rewrite string_length_app in Hf. cbn [String.length] in Hf.
    rewrite string_app_assoc. cbn [json_elements]. rewrite Hj by (done || lia). simpl.
    rewrite IH by (done || lia). done.
Qed.
Lemma reads_members members : Forall (λ m, reads m.2) members → members ≠ [] → ∀ fuel rest,
  (2 * String.length (join_on "," (map member_text members)) < fuel)%nat →
  json_members fuel (join_on "," (map member_text members) +:+ String "}" rest) = Some (members, rest).
Proof.
  assert (∀ k v fuel rest, reads v → (2 * String.length (member_text (k, v)) < S fuel)%nat → ends_number rest = true →
    json_members (S fuel) (member_text (k, v) +:+ rest) =
    match skip_space rest with
    | String "," s => '(kvs, s) ← json_members fuel s; Some ((k, v) :: kvs, s)
    | String "}" s => Some ([(k, v)], s)
    | _ => None
    end) as Hone.
  { intros k v fuel rest Hv Hf Hr. unfold member_text in *. cbn [fst snd String.append] in *.
    pose proof (length_escape k (String ":" (json_print v))) as Hl. cbn [String.length] in *.
    cbn [json_members].
    change (skip_space (String quote ?e +:+ rest)) with (String quote (e +:+ rest)). cbn iota beta.
    change (ascii_Z quote =? 34) with true. cbn iota. rewrite escape_app, json_string_escape. simpl.
    by rewrite Hv by (done || lia). }
  induction 1 as [|[k v] members Hj Hi IH]; intros Hne fuel rest Hf; [done|]. destruct fuel as [|fuel]; [lia|].
  destruct members as [|m members].
  - simpl join_on in *. by rewrite Hone.
  - change (join_on "," (map member_text ((k, v) :: m :: members)))
      with (member_text (k, v) +:+ String "," (join_on "," (map member_text (m :: members)))) in *.
    rewrite string_length_app in Hf. cbn [String.length] in Hf.
    rewrite string_app_assoc, Hone by (done || lia). simpl. rewrite IH by (done || lia). done.
Qed.

Abbreviation json_sound := (json_fits real_text).
Lemma json_sound_int z : json_sound (JNum z) = true → - 2 ^ 63 ≤ z ≤ 2 ^ 64 - 1.
Proof. simpl. intros [? ?]%andb_true_iff. lia. Qed.
Lemma real_text_run text : real_text text = true →
  ∃ st, num_run NumStart text = Some st ∧ (st = NumFraction ∨ st = NumExponent).
Proof. unfold real_text. destruct (num_run _ text) as [[]|]; naive_solver. Qed.
(** A printed document starts with neither a bracket that closes nor a space. *)
Definition opens (s : string) : Prop :=
  match s with String c _ => c ≠ "]"%char ∧ c ≠ "}"%char ∧ c ≠ " "%char | EmptyString => False end.
Lemma number_opens s : starts_number s = true → opens s.
Proof. destruct s as [|c s]; [done|]. simpl. intros Hc. split_and!; by intros ->. Qed.
Lemma print_opens j : json_sound j = true → opens (json_print j).
Proof.
  destruct j as [|b|z|t|s|items|members]; intros Hj; try done; [by destruct b|..]; apply number_opens.
  - apply json_sound_int, int_text_run in Hj as (st & Hr & Hst). eapply num_run_starts; [exact Hr|]. by destruct Hst as [->| ->].
  - apply real_text_run in Hj as (st & Hr & Hst). eapply num_run_starts; [exact Hr|]. by destruct Hst as [->| ->].
Qed.
Lemma opens_join w ws rest : opens w → opens (join_on "," (w :: ws) +:+ rest).
Proof. destruct w; [done|]. by destruct ws. Qed.
Lemma opens_closes s : opens s → closes "]" s = None ∧ closes "}" s = None.
Proof.
  destruct s as [|c s]; [done|]. intros (? & ? & ?). unfold closes. simpl.
  by rewrite !bool_decide_false.
Qed.

Lemma json_print_reads j : json_sound j = true → reads j.
Proof.
  induction j as [|b|z|t|s|items IH|members IH] using json_rec; intros Hp fuel rest Hf Hr;
    (destruct fuel as [|fuel]; [apply print_opens in Hp; destruct (json_print _); [done|simpl in Hf; lia]|]).
  - done.
  - by destruct b.
  - apply json_sound_int in Hp. destruct (int_text_run z Hp) as (st & Hst & Hz). simpl json_print.
    rewrite (json_value_number _ _ st) by (done || by destruct Hz as [->| ->]).
    rewrite int_text_value by done. by destruct Hz as [->| ->].
  - apply real_text_run in Hp as (st & Hst & Hx). simpl json_print.
    rewrite (json_value_number _ _ st) by (done || by destruct Hx as [->| ->]). by destruct Hx as [->| ->].
  - simpl. by rewrite escape_app, json_string_escape.
  - destruct items as [|j items]; [done|]. change (forallb json_sound (j :: items) = true) in Hp.
    assert (Forall reads (j :: items)) as Hi.
    { apply Forall_forall. intros i Hin. rewrite Forall_forall in IH. apply IH; [done|].
      rewrite forallb_forall in Hp. by apply Hp, list_elem_of_In. }
    change (json_print (JArr (j :: items))) with (String "[" (join_on "," (map json_print (j :: items)) +:+ "]")) in *.
    cbn [String.length] in Hf. rewrite string_length_app in Hf. simpl (String.length "]") in Hf.
    change (String "[" ?s +:+ rest) with (String "[" (s +:+ rest)). rewrite string_app_assoc.
    cbn [json_value skip_space starts_number]. simpl (bool_decide _). cbn iota.
    apply andb_true_iff in Hp as [Hj _].
    assert (opens (join_on "," (map json_print (j :: items)) +:+ ("]" +:+ rest))) as Ho
      by by apply opens_join, print_opens.
    rewrite (proj1 (opens_closes _ Ho)).
    change ("]" +:+ rest) with (String "]" rest). by rewrite reads_elements by (done || lia).
  - destruct members as [|[k j] members]; [done|].
    assert (Forall (λ m, reads m.2) ((k, j) :: members)) as Hi.
    { apply Forall_forall. intros i Hin. rewrite Forall_forall in IH. apply IH; [done|].
      change (forallb (λ m, json_sound m.2) ((k, j) :: members) = true) in Hp.
      rewrite forallb_forall in Hp. by apply Hp, list_elem_of_In. }
    change (json_print (JObj ((k, j) :: members)))
      with (String "{" (join_on "," (map member_text ((k, j) :: members)) +:+ "}")) in *.
    cbn [String.length] in Hf. rewrite string_length_app in Hf. simpl (String.length "}") in Hf.
    change (String "{" ?s +:+ rest) with (String "{" (s +:+ rest)). rewrite string_app_assoc.
    cbn [json_value skip_space starts_number]. simpl (bool_decide _). cbn iota.
    assert (opens (join_on "," (map member_text ((k, j) :: members)) +:+ ("}" +:+ rest))) as Ho
      by by apply opens_join.
    rewrite (proj2 (opens_closes _ Ho)).
    change ("}" +:+ rest) with (String "}" rest). by rewrite reads_members by (done || lia).
Qed.

Lemma json_read_print j : json_sound j = true → json_read (json_print j) = Some j.
Proof.
  intros Hp. unfold json_read. pose proof (json_print_reads j Hp (2 * String.length (json_print j))%nat "") as Hr.
  rewrite string_app_nil_r in Hr. by rewrite Hr.
Qed.
(** Plain documents among them. *)
Lemma json_plain_sound j : json_plain j = true → json_sound j = true.
Proof.
  induction j as [|b|z|t|s|items IH|members IH] using json_rec; try done; simpl; rewrite !forallb_forall; intros Hp x Hx;
    rewrite Forall_forall in IH; (apply IH; [by apply list_elem_of_In|by apply Hp]).
Qed.
