(* ===== verification/F64Text.v ===== *)
(** Binary64 numbers as JSON text: the shortest digits that read back, laid
    out as [serde_json] does, and the correctly rounded reading. It is the
    concrete text form of [f64] behind the witnesses of [RefCrates.v]. *)

From S2P Require Import Prelude Json.
From Stdlib Require Import Floats.SpecFloat.

Module F64Text.

#[export] Instance spec_float_eq_dec : EqDecision spec_float.
Proof. solve_decision. Defined.

(** * Reading *)

(** The nearest binary64 number of [d * 10^e], ties to even: of a quotient
    some sixty bits are kept, and one that says whether there were more. *)
Definition nearest (negative : bool) (d e : Z) : spec_float :=
  let signed z := if negative then - z else z in
  if d =? 0 then S754_zero negative
  else if 0 <=? e then binary_normalize 53 1024 (signed (d * 10 ^ e)) 0 negative
  else
    let den := 10 ^ (- e) in
    let shift := Z.max 0 (66 + Z.log2 den - Z.log2 d) in
    let num := d * 2 ^ shift in
    binary_normalize 53 1024 (signed (2 * (num / den) + (if num mod den =? 0 then 0 else 1))) (- shift - 1) negative.

Definition exponent_value (s : string) : option Z :=
  match s with
  | String "-" s => Z.opp <$> dec_value 0 s
  | String "+" s => dec_value 0 s
  | _ => dec_value 0 s
  end.
(** A number of the grammar ([real_text], or an integer). *)
Definition read_unsigned (negative : bool) (s : string) : option spec_float :=
  let '(mantissa, exponent) :=
    match split_on "e" (string_map (λ c, if bool_decide (c = "E"%char) then "e"%char else c) s) with
    | [m; e] => (m, e)
    | _ => (s, "0")
    end in
  let '(whole, fraction) := match split_on "." mantissa with [w; f] => (w, f) | _ => (mantissa, "") end in
  d ← dec_value 0 (whole +:+ fraction);
  e ← exponent_value exponent;
  match nearest negative d (e - Z.of_nat (String.length fraction)) with S754_infinity _ => None | x => Some x end.
Definition read (s : string) : option spec_float :=
  match s with String "-" s => read_unsigned true s | _ => read_unsigned false s end.

(** * Writing *)

(** [n] significant digits of [num / den], nearest first; [k] of them stand
    before the point. *)
Definition candidates (num den : Z) (n k : Z) : list (Z * Z) :=
  let scale := n - k in
  let num := if 0 <=? scale then num * 10 ^ scale else num in
  let den := if 0 <=? scale then den else den * 10 ^ (- scale) in
  let q := num / den in
  let up := if q + 1 =? 10 ^ n then (10 ^ (n - 1), k + 1) else (q + 1, k) in
  if 2 * (num mod den) <=? den then [(q, k); up] else [up; (q, k)].
(** The digits before the point of [num / den], from a lower estimate. *)
Fixpoint whole_digits (fuel : nat) (num den k : Z) : Z :=
  match fuel with
  | O => k
  | S fuel =>
      let below := if 0 <=? k then num <? den * 10 ^ k else num * 10 ^ (- k) <? den in
      if below then k else whole_digits fuel num den (k + 1)
  end.

Definition zeros_text (n : Z) : string := Nat.iter (Z.to_nat n) (String "0") "".
Definition signed_text (z : Z) : string := if z <? 0 then String "-" (dec_string (- z)) else dec_string z.
(** The digits of [q], [k] of them before the point. *)
Definition layout (q k : Z) : string :=
  let digits := dec_string q in
  let n := Z.of_nat (String.length digits) in
  if (n <=? k) && (k <=? 16) then digits +:+ zeros_text (k - n) +:+ ".0"
  else if (0 <? k) && (k <=? 16)
  then String.substring 0 (Z.to_nat k) digits +:+ "." +:+ String.substring (Z.to_nat k) (String.length digits) digits
  else if (-5 <? k) && (k <=? 0) then "0." +:+ zeros_text (- k) +:+ digits
  else if n =? 1 then digits +:+ "e" +:+ signed_text (k - 1)
  else String.substring 0 1 digits +:+ "." +:+ String.substring 1 (String.length digits) digits +:+ "e" +:+ signed_text (k - 1).

(** The first text of [n] to [n + fuel] digits that reads back. *)
Fixpoint shortest (fuel : nat) (n num den k : Z) (x : spec_float) : option string :=
  match fuel with
  | O => None
  | S fuel =>
      match List.find (λ t, bool_decide (read t = Some x)) ((λ '(q, k), layout q k) <$> candidates num den n k) with
      | Some t => Some t
      | None => shortest fuel (n + 1) num den k x
      end
  end.
(** Seventeen digits tell all binary64 numbers apart. *)
Definition write (x : spec_float) : option string :=
  match x with
  | S754_zero s => Some (if s then "-0.0" else "0.0")
  | S754_finite s m e =>
      let num := if 0 <=? e then Zpos m * 2 ^ e else Zpos m in
      let den := if 0 <=? e then 1 else 2 ^ (- e) in
      let k := whole_digits 4 num den ((Z.log2 num - Z.log2 den) * 30103 / 100000) in
      t ← shortest 17 1 num den k (S754_finite false m e); Some (if s then String "-" t else t)
  | S754_infinity _ | S754_nan => None
  end.

(** [Serialize] and [Deserialize] of [f64]: what is no number is [null], an
    integer is read as the nearest float. *)
Definition f64_json : codec spec_float :=
  Codec (λ x, match write x with Some t => JReal t | None => JNull end)
    (λ j, match j with JReal t => read t | JNum z => Some (binary_normalize 53 1024 z 0 false) | _ => None end).

Example texts :
  write <$> [S754_finite false 7205759403792794 (-57); binary_normalize 53 1024 60000 0 false;
             binary_normalize 53 1024 (-1234567) (-10) false; nearest false 1 21; nearest false 12345 (-12);
             S754_finite false 1 (-1074)]
  = [Some "0.05"; Some "60000.0"; Some "-1205.6318359375"; Some "1e21"; Some "1.2345e-8"; Some "5e-324"].
Proof. vm_compute. reflexivity. Qed.

End F64Text.
