(* ===== verification/RefCrates.v ===== *)
(** Concrete functions for every crate class of [Crates.v], [Pset.v],
    [Wire.v] and [Venue.v]. The hashes, the hex codec and the script bytes
    are the real ones; JSON and URLs are read in the plain forms the sources'
    tests use; keys, signatures and addresses are stand-ins with the laws the
    theorems name (a signature verifies under its key only, text forms read
    back). Transactions and frames are looked up in a table, so that a
    witness can name its own. *)

From S2P Require Import Prelude Http Json Crates Wire WireCodec Key Pset Approval LendingData FieldsLib Venue Sha256.
From S2P Require Import ShortId Identity IdentityCodec IdentitySpec Payjoin PayjoinCodec VenueDrill.
From S2P Require Import F64Text.
From S2P Require Export RefJson.

Module Ref.

#[export] Instance hashes : HashesApi := {| sha256 := sha256_fun; tagged_hash := tagged_sha256 |}.

(** * Hex *)

Fixpoint hex_text (l : list byte) : string :=
  match l with
  | [] => EmptyString
  | b :: l => String (hex_lower (byte_Z b / 16)) (String (hex_lower (byte_Z b mod 16)) (hex_text l))
  end.
Fixpoint hex_bytes (s : string) : option (list byte) :=
  match s with
  | EmptyString => Some []
  | String a (String b s) =>
      x ← hex_val a; y ← hex_val b; l ← hex_bytes s; Some (Z_byte (16 * x + y) :: l)
  | _ => None
  end.
#[export] Instance hex : HexApi :=
  {| hex_encode := hex_text; hex_decode_to_slice := λ n s, l ← hex_bytes s; to_array n l |}.

Lemma hex_bytes_text l : hex_bytes (hex_text l) = Some l.
Proof.
  induction l as [|b l IH]; [done|]. simpl. pose proof (byte_Z_bound b).
  rewrite !hex_val_lower.
  - simpl. rewrite IH. simpl. by rewrite <-Z.div_mod, Z_byte_of by lia.
  - split; [apply Z.div_pos|apply Z.div_lt_upper_bound]; lia.
  - by apply Z.mod_pos_bound.
Qed.
Lemma hex_roundtrip n (a : bytesN n) : hex_decode_to_slice n (hex_encode (slice a)) = Some a.
Proof. simpl. rewrite hex_bytes_text. simpl. apply to_array_proj. Qed.

(** * Keys and signatures

    A key pair is its 32-byte public key; a signature names its digest and its key. *)

#[export] Instance schnorr : SchnorrApi :=
  {| Keypair := bytes32; Signature := bytes32 * bytes32;
     keypair_from_seckey := Some;
     x_only_public_key := λ kp, kp;
     sign_schnorr := λ d kp, (d, kp);
     sign_schnorr_no_aux_rand := λ d kp, (d, kp);
     verify_schnorr := λ s d pk, bool_decide (s = (d, pk));
     signature_to_string := λ s, hex_text (slice s.1) +:+ hex_text (slice s.2);
     signature_parse := λ t,
       l ← hex_bytes t; d ← to_array 32 (take 32 l); pk ← to_array 32 (drop 32 l); Some (d, pk);
     xonly_from_slice := Some |}.

#[export] Instance xonly_text : XonlyText :=
  {| xonly_to_string := λ k, hex_text (slice k); xonly_from_str := λ t, l ← hex_bytes t; to_array 32 l |}.
Lemma xonly_roundtrip (k : bytes32) : xonly_from_str (xonly_to_string k) = Some k.
Proof. simpl. rewrite hex_bytes_text. simpl. apply to_array_proj. Qed.

Lemma xonly_hex_text (k : bytes32) : hex_decode_to_slice 32 (xonly_to_string k) = Some k.
Proof. apply hex_roundtrip. Qed.

Lemma hex_text_app l k : hex_text (l ++ k) = hex_text l +:+ hex_text k.
Proof. induction l as [|b l IH]; [done|]. simpl. by rewrite IH. Qed.
Lemma signature_roundtrip s : signature_parse (signature_to_string s) = Some s.
Proof.
  destruct s as [d pk]. simpl. rewrite <-hex_text_app, hex_bytes_text. simpl.
  rewrite take_app_length', drop_app_length' by (by rewrite length_bytesN).
  by rewrite !to_array_proj.
Qed.
Lemma schnorr_verifies (kp : Keypair) d :
  verify_schnorr (sign_schnorr_no_aux_rand d kp) d (x_only_public_key kp) = true.
Proof. simpl. by apply bool_decide_true. Qed.

(** * JSON, printed and read by [RefJson.v] *)

#[export] Instance json_text : JsonText := {| json_to_text := json_print; json_of_text := json_read |}.
Lemma sound_roundtrip j : json_sound j = true → json_of_text (json_to_text j) = Some j.
Proof. apply json_read_print. Qed.
Lemma text_roundtrip j : json_plain j = true → json_of_text (json_to_text j) = Some j.
Proof. intros Hj. by apply sound_roundtrip, json_plain_sound. Qed.
#[export] Instance json_api : JsonApi :=
  {| Value := json;
     json_from_str := json_read;
     json_get := λ v k, match v with JObj l => snd <$> List.find (λ kv, bool_decide (kv.1 = k)) l | _ => None end;
     json_as_str := λ v, match v with JStr s => Some s | _ => None end;
     json_as_u64 := λ v, match v with JNum z => if (0 <=? z) && (z <? 2 ^ 64) then Some z else None | _ => None end;
     json_as_array := λ v, match v with JArr l => Some l | _ => None end;
     json_is_null := λ v, match v with JNull => true | _ => false end |}.
#[export] Instance json_laws : JsonLaws.
Proof.
  intros [] n; simpl; try done. destruct (_ && _) eqn:E; [|done]. intros [= <-]. bool_inv. unfold in_u64. lia.
Qed.
#[export] Instance json_eq : JsonEqBool := {| json_eq_bool := λ v b, match v with JBool c => eqb b c | _ => false end |}.

#[export] Instance json_build : JsonBuild :=
  {| json_of_object := λ m, JObj (map_to_list m); json_of_string := JStr; json_of_bool := JBool; json_of_array := JArr;
     json_as_object := λ v, match v with JObj l => Some (list_to_map l) | _ => None end |}.
#[export] Instance json_build_laws : JsonBuildLaws.
Proof. intros m. simpl. by rewrite list_to_map_to_list. Qed.

#[export] Instance value_view : ValueView := {| value_json := λ v, v |}.
Definition opt_member (v : json) (k : string) : option string := x ← json_get v k; json_as_str x.

(** * URLs: [scheme://host[:port]path[?k=v&...]], nothing escaped *)

Fixpoint break (p : Ascii.ascii → bool) (s : string) : string * string :=
  match s with
  | EmptyString => (EmptyString, EmptyString)
  | String c s' => if p c then (EmptyString, s) else let '(a, b) := break p s' in (String c a, b)
  end.
Definition is_char (c d : Ascii.ascii) : bool := bool_decide (d = c).
Definition url_read (text : string) : option Url :=
  let '(scheme, rest) := break (is_char ":"%char) text in
  match rest with
  | String ":" (String "/" (String "/" rest)) =>
      let '(auth, rest) := break (λ c, is_char "/"%char c || is_char "?"%char c) rest in
      let '(path, query) := break (is_char "?"%char) rest in
      let '(host, port) := break (is_char ":"%char) auth in
      let path := if bool_decide (path = "") && bool_decide (scheme = "https") then "/" else path in
      let field f := let '(k, v) := break (is_char "="%char) f in
                     (k, match v with String _ v => v | _ => EmptyString end) in
      Some {| url_scheme := scheme; url_host := Some (HostDomain host); url_host_str := Some host;
              url_port := match port with String _ p => parse_uint 65535 p | _ => None end;
              url_path := path;
              url_query_pairs := match query with
                                 | String _ q => if bool_decide (q = "") then [] else field <$> split_on "&" q
                                 | EmptyString => []
                                 end |}
  | _ => None
  end.
Definition url : UrlApi := {| url_parse := url_read |}.

(** * Elements *)

(** An address is the hex of its script. *)
#[export] Instance elements : ElementsApi :=
  {| asset_from_str := λ s, l ← hex_bytes s; to_array 32 (reverse l);
     asset_from_slice := to_array 32;
     asset_to_string := λ a, hex_text (reverse (slice a));
     address_script_pubkey := hex_bytes;
     script_to_hex := hex_text;
     script_push1_slice := λ k, [x51; x20] ++ slice k;
     tap_tweak_hash := λ k m,
       tagged_sha256 "TapTweak/elements" (slice k ++ match m with Some m => slice m | None => [] end);
     xonly_add_tweak := λ k t, sha256_fun (slice k ++ slice t) |}.

(** A commitment to an asset or a value is the thing committed to, and a
    proof verifies when it says so. *)
#[export] Instance pset_types : PsetTypes :=
  {| AssetComm := bytes32; ValueComm := Z; AssetProof := bytes32; ValueProof := Z; Txid := bytes32 |}.

Definition pset_api (table : list (string * Pset)) : PsetApi :=
  {| base64_decode := λ s, Some (as_bytes s);
     pset_deserialize := λ l, snd <$> List.find (λ kv, bool_decide (as_bytes kv.1 = l)) table;
     blind_asset_proof_verify := λ p a c, bool_decide (p = a) && bool_decide (c = a);
     blind_value_proof_verify := λ p v _ c, (p =? v) && (c =? v);
     issued_asset_id := λ txid vout entropy, sha256_fun (slice txid ++ u32_be vout ++ slice entropy);
     zero_tweak := zeros 32;
     address_from_script := λ _ s, if bool_decide (s = []) then None else Some (hex_text s) |}.

#[export] Instance venue_api : VenueApi :=
  {| bip32_derive_hardened := λ seed path,
       Some (sha256_fun (seed ++ mjoin (u32_be <$> path)));
     add_xonly_tweak := λ kp t, sha256_fun (slice kp ++ slice t);
     Transaction := Pset;
     extract_tx := Some;
     taproot_key_spend_sighash := λ tx i prevouts genesis,
       tagged_sha256 "TapSighash/elements"
         (slice genesis ++ u32_be (Z.of_nat i) ++ mjoin (txo_script_pubkey <$> prevouts));
     signature_bytes := λ s, slice s.1 ++ slice s.2 |}.

(** Blinding data is not looked at; an address is its text and whether it is
    blinded. *)
#[export] Instance payjoin_types : PayjoinTypes :=
  {| AssetBlindingFactor := bytes32; ValueBlindingFactor := bytes32; Generator := bytes32;
     PedersenCommitment := bytes32; Address := string * bool; address_is_blinded := snd |}.
Definition payjoin_wire (table : list (string * Response)) : PayjoinWire :=
  {| response_from_str := λ t, snd <$> List.find (λ kv, bool_decide (kv.1 = t)) table;
     server_error_from_str := λ t, v ← json_read t; opt_member v "error" |}.

(** Hex for bytes; an address is its text after a mark. *)
Definition bytes32_c : codec bytes32 := text_c (λ b, hex_text (slice b)) (λ t, l ← hex_bytes t; to_array 32 l).
Definition marked_c : codec (string * bool) :=
  text_c (λ a : string * bool, String (if a.2 then "b" else "c")%char a.1)
    (λ t, match t with
          | String c a => if bool_decide (c = "b"%char) then Some (a, true) else if bool_decide (c = "c"%char) then Some (a, false) else None
          | EmptyString => None
          end).
#[export] Instance payjoin_scalars : PayjoinScalars :=
  {| txid_c := bytes32_c; script_c := text_c hex_text hex_bytes; asset_bf_c := bytes32_c; value_bf_c := bytes32_c;
     generator_c := bytes32_c; commitment_c := bytes32_c; address_c := marked_c;
     f64_c := F64Text.f64_json |}.

End Ref.
