(* ===== verification/Vectors.v ===== *)
(** The data of the sources' own tests, on the concrete crates of
    [RefCrates.v]: claim texts, covenant terms and the transactions a relying
    party builds, with the vectors and edge cases no test of theirs computes.
    The tests themselves are in [SessionTests.v], [FundTests.v] and
    [VenueTests.v]. *)

From S2P Require Import Prelude Http Json Crates Wire WireCodec WireCodecSpec Key Pset Approval ApprovalSpec LendingData Lending.
From S2P Require Import LendingSpec ShortId Identity IdentityCodec IdentitySpec Venue Payjoin PayjoinSpec Sha256 RefCrates.
From Stdlib Require Import Floats.SpecFloat.
Import Ref.

(** [[b; 32]] *)
Definition all32 (b : byte) : bytes32 := default (zeros 32) (to_array 32 (replicate 32 b)).
Definition id_of (s : string) : AssetId := default (zeros 32) (asset_from_str s).

(** * [short_id.rs] and [key.rs] *)

Example short_id_vector :
  short_wallet_id (hex_array 32 "0000000000000000000000000000000000000000000000000000000000000001") = "ZFKG-NS4S"
  ∧ short_wallet_id (hex_array 32 "c430e1683ac5f48d4e058e602b9ee33890830be3a92fea9f524d5763c15369d1") = "8BDR-BSWW".
Proof. split; vm_compute; reflexivity. Qed.

(** * [wire.rs] *)

#[local] Existing Instance serde_json_wire.
(** A precision that is not a byte fails the whole frame. *)
Example wide_precision_refused :
  wire_from_str (jtext "{'Notif':{'notif':{'HoldingsUpdated':{'report':{'domain':'d','as_of':1,'holdings':[{'label':'P','kind':'p','unit':'BTC','amount':1,'precision':256}]}}}}}")
  = None.
Proof. vm_compute. reflexivity. Qed.

(** * [identity.rs] *)

Definition api : IdentityClient := IdentityClient_new "https://test.liquidconnect.io/api/identity//" (Some "gate").
Definition user_key : WalletKey := {| wk_keypair := all32 x09 |}.
Definition api_replies (second : http_reply string) : list (http_reply string) :=
  [HttpOk (jtext "{'challenge':'n1'}"); second].

(** Claiming a handle: two requests, the handle the service stored; a taken
    one is the service's error; without a challenge nothing is signed. *)
Example claim_handle_vector :
  let run replies := run_http (claim_handle api user_key "Scott") replies in
  rq_url <$> (run (api_replies (HttpOk (jtext "{'handle':'scott'}")))).1
  = ["https://test.liquidconnect.io/api/identity/challenge"; "https://test.liquidconnect.io/api/identity/handle"] ∧
  (run (api_replies (HttpOk (jtext "{'handle':'scott'}")))).2 = Some (Ok "scott") ∧
  (run (api_replies (HttpStatus 409 (jtext "{'error':'taken'}")))).2
  = Some (Err "identity API refused (409): taken") ∧
  (run (api_replies (HttpOk "{}"))).2 = Some (Err "no handle in reply") ∧
  (run [HttpOk "{}"]).2 = Some (Err "no challenge in reply") ∧
  (run [HttpStatus 500 "oops"]).2 = Some (Err "identity API refused (500): no detail").
Proof. split_and!; vm_compute; reflexivity. Qed.
Example status_vector :
  (run_http (status api user_key)
     (api_replies (HttpOk (jtext "{'identity_id':'i1','email':true,'phone':false}")))).2
  = Some (Ok {| ids_identity_id := Some "i1"; ids_email := true; ids_phone := false; ids_handle := None;
                ids_short_id := None; ids_discoverability := {| by_contact_hash := false; by_handle := false |} |}).
Proof. vm_compute. reflexivity. Qed.

(** * [payjoin.rs] *)

(** The float 0.05. *)
Definition price_5_percent : f64 := S754_finite false 7205759403792794 (-57).
(** 1001 at 0.05 is 50.05: the documented fee rounds it up, the code down. *)
Example service_fee_below_documented :
  estimate_service_fee 1001 price_5_percent 100 = Some 150 ∧ documented_fee 1001 7205759403792794 57 100 = 151.
Proof. split; vm_compute; reflexivity. Qed.
(** Conversions saturate; a sum past [u64] is a panic. *)
Example service_fee_edges :
  estimate_service_fee 1000 (S754_finite true 1 0) 100 = Some 100 ∧
  estimate_service_fee 1000 S754_nan 100 = Some 100 ∧
  estimate_service_fee 1 (S754_finite false 1 80) 0 = Some (2 ^ 64 - 1) ∧
  estimate_service_fee 1 (S754_finite false 1 80) 1 = None ∧
  f64_as_u64 (u64_as_f64 (2 ^ 53 + 1)) = 2 ^ 53.
Proof. split_and!; vm_compute; reflexivity. Qed.

(** * [venue.rs] *)

Definition digest_text (r : result string bytes32) : option string :=
  match r with Ok d => Some (hex_text (slice d)) | Err _ => None end.

Definition order_v2_memo : string :=
  "{'kind':'rf/order/v2','product':'RF-BTC-USDT','side':'buy','price':'11500000000000','qty':'10000000','expiry':100,'nonce':'7','maxBps':'5','maxChain':'2200'}".
Definition order_v1_memo : string :=
  "{'kind':'rf/order/v1','product':'RF-BTC-USDT','side':'buy','price':'11500000000000','qty':'10000000','expiry':100,'nonce':'7'}".
Definition login_memo : string := "{'kind':'rf/login/v1','challenge':'c1'}".
Definition delegate_memo : string :=
  "{'kind':'rf/delegate/v1','venue':'paper.swaption.io','owner':'0303030303030303030303030303030303030303030303030303030303030303','tradePk':'0404040404040404040404040404040404040404040404040404040404040404'}".

(** * [lending.rs] *)

Definition v2_vector : bytes32 :=
  v2_terms_digest (all32 x01) (all32 x02) 50000000 3100000000000 3200000 (all32 x03) (all32 x04) (all32 x09).
Definition v4_vector : bytes32 :=
  v4_terms_digest (all32 x01) (all32 x02) 50000000 3100000000000 3200000 (all32 x03) (all32 x04) (all32 x09)
    (all32 x0a) (all32 x0b) 3199500.
Definition offer_row_vector : OfferRowClaim :=
  {| row_collateral := all32 x01; row_expiry := 3200000; row_price_out := 300000000;
     row_buyback := 400000000; row_fee_per_unit := 2000000; row_min_size := 1000 |}.
Definition offer_vector : bytes32 :=
  offer_terms_digest (all32 x02) (all32 x04) (all32 x09) (all32 x0c) SWAPTION_LENDING_V5_LEAF 50 3199000
    [offer_row_vector].
Example terms_vectors :
  hex_text (slice v2_vector) = "bda46f0bcef2adbddb585b1f42219062f169a3b120fdd12296c30832b9f2f9a7" ∧
  hex_text (slice v4_vector) = "d9699f759118692dced610a96f6bf6ce2955da0c67263db3a00eaa39bc9d5d5f" ∧
  hex_text (slice offer_vector) = "0aa14f32b317261a0ad1b6155f73bc367bbc49743b2915f4ff9aa3990abcab98".
Proof. split_and!; vm_compute; reflexivity. Qed.

Definition LBTC : AssetId := id_of "144c654344aa716d6f3abcc1ca90e5641e4e2a7f633bc09fe3baf64585819a49".
Definition USDT : AssetId := id_of "b612eb46313a2cd6ebabd8b7a8eed5696e29898b87a43bff41c94f51acef9d73".
Definition NFT : AssetId := all32 x33.
Definition LENDER_TOKEN : AssetId := all32 x44.
Definition spk (tag : byte) : Script := [x51; x20] ++ replicate 32 tag.
Definition txout (asset : AssetId) (value : Z) (script : Script) : TxOut :=
  {| txo_asset := AssetExplicit asset; txo_value := ValueExplicit value; txo_script_pubkey := script |}.
Definition txin (tag : byte) (vout : Z) (prevout : TxOut) : PsetInput :=
  {| in_previous_txid := all32 tag; in_previous_output_index := vout; in_witness_utxo := Some prevout;
     in_asset := None; in_amount := None; in_blind_asset_proof := None; in_blind_value_proof := None;
     in_issuance_value_amount := None; in_blinded_issuance := None; in_issuance_inflation_keys := None;
     in_issuance_blinding_nonce := None; in_issuance_asset_entropy := None; in_final_script_witness := None |}.
(** [pset::Output::from_txout] *)
Definition out (asset : AssetId) (value : Z) (script : Script) : PsetOutput :=
  {| out_script_pubkey := script; out_asset := Some asset; out_amount := Some value; out_asset_comm := None;
     out_amount_comm := None; out_blind_asset_proof := None; out_blind_value_proof := None |}.
Definition usdt_text : string := "b612eb46313a2cd6ebabd8b7a8eed5696e29898b87a43bff41c94f51acef9d73".
Definition lbtc_text : string := "144c654344aa716d6f3abcc1ca90e5641e4e2a7f633bc09fe3baf64585819a49".
Definition token_text : string := "4444444444444444444444444444444444444444444444444444444444444444".
Definition claim_of (memo : string) : TypedFund :=
  match parse_typed_fund (jtext memo) with Some (Ok f) => f | _ => OfferCancel LBTC 0 0 LBTC end.
(** The template named ["t"] is the transaction given. *)
Definition checks (f : TypedFund) (template : Pset) (asset : string) (amount : Z) (mine : list nat)
    (owned : list OwnedInput) : result string TypedFundCheck :=
  @verify_typed_fund _ _ _ (pset_api [("t", template)]) f "t" asset amount LBTC mine owned.

(** ** A fill, as the relying party builds it *)

Definition metadata (cash : AssetId) (buyback expiry : Z) : Script :=
  [x6a; x4c; x50] ++ [x01; x02; x03; x04] ++ slice cash ++ reverse (u64_be buyback) ++ reverse (u32_be expiry)
    ++ replicate 32 x09.
Definition fill_template : Pset :=
  {| pset_inputs := [txin x11 0 (txout USDT 4000000000000 (spk xaa)); txin x12 0 (txout LBTC 1000 (spk xab))];
     pset_outputs := [out LBTC 50000000 (spk xc0); out NFT 1 (spk x01); out NFT 1 (spk xaa);
                      out LBTC 0 (metadata USDT 3100000000000 3200000); out USDT 2997000000000 (spk x01);
                      out USDT 1003000000000 (spk xaa); out LBTC 1000 []] |}.
Definition fill_memo : string :=
  "{'kind':'sw/lend/fill/v1','size':'50000000','sale':'3000000000000','buyback':'3100000000000','expiry':3200000,'cash':'"
    +:+ usdt_text +:+ "','fee':'3000000000'}".

(** ** Exercises *)

Definition exercise_template (remaining : bool) : Pset :=
  {| pset_inputs := [txin x21 1 (txout NFT 1 (spk x01)); txin x22 0 (txout LBTC 50000000 (spk xc0))];
     pset_outputs :=
       (if remaining
        then [out NFT 1 (spk x01); out LBTC 25000000 (spk xc1); out USDT 1550000000000 (spk xaa); out LBTC 24999500 (spk x01)]
        else [out NFT 1 ([x6a; x04] ++ as_bytes "burn"); out USDT 3100000000000 (spk xaa); out LBTC 49999500 (spk x01)])
       ++ [out LBTC 500 []] |}.
Definition owned_nft : list OwnedInput := [{| oi_index := 0; oi_asset := NFT; oi_amount := 1 |}].

(** ** An offer in two coins, with the lender token *)

Definition offer_claim : TypedFund :=
  Offer USDT [20000; 5000] LENDER_TOKEN (sha256 (claim_script LENDER_TOKEN)) (all32 x0c) SWAPTION_LENDING_V5_LEAF
    50 3199000
    [{| row_collateral := LBTC; row_expiry := 3200000; row_price_out := 300000000; row_buyback := 400000000;
        row_fee_per_unit := 2000000; row_min_size := 1000 |}] (Some 2).

(** The JSON text of the claim; [leaf] is the position program it names. *)
Definition offer_claim_json_with (leaf : list byte) (amounts : list Z) (token_output : option Z) : string :=
  "{'kind':'sw/lend/offer/v1','cash':'" +:+ usdt_text +:+ "','amounts':["
    +:+ String.concat "," ((λ a, "'" +:+ dec_string a +:+ "'") <$> amounts) +:+ "],'lender_token':'" +:+ token_text
    +:+ "','claim':'" +:+ hex_text (slice (sha256 (claim_script LENDER_TOKEN)))
    +:+ "','fee_script':'" +:+ hex_text (replicate 32 x0c) +:+ "','position_leaf':'" +:+ hex_text leaf
    +:+ "','fee_min':'50','cutoff':3199000,'rows':[{'collateral':'" +:+ lbtc_text
    +:+ "','expiry':3200000,'price_out':'300000000','buyback':'400000000','fee_per_unit':'2000000','min_size':'1000'}],'token_output':"
    +:+ from_option dec_string "null" token_output +:+ "}".
Definition offer_claim_json : list Z → option Z → string := offer_claim_json_with (slice SWAPTION_LENDING_V5_LEAF).

(** The covenant of an offer claim for a coin of [a]. *)
Definition covenant (claim : TypedFund) (a : Z) : Script :=
  match claim with
  | Offer cash _ lender_token claim_hash fee_script position_leaf fee_min cutoff rows _ =>
      offer_script (offer_terms_digest cash lender_token claim_hash fee_script position_leaf fee_min cutoff rows) a
  | _ => []
  end.
(** A first post (with the token) or a later one. *)
Definition offer_template (amounts : list Z) (token_output : bool) : Pset :=
  let claim := claim_of (offer_claim_json amounts (if token_output then Some (Z.of_nat (length amounts)) else None)) in
  {| pset_inputs := (if token_output then [txin x31 0 (txout LENDER_TOKEN 1 (spk xaa))] else [])
                      ++ [txin x32 0 (txout LBTC 100000 (spk xab))];
     pset_outputs := ((λ a, out USDT a (covenant claim a)) <$> amounts)
                       ++ (if token_output then [out LENDER_TOKEN 1 (spk x01)] else [])
                       ++ [out LBTC (100000 - 700) (spk xab); out LBTC 700 []] |}.
Definition offer_coin_script : Z → Script := covenant offer_claim.
Definition two_coin_template : Pset := offer_template [20000; 5000] true.

(** ** A fill drawn from an offer coin *)

Definition v6_payout : bytes32 := sha256 (claim_script LENDER_TOKEN).
Definition v6_claim : TypedFund :=
  FillV6 2000000 120000000000 124200000000 2600984 USDT (Some LBTC) 300000000 v6_payout (all32 x0b) 2600484
    LENDER_TOKEN.
Definition fill_v6_template (payout lastlook : bytes32) : Pset :=
  let digest := v5_terms_digest LBTC USDT 2000000 124200000000 2600984 NFT LENDER_TOKEN payout (sha256 (spk x01))
                  lastlook 2600484 in
  {| pset_inputs := [txin x41 0 (txout USDT 2500000000000 (spk xcc)); txin x42 0 (txout NFT 1 (spk xaa));
                     txin x43 0 (txout LBTC 100000 (spk xab))];
     pset_outputs := [out LBTC 2000000 (v5_position_script digest 124200000000); out NFT 1 (spk x01);
                      out USDT (2500000000000 - 120300000000) (spk xcd); out USDT 600000000 (spk xfe);
                      out USDT 119700000000 (spk x01); out LBTC (100000 - 450) (spk xab); out LBTC 450 []] |}.
Definition v6_template : Pset := fill_v6_template v6_payout (all32 x0b).

(** ** A cancelled offer and a collection *)

Definition owned_token : list OwnedInput := [{| oi_index := 0; oi_asset := LENDER_TOKEN; oi_amount := 1 |}].
Definition cancel_template : Pset :=
  {| pset_inputs := [txin x51 1 (txout LENDER_TOKEN 1 (spk x01)); txin x52 2 (txout USDT 1600000000000 (spk xcc))];
     pset_outputs := [out LENDER_TOKEN 1 (spk x01); out USDT 1600000000000 (spk x01); out LBTC 230 []] |}.
Definition collect_template : Pset :=
  {| pset_inputs := [txin x61 0 (txout LENDER_TOKEN 1 (spk x01)); txin x62 0 (txout USDT 1200000000000 (spk xcc));
                     txin x63 0 (txout LBTC 2000000 (spk xcc))];
     pset_outputs := [out LENDER_TOKEN 1 (spk x01); out USDT 1200000000000 (spk x01); out LBTC 2000000 (spk x01);
                      out LBTC 330 []] |}.
