(* ===== verification/SessionTests.v ===== *)
(** The sources' own tests of the session core and the wire
    ([lc-wallet-core/src/core.rs] and [wire.rs], [mod tests]), replayed on the
    model: each [#[test]] is the boolean of its assertions on the concrete
    crates of [RefCrates.v], and the examples compute them. A test that panics
    (an [unwrap] of a failure) is [false]. *)

From S2P Require Import Prelude Json Crates Wire WireCodec WireCodecSpec Key Link SessionData Session ShortId Identity Payjoin PayjoinCodec RefCrates Vectors.
Import Ref.

#[local] Existing Instance serde_json_wire.
#[local] Existing Instance Ref.url.

(** [s.repeat(n)], and [==] as a boolean. *)
Definition repeat_str (n : nat) (s : string) : string := Nat.iter n (String.append s) "".
Infix "==?" := (λ a b, bool_decide (a = b)) (at level 70, only parsing).
(** [o.unwrap()] under an assertion [f]. *)
Definition unwraps {A} (o : option A) (f : A → bool) : bool := match o with Some a => f a | None => false end.
Definition unwraps_ok {E A} (r : result E A) (f : A → bool) : bool := match r with Ok a => f a | Err _ => false end.
(** [let err = r.unwrap_err(); assert!(err.to_string().contains(text))] *)
Definition refuses {A} (text : string) (r : result string A) : bool :=
  match r with Ok _ => false | Err e => str_contains text e end.

(** * [core.rs] *)

Module CoreTests.

Definition test_core : option core :=
  core_new {| install_bytes := default (zeros 16) (to_array 16 (replicate 16 x01)) |} "ct(dummy-descriptor)"
    <$> WalletKey_new (replicate 32 x07) LiquidTestnet.

Definition sent_frames (effects : list effect) : list string :=
  omap (λ e, match e with Effect.Send data => Some data | _ => None end) effects.

(** A test is a list of calls of [handle], each with what is asserted of the
    core and the effects it leaves; a link is parsed and unwrapped first. *)
Definition assertion : Type := core → list effect → bool.
Inductive line :=
| Handle (i : input) (asserts : assertion)
| Open (link : string) (asserts : assertion).
Definition line_input (l : line) : option (input * assertion) :=
  match l with
  | Handle i a => Some (i, a)
  | Open text a => match parse_app_link text with Ok l => Some (Input.AppLink l, a) | Err _ => None end
  end.
Fixpoint replay (lines : list line) (s : core) : bool :=
  match lines with
  | [] => true
  | l :: lines =>
      unwraps (line_input l) (λ '(i, asserts),
        let '(s, effects) := handle i s in asserts s effects && replay lines s)
  end.
Definition test (lines : list line) : bool := unwraps test_core (replay lines).

Definition any_thing : assertion := λ _ _, true.
Definition effect_any (p : effect → bool) : assertion := λ _ effects, existsb p effects.
Definition sends_nothing : assertion := λ _ effects, sent_frames effects ==? [].
(** [frames.len() == 1] and [frames[0].contains(..)] of each text. *)
Definition sends_one (texts : list string) : assertion := λ _ effects,
  match sent_frames effects with
  | [frame] => forallb (λ t, str_contains t frame) texts
  | _ => false
  end.
Definition first_contains (text : string) : assertion := λ _ effects,
  unwraps (sent_frames effects !! 0%nat) (str_contains text).
Definition both (a b : assertion) : assertion := λ s effects, a s effects && b s effects.

Definition connect : line := Handle (Input.Transport Connected) any_thing.
Definition disconnect : line := Handle (Input.Transport Disconnected) any_thing.
Definition recv (text : string) (a : assertion) : line := Handle (Input.Transport (Recv text)) a.
Definition empty_login : string := jtext "{'Resp':{'id':0,'resp':{'Login':{'sessions':[],'sign_requests':[]}}}}".
Definition notif_text (created request : string) : string :=
  jtext ("{'Notif':{'notif':{'" +:+ created +:+ "':{'request':" +:+ request +:+ "}}}}").

Definition connect_drives_challenge_then_login : bool := test
  [Handle (Input.Transport Connected) (λ _ effects,
     sent_frames effects ==? [jtext "{'Req':{'id':0,'req':{'Challenge':{}}}}"]);
   recv (jtext "{'Resp':{'id':0,'resp':{'Challenge':{'challenge':'n1'}}}}")
     (sends_one [jtext "'Login'"; "public_key"; "install_id"])].

Definition offline_approvals_replay_after_login : bool := test
  [Handle (Input.LoginAccepted "r1" None) sends_nothing;
   connect;
   recv empty_login (sends_one ["AcceptLoginRequest"; "dummy-descriptor"])].

Definition descriptor_travels_only_on_accept : bool := test
  [connect;
   Open "liquidconnect://login/?request_id=r9" (λ _ effects,
     forallb (λ frame, negb (str_contains "descriptor" frame)) (sent_frames effects));
   Handle (Input.LoginAccepted "r9" None) (first_contains "dummy-descriptor")].

Definition sign_message_notif (id digest description : string) : string :=
  notif_text "SignMessageRequestCreated"
    ("{'request_id':'" +:+ id +:+ "','domain':'swaption.io','digest':'" +:+ digest +:+ "','description':"
       +:+ description +:+ ",'ttl':60000}").
(** The accept frame of [s1], whose signature verifies over [[0x11; 32]]. *)
Definition signed_by_wallet (frame : string) : bool :=
  unwraps (service_read frame) (λ m,
    match to_req m with
    | Req.UserAction (UserAction.AcceptSignMessageRequest request_id signature) =>
        (request_id ==? "s1") &&
        unwraps (signature_parse signature) (λ signature,
          unwraps (WalletKey_new (replicate 32 x07) LiquidTestnet) (λ key,
            verify_schnorr signature (all32 x11) (wk_public_key key)))
    | _ => false
    end).
Definition sign_message_approval_signs_the_stored_digest : bool :=
  let digest_hex := repeat_str 32 "11" in
  test
  [connect;
   recv (sign_message_notif "s1" digest_hex "'Sell 0.001 BTC'") (λ s effects,
     existsb (λ e, match e with Effect.AddSignMessageRequest _ => true | _ => false end) effects &&
     unwraps (get_sign_message_request s "s1") (λ r, smr_digest r ==? digest_hex));
   Handle (Input.SignMessageAccepted "nope") sends_nothing;
   Handle (Input.SignMessageAccepted "s1") (λ _ effects,
     match sent_frames effects with [frame] => signed_by_wallet frame | _ => false end);
   recv (sign_message_notif "s9" digest_hex "'typed order'") any_thing;
   Handle (Input.SignMessageSigned "s9" (repeat_str 64 "cd")) (sends_one [repeat_str 64 "cd"]);
   Handle (Input.SignMessageSigned "gone" (repeat_str 64 "cd")) sends_nothing;
   recv (sign_message_notif "s2" digest_hex "null") any_thing;
   Handle (Input.SignMessageRejected "s2") (first_contains "CancelSignMessageRequest")].

Definition login_resp_syncs_sign_message_requests : bool := test
  [connect;
   recv (jtext ("{'Resp':{'id':0,'resp':{'Login':{'sessions':[],'sign_requests':[],'sign_message_requests':[{'request_id':'p1','domain':'swaption.io','digest':'"
           +:+ repeat_str 32 "22" +:+ "','description':'pending order','ttl':60000}]}}}}"))
     (effect_any (λ e, match e with Effect.AddSignMessageRequest r => smr_request_id r ==? "p1" | _ => false end));
   disconnect; connect;
   recv empty_login
     (effect_any (λ e, match e with Effect.RemoveSignMessageRequest id => id ==? "p1" | _ => false end))].

Definition paper : string := "paper.swaption.io".
Definition holdings_updated (report : string) : string :=
  jtext ("{'Notif':{'notif':{'HoldingsUpdated':{'report':" +:+ report +:+ "}}}}").
Definition sets_holdings (p : HoldingsReport → bool) : assertion :=
  effect_any (λ e, match e with Effect.SetHoldings report => p report | _ => false end).
Definition clears_holdings : assertion :=
  both (effect_any (λ e, match e with Effect.ClearHoldings domain => domain ==? paper | _ => false end))
       (λ s _, Nat.eqb (size s.(holdings)) 0).
Definition holdings_follow_login_and_notifications : bool :=
  let report := "{'domain':'paper.swaption.io','as_of':1788619197000,'holdings':[{'label':'Margin balance','kind':'balance','asset_id':null,'unit':'USDt','amount':999417000000,'precision':8}]}" in
  test
  [connect;
   recv (jtext ("{'Resp':{'id':0,'resp':{'Login':{'sessions':[],'sign_requests':[],'holdings':[" +:+ report +:+ "]}}}}"))
     (both (sets_holdings (λ r, (hr_domain r ==? paper) && unwraps (hr_holdings r !! 0%nat) (λ h, hold_amount h =? 999417000000)))
           (λ _ effects, forallb (λ f, negb (str_contains "Holdings" f)) (sent_frames effects)));
   recv (holdings_updated "{'domain':'paper.swaption.io','as_of':1788619200000,'holdings':[{'label':'Position','kind':'position','asset_id':null,'unit':'BTC','amount':-5,'precision':8}]}")
     (both (sets_holdings (λ r, match hr_holdings r with [h] => hold_amount h =? -5 | _ => false end))
           (λ s _, unwraps (s.(holdings) !! paper) (λ r, unwraps (hr_holdings r !! 0%nat) (λ h, hold_label h ==? "Position"))));
   recv (holdings_updated "{'domain':'paper.swaption.io','as_of':1788619300000,'holdings':[]}") clears_holdings;
   recv (holdings_updated report) (λ s _, Nat.eqb (size s.(holdings)) 1);
   disconnect; connect;
   recv empty_login clears_holdings].

(** A request notification, the accept that answers it and its cancel. *)
Definition asset_two : string := repeat_str 64 "2".
Definition pay_request (id amount memo : string) : string :=
  "{'request_id':'" +:+ id +:+ "','domain':'swaption.io','recipient':'tlq1qqw508d6qejxtdg4y5r3zarvary0c5xw7kct5v9fs','asset_id':'"
    +:+ asset_two +:+ "','amount':" +:+ amount +:+ ",'memo':" +:+ memo +:+ ",'ttl':120000}".
Definition adds_pay (id : string) : assertion :=
  effect_any (λ e, match e with Effect.AddPayRequest r => pr_request_id r ==? id | _ => false end).
Definition pay_approval_relays_the_host_built_txid : bool := test
  [connect;
   recv (notif_text "PayRequestCreated" (pay_request "p1" "100000" "'RF deposit'"))
     (both (adds_pay "p1") (λ s _, unwraps (get_pay_request s "p1") (λ stored,
        (pr_amount stored =? 100000) && (pr_memo stored ==? Some "RF deposit"))));
   Handle (Input.PayBuilt "nope" (repeat_str 32 "cd")) sends_nothing;
   Handle (Input.PayBuilt "p1" (repeat_str 32 "cd")) (sends_one ["AcceptPayRequest"; repeat_str 32 "cd"]);
   recv (notif_text "PayRequestCreated" (pay_request "p2" "1" "null")) any_thing;
   Handle (Input.PayRejected "p2") (first_contains "CancelPayRequest")].

Definition fund_request (id amount memo : string) : string :=
  "{'request_id':'" +:+ id +:+ "','domain':'paper.swaption.io','template':'cHNldP8BAgQCAAAA','asset_id':'"
    +:+ asset_two +:+ "','amount':" +:+ amount +:+ ",'memo':" +:+ memo +:+ ",'ttl':180000}".
Definition fund_approval_relays_the_host_funded_pset : bool := test
  [connect;
   recv (notif_text "FundRequestCreated" (fund_request "f1" "2499000000" "'Deposit 24.99 USDT into Rolling Future'"))
     (both (effect_any (λ e, match e with Effect.AddFundRequest r => fr_request_id r ==? "f1" | _ => false end))
           (λ s _, unwraps (get_fund_request s "f1") (λ stored,
              (fr_amount stored =? 2499000000) && (fr_template stored ==? "cHNldP8BAgQCAAAA"))));
   Handle (Input.FundSigned "nope" "AAAA") sends_nothing;
   Handle (Input.FundSigned "f1" "ZnVuZGVk") (sends_one ["AcceptFundRequest"; "ZnVuZGVk"]);
   recv (notif_text "FundRequestCreated" (fund_request "f2" "1" "null")) any_thing;
   Handle (Input.FundRejected "f2") (first_contains "CancelFundRequest")].

Definition login_resp_syncs_pay_requests : bool := test
  [connect;
   recv (jtext ("{'Resp':{'id':0,'resp':{'Login':{'sessions':[],'sign_requests':[],'pay_requests':[{'request_id':'p1','domain':'swaption.io','recipient':'tlq1qqw508d6qejxtdg4y5r3zarvary0c5xw7kct5v9fs','asset_id':'"
           +:+ asset_two +:+ "','amount':100000,'memo':null,'ttl':60000}]}}}}"))
     (adds_pay "p1");
   disconnect; connect;
   recv empty_login (effect_any (λ e, match e with Effect.RemovePayRequest id => id ==? "p1" | _ => false end))].

Definition minimizes : assertion := effect_any (λ e, match e with Effect.MinimizeMobileApp => true | _ => false end).
Definition minimize_fires_only_for_mobile_links : bool := test
  [Open "liquidconnect://login/?request_id=m1&mobile=true" any_thing;
   Handle (Input.LoginAccepted "m1" None) minimizes;
   Open "liquidconnect://login/?request_id=q1" any_thing;
   Handle (Input.LoginAccepted "q1" None) (λ s effects, negb (minimizes s effects))].

Definition refused_action_surfaces_with_its_action : bool := test
  [connect;
   Open "liquidconnect://login/?request_id=nope" any_thing;
   recv (jtext "{'Error':{'id':1,'err':{'code':'InvalidRequest','message':'protocol error: unknown or expired login request — ask the site for a fresh link'}}}")
     (λ _ effects,
        unwraps (head (omap (λ e, match e with Effect.ActionFailed a m => Some (a, m) | _ => None end) effects))
          (λ '(action, message),
             match action with UserAction.LinkLoginRequest id => id ==? "nope" | _ => false end &&
             str_contains "unknown or expired login request" message))].

Example core_tests_pass :
  forallb id
    [connect_drives_challenge_then_login; offline_approvals_replay_after_login; descriptor_travels_only_on_accept;
     sign_message_approval_signs_the_stored_digest; login_resp_syncs_sign_message_requests;
     holdings_follow_login_and_notifications; pay_approval_relays_the_host_built_txid;
     fund_approval_relays_the_host_funded_pset; login_resp_syncs_pay_requests; minimize_fires_only_for_mobile_links;
     refused_action_surfaces_with_its_action] = true.
Proof. vm_compute. reflexivity. Qed.

End CoreTests.

(** * [wire.rs] *)

Module WireTests.

Definition written (m : wire_to) (text : string) : bool := wire_to_string m ==? jtext text.
Definition action_to (id : Z) (a : user_action) : wire_to := {| to_id := id; to_req := Req.UserAction a |}.
(** The notification a text holds, matched. *)
Definition notif_read (text : string) (p : notif → bool) : bool :=
  unwraps (wire_from_str (jtext text)) (λ m, match m with From.Notif n => p n | _ => false end).
Definition login_resp_read (text : string) (p : LoginResp → bool) : bool :=
  unwraps (j ← json_of_text (jtext text); dec login_resp_c j) p.
Definition is_nil {A} (l : list A) : bool := match l with [] => true | _ => false end.

Definition frame_shapes_are_exactly_the_wire_format : bool :=
  written {| to_id := 0; to_req := Req.Challenge |} "{'Req':{'id':0,'req':{'Challenge':{}}}}" &&
  written (action_to 3 (UserAction.LinkLoginRequest "r1"))
    "{'Req':{'id':3,'req':{'UserAction':{'action':{'LinkLoginRequest':{'request_id':'r1'}}}}}}" &&
  written (action_to 7 (UserAction.AcceptReceiveAddressRequest "ra1" "tlq1qexample"))
    "{'Req':{'id':7,'req':{'UserAction':{'action':{'AcceptReceiveAddressRequest':{'request_id':'ra1','address':'tlq1qexample'}}}}}}" &&
  notif_read "{'Notif':{'notif':{'ReceiveAddressRequestCreated':{'request':{'request_id':'ra1','domain':'paper.swaption.io','description':'Rolling Future withdrawal','ttl':60000}}}}}"
    (λ n, match n with
          | Notif.ReceiveAddressRequestCreated r =>
              (rar_request_id r ==? "ra1") && (rar_domain r ==? "paper.swaption.io") && (as_millis (rar_ttl r) =? 60000)
          | _ => false
          end) &&
  written (action_to 8 (UserAction.AcceptAssetBalanceRequest "ab1" 1234567890))
    "{'Req':{'id':8,'req':{'UserAction':{'action':{'AcceptAssetBalanceRequest':{'request_id':'ab1','amount':1234567890}}}}}}" &&
  notif_read "{'Notif':{'notif':{'AssetBalanceRequestCreated':{'request':{'request_id':'ab1','domain':'paper.swaption.io','description':'USDT you could deposit','asset_id':'b612eb46313a2cd6ebabd8b7a8eed5696e29898b87a43bff41c94f51acef9d73','ttl':15000}}}}}"
    (λ n, match n with
          | Notif.AssetBalanceRequestCreated r =>
              (abr_request_id r ==? "ab1") && Nat.eqb (String.length (abr_asset_id r)) 64 && (as_millis (abr_ttl r) =? 15000)
          | _ => false
          end) &&
  unwraps (j ← json_of_text (jtext "{'Login':{'sessions':[],'sign_requests':[],'sign_message_requests':[],'pay_requests':[],'fund_requests':[]}}");
           dec resp_c j)
    (λ r, match r with
          | Resp.Login l => is_nil (lresp_receive_address_requests l) && is_nil (lresp_asset_balance_requests l)
                              && is_nil (lresp_holdings l)
          | _ => false
          end) &&
  notif_read "{'Notif':{'notif':{'HoldingsUpdated':{'report':{'domain':'paper.swaption.io','as_of':1788619197000,'holdings':[{'label':'Margin balance','kind':'balance','asset_id':'b612eb46313a2cd6ebabd8b7a8eed5696e29898b87a43bff41c94f51acef9d73','unit':'USDt','amount':999417000000,'precision':8},{'label':'Position','kind':'position','asset_id':null,'unit':'BTC','amount':-115997507,'precision':8}]}}}}}"
    (λ n, match n with
          | Notif.HoldingsUpdated r =>
              (hr_domain r ==? "paper.swaption.io") &&
              match hr_holdings r with
              | [_; h] => (hold_amount h =? -115997507) && (hold_asset_id h ==? None)
              | _ => false
              end
          | _ => false
          end) &&
  notif_read "{'Notif':{'notif':{'HoldingsRemoved':{'domain':'paper.swaption.io'}}}}"
    (λ n, match n with Notif.HoldingsRemoved domain => domain ==? "paper.swaption.io" | _ => false end) &&
  notif_read "{'Notif':{'notif':{'SignRequestCreated':{'request':{'request_id':'s1','domain':'example.com','pset':'cHNldP8=','ttl':60000}}}}}"
    (λ n, match n with
          | Notif.SignRequestCreated r => (sr_request_id r ==? "s1") && (as_millis (sr_ttl r) =? 60000)
          | _ => false
          end).

Definition sign_message_wire_shapes : bool :=
  written (action_to 5 (UserAction.AcceptSignMessageRequest "r1" (repeat_str 64 "ab")))
    ("{'Req':{'id':5,'req':{'UserAction':{'action':{'AcceptSignMessageRequest':{'request_id':'r1','signature':'"
       +:+ repeat_str 64 "ab" +:+ "'}}}}}}") &&
  notif_read "{'Notif':{'notif':{'SignMessageRequestCreated':{'request':{'request_id':'s1','domain':'swaption.io','digest':'1111111111111111111111111111111111111111111111111111111111111111','description':'Sell 0.001 BTC','ttl':60000}}}}}"
    (λ n, match n with
          | Notif.SignMessageRequestCreated r =>
              (smr_request_id r ==? "s1") && (smr_description r ==? Some "Sell 0.001 BTC") && (as_millis (smr_ttl r) =? 60000)
          | _ => false
          end).

Definition login_resp_back_compat : bool :=
  login_resp_read "{'sessions':[],'sign_requests':[]}" (λ r,
    is_nil (lresp_sign_message_requests r) && is_nil (lresp_pay_requests r)).

Definition pay_request_wire_shapes : bool :=
  written (action_to 7 (UserAction.AcceptPayRequest "p1" (repeat_str 32 "cd")))
    ("{'Req':{'id':7,'req':{'UserAction':{'action':{'AcceptPayRequest':{'request_id':'p1','txid':'"
       +:+ repeat_str 32 "cd" +:+ "'}}}}}}") &&
  notif_read "{'Notif':{'notif':{'PayRequestCreated':{'request':{'request_id':'p1','domain':'swaption.io','recipient':'tlq1qqw508d6qejxtdg4y5r3zarvary0c5xw7kct5v9fs','asset_id':'2222222222222222222222222222222222222222222222222222222222222222','amount':100000,'memo':'RF deposit','ttl':120000}}}}}"
    (λ n, match n with
          | Notif.PayRequestCreated r =>
              (pr_request_id r ==? "p1") && (pr_amount r =? 100000) && (pr_memo r ==? Some "RF deposit")
                && (as_millis (pr_ttl r) =? 120000)
          | _ => false
          end).

Definition fund_request_wire_shapes : bool :=
  written (action_to 9 (UserAction.AcceptFundRequest "f1" "cHNldP8BAgQCAAAA"))
    "{'Req':{'id':9,'req':{'UserAction':{'action':{'AcceptFundRequest':{'request_id':'f1','pset':'cHNldP8BAgQCAAAA'}}}}}}" &&
  notif_read "{'Notif':{'notif':{'FundRequestCreated':{'request':{'request_id':'f1','domain':'paper.swaption.io','template':'cHNldP8BAgQCAAAA','asset_id':'2222222222222222222222222222222222222222222222222222222222222222','amount':2499000000,'memo':'Deposit 24.99 USDT into Rolling Future','ttl':180000}}}}}"
    (λ n, match n with
          | Notif.FundRequestCreated r =>
              (fr_request_id r ==? "f1") && (fr_template r ==? "cHNldP8BAgQCAAAA") && (fr_amount r =? 2499000000)
                && (as_millis (fr_ttl r) =? 180000)
          | _ => false
          end) &&
  login_resp_read "{'sessions':[],'sign_requests':[]}" (λ r, is_nil (lresp_fund_requests r)).

Definition unknown_error_code_still_parses : bool :=
  unwraps (wire_from_str (jtext "{'Error':{'id':7,'err':{'code':'SomethingNew','message':'m'}}}")) (λ m,
    match m with
    | From.Error id err => (id =? 7) && match err_code err with Unknown => true | _ => false end
    | _ => false
    end).

Definition install_id_is_hex_on_the_wire : bool :=
  let i := {| install_bytes := default (zeros 16) (to_array 16 (replicate 16 xab)) |} in
  (json_to_text (enc install_id_c i) ==? jtext "'abababababababababababababababab'") &&
  unwraps (j ← json_of_text (jtext "'abababababababababababababababab'"); dec install_id_c j)
    (λ back, bool_decide (install_bytes back = install_bytes i)).

Example wire_tests_pass :
  forallb id
    [frame_shapes_are_exactly_the_wire_format; sign_message_wire_shapes; login_resp_back_compat;
     pay_request_wire_shapes; fund_request_wire_shapes; unknown_error_code_still_parses;
     install_id_is_hex_on_the_wire] = true.
Proof. vm_compute. reflexivity. Qed.

End WireTests.

(** * [link.rs] *)

Module LinkTests.

Definition link_read (text : string) (p : AppLink → bool) : bool := unwraps_ok (parse_app_link text) p.
Definition venue_read (text : string) (p : VenueLoginLink → bool) : bool := unwraps_ok (parse_venue_login_link text) p.

Definition request_link_opens_a_held_request_as_mobile : bool :=
  link_read "liquidconnect://request/?request_id=abc123&mobile=true" (λ l,
    (al_link_type l ==? LinkOpen) && (al_request_id l ==? "abc123") && al_is_mobile l) &&
  negb (is_Ok (parse_app_link "https://app.sideswap.io/request/?request_id=abc")).

Definition login_links_carry_the_site_network_when_they_say_so : bool :=
  link_read "liquidconnect://login/?request_id=abc" (λ bare, al_network bare ==? None) &&
  link_read "liquidconnect://login/?request_id=abc&network=liquid-testnet&mobile=true" (λ testnet,
    (al_network testnet ==? Some LiquidTestnet) && al_is_mobile testnet) &&
  link_read "https://app.sideswap.io/login/?request_id=abc&network=liquid" (λ mainnet,
    al_network mainnet ==? Some Liquid) &&
  negb (is_Ok (parse_app_link "liquidconnect://login/?request_id=abc&network=bitcoin")).

Definition venue_login_links_parse_and_steering_is_refused : bool :=
  venue_read "liquidconnect://venue-login?venue=paper.swaption.io&link=abc123" (λ link,
    (vl_venue link ==? "paper.swaption.io") && (vl_link_code link ==? "abc123") && (vl_network link ==? None)) &&
  venue_read "liquidconnect://venue-login?venue=paper.swaption.io&link=abc&network=liquid-testnet" (λ testnet,
    vl_network testnet ==? Some LiquidTestnet) &&
  venue_read "liquidconnect://venue-login?venue=t.swaption.io&link=abc&network=liquid" (λ mainnet,
    vl_network mainnet ==? Some Liquid) &&
  forallb (λ bad, negb (is_Ok (parse_venue_login_link bad)))
    ["liquidconnect://venue-login?venue=paper.swaption.io";
     "liquidconnect://venue-login?link=abc";
     "liquidconnect://venue-login?venue=evil.io/paper&link=abc";
     "liquidconnect://venue-login?venue=evil.io:8443&link=abc";
     "liquidconnect://venue-login?venue=https%3A%2F%2Fevil.io&link=abc";
     "liquidconnect://venue-login?venue=127.0.0.1&link=abc";
     "liquidconnect://venue-login?venue=localhost&link=abc";
     "liquidconnect://login/?request_id=abc";
     "liquidconnect://venue-login?venue=paper.swaption.io&link=abc&network=bitcoin"] &&
  negb (is_Ok (parse_app_link "liquidconnect://venue-login?venue=paper.swaption.io&link=abc")).

Definition both_login_forms_parse_and_junk_is_refused : bool :=
  link_read "liquidconnect://login/?request_id=abc123" (λ scheme,
    (al_link_type scheme ==? LinkLogin) && (al_request_id scheme ==? "abc123") && negb (al_is_mobile scheme)) &&
  link_read "https://app.sideswap.io/login/?request_id=abc123&mobile=true" (λ applink,
    (al_link_type applink ==? LinkLogin) && al_is_mobile applink) &&
  negb (is_Ok (parse_app_link "https://evil.example/login/?request_id=abc")) &&
  negb (is_Ok (parse_app_link "liquidconnect://login/")).

Example link_tests_pass :
  forallb id
    [request_link_opens_a_held_request_as_mobile; login_links_carry_the_site_network_when_they_say_so;
     venue_login_links_parse_and_steering_is_refused; both_login_forms_parse_and_junk_is_refused] = true.
Proof. vm_compute. reflexivity. Qed.

End LinkTests.

(** * [key.rs], [short_id.rs], [identity.rs] and [payjoin.rs]

    What these pin of the curve itself (the bytes of a derived public key) is
    not computed: a stand-in key pair is its own public key. *)

Module KeyTests.

Definition key_of (seed : byte) (network : Network) : option WalletKey := WalletKey_new (replicate 32 seed) network.

Definition identity_is_deterministic_and_network_separated : bool :=
  unwraps (key_of x07 LiquidTestnet) (λ a, unwraps (key_of x07 LiquidTestnet) (λ b, unwraps (key_of x07 Liquid) (λ mainnet,
    bool_decide (wk_public_key a = wk_public_key b) && negb (bool_decide (wk_public_key a = wk_public_key mainnet))))).

Definition identity_auth_digest_matches_the_shared_vector : bool :=
  hex_encode (slice (identity_auth_message "n1" "email_start" "a@b.c"))
    ==? "aa28e11b46e114abcdae01742d916ef01ad4ab14e0924c2c83c3cf192adbc80d".

Definition challenge_signature_verifies_and_binds_the_nonce : bool :=
  unwraps (key_of x09 LiquidTestnet) (λ key,
    let sig := wk_sign_challenge key "nonce-1" in
    verify_schnorr sig (get_sign_message_hash "nonce-1") (wk_public_key key) &&
    negb (verify_schnorr sig (get_sign_message_hash "nonce-2") (wk_public_key key))).

Definition not_dash (id : string) : list Ascii.ascii :=
  filter (λ c, c ≠ "-"%char) (list_ascii_of_string id).
Definition short_id_is_eight_grouped_characters_from_the_alphabet : bool :=
  unwraps (key_of x07 LiquidTestnet) (λ key,
    let id := short_wallet_id (wk_public_key key) in
    let raw := not_dash id in
    Nat.eqb (String.length id) 9 && Nat.eqb (length raw) SHORT_ID_LEN && forallb in_alphabet raw &&
    Nat.eqb (length (filter (λ c, c = "-"%char) (list_ascii_of_string id))) 1).

Definition different_keys_get_different_ids : bool :=
  unwraps (key_of x01 Liquid) (λ a, unwraps (key_of x02 Liquid) (λ b, negb (wk_short_id a ==? wk_short_id b))).

Definition normalize_forgives_what_people_type : bool :=
  unwraps (key_of x07 LiquidTestnet) (λ key,
    let id := short_wallet_id (wk_public_key key) in
    let raw := string_of_list_ascii (not_dash id) in
    let lower := to_ascii_lowercase raw in
    (normalize id ==? Some id) && (normalize raw ==? Some id) && (normalize lower ==? Some id) &&
    (normalize (" " +:+ raw +:+ " ") ==? Some id) && (normalize "zfkg ns4s" ==? Some "ZFKG-NS4S") &&
    (normalize "K7M3-9PO2" ==? Some "K7M3-9P02") && (normalize "K7M3-9PL2" ==? Some "K7M3-9P12") &&
    matches lower (wk_public_key key)).

Definition normalize_rejects_what_is_not_a_short_id : bool :=
  forallb (λ text, normalize text ==? None)
    [""; "K7M3-9PQ"; "K7M3-9PQ2-X"; "K7M3-9PQU"; "K7M3-9Pé2"; repeat_str 64 "0"].

Definition every_action_has_a_route : bool :=
  forallb (λ action, unwraps (action_path action) (λ path, negb (path ==? "")))
    ["status"; "email_start"; "email_confirm"; "phone_start"; "phone_pay"; "phone_status"; "phone_sms";
     "phone_confirm"; "discoverability"; "handle"; "id"; "contacts_discover"; "contacts_save";
     "contacts_list"; "contact_address"].

Definition request_envelope_shape_is_pinned : bool :=
  request_body RAcceptedAssets ==? jtext "{'accepted_assets':{}}".

Definition service_fee_matches_the_upstream_formula : bool :=
  bool_decide (estimate_service_fee 1000 price_5_percent 100 = Some 150) &&
  bool_decide (estimate_service_fee 0 price_5_percent 100 = Some 100).

Example key_tests_pass :
  forallb id
    [identity_is_deterministic_and_network_separated; identity_auth_digest_matches_the_shared_vector;
     challenge_signature_verifies_and_binds_the_nonce; short_id_is_eight_grouped_characters_from_the_alphabet;
     different_keys_get_different_ids; normalize_forgives_what_people_type;
     normalize_rejects_what_is_not_a_short_id; every_action_has_a_route;
     request_envelope_shape_is_pinned; service_fee_matches_the_upstream_formula] = true.
Proof. vm_compute. reflexivity. Qed.

End KeyTests.
