(* ===== verification/FundTests.v ===== *)
(** The sources' own tests of fund templates and lending claims
    ([lc-wallet-core/src/approval.rs] and [lending.rs], [mod tests]), replayed
    on the model: each [#[test]] is the boolean of its assertions on the
    concrete crates of [RefCrates.v], and the examples compute them. The
    tests of scripts pinned against a contract compiler are in
    [CurveTests.v]. *)

From S2P Require Import Prelude Json Crates Key Pset Approval LendingData Lending RefCrates Vectors SessionTests.
Import Ref.

(** * [approval.rs] *)

Module ApprovalTests.

Definition TESTNET_LBTC : string := lbtc_text.
Definition POOL_ASSET : string := repeat_str 64 "2".
Definition explicit_txout (asset : string) (value : Z) (script : Script) : TxOut := txout (id_of asset) value script.
(** [pset::Output::from_txout(explicit_txout(..))] *)
Definition explicit_out (asset : string) (value : Z) (script : Script) : PsetOutput := out (id_of asset) value script.
Definition p2wpkh (tag : byte) : Script := [x00; x14] ++ replicate 20 tag.

(** [pset_b64] names the template, which the crate's table then holds. *)
Definition summarized (tx : Pset) : result string TransactionSummary :=
  @summarize_pset _ _ (pset_api [("t", tx)]) "t" LiquidTestnet.
Definition fund_owned (tx : Pset) (asset : string) (amount : Z) (owned : list OwnedInput) : result string FundTemplateSummary :=
  @verify_fund_template_owned _ _ (pset_api [("t", tx)]) "t" asset amount owned.
Definition fund (tx : Pset) (asset : string) (amount : Z) : result string FundTemplateSummary :=
  @verify_fund_template _ _ (pset_api [("t", tx)]) "t" asset amount.

(** Field updates of [inputs_mut()] and [outputs_mut()]. *)
Definition on_input (i : nat) (f : PsetInput → PsetInput) (tx : Pset) : Pset :=
  {| pset_inputs := alter f i (pset_inputs tx); pset_outputs := pset_outputs tx |}.
Definition on_output (i : nat) (f : PsetOutput → PsetOutput) (tx : Pset) : Pset :=
  {| pset_inputs := pset_inputs tx; pset_outputs := alter f i (pset_outputs tx) |}.
Definition with_utxo (u : option TxOut) (i : PsetInput) : PsetInput :=
  {| in_previous_txid := in_previous_txid i; in_previous_output_index := in_previous_output_index i;
     in_witness_utxo := u; in_asset := in_asset i; in_amount := in_amount i;
     in_blind_asset_proof := in_blind_asset_proof i; in_blind_value_proof := in_blind_value_proof i;
     in_issuance_value_amount := in_issuance_value_amount i; in_blinded_issuance := in_blinded_issuance i;
     in_issuance_inflation_keys := in_issuance_inflation_keys i;
     in_issuance_blinding_nonce := in_issuance_blinding_nonce i;
     in_issuance_asset_entropy := in_issuance_asset_entropy i; in_final_script_witness := in_final_script_witness i |}.
(** The explicit facts and the proofs of an input's confidential row. *)
Definition with_row (asset : option AssetId) (amount : option Z) (asset_proof : option AssetProof)
    (value_proof : option ValueProof) (i : PsetInput) : PsetInput :=
  {| in_previous_txid := in_previous_txid i; in_previous_output_index := in_previous_output_index i;
     in_witness_utxo := in_witness_utxo i; in_asset := asset; in_amount := amount;
     in_blind_asset_proof := asset_proof; in_blind_value_proof := value_proof;
     in_issuance_value_amount := in_issuance_value_amount i; in_blinded_issuance := in_blinded_issuance i;
     in_issuance_inflation_keys := in_issuance_inflation_keys i;
     in_issuance_blinding_nonce := in_issuance_blinding_nonce i;
     in_issuance_asset_entropy := in_issuance_asset_entropy i; in_final_script_witness := in_final_script_witness i |}.
Definition issuing (amount : Z) (blinded : option Z) (entropy : bytes32) (i : PsetInput) : PsetInput :=
  {| in_previous_txid := in_previous_txid i; in_previous_output_index := in_previous_output_index i;
     in_witness_utxo := in_witness_utxo i; in_asset := in_asset i; in_amount := in_amount i;
     in_blind_asset_proof := in_blind_asset_proof i; in_blind_value_proof := in_blind_value_proof i;
     in_issuance_value_amount := Some amount; in_blinded_issuance := blinded; in_issuance_inflation_keys := None;
     in_issuance_blinding_nonce := Some (@zero_tweak _ (pset_api [])); in_issuance_asset_entropy := Some entropy;
     in_final_script_witness := in_final_script_witness i |}.
Definition with_script (s : Script) (o : PsetOutput) : PsetOutput :=
  {| out_script_pubkey := s; out_asset := out_asset o; out_amount := out_amount o; out_asset_comm := out_asset_comm o;
     out_amount_comm := out_amount_comm o; out_blind_asset_proof := out_blind_asset_proof o;
     out_blind_value_proof := out_blind_value_proof o |}.
Definition with_amount (amount : option Z) (comm : option ValueComm) (o : PsetOutput) : PsetOutput :=
  {| out_script_pubkey := out_script_pubkey o; out_asset := out_asset o; out_amount := amount;
     out_asset_comm := out_asset_comm o; out_amount_comm := comm; out_blind_asset_proof := out_blind_asset_proof o;
     out_blind_value_proof := out_blind_value_proof o |}.

Definition explicit_outputs_and_fee_read_back : bool :=
  unwraps_ok (summarized {| pset_inputs := [];
      pset_outputs := [explicit_out TESTNET_LBTC 1000 (p2wpkh x07); explicit_out TESTNET_LBTC 100 []] |}) (λ summary,
    match ts_outputs summary with
    | [payment; fee] =>
        ts_fully_explicit summary && (ts_fee summary ==? Some 100) && negb (os_is_fee payment) &&
        bool_decide (is_Some (os_address payment)) && (os_amount payment ==? Some 1000) &&
        (os_asset payment ==? Some TESTNET_LBTC) && os_is_fee fee
    | _ => false
    end).

Definition payjoin_annotation_marks_by_script_and_reports_misses : bool :=
  unwraps_ok (summarized {| pset_inputs := []; pset_outputs := [explicit_out TESTNET_LBTC 1000 (p2wpkh x07)] |}) (λ summary,
    unwraps (o ← ts_outputs summary !! 0%nat; os_address o) (λ paid,
      unwraps_ok (annotate_payjoin summary {| fee_address := paid |}) (λ '(summary, marked),
        Nat.eqb marked 1 && forallb os_is_payjoin_service_fee (ts_outputs summary) &&
        unwraps (@address_from_script _ (pset_api []) LiquidTestnet (p2wpkh x09)) (λ other,
          unwraps_ok (annotate_payjoin summary {| fee_address := other |}) (λ '(_, marked), Nat.eqb marked 0))))).

Definition template_input (asset : string) (value : Z) : PsetInput := txin x11 0 (explicit_txout asset value [x51]).
Definition deposit_template : Pset :=
  {| pset_inputs := [template_input POOL_ASSET 500; template_input TESTNET_LBTC 1000];
     pset_outputs := [explicit_out POOL_ASSET 750 ([x51; x20] ++ replicate 32 x03);
                      explicit_out TESTNET_LBTC 100 (p2wpkh x04); explicit_out TESTNET_LBTC 900 []] |}.

Definition fund_template_deficit_is_arithmetic_not_advisory : bool :=
  unwraps_ok (fund deposit_template POOL_ASSET 250) (λ summary,
    (fts_deficit summary =? 250) && (fts_fee summary =? 900) && Nat.eqb (fts_input_count summary) 2
      && Nat.eqb (fts_output_count summary) 3) &&
  refuses "deficit" (fund deposit_template POOL_ASSET 100) &&
  negb (is_Ok (fund deposit_template POOL_ASSET 0)).

Definition fund_template_refuses_confidential_and_missing_utxos : bool :=
  refuses "witness_utxo" (fund (on_input 0 (with_utxo None) deposit_template) POOL_ASSET 250) &&
  refuses "confidential" (fund (on_output 1 (with_amount None (Some 100)) deposit_template) POOL_ASSET 250).

Definition fund_template_refuses_undeclared_asks : bool :=
  refuses "undeclared" (fund (on_output 1 (with_amount (Some 500) None) deposit_template) POOL_ASSET 250) &&
  refuses "fee output" (fund (on_output 2 (with_script [x51]) deposit_template) POOL_ASSET 250).

Definition confidential_outputs_are_marked_not_guessed : bool :=
  let o := with_amount None (Some 1000) (explicit_out TESTNET_LBTC 1000 [x51]) in
  unwraps_ok (summarized {| pset_inputs := []; pset_outputs := [o] |}) (λ summary,
    negb (ts_fully_explicit summary) &&
    unwraps (ts_outputs summary !! 0%nat) (λ o, os_confidential o && (os_amount o ==? None))).

(** A confidential row as a relying party ships it: the commitments, and the
    two proofs that bind the asset and the amount to them. *)
Definition proven_confidential (asset : string) (value : Z) : TxOut * ValueProof * AssetProof :=
  ({| txo_asset := AssetConfidential (id_of asset : AssetComm); txo_value := ValueConfidential (value : ValueComm);
      txo_script_pubkey := [x51] |}, value, id_of asset).
Definition proven_input (asset : string) (value claimed : Z) : PsetInput :=
  let '(utxo, value_proof, asset_proof) := proven_confidential asset value in
  with_row (Some (id_of asset)) (Some claimed) (Some asset_proof) (Some value_proof) (txin x22 1 utxo).
Definition proven_output (asset : string) (value : Z) : PsetOutput :=
  let '(utxo, value_proof, asset_proof) := proven_confidential asset value in
  {| out_script_pubkey := txo_script_pubkey utxo; out_asset := Some (id_of asset); out_amount := Some value;
     out_asset_comm := Some (id_of asset : AssetComm); out_amount_comm := Some (value : ValueComm);
     out_blind_asset_proof := Some asset_proof; out_blind_value_proof := Some value_proof |}.

Definition fund_template_accepts_confidential_rows_with_verifying_proofs : bool :=
  let tx := {| pset_inputs := [proven_input POOL_ASSET 500 500; template_input TESTNET_LBTC 1000];
               pset_outputs := [proven_output POOL_ASSET 750; explicit_out TESTNET_LBTC 100 (p2wpkh x04);
                                explicit_out TESTNET_LBTC 900 []] |} in
  unwraps_ok (fund tx POOL_ASSET 250) (λ summary,
    (fts_deficit summary =? 250) && Nat.eqb (fts_proven_rows summary) 2 && (fts_fee summary =? 900)).

Definition fund_template_refuses_wrong_or_missing_proofs : bool :=
  let rest := [explicit_out POOL_ASSET 750 [x51]; explicit_out TESTNET_LBTC 900 []] in
  let with_first i := {| pset_inputs := [i; template_input TESTNET_LBTC 1000]; pset_outputs := rest |} in
  let bare := with_row (Some (id_of POOL_ASSET)) (Some 500) None None (proven_input POOL_ASSET 500 500) in
  refuses "value proof does not verify" (fund (with_first (proven_input POOL_ASSET 500 600)) POOL_ASSET 150) &&
  refuses "confidential — unverifiable" (fund (with_first bare) POOL_ASSET 250) &&
  refuses "fee output must be explicit"
    (fund {| pset_inputs := [template_input POOL_ASSET 500; template_input TESTNET_LBTC 1000];
             pset_outputs := [explicit_out POOL_ASSET 750 [x51];
                              with_script [] (proven_output TESTNET_LBTC 900)] |} POOL_ASSET 250).

Definition fund_template_accepts_owned_confidential_inputs : bool :=
  let NFT := repeat_str 64 "3" in
  let nft := id_of NFT in
  let bare := with_row None None None None (proven_input NFT 1 1) in
  let tx := {| pset_inputs := [bare; template_input TESTNET_LBTC 50000];
               pset_outputs := [explicit_out NFT 1 [x51]; explicit_out TESTNET_LBTC 25000 [x52];
                                explicit_out POOL_ASSET 1000 [x53]; explicit_out TESTNET_LBTC 24900 [x51];
                                explicit_out TESTNET_LBTC 100 []] |} in
  let owned := {| oi_index := 0; oi_asset := nft; oi_amount := 1 |} in
  refuses "confidential" (fund tx POOL_ASSET 1000) &&
  unwraps_ok (fund_owned tx POOL_ASSET 1000 [owned]) (λ summary,
    (fts_deficit summary =? 1000) && Nat.eqb (fts_owned_inputs summary) 1 && Nat.eqb (fts_proven_rows summary) 0) &&
  refuses "disagrees" (fund_owned tx POOL_ASSET 1000 [owned; {| oi_index := 1; oi_asset := nft; oi_amount := 50000 |}]) &&
  refuses "outside" (fund_owned tx POOL_ASSET 1000 [{| oi_index := 9; oi_asset := nft; oi_amount := 1 |}]) &&
  refuses "twice" (fund_owned tx POOL_ASSET 1000 [owned; owned]) &&
  is_Ok (fund_owned (on_output 0 (with_script [x6a; x01; x00]) tx) POOL_ASSET 1000 [owned]).

Definition fund_template_credits_explicit_issuances : bool :=
  let contract := all32 x07 in
  let issuer := issuing 1 (Some 0) contract (template_input TESTNET_LBTC 5000) in
  let nft := @issued_asset_id _ (pset_api []) (in_previous_txid issuer) (in_previous_output_index issuer) contract in
  let tx := {| pset_inputs := [issuer];
               pset_outputs := [explicit_out POOL_ASSET 1000 [x51]; explicit_out (asset_to_string nft) 1 [x52];
                                explicit_out TESTNET_LBTC 4500 [x53]; explicit_out TESTNET_LBTC 500 []] |} in
  unwraps_ok (fund tx POOL_ASSET 1000) (λ summary, fts_deficit summary =? 1000) &&
  refuses "undeclared" (fund (on_output 1 (with_amount (Some 2) None) tx) POOL_ASSET 1000) &&
  refuses "blinded issuance" (fund (on_input 0 (issuing 1 (Some 1) contract) tx) POOL_ASSET 1000).

Example approval_tests_pass :
  forallb id
    [explicit_outputs_and_fee_read_back; payjoin_annotation_marks_by_script_and_reports_misses;
     fund_template_deficit_is_arithmetic_not_advisory; fund_template_refuses_confidential_and_missing_utxos;
     fund_template_refuses_undeclared_asks; confidential_outputs_are_marked_not_guessed;
     fund_template_accepts_confidential_rows_with_verifying_proofs; fund_template_refuses_wrong_or_missing_proofs;
     fund_template_accepts_owned_confidential_inputs; fund_template_credits_explicit_issuances] = true.
Proof. vm_compute. reflexivity. Qed.

End ApprovalTests.

(** * [lending.rs] *)

Module LendingTests.
Import ApprovalTests.

(** [str::ends_with]. *)
Definition ends_with (suffix s : string) : bool :=
  (String.length suffix <=? String.length s)%nat &&
  (String.substring (String.length s - String.length suffix) (String.length suffix) s ==? suffix).
Definition is_none {A} (o : option A) : bool := match o with Some _ => false | None => true end.
(** [parse_typed_fund(memo).unwrap().unwrap()], under an assertion. *)
Definition typed (memo : string) (p : TypedFund → bool) : bool :=
  unwraps (parse_typed_fund (jtext memo)) (λ r, unwraps_ok r p).
Definition check (f : TypedFund) (tx : Pset) (asset : string) (amount : Z) (mine : list nat) (owned : list OwnedInput) :=
  checks f tx asset amount mine owned.
Definition receives (z : Z) (r : result string TypedFundCheck) : bool :=
  unwraps_ok r (λ c, tfc_receives c =? z).

Definition fill_claim_verifies_against_its_template_and_renders : bool :=
  typed fill_memo (λ claim,
    receives 2997000000000 (check claim fill_template lbtc_text 50000000 [1; 4]%nat []) &&
    (render claim "USDt" ==? "Sell 0.5 BTC for 30000 USDt · buy back for 31000 USDt until block 3200000 · fee 30 USDt")).

Definition fill_claim_is_refused_when_metadata_or_proceeds_disagree : bool :=
  typed fill_memo (λ claim,
    refuses "buyback" (check claim (on_output 3 (with_script (metadata USDT 3200000000000 3200000)) fill_template)
                         lbtc_text 50000000 [1; 4]%nat []) &&
    refuses "proceeds" (check claim (on_output 4 (with_amount (Some (2997000000000 - 1)) None) fill_template)
                          lbtc_text 50000000 [1; 4]%nat []) &&
    refuses "position token" (check claim fill_template lbtc_text 50000000 [4]%nat []) &&
    refuses "size" (check claim fill_template lbtc_text 49000000 [1; 4]%nat [])).

(** An exercise memo; [more] is what follows the cash asset. *)
Definition exercise_memo (amount released remaining cash more : string) : string :=
  "{'kind':'sw/lend/exercise/v1','amount':'" +:+ amount +:+ "','released':'" +:+ released +:+ "','remaining':'"
    +:+ remaining +:+ "','cash':'" +:+ cash +:+ "'" +:+ more +:+ "}".
Definition partial_memo : string := exercise_memo "1550000000000" "24999500" "1550000000000" usdt_text "".

Definition exercise_claims_verify_partial_and_full : bool :=
  typed partial_memo (λ claim,
    receives 24999500 (check claim (exercise_template true) usdt_text 1550000000000 [0; 3]%nat owned_nft) &&
    (render claim "USDt" ==? "Buy back 0.249995 BTC for 15500 USDt · 15500 USDt still owed after")) &&
  typed (exercise_memo "3100000000000" "49999500" "0" usdt_text "") (λ claim,
    receives 49999500 (check claim (exercise_template false) usdt_text 3100000000000 [2]%nat owned_nft) &&
    ends_with "position closed" (render claim "USDt")).

Definition exercise_claim_is_refused_without_the_owned_token_or_with_short_release : bool :=
  typed partial_memo (λ claim,
    refuses "position token" (check claim (exercise_template true) usdt_text 1550000000000 [0; 3]%nat []) &&
    refuses "collateral" (check claim (exercise_template true) usdt_text 1550000000000 [0]%nat owned_nft) &&
    refuses "return the position token"
      (check claim (exercise_template false) usdt_text 1550000000000 [0; 2]%nat owned_nft)).

(** A USDt-collateral position bought back with L-BTC, partial. *)
Definition exercise_template_usdt_collateral : Pset :=
  let dealer_lbtc_in := 5000 in
  {| pset_inputs := [txin x21 1 (txout NFT 1 (spk x01)); txin x22 0 (txout USDT 100000000000 (spk xc0));
                     txin x23 0 (txout LBTC dealer_lbtc_in (spk xab))];
     pset_outputs := [out NFT 1 (spk x01); out USDT 50000000000 (spk xc1); out LBTC 600000 (spk xaa);
                      out USDT (50000000000 - 30000000) (spk x01); out USDT 30000000 (spk xab);
                      out LBTC (dealer_lbtc_in - 270) (spk xab); out LBTC 270 []] |}.

Definition exercise_of_a_non_lbtc_collateral_names_the_collateral : bool :=
  typed (exercise_memo "600000" "49970000000" "500000000000" lbtc_text (",'collateral':'" +:+ usdt_text +:+ "'")) (λ named,
    bool_decide (collateral named = Some USDT) &&
    receives 49970000000 (check named exercise_template_usdt_collateral lbtc_text 600000 [0; 3]%nat owned_nft) &&
    (render_with named "USDt" "BTC" ==? "Buy back 499.7 USDt for 0.006 BTC · 5000 BTC still owed after")) &&
  typed (exercise_memo "600000" "49970000000" "500000000000" lbtc_text "") (λ legacy,
    bool_decide (collateral legacy = None) &&
    refuses "continuing position" (check legacy exercise_template_usdt_collateral lbtc_text 600000 [0; 3]%nat owned_nft)) &&
  unwraps (parse_typed_fund (jtext "{'kind':'sw/lend/exercise/v1','amount':'1','released':'1','remaining':'0','cash':'00','collateral':'zz'}"))
    (λ r, negb (is_Ok r)).

Definition untyped_and_malformed_memos_are_told_apart : bool :=
  is_none (parse_typed_fund "Deposit for order 7") &&
  is_none (parse_typed_fund (jtext "{'kind':'rf/order/v1'}")) &&
  forallb (λ memo, unwraps (parse_typed_fund (jtext memo)) (λ r, negb (is_Ok r)))
    ["{'kind':'sw/lend/fill/v1'}"; "{'kind':'sw/lend/unknown/v1'}"].

Definition op_return_payloads_and_amount_formatting : bool :=
  bool_decide (op_return_payload [x6a; x02; x07; x08] = Some [x07; x08]) &&
  bool_decide (length <$> op_return_payload (metadata USDT 1 1) = Some 80%nat) &&
  bool_decide (op_return_payload (spk x01) = None) &&
  (fmt8 50000000 ==? "0.5") && (fmt8 3000000000000 ==? "30000") && (fmt8 1 ==? "0.00000001").

(** ** Offers escrowed on chain *)

Definition offer_claim_verifies_against_its_template_and_renders : bool :=
  let amounts := [20000; 5000] in
  typed (offer_claim_json amounts (Some 2)) (λ claim,
    receives 0 (check claim (offer_template amounts true) usdt_text 25000 [2]%nat []) &&
    let text := render_with claim "BTC" "USDt" in
    String.prefix "Lend 0.00025 USDt on chain in 2 coins: pay up to 3 USDt per BTC" text &&
    str_contains "you receive your lender token" text) &&
  typed (offer_claim_json [25000] None) (λ claim,
    receives 0 (check claim (offer_template [25000] false) usdt_text 25000 [] []) &&
    negb (str_contains "lender token" (render claim "USDt"))).

Definition offer_claim_is_refused_when_the_covenant_or_token_disagree : bool :=
  let amounts := [20000; 5000] in
  let tx := offer_template amounts true in
  typed (offer_claim_json amounts (Some 2)) (λ claim,
    refuses "offer covenant" (check claim (on_output 1 (with_script (spk xee)) tx) usdt_text 25000 [2]%nat []) &&
    refuses "lender token" (check claim tx usdt_text 25000 [] []) &&
    refuses "amounts" (check claim tx usdt_text 24999 [2]%nat [])) &&
  typed (offer_claim_json_with (replicate 32 x07) amounts (Some 2)) (λ claim,
    refuses "position program" (check claim tx usdt_text 25000 [2]%nat [])).

Definition fill_v6_json (payout lastlook : bytes32) : string :=
  "{'kind':'sw/lend/fill/v6','size':'2000000','sale':'120000000000','buyback':'124200000000','expiry':2600984,'cash':'"
    +:+ usdt_text +:+ "','collateral':'" +:+ lbtc_text +:+ "','fee':'300000000','payout':'" +:+ hex_text (slice payout)
    +:+ "','lastlook':'" +:+ hex_text (slice lastlook) +:+ "','lastlook_height':2600484,'lender_nft':'" +:+ token_text +:+ "'}".

Definition fill_v6_claim_verifies_with_the_lender_token_from_the_memo : bool :=
  let payout := sha256 (claim_script LENDER_TOKEN) in
  let lastlook := all32 x0b in
  typed (fill_v6_json payout lastlook) (λ claim,
    receives 119700000000 (check claim (fill_v6_template payout lastlook) lbtc_text 2000000 [1; 4]%nat []) &&
    str_contains "from a lender's offer on chain" (render claim "USDt")) &&
  typed (fill_v6_json (all32 x05) lastlook) (λ claim,
    refuses "claim script" (check claim (fill_v6_template (all32 x05) lastlook) lbtc_text 2000000 [1; 4]%nat [])).

Definition offer_cancel_and_claim_verify_with_the_owned_token : bool :=
  typed ("{'kind':'sw/lend/offer-cancel/v1','cash':'" +:+ usdt_text
           +:+ "','amount':'1600000000000','fee':'230','lender_token':'" +:+ token_text +:+ "'}") (λ cancel,
    receives 1600000000000 (check cancel cancel_template lbtc_text 230 [0; 1]%nat owned_token) &&
    (render cancel "USDt"
       ==? "Withdraw your lend offer: 16000 USDt back to this wallet · you pay the 230 sat network fee") &&
    negb (is_Ok (check cancel cancel_template lbtc_text 230 [0; 1]%nat [])) &&
    negb (is_Ok (check cancel cancel_template lbtc_text 230 [1]%nat owned_token))) &&
  typed ("{'kind':'sw/lend/claim/v1','lender_token':'" +:+ token_text +:+ "','fee':'330','receives':[{'asset':'"
           +:+ usdt_text +:+ "','amount':'1200000000000'},{'asset':'" +:+ lbtc_text +:+ "','amount':'2000000'}]}") (λ claim,
    receives 1200000000000 (check claim collect_template lbtc_text 330 [0; 1; 2]%nat owned_token) &&
    (render claim "USDt"
       ==? "Collect what your lending paid into this wallet (2 coins) · you pay the 330 sat network fee") &&
    negb (is_Ok (check claim collect_template lbtc_text 330 [0; 1]%nat owned_token))).

Example lending_tests_pass :
  forallb id
    [fill_claim_verifies_against_its_template_and_renders; fill_claim_is_refused_when_metadata_or_proceeds_disagree;
     exercise_claims_verify_partial_and_full;
     exercise_claim_is_refused_without_the_owned_token_or_with_short_release;
     exercise_of_a_non_lbtc_collateral_names_the_collateral; untyped_and_malformed_memos_are_told_apart;
     op_return_payloads_and_amount_formatting; offer_claim_verifies_against_its_template_and_renders;
     offer_claim_is_refused_when_the_covenant_or_token_disagree;
     fill_v6_claim_verifies_with_the_lender_token_from_the_memo;
     offer_cancel_and_claim_verify_with_the_owned_token] = true.
Proof. vm_compute. reflexivity. Qed.

End LendingTests.
