(* ===== verification/VenueTests.v ===== *)
(** The sources' own tests of the venue claims, key and signatures
    ([lc-wallet-core/src/venue.rs], [mod tests]), replayed on the model with
    the concrete crates of [RefCrates.v]; the tests that pin a derived key or
    a signature are in [CurveTests.v]. *)

From S2P Require Import Prelude Json Crates Key Pset Approval LendingData Venue RefCrates Vectors SessionTests.
Import Ref.

(** A transaction needs no table. *)
#[local] Instance no_templates : PsetApi := pset_api [].

Definition pk3 : bytes32 := all32 x03.
Definition hexes (d : bytes32) (text : string) : bool := hex_text (slice d) ==? text.
(** [parse_typed_description(text).expect(..).expect(..)], under an assertion. *)
Definition typed_claim (text : string) (p : TypedRequest → bool) : bool :=
  unwraps (parse_typed_description (jtext text)) (λ r, unwraps_ok r p).
Definition claim_refused (text : string) : bool :=
  unwraps (parse_typed_description (jtext text)) (λ r, negb (is_Ok r)).
Definition rebuilds (text vector : string) : bool :=
  typed_claim text (λ r, unwraps_ok (typed_request_digest r pk3) (λ d, hexes d vector)).

Definition order_v2_vector : string := "5640f0ee017addfece205ba8d1fbd264299248f3e78fa3ded5542360de167c89".
Definition order_v1_vector : string := "944e4e036d891dd277fee0987c355b2609fb09d6fc149ee2e2fd2b907acf9512".
Definition login_vector : string := "04e78310fc229b8d973fcd61744511cbe9182c1b00bcd56eee5f6b7181efdf4d".
Definition delegate_vector : string := "ec146743b8a9923b84c6f4c90699e5df328398e73cb5e543ed826d70b5aaad35".
Definition some_caps : option FeeCaps := Some {| max_bps := 5; max_chain := 2200 |}.

Definition shared_digest_vectors : bool :=
  hexes (order_digest pk3 Buy 11500000000000 10000000 100 7 some_caps) order_v2_vector &&
  hexes (order_digest pk3 Buy 11500000000000 10000000 100 7 None) order_v1_vector &&
  hexes (login_digest pk3 "c1") login_vector &&
  let dest := p2tr_spk_hash pk3 in
  hexes dest "9877030268541635f3a8ca1b8c858314276c1b2c3ebb836e641aa9782e7f58c3" &&
  hexes (withdraw_digest pk3 5000 dest (all32 xaa)) "14cf3b3d26843d9b2b64fb9bb4fd1e5774d626453c79b55d36c68ec1004c7b8a" &&
  hexes (delegate_digest pk3 (all32 x04) "paper.swaption.io") delegate_vector.

Definition delegate_claim_rebuilds_and_refuses : bool :=
  typed_claim delegate_memo (λ parsed,
    match parsed with
    | RDelegate venue owner trade_pk =>
        (venue ==? "paper.swaption.io") && bool_decide (owner = pk3) && bool_decide (trade_pk = all32 x04)
    | _ => false
    end &&
    unwraps_ok (typed_request_digest parsed pk3) (λ d,
      hexes d delegate_vector &&
      unwraps_ok (typed_request_digest (RDelegate "evil.example" pk3 (all32 x04)) pk3) (λ elsewhere,
        negb (bool_decide (elsewhere = d))))) &&
  negb (is_Ok (typed_request_digest (RDelegate "paper.swaption.io" (all32 x09) (all32 x04)) pk3)) &&
  negb (is_Ok (typed_request_digest (RDelegate "paper.swaption.io" pk3 pk3) pk3)) &&
  claim_refused "{'kind':'rf/delegate/v1'}" &&
  claim_refused "{'kind':'rf/delegate/v1','venue':'v','owner':'zz','tradePk':'04'}".

(** [Address::p2tr] of an account key, in the text form of the stand-in. *)
Definition p2tr_address (key : VenueKey) : string := hex_text (p2tr_tweaked_script_pubkey key).
Definition seed_of (b : byte) : list byte := replicate 32 b.
Definition typed_descriptions_rebuild_the_shared_vectors : bool :=
  rebuilds order_v2_memo order_v2_vector &&
  rebuilds order_v1_memo order_v1_vector &&
  claim_refused "{'kind':'rf/order/v1','product':'RF-BTC-USDT','side':'buy','price':'11500000000000','qty':'10000000','expiry':100,'nonce':'7','maxBps':'5','maxChain':'2200'}" &&
  claim_refused "{'kind':'rf/order/v2','product':'RF-BTC-USDT','side':'buy','price':'11500000000000','qty':'10000000','expiry':100,'nonce':'7'}" &&
  rebuilds login_memo login_vector &&
  unwraps_ok (VenueKey_from_seed (seed_of x09) LiquidTestnet) (λ dest_key,
    let dest := p2tr_address dest_key in
    typed_claim ("{'kind':'rf/withdraw/v1','amt':'5000','dest':'" +:+ dest +:+ "','root':'" +:+ repeat_str 32 "aa" +:+ "'}")
      (λ withdraw,
        unwraps (address_script_pubkey dest) (λ script,
          unwraps_ok (typed_request_digest withdraw pk3) (λ d,
            bool_decide (d = withdraw_digest pk3 5000 (sha script) (all32 xaa)))))) &&
  negb (is_Ok (typed_request_digest (RWithdraw 1 "not-an-address" (zeros 32)) pk3)) &&
  forallb (λ text, match parse_typed_description (jtext text) with None => true | Some _ => false end)
    ["Sell 0.001 BTC"; "{'note':'hi'}"] &&
  claim_refused "{'kind':'rf/order/v2'}" && claim_refused "{'kind':'rf/unknown/v9'}" &&
  negb (is_Ok (typed_request_digest (ROrder "RF-DOGE-USDT" Buy 1 1 1 1 some_caps) pk3)).

Definition venue_key_is_seed_derived_not_the_identity_key : bool :=
  unwraps_ok (VenueKey_from_seed (seed_of x07) LiquidTestnet) (λ a,
  unwraps_ok (VenueKey_from_seed (seed_of x07) LiquidTestnet) (λ b,
  unwraps_ok (VenueKey_from_seed (seed_of x07) Liquid) (λ mainnet,
  unwraps (WalletKey_new (seed_of x07) LiquidTestnet) (λ identity,
    bool_decide (vk_public_key a = vk_public_key b) &&
    negb (bool_decide (vk_public_key a = vk_public_key mainnet)) &&
    negb (bool_decide (vk_public_key a = wk_public_key identity)))))).

(** The signature of an input verifies under [key] over the sighash of the
    signed transaction. *)
Definition witness_verifies (pset : Pset) (prevouts : list TxOut) (genesis : bytes32) (index : nat) (key : bytes32) : bool :=
  unwraps (input ← pset_inputs pset !! index; w ← in_final_script_witness input; head w) (λ sig_bytes,
    unwraps (signature_parse (hex_text sig_bytes)) (λ sig,
      unwraps (extract_tx pset) (λ tx,
        verify_schnorr sig (taproot_key_spend_sighash tx index prevouts genesis) key))).
Definition has_witness (pset : Pset) (i : nat) : bool :=
  unwraps (pset_inputs pset !! i) (λ input, bool_decide (is_Some (in_final_script_witness input))).
Definition pset_keyspend_signs_only_venue_inputs : bool :=
  unwraps_ok (VenueKey_from_seed (seed_of x07) LiquidTestnet) (λ key,
    let spk := p2tr_script_pubkey key in
    let tweaked_spk := p2tr_tweaked_script_pubkey key in
    let genesis := id_of "a771da8e52ee6ad581ed1e9a99825e5b3b7992225534eaa2ae23244fe26ab1c1" in
    let asset := all32 xee in
    let mine := txout asset 100000000 spk in
    let foreign := txout asset 100000000 [x51; x20; xab] in
    let staged := txout asset 100000000 tweaked_spk in
    let pset := {| pset_inputs := [txin x11 0 mine; txin x22 0 foreign; txin x33 0 staged];
                   pset_outputs := [out asset 199000000 spk; out asset 1000000 []] |} in
    Nat.eqb (length spk) 34 && bool_decide (sha spk = p2tr_spk_hash (vk_public_key key)) &&
    negb (bool_decide (tweaked_spk = spk)) &&
    unwraps_ok (sign_pset_keyspend_inputs key pset genesis) (λ '(pset, n),
      Nat.eqb n 2 && has_witness pset 0 && negb (has_witness pset 1) && has_witness pset 2 &&
      unwraps_ok (sign_pset_keyspend_inputs key pset genesis) (λ '(pset, n),
        Nat.eqb n 0 &&
        unwraps (to_array 32 (drop 2 tweaked_spk)) (λ tweaked_output_key,
          forallb (λ '(index, expect_key), witness_verifies pset [mine; foreign; staged] genesis index expect_key)
            [(0%nat, vk_public_key key); (2%nat, tweaked_output_key)])))).

Definition service_login_vector_is_pinned : bool :=
  hexes (service_login_digest (all32 x11) "paper.swaption.io" "chal-1")
    "227f138f3bcc0c36712c2f67a574a7eec3e0daa1ec34c82f6653acb33007c89e".

Definition seed64 (b : byte) : list byte := replicate 64 b.
Definition service_login_binds_domain_and_challenge : bool :=
  unwraps_ok (VenueKey_from_seed (seed64 x09) LiquidTestnet) (λ key,
  unwraps_ok (VenueKey_from_seed (seed64 x08) LiquidTestnet) (λ other,
    let '(pk, sig) := sign_service_login key "paper.swaption.io" "chal-1" in
    let '(other_pk, _) := sign_service_login other "paper.swaption.io" "chal-1" in
    is_Ok (verify_service_login pk "paper.swaption.io" "chal-1" sig) &&
    negb (is_Ok (verify_service_login pk "evil.example" "chal-1" sig)) &&
    negb (is_Ok (verify_service_login pk "paper.swaption.io" "chal-2" sig)) &&
    negb (is_Ok (verify_service_login other_pk "paper.swaption.io" "chal-1" sig)))).

Definition service_login_domain_and_challenge_cannot_collide : bool :=
  unwraps_ok (VenueKey_from_seed (seed64 x09) LiquidTestnet) (λ key,
    let pk := vk_public_key key in
    negb (bool_decide (service_login_digest pk "a.io" "bc" = service_login_digest pk "a.iob" "c"))).

Definition service_login_is_separated_from_money_claims : bool :=
  unwraps_ok (VenueKey_from_seed (seed64 x09) LiquidTestnet) (λ key,
    let pk := vk_public_key key in
    negb (bool_decide (service_login_digest pk "paper.swaption.io" "c" = login_digest pk "c")) &&
    negb (SERVICE_LOGIN_TAG ==? LOGIN_TAG)).

Example venue_tests_pass :
  forallb id
    [shared_digest_vectors; delegate_claim_rebuilds_and_refuses; typed_descriptions_rebuild_the_shared_vectors;
     venue_key_is_seed_derived_not_the_identity_key; pset_keyspend_signs_only_venue_inputs;
     service_login_vector_is_pinned;
     service_login_binds_domain_and_challenge; service_login_domain_and_challenge_cannot_collide;
     service_login_is_separated_from_money_claims] = true.
Proof. vm_compute. reflexivity. Qed.
