(* ===== verification/CurveTests.v ===== *)
(** The sources' tests that pin points and signatures ([lending.rs],
    [short_id.rs], [venue.rs], [mod tests]), replayed on the model with the
    curve itself: keys, tweaks, BIP340 and BIP32 are those of [Secp256k1.v]
    and [Bip32.v], the rest the crates of [RefCrates.v]. *)

From S2P Require Import Prelude Crates Key Pset LendingData ShortId Venue RefCrates Vectors SessionTests VenueTests.
From S2P Require Import Secp256k1 Bip32.
Import Ref.

Module Real.

#[export] Instance schnorr : SchnorrApi :=
  {| Keypair := Z * bytes32; Signature := bytes32 * bytes32;
     keypair_from_seckey := λ k, Secp.pair_of_scalar (Secp.bytes_Z k);
     x_only_public_key := snd;
     sign_schnorr := λ d kp, default (zeros 32, zeros 32) (Secp.sign kp d);
     sign_schnorr_no_aux_rand := λ d kp, default (zeros 32, zeros 32) (Secp.sign kp d);
     verify_schnorr := Secp.verify;
     signature_to_string := λ s, hex_text (slice s.1) +:+ hex_text (slice s.2);
     signature_parse := λ t,
       l ← hex_bytes t; r ← to_array 32 (take 32 l); s ← to_array 32 (drop 32 l); Some (r, s);
     xonly_from_slice := λ k, _ ← Secp.lift_x (Secp.bytes_Z k); Some k |}.
#[export] Instance elements : ElementsApi :=
  {| asset_from_str := @asset_from_str Ref.elements; asset_from_slice := @asset_from_slice Ref.elements;
     asset_to_string := @asset_to_string Ref.elements;
     address_script_pubkey := @address_script_pubkey Ref.elements; script_to_hex := @script_to_hex Ref.elements;
     script_push1_slice := @script_push1_slice Ref.elements; tap_tweak_hash := @tap_tweak_hash Ref.elements;
     xonly_add_tweak := λ k t, default (zeros 32) (Secp.xonly_tweak k t) |}.
#[export] Instance venue_api : VenueApi :=
  {| bip32_derive_hardened := Bip32.derive_hardened;
     add_xonly_tweak := λ kp t, default kp (Secp.pair_tweak kp t);
     Transaction := Pset;
     extract_tx := Some;
     taproot_key_spend_sighash := @taproot_key_spend_sighash _ _ Ref.venue_api;
     signature_bytes := λ s, slice s.1 ++ slice s.2 |}.

End Real.
Import Real.

(** [hex::encode(script) == text] *)
Definition script_is (script : Script) (text : string) : bool := hex_text script ==? text.

(** * [lending.rs] *)

Definition v2_position_script_matches_the_contracts_crate : bool :=
  hexes v2_vector "bda46f0bcef2adbddb585b1f42219062f169a3b120fdd12296c30832b9f2f9a7" &&
  script_is (v2_position_script v2_vector 3100000000000)
    "5120c32f2167a9d3dba8c997402074198ad98dd34d9f0a484677a69664c2b94bdfec" &&
  script_is (v2_position_script v2_vector 7) "51202e465deaebad6d5cc81bbf4abeb935183a48ce8827d5ee55dad2cbc10cc53c61".

Definition v3_position_and_claim_scripts_match_the_contracts_crate : bool :=
  script_is (v3_position_script v2_vector 3100000000000)
    "51202e0466fd296c985554b9b5b0a6076e0c51b24daa2ec4cd0463d2a47b4c8aadc8" &&
  script_is (v3_position_script v2_vector 7) "51202c181ce24fc01923dfdfd4366a3f38d5748e12dedab88caf12509f4746b6ec54" &&
  script_is (claim_script (all32 x04)) "51200ec1e15d74191de822cca78f3d28fe219f18bc8992716191368a387ebdddf88d".

Definition v4_position_script_matches_the_contracts_crate : bool :=
  hexes v4_vector "d9699f759118692dced610a96f6bf6ce2955da0c67263db3a00eaa39bc9d5d5f" &&
  script_is (v4_position_script v4_vector 3100000000000)
    "5120c673923a74662e7076360c5b980185abc469518fbdf3d1af55ffe24439ccd276" &&
  script_is (v4_position_script v4_vector 7) "5120cf07fbf5bd572d39f0089dc3d6b72bf72c3e9db5e54fdbb9df9e140402a28048".

Definition v5_position_script_matches_the_contracts_crate : bool :=
  hexes v4_vector "d9699f759118692dced610a96f6bf6ce2955da0c67263db3a00eaa39bc9d5d5f" &&
  script_is (v5_position_script v4_vector 3100000000000)
    "5120b4f37558ccf48acde731baab3dcaf0490f1d30c5f1427b4c74aced3ce50e0a60" &&
  script_is (v5_position_script v4_vector 7) "51209c434397f08fc4a6094d8556a39a8829b3fe69c328045696f1ab818ba6a98f11".

Definition offer_script_matches_the_contracts_crate : bool :=
  hexes offer_vector "0aa14f32b317261a0ad1b6155f73bc367bbc49743b2915f4ff9aa3990abcab98" &&
  script_is (offer_script offer_vector 25000) "512029d292a118d9cfb92fcfee045bda0487a5729e2915549700cb407448f21b6be1" &&
  script_is (offer_script offer_vector 1) "51205ec5e2f39b6239dfc75f4b47afd84097b567cede67eb2cbb4677ecc912f4747c".

(** * [short_id.rs] *)

Definition short_id_matches_the_shared_vectors : bool :=
  unwraps (xonly_from_str "0000000000000000000000000000000000000000000000000000000000000001") (λ pk,
    short_wallet_id pk ==? "ZFKG-NS4S") &&
  unwraps (WalletKey_new (replicate 32 x07) LiquidTestnet) (λ key,
    (xonly_to_string (wk_public_key key) ==? "c430e1683ac5f48d4e058e602b9ee33890830be3a92fea9f524d5763c15369d1") &&
    (wk_short_id key ==? "8BDR-BSWW")).

(** * [venue.rs] *)

Definition venue_key_derivation_vectors : bool :=
  unwraps_ok (VenueKey_from_seed (seed_of x07) LiquidTestnet) (λ testnet,
  unwraps_ok (VenueKey_from_seed (seed_of x07) Liquid) (λ mainnet,
    hexes (vk_public_key testnet) "849904e240e9eb333f1d7889a4ec9b318ab19a877c929728aa511046618b5c33" &&
    hexes (vk_public_key mainnet) "ef4de5ec56a30bdcf5a078e0111d3ebadba10350cfcb8a272231563f71c3a00b")).

Definition order_signature_verifies_and_is_deterministic : bool :=
  unwraps_ok (VenueKey_from_seed (seed_of x07) LiquidTestnet) (λ key,
    let '(d, s) := sign_order key Sell 7700000000 1000 50 1 some_caps in
    let '(d2, s2) := sign_order key Sell 7700000000 1000 50 1 some_caps in
    let '(other, _) := sign_order key Buy 7700000000 1000 50 1 some_caps in
    bool_decide ((d, s) = (d2, s2)) &&
    hexes d "4cefbb5478e509bb041d0fe4662db67040c3d465828a6444264c867ed0ce0e97" &&
    (signature_to_string s ==?
       "44a29bd958836e9c981b1c522038d38677d8916a433a09f5ff2bd4a309d2671ac7e875c7d3c542bf4b56bbfb200aa6414d2150d1f246db3e5b1ce12167776bf2") &&
    verify_schnorr s d (vk_public_key key) && negb (verify_schnorr s other (vk_public_key key))).

Example curve_tests_pass :
  forallb id
    [v2_position_script_matches_the_contracts_crate; v3_position_and_claim_scripts_match_the_contracts_crate;
     v4_position_script_matches_the_contracts_crate; v5_position_script_matches_the_contracts_crate;
     offer_script_matches_the_contracts_crate; short_id_matches_the_shared_vectors; venue_key_derivation_vectors;
     order_signature_verifies_and_is_deterministic] = true.
Proof. vm_compute. reflexivity. Qed.
