(* ===== verification/Witnesses.v ===== *)
(** For every theorem of the development with hypotheses that is stated as a
    property, an instance of it at concrete inputs, on the concrete crates of
    [RefCrates.v]: its hypotheses hold somewhere, and what it says there. *)

From S2P Require Import Prelude Json Crates Wire WireCodec WireCodecSpec Key Link SessionData Session SessionLib SessionMirror.
From S2P Require Import SessionActions SessionRuns SessionWire SessionStores Transport TransportRuns Pset.
From S2P Require Import Approval ApprovalSpec LendingData FieldsLib Lending LendingSpec LendingText.
From S2P Require Import Venue VenueSpec Http ShortId Identity IdentityCodec IdentitySpec Payjoin PayjoinSpec Ffi FfiSpec.
From S2P Require Import Sha256 RefCrates Vectors.
From Stdlib Require Import Floats.SpecFloat.
Import Ref.

(** * The session *)

Definition some_session : Session := {| ses_session_id := "s1"; ses_domain := "shop.example"; ses_is_local := false |}.
Definition a_login_request : LoginRequest :=
  {| lr_request_id := "r1"; lr_domain := "shop.example"; lr_ttl := {| as_millis := 60000 |}; lr_service_challenge := Some "c" |}.
Definition a_sign_request (id pset : string) : SignRequest :=
  {| sr_request_id := id; sr_domain := "shop.example"; sr_pset := pset; sr_ttl := {| as_millis := 60000 |} |}.
Definition a_report : HoldingsReport :=
  {| hr_domain := "shop.example";
     hr_holdings := [{| hold_label := "Deposit"; hold_kind := "cash"; hold_asset_id := None; hold_unit := "BTC";
                        hold_amount := 5; hold_precision := 8 |}];
     hr_as_of := 1 |}.
Definition login_resp : LoginResp :=
  {| lresp_sessions := [some_session]; lresp_sign_requests := [a_sign_request "p1" "pset"];
     lresp_sign_message_requests := []; lresp_pay_requests := []; lresp_receive_address_requests := [];
     lresp_asset_balance_requests := []; lresp_fund_requests := []; lresp_holdings := [a_report] |}.
#[local] Instance wire : SerdeWire := serde_json_wire.
(** Texts of the service. *)
Definition challenge_text : string := service_write (From.Resp 0 (Resp.Challenge "nonce")).
Definition login_text : string := service_write (From.Resp 0 (Resp.Login login_resp)).
Definition ask_text : string := service_write (From.Notif (Notif.LoginRequestCreated a_login_request)).
Definition error_text : string :=
  service_write (From.Error 1 {| err_code := Server; err_message := "no such request" |}).
Definition iid : InstallId := {| install_bytes := zeros 16 |}.
Definition wkey : WalletKey := {| wk_keypair := all32 x07 |}.
Definition connect_login : list input :=
  [Input.Transport Connected; Input.Transport (Recv challenge_text); Input.Transport (Recv login_text)].
(** The state after a login, with one approval sent and waiting. *)
Definition logged_in : core := after iid "ct(...)" wkey (connect_login ++ [Input.SignAccepted "p1" "signed"]).

(** A settled action and one after it. *)
Lemma action_ids_fresh_witness :
  let first := connect_login ++ [Input.SignAccepted "p1" "signed"] in
  let settled := Input.Transport (Recv (service_write (From.Resp 1 Resp.UserAction))) in
  (after iid "ct(...)" wkey (first ++ [settled])).(user_actions) = ∅ ∧
  (after iid "ct(...)" wkey connect_login).(next_action_id)
    < (after iid "ct(...)" wkey (first ++ [settled])).(next_action_id).
Proof.
  cbv zeta. split; [vm_compute; reflexivity|].
  destruct (action_ids_fresh iid "ct(...)" wkey
    (connect_login ++ Input.SignAccepted "p1" "signed" ::
       [Input.Transport (Recv (service_write (From.Resp 1 Resp.UserAction))); Input.SignAccepted "p2" "signed"]))
    as [Hid _]; [reflexivity|].
  destruct (Hid connect_login (Input.SignAccepted "p1" "signed")
    [Input.Transport (Recv (service_write (From.Resp 1 Resp.UserAction))); Input.SignAccepted "p2" "signed"]
    (UserAction.AcceptSignRequest "p1" "signed") eq_refl) as (_ & _ & Hlt); [constructor|].
  exact (Hlt [Input.Transport (Recv (service_write (From.Resp 1 Resp.UserAction)))] (Input.SignAccepted "p2" "signed") []
    (UserAction.AcceptSignRequest "p2" "signed") eq_refl (issued_sign_accept _ "p2" "signed")).
Defined.

(** The approval of a sign request, a lost connection, a new login. *)
Lemma approval_survives_witness :
  let lost := [Input.Transport Disconnected; Input.Transport Connected; Input.Transport (Recv challenge_text)] in
  let a := UserAction.AcceptSignRequest "p1" "signed" in
  let s := after iid "ct(...)" wkey (connect_login ++ Input.SignAccepted "p1" "signed" :: lost) in
  let id := (after iid "ct(...)" wkey connect_login).(next_action_id) in
  id = 1 ∧ s.(user_actions) !! id = Some a ∧
  frame id (Req.UserAction a) ∈ sent (handle (Input.Transport (Recv login_text)) s).2.
Proof.
  split; [vm_compute; reflexivity|].
  apply (approval_survives iid "ct(...)" wkey connect_login (Input.SignAccepted "p1" "signed")
    [Input.Transport Disconnected; Input.Transport Connected; Input.Transport (Recv challenge_text)]
    (UserAction.AcceptSignRequest "p1" "signed") login_text 0 login_resp).
  - reflexivity.
  - constructor.
  - intros j Hj (text & -> & Hs).
    repeat (apply elem_of_cons in Hj as [Hj|Hj]; [try discriminate Hj; injection Hj as ->|]);
      [|by apply not_elem_of_nil in Hj].
    destruct Hs as [Hs|[err Hs]]; vm_compute in Hs; discriminate Hs.
  - reflexivity.
Defined.

Lemma login_replays_pending_witness :
  let pending := btree_iter Z.le logged_in.(user_actions) in
  (∀ id a, (id, a) ∈ pending ↔ logged_in.(user_actions) !! id = Some a) ∧
  NoDup pending.*1 ∧ StronglySorted Z.le pending.*1 ∧
  ((handle (Input.Transport (Recv login_text)) logged_in).1).(user_actions) = logged_in.(user_actions) ∧
  ∃ rest, (handle (Input.Transport (Recv login_text)) logged_in).2
            = ((λ '(id, a), send id (Req.UserAction a)) <$> pending) ++ rest ∧
          ∀ d, d ∈ sent rest → ∃ token, logged_in.(fcm_token) = Some token ∧ logged_in.(connected) = true ∧
            d = frame 0 (Req.RegisterFcm token).
Proof. apply (login_replays_pending logged_in login_text 0 login_resp). reflexivity. Defined.

Lemma sync_requests_witness :
  let res := sync_requests [a_sign_request "p2" "a"; a_sign_request "p2" "b"] logged_in in
  dom res.1.(sign_requests) = list_to_set ["p2"; "p2"] ∧
  res.2 = (Effect.RemoveSignRequest <$> btree_set_iter String.le
             (dom logged_in.(sign_requests) ∖ list_to_set ["p2"; "p2"]))
          ++ (Effect.AddSignRequest <$> announced (dom logged_in.(sign_requests))
                [a_sign_request "p2" "a"; a_sign_request "p2" "b"]).
Proof.
  destruct (sync_requests_spec (R:=SignRequest) [a_sign_request "p2" "a"; a_sign_request "p2" "b"] logged_in)
    as (_ & Hd & He). split; [exact Hd|exact He].
Defined.

Lemma error_settles_witness :
  let res := handle (Input.Transport (Recv error_text)) logged_in in
  res.1 = upd_user_actions (delete 1) logged_in ∧
  res.2 = [Effect.ActionFailed (UserAction.AcceptSignRequest "p1" "signed") "no such request"] ∧
  (handle (Input.Transport (Recv error_text)) res.1).2 = [].
Proof.
  apply (error_settles logged_in error_text 1 {| err_code := Server; err_message := "no such request" |}).
  reflexivity.
Defined.

Definition asked : core := after iid "ct(...)" wkey (connect_login ++ [Input.Transport (Recv ask_text)]).
Lemma login_binding_refused_witness :
  handle (Input.LoginAccepted "r1" None) asked
    = (asked, [Effect.ActionFailed (UserAction.CancelLoginRequest "r1")
                 "this login needs a service key and none was supplied"]).
Proof. apply (login_binding_refused asked "r1" a_login_request); [reflexivity|by eexists]. Defined.

Lemma empty_report_witness :
  let report := {| hr_domain := "shop.example"; hr_holdings := []; hr_as_of := 2 |} in
  ((handle_notification (Notif.HoldingsUpdated report) logged_in).1.(holdings) !! "shop.example" = None ∧
   (handle_notification (Notif.HoldingsUpdated report) logged_in).2 = [Effect.ClearHoldings "shop.example"]) ∧
  ((sync_holdings [report] logged_in).1.(holdings) !! "shop.example" = Some a_report ∧
   Effect.ClearHoldings "shop.example" ∉ (sync_holdings [report] logged_in).2).
Proof. apply (empty_report_divergence logged_in "shop.example" 2 a_report). reflexivity. Defined.

(** * The wire *)

Lemma wire_roundtrip_witness :
  service_read (wire_to_string {| to_id := 1; to_req := Req.UserAction (UserAction.AcceptSignRequest "p1" "signed") |})
    = Some {| to_id := 1; to_req := Req.UserAction (UserAction.AcceptSignRequest "p1" "signed") |} ∧
  wire_from_str error_text = Some (From.Error 1 {| err_code := Server; err_message := "no such request" |}).
Proof.
  destruct (wire_roundtrip xonly_roundtrip signature_roundtrip hex_roundtrip text_roundtrip) as (Hto & Hfrom & _).
  split; [apply Hto; split; [done|exact I]|by apply Hfrom].
Defined.

Lemma service_reads_run_witness :
  let inputs := connect_login ++ [Input.SignAccepted "p1" "signed"] in
  let d := frame 1 (Req.UserAction (UserAction.AcceptSignRequest "p1" "signed")) in
  ∃ m, service_read d = Some m ∧ accounted iid "ct(...)" wkey inputs m.
Proof.
  apply (service_reads_run xonly_roundtrip signature_roundtrip hex_roundtrip text_roundtrip iid "ct(...)" wkey
    (connect_login ++ [Input.SignAccepted "p1" "signed"])).
  - by repeat constructor.
  - apply (bool_decide_unpack _). vm_compute. exact I.
Defined.

(** A reply of a server of the first version, an error of a later one, and a
    notification nobody knows. *)
Definition old_reply : string := jtext "{'Resp':{'id':0,'resp':{'Login':{'sessions':[],'sign_requests':[],'motd':'hi'}}}}".
Definition new_error : string := jtext "{'Error':{'id':7,'err':{'code':'SomethingNew','message':'m'}}}".
Definition new_notif : string := jtext "{'Notif':{'notif':{'QuoteCreated':{'price':[1,2]}}}}".
Definition first_reply : LoginResp :=
  {| lresp_sessions := []; lresp_sign_requests := []; lresp_sign_message_requests := []; lresp_pay_requests := [];
     lresp_receive_address_requests := []; lresp_asset_balance_requests := []; lresp_fund_requests := [];
     lresp_holdings := [] |}.
Lemma wire_versions_witness :
  wire_from_str old_reply = Some (From.Resp 0 (Resp.Login first_reply)) ∧
  wire_from_str new_error = Some (From.Error 7 {| err_code := Unknown; err_message := "m" |}) ∧
  handle (Input.Transport (Recv new_notif)) logged_in = (logged_in, []).
Proof.
  destruct (wire_versions old_reply logged_in) as (Hold & _ & _).
  destruct (wire_versions new_error logged_in) as (_ & Herr & _).
  destruct (wire_versions new_notif logged_in) as (_ & _ & Hnotif).
  split_and!.
  - apply (Hold 0 first_reply (λ n, bool_decide (n ∈ ["sessions"; "sign_requests"])) [("motd", JStr "hi")]).
    + done.
    + by repeat constructor.
    + by repeat constructor.
    + intros name Hn. apply (bool_decide_unpack _) || idtac. repeat (apply elem_of_cons in Hn as [->|Hn]; [set_solver|]).
      by apply not_elem_of_nil in Hn.
    + vm_compute. reflexivity.
  - apply (Herr 7 "SomethingNew" "m"); [done|by apply (bool_decide_unpack _)|vm_compute; reflexivity].
  - apply (Hnotif "QuoteCreated" (JObj [("price", JArr [JNum 1; JNum 2])])); [by apply (bool_decide_unpack _)|].
    vm_compute. reflexivity.
Defined.

(** * The actor *)

Definition actor_events : list env_event :=
  [ConnectFailed; ConnectOk None; WsText challenge_text None; WsText login_text None;
   HostInput (Input.SignAccepted "p1" "signed") None; WsEnd].
Definition actor_end : actor * list output :=
  default (actor_new iid "ct(...)" wkey, []) (actor_run (actor_new iid "ct(...)" wkey) actor_events).
Lemma actor_end_run :
  actor_run (actor_new iid "ct(...)" wkey) actor_events = Some (actor_end.1, actor_end.2).
Proof.
  assert (bool_decide (is_Some (actor_run (actor_new iid "ct(...)" wkey) actor_events)) = true) as Hr.
  { vm_compute. reflexivity. }
  unfold actor_end. apply bool_decide_eq_true in Hr as [[a outs] ->]. reflexivity.
Qed.

Lemma actor_mirrors_host_witness :
  foldl apply_event (Build_host_view ∅ ∅ ∅ ∅ ∅ ∅ ∅ ∅) (out_events actor_end.2) = view_of actor_end.1.(a_core).
Proof. exact (actor_mirrors_host iid "ct(...)" wkey actor_events _ _ actor_end_run). Defined.

Lemma actor_status_witness :
  ∃ st, scan None (out_events actor_end.2) = Some st ∧
    match actor_end.1.(a_phase) with
    | Connecting => st = None ∧ phase actor_end.1.(a_core) = (false, false)
    | Online w => st = Some w ∧ phase actor_end.1.(a_core) = (true, w)
    | Stopped => is_Some st
    end.
Proof. exact (actor_status iid "ct(...)" wkey actor_events _ _ eq_refl actor_end_run). Defined.

Lemma actor_frames_authorised_witness :
  ∃ ins, Forall (λ i, ∃ ev, ev ∈ actor_events ∧ input_of ev i) ins ∧
    Forall (authorised iid "ct(...)" wkey ins) (out_frames actor_end.2).
Proof. exact (actor_frames_authorised iid "ct(...)" wkey actor_events _ _ actor_end_run). Defined.

Lemma reconnect_backoff_witness :
  actor_run (actor_new iid "ct(...)" wkey) (replicate 8 ConnectFailed)
    = Some (Actor (core_new iid "ct(...)" wkey) 60 Connecting, Sleep <$> [1; 2; 4; 8; 16; 32; 60; 60]).
Proof.
  refine (eq_trans (proj1 (reconnect_backoff (actor_new iid "ct(...)" wkey) 8 eq_refl _)) _).
  - split; vm_compute; discriminate.
  - reflexivity.
Defined.

(** * Fund templates *)

Definition fill_api : PsetApi := pset_api [("t", fill_template)].
(** The borrower's and lender's tokens are issued by the template's inputs. *)
Definition nft_template : Pset :=
  {| pset_inputs := pset_inputs fill_template ++ [txin x13 0 (txout NFT 2 (spk xad))];
     pset_outputs := pset_outputs fill_template |}.
Definition nft_api : PsetApi := pset_api [("t", nft_template)].
Definition nft_summary : FundTemplateSummary :=
  {| fts_input_count := 3; fts_output_count := 7; fts_fee := 1000; fts_deficit := 50000000;
     fts_proven_rows := 0; fts_owned_inputs := 0 |}.

Lemma nft_template_decoded pset : @decode_pset _ nft_api "t" = Ok pset → pset = nft_template.
Proof. vm_compute. intros [= <-]. reflexivity. Qed.
Lemma nft_template_u64 pset : @decode_pset _ nft_api "t" = Ok pset → pset_u64 pset.
Proof.
  intros ->%nft_template_decoded. split.
  - simpl. repeat (apply Forall_cons; split; [|]); try apply Forall_nil; try done;
      (split_and!; try done; by intros ?? [= <-] [= <-]).
  - simpl. repeat (apply Forall_cons; split); try apply Forall_nil; try done; by intros ? [= <-].
Qed.
Lemma nft_template_accepted :
  @verify_fund_template_owned _ _ nft_api "t" lbtc_text 50000000 [] = Ok nft_summary.
Proof. vm_compute. reflexivity. Qed.

Lemma verify_fund_template_witness :
  0 < 50000000 ∧ ∃ want pset ins outs fee,
    asset_from_str lbtc_text = Some want ∧ @decode_pset _ nft_api "t" = Ok pset ∧
    @accepts _ nft_api [] want 50000000 pset ins outs fee ∧
    nft_summary = summary_of [] 50000000 pset ins outs fee.
Proof.
  apply (@verify_fund_template_iff _ _ nft_api "t" lbtc_text 50000000 [] nft_summary).
  - constructor.
  - exact nft_template_u64.
  - exact nft_template_accepted.
Defined.

(** The input of the tokens declared as the host's own. *)
Definition own_tokens : list OwnedInput := [{| oi_index := 2; oi_asset := NFT; oi_amount := 2 |}].
Definition own_summary : FundTemplateSummary :=
  {| fts_input_count := 3; fts_output_count := 7; fts_fee := 1000; fts_deficit := 50000000;
     fts_proven_rows := 0; fts_owned_inputs := 1 |}.
Lemma own_template_accepted :
  @verify_fund_template_owned _ _ nft_api "t" lbtc_text 50000000 own_tokens = Ok own_summary.
Proof. vm_compute. reflexivity. Qed.
Lemma host_outflow_witness :
  ∃ want pset ins outs,
    asset_from_str lbtc_text = Some want ∧ @decode_pset _ nft_api "t" = Ok pset ∧
    Forall2 (@input_reads _ nft_api own_tokens) (enumerate (pset_inputs pset)) ins ∧
    Forall2 (@output_reads _ nft_api) (pset_outputs pset) outs ∧
    NoDup (oi_index <$> own_tokens) ∧
    (∀ o, o ∈ own_tokens → ∃ issued p, ins !! o.(oi_index) = Some ((o.(oi_asset), o.(oi_amount)) :: issued, p)) ∧
    let given a := total a (owned_rows own_tokens ++ [(LBTC, 60000000)]) - total a [(LBTC, 10000000)] in
    ((∀ a, total a (concat ins.*1 ++ [(LBTC, 60000000)]) = total a (outs.*1 ++ [(LBTC, 10000000)])) →
     given want = 50000000 + total want (owned_rows own_tokens) ∧
     ∀ a, a ≠ want → given a ≤ total a (owned_rows own_tokens)).
Proof.
  exact (@host_outflow _ _ nft_api "t" lbtc_text 50000000 own_tokens own_summary
           [(LBTC, 60000000)] [(LBTC, 10000000)] own_template_accepted).
Defined.

Module Summary.
#[local] Existing Instance fill_api.
End Summary.

(** * Lending *)

Module V6.
#[local] Instance v6_api : PsetApi := pset_api [("t", v6_template)].

Lemma v6_verified :
  ∃ c, verify_typed_fund v6_claim "t" lbtc_text 2000000 LBTC [1; 4]%nat [] = Ok c.
Proof. apply is_Ok_true. vm_compute. reflexivity. Qed.

Lemma typed_fund_funding_witness :
  asset_from_str lbtc_text = Some (pays LBTC v6_claim).1 ∧ 2000000 = (pays LBTC v6_claim).2 ∧
  match fee_cap v6_claim with Some cap => 2000000 ≤ cap | None => True end.
Proof.
  destruct v6_verified as [c Hc].
  exact (typed_fund_funding v6_claim "t" lbtc_text 2000000 LBTC [1; 4]%nat [] c Hc).
Defined.

Lemma typed_fund_receives_witness :
  ∃ c, c.(tfc_claim) = v6_claim ∧ ∃ pset, decode_pset "t" = Ok pset ∧
    (∃ i v, i ∈ [1; 4]%nat ∧ row_is (pset_outputs pset) i USDT v ∧ 119700000000 ≤ v) ∧
    c.(tfc_receives) = 119700000000.
Proof.
  destruct v6_verified as [c Hc]. exists c.
  destruct (typed_fund_receives v6_claim "t" lbtc_text 2000000 LBTC [1; 4]%nat [] c Hc) as (Hf & pset & Hp & Hall & Hrep).
  split; [exact Hf|]. exists pset. split; [exact Hp|]. split.
  - apply (Hall USDT 119700000000). left.
  - destruct Hrep as (a & least & E & _ & Hx & _). injection E as <- <-. apply Hx. eexists. reflexivity.
Defined.

Lemma fill_covenant_witness :
  ∃ pset t borrower lender o0 o1 leaf digest debt,
    decode_pset "t" = Ok pset ∧ fill_terms v6_claim = Some t ∧
    pset_outputs pset !! 0%nat = Some o0 ∧ pset_outputs pset !! 1%nat = Some o1 ∧
    row_is (pset_outputs pset) 0 (default LBTC t.(ft_collateral)) t.(ft_size) ∧
    row_is (pset_outputs pset) 1 borrower 1 ∧ 1%nat ∈ [1; 4]%nat ∧
    lender_of (pset_outputs pset) v6_claim lender ∧
    covenant_of LBTC v6_claim borrower lender (sha256 o1.(out_script_pubkey)) = Some (leaf, digest, debt) ∧
    debt = t.(ft_buyback) ∧ o0.(out_script_pubkey) = position_script leaf digest debt.
Proof.
  destruct v6_verified as [c Hc].
  apply (fill_covenant_verified v6_claim "t" lbtc_text 2000000 LBTC [1; 4]%nat [] c Hc).
  intros b l h. eexists. reflexivity.
Defined.
End V6.

Module OfferT.
#[local] Instance offer_api : PsetApi := pset_api [("t", two_coin_template)].

Lemma offer_accepts :
  ∃ c, verify_typed_fund offer_claim "t" usdt_text 25000 LBTC [2]%nat [] = Ok c.
Proof. apply is_Ok_true. vm_compute. reflexivity. Qed.

Lemma offer_verified_witness :
  ∃ pset, decode_pset "t" = Ok pset ∧ asset_from_str usdt_text = Some USDT ∧
    ∃ o, pset_outputs pset !! 1%nat = Some o ∧ o.(out_script_pubkey) = offer_coin_script 5000 ∧
    row_is (pset_outputs pset) 2 LENDER_TOKEN 1.
Proof.
  destruct offer_accepts as [c Hc].
  destruct (offer_verified _ _ _ _ _ _ _ _ _ _ _ _ _ _ _ _ _ Hc)
    as (pset & Hp & Ha & _ & _ & _ & _ & _ & _ & _ & Hcoin & Htoken).
  exists pset. split; [exact Hp|]. split; [exact Ha|].
  destruct (Hcoin 1%nat 5000 eq_refl) as (_ & o & Ho & Hs). exists o.
  split; [exact Ho|]. split; [exact Hs|]. exact (proj1 (Htoken 2 eq_refl)).
Defined.
End OfferT.

Definition some_terms : Terms :=
  {| t_collateral := LBTC; t_cash := USDT; t_amount := 50000000; t_buyback := 3100000000000; t_expiry := 3200000;
     t_borrower := NFT; t_lender := LENDER_TOKEN; t_payout := all32 x09; t_borrower_payout := all32 x0a;
     t_lastlook := all32 x0b; t_lastlook_height := 3199500 |}.
Lemma some_terms_wf : terms_wf some_terms.
Proof. repeat split; done. Qed.
Lemma position_binds_witness :
  (some_terms = some_terms ∧ 7 = 7) ∨
  collision (terms_bytes some_terms :: position_preimages SWAPTION_LENDING_V5_LEAF (terms_digest some_terms) 7)
            (terms_bytes some_terms :: position_preimages SWAPTION_LENDING_V5_LEAF (terms_digest some_terms) 7) ∨
  tweak_collision (position_node SWAPTION_LENDING_V5_LEAF (terms_digest some_terms) 7)
                  (position_node SWAPTION_LENDING_V5_LEAF (terms_digest some_terms) 7).
Proof.
  apply (position_binds_terms SWAPTION_LENDING_V5_LEAF some_terms some_terms 7 7);
    [exact some_terms_wf|exact some_terms_wf|done|done|reflexivity].
Defined.

Lemma offer_binds_witness :
  let rows := [offer_row_vector] in
  (LBTC = LBTC ∧ NFT = NFT ∧ NFT = NFT ∧ NFT = NFT ∧ NFT = NFT ∧ 50 = 50 ∧ 100 = 100 ∧ rows = rows) ∨
  collision [offer_terms LBTC NFT NFT NFT NFT 50 100 rows] [offer_terms LBTC NFT NFT NFT NFT 50 100 rows].
Proof.
  assert (Forall (λ r, row_wf r ∧ r ≠ zero_row) [offer_row_vector]) as Hr.
  { repeat constructor; done. }
  apply (offer_digest_binds LBTC LBTC NFT NFT NFT NFT NFT NFT NFT NFT 50 50 100 100
           [offer_row_vector] [offer_row_vector]); try done; simpl; lia.
Defined.

Lemma fmt8_witness : parse8 (fmt8 2999) = Some 2999 ∧ fmt8 2999 = "0.00002999".
Proof. split; [apply (fmt8_roundtrip 2999); done|reflexivity]. Defined.

Lemma typed_memo_witness :
  (∃ f, parse_typed_fund (jtext fill_memo) = Some (Ok f) ∧ kind_of f = "sw/lend/fill/v1" ∧ claim_in_range f) ∨
  (∃ e, parse_typed_fund (jtext fill_memo) = Some (Err e)).
Proof. exact (typed_memo_classified (jtext fill_memo)). Defined.

(** * The venue key *)

Definition an_order : statement := SOrder (all32 x03) Buy 11500000000000 10000000 100 7 None.
Lemma an_order_wf : statement_wf an_order.
Proof. repeat split; done. Qed.
Lemma venue_digest_binds_witness :
  an_order = an_order ∨ collision [statement_preimage an_order] [statement_preimage an_order].
Proof. exact (venue_digest_binds an_order an_order an_order_wf an_order_wf eq_refl). Defined.

(** The same order, written with and without spaces. *)
Definition spaced_order_memo : string :=
  " {'kind': 'rf/order/v1', 'nonce': '7', 'product': 'RF-BTC-USDT', 'side': 'buy', 'price': '11500000000000', 'qty': '10000000', 'expiry': 100} ".
Definition order_request : TypedRequest := ROrder PRODUCT Buy 11500000000000 10000000 100 7 None.
Lemma memo_signature_binds_witness :
  (all32 x03 = all32 x03 ∧ same_request order_request order_request) ∨
  collision [statement_preimage an_order] [statement_preimage an_order] ∨
  collision (request_scripts order_request) (request_scripts order_request).
Proof.
  apply (memo_signature_binds (jtext order_v1_memo) (jtext spaced_order_memo) order_request order_request
           (all32 x03) (all32 x03) an_order an_order).
  - reflexivity.
  - reflexivity.
  - constructor.
  - constructor.
  - reflexivity.
Defined.

Definition vkey : VenueKey := {| vk_keypair := all32 x03 |}.
Lemma service_login_witness :
  let '(key, sig) := sign_service_login vkey "shop.example" "c1" in
  verify_service_login key "shop.example" "c1" sig = Ok (vk_public_key vkey).
Proof.
  exact (proj1 (service_login_verifies schnorr_verifies (hex_roundtrip 32) signature_roundtrip
                  (λ kp, eq_refl) vkey "shop.example" "c1")).
Defined.

(** A deposit of the key beside somebody else's coin. *)
Definition deposit : Pset :=
  {| pset_inputs := [txin x71 0 (txout USDT 5 (p2tr_tweaked_script_pubkey vkey)); txin x72 0 (txout LBTC 9 (spk xaa));
                     txin x73 1 (txout LBTC 7 (p2tr_script_pubkey vkey))];
     pset_outputs := [out USDT 5 (spk xab); out LBTC 15 (spk xab); out LBTC 1 []] |}.
Lemma sign_pset_witness :
  ∃ pset' n, sign_pset_keyspend_inputs vkey deposit (zeros 32) = Ok (pset', n) ∧
    pset_outputs pset' = pset_outputs deposit ∧ n = 2%nat ∧
    sign_pset_keyspend_inputs vkey pset' (zeros 32) = Ok (pset', O).
Proof.
  assert (is_Ok (sign_pset_keyspend_inputs vkey deposit (zeros 32)) = true) as [[pset' n] Hr]%is_Ok_true
    by (vm_compute; reflexivity).
  destruct (sign_pset_completes schnorr_verifies vkey deposit (zeros 32) pset' n Hr) as (Ho & Hn & _ & _ & Ha).
  exists pset', n. split; [exact Hr|]. split; [exact Ho|]. split; [|exact Ha].
  rewrite Hn. vm_compute. reflexivity.
Defined.

(** * The identity API, payjoin and the foreign surface *)

(** A status of an older service, with a member of a newer one. *)
Definition old_status : string := jtext "{'identity_id':'i1','email':true,'badge':7}".
Lemma identity_replies_witness :
  match json_from_str old_status with
  | Some v => from_value v = Some {| ids_identity_id := Some "i1"; ids_email := true; ids_phone := false;
                                     ids_handle := None; ids_short_id := None;
                                     ids_discoverability := Build_Discoverability false false |}
  | None => False
  end.
Proof.
  change (json_from_str old_status)
    with (Some (JObj [("identity_id", JStr "i1"); ("email", JBool true); ("badge", JNum 7)])).
  apply (@identity_replies_read json_api value_view (JObj [("identity_id", JStr "i1"); ("email", JBool true); ("badge", JNum 7)])
    (λ n, bool_decide (n ∈ ["identity_id"; "email"])) [("badge", JNum 7)]); try done.
  intros name Hn. repeat (apply elem_of_cons in Hn as [->|Hn]; [set_solver|]). by apply not_elem_of_nil in Hn.
Defined.

Definition taken : list (http_reply string) := api_replies (HttpStatus 409 (jtext "{'error':'taken'}")).
Lemma identity_requests_witness :
  (run_http (invoke api user_key (CHandle "Scott")) taken).2
  = Some (Err "identity API refused (409): taken").
Proof.
  pose proof (identity_requests api user_key (CHandle "Scott") taken) as Hall.
  assert (length (run_http (invoke api user_key (CHandle "Scott")) taken).1 = 2%nat) as Hlen
    by (vm_compute; reflexivity).
  destruct (run_http _ taken) as [requests outcome]. destruct Hall as (_ & Herr & _ & _).
  apply (Herr (HttpStatus 409 (jtext "{'error':'taken'}"))); [|reflexivity].
  destruct requests as [|? [|? [|? ?]]]; discriminate Hlen || reflexivity.
Defined.

Lemma identity_signature_binds_witness :
  ("n1" = "n1" ∧ call_action (CEmailConfirm "a@b.c" "1") = call_action (CEmailConfirm "a@b.c" "2") ∧
   call_route (CEmailConfirm "a@b.c" "1") = call_route (CEmailConfirm "a@b.c" "2") ∧
   call_value user_key (CEmailConfirm "a@b.c" "1") = call_value user_key (CEmailConfirm "a@b.c" "2")) ∨
  tagged_collision "liquidconnect/identity"
    (as_bytes (identity_auth_text "n1" "email_confirm" "a@b.c"))
    (as_bytes (identity_auth_text "n1" "email_confirm" "a@b.c")).
Proof.
  apply (identity_signature_binds user_key "n1" "n1" (CEmailConfirm "a@b.c" "1") (CEmailConfirm "a@b.c" "2"));
    reflexivity.
Defined.

Lemma wallet_key_separated_witness :
  (replicate 32 x07 = replicate 32 x07 ∧ LiquidTestnet = LiquidTestnet) ∨
  tagged_collision "sideswap/wallet_key" (network_salt LiquidTestnet ++ replicate 32 x07)
    (network_salt LiquidTestnet ++ replicate 32 x07).
Proof.
  exact (wallet_key_separated (replicate 32 x07) (replicate 32 x07) LiquidTestnet LiquidTestnet eq_refl).
Defined.

(** A price of 3/8: 1001 satoshis of network fee cost 375.375. *)
Lemma service_fee_witness :
  estimate_service_fee 1001 (S754_finite false (3 * 2 ^ 51) (-54)) 100 = Some 475 ∧
  documented_fee 1001 3 3 100 = 476.
Proof.
  destruct (service_fee_truncates 1001 (3 * 2 ^ 51) (-54) 3 51 3 100) as [E D];
    [lia|lia|lia|lia|reflexivity|reflexivity|reflexivity|].
  split; [rewrite E|rewrite D]; reflexivity.
Defined.

Lemma ffi_mirrors_host_witness :
  ∃ a0 ins shown a outs, FfiWallet.new "wss://wallet.example" "ct(...)" (replicate 32 x07) FfiNetwork.LiquidTestnet
      "abababababababababababababababab" (Ok tt) = Ok (a0, ins, shown) ∧
    actor_run a0 actor_events = Some (a, outs) ∧
    foldl listen ffi_empty (map_event <$> out_events outs) = project (view_of a.(a_core)).
Proof.
  assert (bool_decide (is_Some
    match FfiWallet.new "wss://wallet.example" "ct(...)" (replicate 32 x07) FfiNetwork.LiquidTestnet
      "abababababababababababababababab" (Ok tt) with
    | Ok (a0, _, _) => actor_run a0 actor_events
    | Err _ => None
    end) = true) as Hrun by (vm_compute; reflexivity).
  destruct (FfiWallet.new "wss://wallet.example" "ct(...)" (replicate 32 x07) FfiNetwork.LiquidTestnet
      "abababababababababababababababab" (Ok tt)) as [[[a0 ins] shown]|] eqn:Hnew; [|discriminate Hrun].
  apply bool_decide_eq_true in Hrun as [[a outs] Hrun]. exists a0, ins, shown, a, outs.
  split; [reflexivity|]. split; [exact Hrun|]. exact (ffi_mirrors_host _ _ _ _ _ _ _ _ _ _ _ _ Hnew Hrun).
Defined.

#[local] Existing Instance url.
Lemma ffi_bound_login_witness :
  let s := after iid "ct(...)" wkey (connect_login ++ [Input.Transport (Recv ask_text)]) in
  (handle (FfiWallet.accept_login "r1") s).1 = s.
Proof.
  intros s. destruct (ffi_bound_login_stuck s "r1" a_login_request) as (_ & _ & _ & Hs & _).
  - vm_compute. reflexivity.
  - exists "c". reflexivity.
  - exact Hs.
Defined.
