(* ===== verification/HostWitnesses.v ===== *)
(** Instances of the properties of the hosts, the relay drills and the venue
    clients, at concrete inputs on the concrete crates of [RefCrates.v]. *)

From S2P Require Import Prelude Json Crates Wire WireCodec WireCodecSpec Key Link SessionData Session SessionLib SessionMirror.
From S2P Require Import SessionActions SessionRuns SessionWire Transport TransportRuns Pset Approval LendingData Venue VenueSpec.
From S2P Require Import System SystemSpec Host HostSpec Http HttpLogic VenueLogin VenueDrill VenueDrillSpec.
From S2P Require Import Payjoin PayjoinSpec PayjoinCodec PayjoinCodecSpec Ffi FfiSpec FfiSystem FfiSystemSpec.
From S2P Require Import BenchHosts BenchSpec Rp RelayDrills RelaySpec Probes ProbesSpec Sha256 F64Text RefCrates Vectors Witnesses.
Import Ref.
#[local] Existing Instance wire.

(** The approve-all wallet: a login, a pset with two inputs of the venue key,
    an order displayed and an opaque digest, answered; a login that wants a
    service key, which it cannot accept. *)
Module HostT.
#[local] Instance host_api : PsetApi := pset_api [("pset", deposit)].
#[local] Existing Instance url.
Definition order_digest_hex : string :=
  match typed_request_digest order_request (vk_public_key vkey) with Ok d => hex_text (slice d) | Err _ => "" end.
Definition message_request (id : string) (digest : string) (description : option string) : SignMessageRequest :=
  {| smr_request_id := id; smr_domain := "shop.example"; smr_digest := digest; smr_description := description;
     smr_ttl := {| as_millis := 60000 |} |}.
Definition notif_text (r : SignMessageRequest) : string :=
  service_write (From.Notif (Notif.SignMessageRequestCreated r)).
Definition wallet : host nat := approve_all (λ p, "signed") vkey None.
Definition news : list sys_event :=
  [SysEnv (ConnectOk None); SysEnv (WsText challenge_text None); SysEnv (WsText login_text None);
   SysEnv (WsText ask_text None);
   SysEnv (WsText (notif_text (message_request "m1" order_digest_hex (Some (jtext order_v1_memo)))) None);
   SysEnv (WsText (notif_text (message_request "m2" order_digest_hex None)) None)].
Definition host_run : list sys_event := news ++ replicate 8 SysHost ++ replicate 5 (SysDeliver None).
Lemma approve_all_frames_witness :
  match sys_run wallet (sys_new iid "ct(...)" wkey 0%nat) host_run with
  | Some st => length st.(sys_sent) = 6%nat ∧
      Forall (policy_frame iid wkey (allowed (λ p, "signed") vkey None "ct(...)" wkey st.(sys_shown) st.(sys_texts))) st.(sys_sent)
  | None => False
  end.
Proof.
  assert (length <$> (sys_sent <$> sys_run wallet (sys_new iid "ct(...)" wkey 0%nat) host_run) = Some 6%nat) as Hl
    by (vm_compute; reflexivity).
  destruct (sys_run wallet _ host_run) as [st|] eqn:E.
  - split.
    + by injection Hl.
    + apply approve_all_frames. eapply sys_run_reachable. exact E.
  - discriminate Hl.
Defined.

(** After the news, at most twenty-three reads and deliveries. *)
Lemma host_quiesces_witness :
  match sys_run wallet (sys_new iid "ct(...)" wkey 0%nat) news with
  | Some st =>
      backlog approve_all_calls st = 23%nat ∧ is_Some (sys_exec wallet st SysHost) ∧
      ∀ es st', Forall internal es → sys_run wallet st es = Some st' →
        (length es + backlog approve_all_calls st' ≤ backlog approve_all_calls st)%nat
  | None => False
  end.
Proof.
  assert (backlog approve_all_calls <$> sys_run wallet (sys_new iid "ct(...)" wkey 0%nat) news = Some 23%nat) as Hb
    by (vm_compute; reflexivity).
  assert ((λ st, bool_decide (sys_events st = [])) <$> sys_run wallet (sys_new iid "ct(...)" wkey 0%nat) news = Some false) as He
    by (vm_compute; reflexivity).
  destruct (sys_run wallet _ news) as [st|] eqn:E; [|discriminate Hb].
  destruct (host_quiesces wallet approve_all_calls 0%nat iid "ct(...)" wkey st) as (Hq & Hr & _).
  - eapply sys_run_reachable. exact E.
  - injection Hb as Hb. split; [exact Hb|]. split; [apply Hr|exact Hq].
    intros Hn. simpl in He. rewrite Hn in He. discriminate He.
Defined.
End HostT.

(** * The venue drill *)

Module DrillT.
Definition other_key : VenueKey := {| vk_keypair := all32 x05 |}.
Definition page_of (text : string) : http_reply string := HttpOk (jtext text).
Definition root_hex : string := hex_text (slice (all32 xaa)).
Definition digest_hex : string :=
  hex_text (slice (withdraw_digest (vk_public_key other_key) 1000 (p2tr_spk_hash (vk_public_key other_key)) (all32 xaa))).
Definition prepared : http_reply string :=
  page_of ("{'root':'" +:+ root_hex +:+ "','digest':'" +:+ digest_hex +:+ "'}").
Definition state_page : http_reply string :=
  page_of "{'session':26,'sessionOpenRaw':7712345678,'me':{'nextNonce':1,'marginRaw':5}}".
(** Everything goes well, but the venue moves once under the withdrawal. *)
Definition replies : list (http_reply string) :=
  [page_of "{'challenge':'c1'}"; page_of "{'token':'ta','account':1}"; page_of "{'challenge':'c2'}";
   page_of "{'token':'tb','account':2}"; state_page; state_page; page_of "{'restId':7}"; state_page;
   page_of "{'iocCancelled':false}"; state_page; prepared; page_of "{'error':'prepare and sign again'}"; prepared; page_of "{}"].
Lemma drill_signs_witness :
  let '(requests, outcome) := run_http (drill_with "https://venue.example" vkey other_key) replies in
  length requests = 14%nat ∧ outcome = Some (Ok tt) ∧
  ∃ token, withdrawn "https://venue.example" other_key token 1000 (zip requests replies).
Proof.
  pose proof (drill_signs_what_it_posts "https://venue.example" vkey other_key replies) as Hd.
  assert (length (run_http (drill_with "https://venue.example" vkey other_key) replies).1 = 14%nat) as Hn
    by (vm_compute; reflexivity).
  assert ((run_http (drill_with "https://venue.example" vkey other_key) replies).2 = Some (Ok tt)) as Ho
    by (vm_compute; reflexivity).
  destruct (run_http _ replies) as [requests outcome]. destruct Hd as (_ & _ & _ & Hw).
  split; [exact Hn|]. split; [exact Ho|]. apply Hw. exact Ho.
Defined.

#[local] Existing Instance url.
Definition banned : Value := JObj [("error", JStr "banned")].
Definition login_replies : list (http_reply Value) := [HttpOk (JObj [("challenge", JStr "c1")] : Value); HttpOk banned].
Lemma login_example_witness :
  (run_http (venue_sdk_login ("https://" +:+ "venue.example") vkey None None) login_replies).2 = Some (Ok banned) ∧
  (run_http (sdk_login "venue.example" vkey None None) login_replies).2 = Some (Err ("venue refused the login: " +:+ "banned")).
Proof.
  destruct (login_example_agrees "venue.example" vkey None None login_replies banned eq_refl) as (_ & _ & Hr).
  split; [reflexivity|]. apply Hr; reflexivity.
Defined.
End DrillT.

(** * The relay drills *)

Module RelayT.
#[local] Existing Instance url.
Definition identity_text : string := xonly_to_string (wk_public_key wkey).
Definition message (text : string) : ws_item := WsMessage (jtext text).
Definition done_text (id signature : string) : string :=
  "{'Notif':{'notif':{'SignMessageRequestUpdated':{'sign_message_request':{'request_id':'" +:+ id
    +:+ "','status':{'Succeed':{'signature':'" +:+ signature +:+ "'}}}}}}}".
Definition typed_signature_text : string :=
  signature_to_string (sign_digest vkey (drill_order_digest (vk_public_key vkey))).
Definition opaque_signature_text : string := signature_to_string (wk_sign_digest wkey opaque_digest).
(** A relay that works, between pings and news of others. *)
Definition relayed : list ws_item :=
  [message "{'Resp':{'id':1,'resp':{'Login':{}}}}"; WsSkipped;
   message "{'Resp':{'id':2,'resp':{'StartLogin':{'login_request':{'request_id':'r1'}}}}}";
   message ("{'Notif':{'notif':{'SessionCreated':{'session':{'session_id':'s1','wallet_id':'" +:+ identity_text +:+ "'}}}}}");
   message (done_text "other" "00");
   message "{'Resp':{'id':3,'resp':{'StartSignMessage':{'sign_message_request':{'request_id':'m1'}}}}}";
   message (done_text "other" "00"); message (done_text "m1" typed_signature_text);
   message "{'Resp':{'id':4,'resp':{'StartSignMessage':{'sign_message_request':{'request_id':'m2'}}}}}";
   message (done_text "m2" opaque_signature_text)].
Definition rp_start : rp := rp_connect relayed None.
Definition drill_result : rp * outcome () := sign_drill identity_text (vk_public_key vkey) rp_start.
Lemma sign_drill_passes_witness :
  drill_result.2 = Got tt ∧ length drill_result.1.(sent) = 4%nat ∧
  ∃ request_id link, open_link ("liquidconnect://login/?request_id=" +:+ request_id) = Ok link ∧ drill_result.1.(told) = [link].
Proof.
  assert (drill_result.2 = Got tt) as Hgot by (vm_compute; reflexivity).
  assert (length drill_result.1.(sent) = 4%nat) as Hn by (vm_compute; reflexivity).
  pose proof (sign_drill_passes identity_text (vk_public_key vkey) rp_start drill_result.1) as Hp.
  split; [exact Hgot|]. split; [exact Hn|].
  destruct Hp as (sid & rid & link & m1 & m2 & m3 & m4 & m5 & m6 & m7 & s1 & s2 & Hst & _ & Hl & _).
  - unfold drill_result in *. destruct (sign_drill _ _ _) as [s o]. simpl in *. rewrite Hgot. reflexivity.
  - exists rid, link. split; [exact Hl|]. rewrite (st_told _ _ _ _ _ Hst). reflexivity.
Defined.

(** The wallet of the drill, shown its typed request and an opaque one. *)
Definition wallet : host bool := relay_wallet vkey.
Definition typed_ask : SignMessageRequest :=
  {| smr_request_id := "m1"; smr_domain := "paper.swaption.io";
     smr_digest := hex_text (slice (drill_order_digest (vk_public_key vkey))); smr_description := Some drill_description;
     smr_ttl := {| as_millis := 60000 |} |}.
Definition opaque_ask : SignMessageRequest :=
  {| smr_request_id := "m2"; smr_domain := "paper.swaption.io"; smr_digest := hex_text (slice opaque_digest);
     smr_description := Some "Test opaque approval"; smr_ttl := {| as_millis := 60000 |} |}.
Definition run : list sys_event :=
  [SysEnv (ConnectOk None); SysEnv (WsText challenge_text None); SysEnv (WsText login_text None);
   SysText "liquidconnect://login/?request_id=r9";
   SysEnv (WsText (service_write (From.Notif (Notif.SignMessageRequestCreated typed_ask))) None);
   SysEnv (WsText (service_write (From.Notif (Notif.SignMessageRequestCreated opaque_ask))) None)]
  ++ replicate 7 SysHost ++ replicate 3 (SysDeliver None).
Lemma relay_frames_witness :
  match sys_run wallet (sys_new iid "ct(...)" wkey true) run with
  | Some st => length st.(sys_sent) = 5%nat ∧
      Forall (policy_frame iid wkey (relay_allowed vkey "ct(...)" wkey st.(sys_shown) st.(sys_texts))) st.(sys_sent)
  | None => False
  end.
Proof.
  assert (length <$> (sys_sent <$> sys_run wallet (sys_new iid "ct(...)" wkey true) run) = Some 5%nat) as Hl
    by (vm_compute; reflexivity).
  destruct (sys_run wallet _ run) as [st|] eqn:E.
  - split.
    + by injection Hl.
    + apply (relay_frames schnorr_verifies schnorr_verifies signature_roundtrip (hex_roundtrip 32)
        (λ kp, xonly_hex_text kp) (λ kp, eq_refl)). eapply sys_run_reachable. exact E.
  - discriminate Hl.
Defined.
End RelayT.

(** An app on the wallet object: the user opens a link, the app accepts the
    login it is told of and answers a message request with the wallet key. *)
Module AppT.
#[local] Existing Instance url.
Definition ask_message : SignMessageRequest := HostT.message_request "m1" HostT.order_digest_hex None.
Definition an_app : app nat :=
  {| app_on_event := λ _ n e,
       (S n, match e with
             | FfiEvent.LoginRequested r => [CAcceptLogin r.(lri_request_id)]
             | FfiEvent.SignMessageRequested r => [CAcceptSignMessage r.(smri_request_id)]
             | _ => []
             end);
     app_on_user := λ _ n act, (n, [COpenLink act; CRegisterFcmToken "token"]) |}.
Definition a_login_no_key : LoginRequest :=
  {| lr_request_id := "r2"; lr_domain := "shop.example"; lr_ttl := {| as_millis := 60000 |}; lr_service_challenge := None |}.
Definition app_run : list sys_event :=
  [SysText "liquidconnect://login/?request_id=q1"; SysEnv (ConnectOk None); SysEnv (WsText challenge_text None);
   SysEnv (WsText login_text None);
   SysEnv (WsText (service_write (From.Notif (Notif.LoginRequestCreated a_login_no_key))) None);
   SysEnv (WsText (HostT.notif_text ask_message) None)]
    ++ replicate 7 SysHost ++ replicate 4 (SysDeliver None).
Definition app_new := app_start 0%nat "wss://wallet.example" "ct(...)" (replicate 32 x07) FfiNetwork.LiquidTestnet
  "abababababababababababababababab" (Ok tt).
(** The state after the first steps of the run. *)
Definition app_after (n : nat) :=
  match app_new with Ok st0 => sys_run (app_host an_app) st0 (take n app_run) | Err _ => None end.

Lemma app_after_reached n st : app_after n = Some st →
  app_reaches an_app "wss://wallet.example" "ct(...)" (replicate 32 x07) FfiNetwork.LiquidTestnet
    "abababababababababababababababab" (Ok tt) 0%nat st.
Proof.
  unfold app_after. destruct app_new as [st0|] eqn:E; [|done]. intros Hr. exists st0. split; [exact E|].
  by eapply sys_run_steps.
Qed.

(** Before it reads of the message request. *)
Lemma app_picture_witness :
  match app_after 12 with
  | Some st =>
      (length st.(sys_events), size (sign_message_requests (a_core st.(sys_actor)))) = (1%nat, 1%nat) ∧
      foldl listen st.(sys_kept).1 (map_event <$> st.(sys_events)) = project (view_of st.(sys_actor).(a_core))
  | None => False
  end.
Proof.
  assert ((λ st, (length st.(sys_events), size (sign_message_requests (a_core st.(sys_actor))))) <$> app_after 12
          = Some (1%nat, 1%nat)) as Hn by (vm_compute; reflexivity).
  destruct (app_after 12) as [st|] eqn:E; [|discriminate Hn]. split; [injection Hn; clear; congruence|].
  pose proof (app_after_reached 12 st E) as Hr. apply (app_picture an_app) in Hr. exact (proj1 Hr).
Defined.

Lemma app_frames_witness :
  match app_after 99 with
  | Some st => length st.(sys_sent) = 6%nat ∧ ∃ install key,
      hex_decode_to_slice 16 "abababababababababababababababab" = Some install ∧
      WalletKey_new (replicate 32 x07) (network_into FfiNetwork.LiquidTestnet) = Some key ∧
      Forall (app_frame an_app {| install_bytes := install |} "ct(...)" key st.(sys_shown) st.(sys_texts)) st.(sys_sent)
  | None => False
  end.
Proof.
  assert (length <$> (sys_sent <$> app_after 99) = Some 6%nat) as Hn by (vm_compute; reflexivity).
  destruct (app_after 99) as [st|] eqn:E; [|discriminate Hn]. split; [injection Hn; clear; congruence|].
  pose proof (app_after_reached 99 st E) as Hr. apply (app_frames an_app) in Hr. exact Hr.
Defined.
End AppT.

(** A payjoin service that opens orders at a price of 0.05, refuses to sign and
    lists one asset. *)
Module PayT.
#[local] Instance scalars_ok : PayjoinScalarsOk.
Proof.
  assert (codec_ok_at real_text bytes32_c (λ _, True)) as Hb.
  { apply text_ok. intros b _. rewrite hex_bytes_text. simpl. apply to_array_proj. }
  split; try exact Hb.
  - intros a. simpl. rewrite hex_bytes_text. simpl. rewrite reverse_involutive. apply to_array_proj.
  - apply text_ok. intros l _. apply hex_bytes_text.
  - apply text_ok. by intros [a []] _.
Qed.
Definition order_of (r : StartRequest) : StartResponse :=
  {| srs_order_id := "o1"; srs_expires_at := 1788619197000; srs_price := price_5_percent; srs_fixed_fee := 100;
     srs_fee_address := ("lq1fee", true); srs_change_address := ("lq1change", true);
     srs_utxos := [{| ux_txid := all32 x01; ux_vout := 2; ux_script_pub_key := [x51]; ux_asset_id := srq_asset_id r;
                      ux_value := 5000; ux_asset_bf := zeros 32; ux_value_bf := zeros 32;
                      ux_asset_commitment := all32 x02; ux_value_commitment := all32 x03 |}] |}.
Definition serve (r : Request) : Response + Z * string :=
  match r with
  | RAcceptedAssets => inl (PAcceptedAssets {| aar_accepted_asset := [{| aa_asset_id := all32 x05 |}] |})
  | RStart r => inl (PStart (order_of r))
  | RSign _ => inr (410, "order expired")
  end.
(** Prices with a fraction, without one, small and large. *)
Example prices_fit :
  Forall price_fits [price_5_percent; u64_as_f64 60000; F64Text.nearest false 654321 (-1); F64Text.nearest false 12345 (-12);
                     F64Text.nearest false 1 21].
Proof. repeat constructor. Qed.
Lemma payjoin_served_witness :
  let r := RStart {| srq_asset_id := all32 x05; srq_user_agent := "agent"; srq_api_key := None |} in
  (∀ r resp, serve r = inl resp → response_fits resp) ∧
  (run_http (@start _ _ payjoin_serde "https://api.sideswap.io" (all32 x05) "agent" None)
     [served serve (request_body r)]).2 = Some (Ok (order_of {| srq_asset_id := all32 x05; srq_user_agent := "agent"; srq_api_key := None |})) ∧
  (run_http (@sign _ _ payjoin_serde "https://api.sideswap.io" "o1" "pset")
     [served serve (request_body (RSign {| psr_order_id := "o1"; psr_pset := "pset" |}))]).2
  = Some (Err "payjoin server refused (410): order expired").
Proof.
  assert (∀ r resp, serve r = inl resp → response_fits resp) as Hfit.
  { intros [|r|r] resp [= <-]; [exact I|].
    refine (conj (conj _ _) (conj (conj _ _) (conj (conj _ _) (Forall_cons_2 _ _ _ (conj (conj _ _) (conj _ _)) (Forall_nil_2 _)))));
      (vm_compute; reflexivity || discriminate). }
  cbv zeta. split; [exact Hfit|].
  destruct (payjoin_served sound_roundtrip serve "https://api.sideswap.io" (all32 x05) "agent" None "o1" "pset" Hfit)
    as (_ & Hs & Hg & _).
  split; [exact Hs|exact Hg].
Defined.
End PayT.
